(** * BLIS level-3 front-end, trsm control tree and structured packing

    A shallow embedding of

    - [frame/1m/packm/bli_packm_struc_cxk.c]  (the structured panel packer),
    - [frame/3/trsm/bli_trsm_cntl.c]          (the trsm control tree),
    - [frame/3/bli_l3_oapi_ex.c]              (the expert object API),

    followed by the properties of these functions.

    Conventions.  [dim_t], [doff_t] and [inc_t] are the signed integer
    [gint_t]; they are modelled by [Z] (signed overflow is undefined in C,
    so the model describes in-range executions).  Pointers are addresses
    counted in elements.  A call that ends in [bli_check_error_code] with a
    code other than [BLIS_SUCCESS] does not return; it is modelled by the
    [Aborted] outcome. *)

From Stdlib Require Import Ascii String ZArith List Bool Lia.
Import ListNotations.
Local Open Scope Z_scope.

(* ------------------------------------------------------------------ *)
(** ** Enumerations of [bli_type_defs.h] *)

Inductive err_t :=
| BLIS_SUCCESS
| BLIS_FAILURE
| BLIS_NOT_YET_IMPLEMENTED
| BLIS_ERROR_CODE (code : Z).

Inductive struc_t := BLIS_GENERAL | BLIS_HERMITIAN | BLIS_SYMMETRIC | BLIS_TRIANGULAR.

Inductive uplo_t := BLIS_ZEROS | BLIS_LOWER | BLIS_UPPER | BLIS_DENSE.

Inductive diag_t := BLIS_NONUNIT_DIAG | BLIS_UNIT_DIAG.

Inductive conj_t := BLIS_NO_CONJUGATE | BLIS_CONJUGATE.

Inductive trans_t := BLIS_NO_TRANSPOSE | BLIS_TRANSPOSE.

Inductive side_t := BLIS_LEFT | BLIS_RIGHT.

Inductive num_t := BLIS_FLOAT | BLIS_SCOMPLEX | BLIS_DOUBLE | BLIS_DCOMPLEX.

Inductive dom_t := BLIS_REAL | BLIS_COMPLEX.

Inductive prec_t := BLIS_SINGLE_PREC | BLIS_DOUBLE_PREC.

(** The pack schema tags of the descriptor (spec, section 3). *)
Inductive pack_t :=
| BLIS_NOT_PACKED
| BLIS_PACKED_ROW_PANELS
| BLIS_PACKED_COL_PANELS
| BLIS_PACKED_ROW_PANELS_1M
| BLIS_PACKED_COL_PANELS_1M.

Inductive ukr2_t :=
| BLIS_PACKM_KER
| BLIS_PACKM_1ER_KER
| BLIS_PACKM_DIAG_KER
| BLIS_PACKM_DIAG_1ER_KER.

Inductive dir_t := BLIS_FWD | BLIS_BWD.

Inductive bszid_t := BLIS_KR | BLIS_MR | BLIS_NR | BLIS_MC | BLIS_KC | BLIS_NC.

Inductive packbuf_t := BLIS_BUFFER_FOR_A_BLOCK | BLIS_BUFFER_FOR_B_PANEL.

Inductive opid_t :=
| BLIS_GEMM | BLIS_GEMMT | BLIS_HEMM | BLIS_SYMM | BLIS_TRMM3 | BLIS_TRMM | BLIS_TRSM.

Inductive ind_t := BLIS_1M | BLIS_NAT.

(** A call either returns or dies in [bli_abort] with the reported code. *)
Inductive outcome (A : Type) :=
| Returned (a : A)
| Aborted (e : err_t).

Arguments Returned {A} a.
Arguments Aborted {A} e.

Definition bind {A B : Type} (x : outcome A) (k : A -> outcome B) : outcome B :=
  match x with
  | Returned a => k a
  | Aborted e => Aborted e
  end.

(* ------------------------------------------------------------------ *)
(** ** Predicates on the enumerations *)

Definition bli_is_general (s : struc_t) : bool :=
  match s with BLIS_GENERAL => true | _ => false end.

Definition bli_is_hermitian (s : struc_t) : bool :=
  match s with BLIS_HERMITIAN => true | _ => false end.

Definition bli_is_triangular (s : struc_t) : bool :=
  match s with BLIS_TRIANGULAR => true | _ => false end.

Definition bli_is_upper (u : uplo_t) : bool :=
  match u with BLIS_UPPER => true | _ => false end.

Definition bli_is_lower (u : uplo_t) : bool :=
  match u with BLIS_LOWER => true | _ => false end.

Definition bli_is_upper_or_lower (u : uplo_t) : bool :=
  bli_is_upper u || bli_is_lower u.

Definition bli_uplo_toggled (u : uplo_t) : uplo_t :=
  match u with
  | BLIS_LOWER => BLIS_UPPER
  | BLIS_UPPER => BLIS_LOWER
  | other => other
  end.

Definition bli_toggle_conj (c : conj_t) : conj_t :=
  match c with
  | BLIS_NO_CONJUGATE => BLIS_CONJUGATE
  | BLIS_CONJUGATE => BLIS_NO_CONJUGATE
  end.

Definition bli_toggle_trans (t : trans_t) : trans_t :=
  match t with
  | BLIS_NO_TRANSPOSE => BLIS_TRANSPOSE
  | BLIS_TRANSPOSE => BLIS_NO_TRANSPOSE
  end.

Definition bli_toggle_side (s : side_t) : side_t :=
  match s with BLIS_LEFT => BLIS_RIGHT | BLIS_RIGHT => BLIS_LEFT end.

Definition bli_is_right (s : side_t) : bool :=
  match s with BLIS_RIGHT => true | BLIS_LEFT => false end.

Definition bli_is_1m_packed (s : pack_t) : bool :=
  match s with
  | BLIS_PACKED_ROW_PANELS_1M | BLIS_PACKED_COL_PANELS_1M => true
  | _ => false
  end.

Definition bli_dt_domain (dt : num_t) : dom_t :=
  match dt with
  | BLIS_FLOAT | BLIS_DOUBLE => BLIS_REAL
  | BLIS_SCOMPLEX | BLIS_DCOMPLEX => BLIS_COMPLEX
  end.

Definition bli_dt_prec (dt : num_t) : prec_t :=
  match dt with
  | BLIS_FLOAT | BLIS_SCOMPLEX => BLIS_SINGLE_PREC
  | BLIS_DOUBLE | BLIS_DCOMPLEX => BLIS_DOUBLE_PREC
  end.

(** [domain | precision], the bitwise composition of a datatype. *)
Definition bli_dt_of (d : dom_t) (p : prec_t) : num_t :=
  match d, p with
  | BLIS_REAL, BLIS_SINGLE_PREC => BLIS_FLOAT
  | BLIS_COMPLEX, BLIS_SINGLE_PREC => BLIS_SCOMPLEX
  | BLIS_REAL, BLIS_DOUBLE_PREC => BLIS_DOUBLE
  | BLIS_COMPLEX, BLIS_DOUBLE_PREC => BLIS_DCOMPLEX
  end.

Definition bli_dt_proj_to_real (dt : num_t) : num_t :=
  bli_dt_of BLIS_REAL (bli_dt_prec dt).

Definition num_t_eqb (x y : num_t) : bool :=
  match x, y with
  | BLIS_FLOAT, BLIS_FLOAT | BLIS_SCOMPLEX, BLIS_SCOMPLEX
  | BLIS_DOUBLE, BLIS_DOUBLE | BLIS_DCOMPLEX, BLIS_DCOMPLEX => true
  | _, _ => false
  end.

Definition prec_t_eqb (x y : prec_t) : bool :=
  match x, y with
  | BLIS_SINGLE_PREC, BLIS_SINGLE_PREC | BLIS_DOUBLE_PREC, BLIS_DOUBLE_PREC => true
  | _, _ => false
  end.

Definition bli_is_complex (dt : num_t) : bool :=
  match bli_dt_domain dt with BLIS_COMPLEX => true | BLIS_REAL => false end.

(** [0, 1, ..., n-1], the index range of a C [for] loop over a [dim_t]. *)
Definition zrange (n : Z) : list Z := map Z.of_nat (seq 0 (Z.to_nat n)).

(* ------------------------------------------------------------------ *)
(** ** The structured packer, [bli_packm_struc_cxk.c]

    The pack buffer is a map from addresses to elements of the real
    projection [ctypep_r] of the packed type; an address into it counts
    [ctypep_r] elements, so that [(ctypep* )p + k] is [p + k * esz] with
    [esz] the number of real elements per [ctypep] element.  Addresses
    into the source matrix count [ctypec] elements. *)

Definition pbuf (Rp : Type) : Type := Z -> Rp.

Definition pbuf_store {Rp : Type} (b : pbuf Rp) (x : Z) (v : Rp) : pbuf Rp :=
  fun y => if Z.eqb y x then v else b y.

(** Number of [ctypep_r] elements per [ctypep] element. *)
Definition esz (dt_p : num_t) : Z := if bli_is_complex dt_p then 2 else 1.

(** The calls made by one invocation of the packer, in program order. *)
Inductive pack_call :=
| Call_cxk (conjc : conj_t) (schema : pack_t)
           (panel_dim panel_dim_max panel_bcast panel_len panel_len_max : Z)
           (c incc ldc : Z) (p ldp : Z)
| Call_cxc (strucc : struc_t) (diagc : diag_t) (uploc : uplo_t) (conjc : conj_t)
           (schema : pack_t) (invdiag : bool)
           (panel_dim panel_dim_max panel_bcast panel_len_max : Z)
           (c incc ldc : Z) (p ldp : Z)
| Call_set0s (m n : Z) (p rs cs : Z).

(** What the packer takes from its surroundings: the zero of [ctypep_r],
    the [params] accessor, the index remapping macro and the two packing
    kernels looked up in the context.  [K] is the type of [kappa], [P] of
    [params], [CN] of the context. *)
Record packm_env (Rp K P CN : Type) := {
  rp_zero : Rp;
  bli_packm_def_cntl_bmult_m_def : P -> Z;
  (* (diagoff, c, incc, ldc) to the remapped (c, incc, ldc) *)
  bli_reflect_to_stored_part : Z -> Z -> Z -> Z -> Z * Z * Z;
  (* bli_cntx_get_ukr2_dt, at the type of the general packing kernel *)
  cntx_get_cxk : num_t -> num_t -> ukr2_t -> CN ->
                 pack_call -> K -> P -> CN -> pbuf Rp -> pbuf Rp;
  (* bli_cntx_get_ukr2_dt, at the type of the diagonal packing kernel *)
  cntx_get_cxc : num_t -> num_t -> ukr2_t -> CN ->
                 pack_call -> K -> P -> CN -> pbuf Rp -> pbuf Rp
}.

Arguments rp_zero {Rp K P CN} _.
Arguments bli_packm_def_cntl_bmult_m_def {Rp K P CN} _ _.
Arguments bli_reflect_to_stored_part {Rp K P CN} _ _ _ _ _.
Arguments cntx_get_cxk {Rp K P CN} _ _ _ _ _ _ _ _ _ _.
Arguments cntx_get_cxc {Rp K P CN} _ _ _ _ _ _ _ _ _ _.

(** Modelled from the spec: [set0s_mxn] (a macro defined outside the files
    embedded here) explicitly zeroes an m x n block: the addresses written
    by the two nested loops, column by column, and the stores of zero. *)
Definition set0s_addrs (m n p rs cs : Z) : list Z :=
  flat_map (fun j => map (fun i => p + i * rs + j * cs) (zrange m)) (zrange n).

Definition set0s_mxn {Rp : Type} (zero : Rp) (m n p rs cs : Z) (b : pbuf Rp) : pbuf Rp :=
  fold_left (fun acc x => pbuf_store acc x zero) (set0s_addrs m n p rs cs) b.

Section PackmStruc.

Context {Rp K P CN : Type}.
Variable E : packm_env Rp K P CN.

(** The kernel ids and the real-domain geometry chosen at the head of the
    function: [(cxk_ker_id, cxc_ker_id, panel_dim_r, ldp_r)]. *)
Definition packm_struc_setup (dt_p : num_t) (schema : pack_t) (ldp : Z) (params : P)
  : ukr2_t * ukr2_t * Z * Z :=
  let dt_pr := bli_dt_proj_to_real dt_p in
  let panel_dim_r := bli_packm_def_cntl_bmult_m_def E params in
  let ldp_r := ldp in
  if bli_is_1m_packed schema then
    (BLIS_PACKM_1ER_KER, BLIS_PACKM_DIAG_1ER_KER, panel_dim_r, ldp_r)
  else if negb (num_t_eqb dt_p dt_pr) then
    (BLIS_PACKM_KER, BLIS_PACKM_DIAG_KER, panel_dim_r * 2, ldp_r * 2)
  else
    (BLIS_PACKM_KER, BLIS_PACKM_DIAG_KER, panel_dim_r, ldp_r).

(** The signed diagonal offset of the sub-panel. *)
Definition packm_diagoffc (panel_dim_off panel_len_off : Z) : Z :=
  panel_dim_off - panel_len_off.

(** The sanity check on the diagonal. *)
Definition packm_diag_intersects_short_edge (panel_dim panel_len diagoffc : Z) : bool :=
  ((- panel_dim <? diagoffc) && (diagoffc <? 0))
  || ((panel_len - panel_dim <? diagoffc) && (diagoffc <? panel_len)).

(** "Pack to p10." *)
Definition packm_p10 (dt_p : num_t) (strucc : struc_t) (uploc : uplo_t) (conjc : conj_t)
    (schema : pack_t) (panel_dim panel_len panel_dim_max panel_len_max panel_bcast : Z)
    (diagoffc : Z) (c incc ldc p ldp : Z) (params : P) : list pack_call :=
  let '(_, _, panel_dim_r, ldp_r) := packm_struc_setup dt_p schema ldp params in
  if 0 <? diagoffc then
    let p10_len := Z.min diagoffc panel_len in
    let p10_len_max := if p10_len =? panel_len then panel_len_max else p10_len in
    let p10 := p in
    let '(conjc10, (c10, incc10, ldc10)) :=
      if bli_is_upper uploc then
        (if bli_is_hermitian strucc then bli_toggle_conj conjc else conjc,
         bli_reflect_to_stored_part E diagoffc c incc ldc)
      else (conjc, (c, incc, ldc)) in
    if bli_is_upper uploc && bli_is_triangular strucc then
      [Call_set0s panel_dim_r
                  (p10_len_max * (if bli_is_1m_packed schema then 2 else 1))
                  p10 1 ldp_r]
    else
      [Call_cxk conjc10 schema panel_dim panel_dim_max panel_bcast
                p10_len p10_len_max c10 incc10 ldc10 p10 ldp]
  else [].

(** "Pack to p11." *)
Definition packm_p11 (dt_p : num_t) (strucc : struc_t) (diagc : diag_t) (uploc : uplo_t)
    (conjc : conj_t) (schema : pack_t) (invdiag : bool)
    (panel_dim panel_len panel_dim_max panel_len_max panel_bcast : Z)
    (diagoffc : Z) (c incc ldc p ldp : Z) : list pack_call :=
  let panel_len_pad := panel_len_max - panel_len in
  if (0 <=? diagoffc) && (diagoffc + panel_dim <=? panel_len) then
    let i := diagoffc in
    let p11_len_max :=
      panel_dim + (if diagoffc + panel_dim =? panel_len then panel_len_pad else 0) in
    let p11 := p + i * ldp * esz dt_p in
    let c11 := c + i * ldc in
    [Call_cxc strucc diagc uploc conjc schema invdiag
              panel_dim panel_dim_max panel_bcast p11_len_max
              c11 incc ldc p11 ldp]
  else [].

(** "Pack to p12." *)
Definition packm_p12 (dt_p : num_t) (strucc : struc_t) (uploc : uplo_t) (conjc : conj_t)
    (schema : pack_t) (panel_dim panel_len panel_dim_max panel_len_max panel_bcast : Z)
    (diagoffc : Z) (c incc ldc p ldp : Z) (params : P) : list pack_call :=
  let '(_, _, panel_dim_r, ldp_r) := packm_struc_setup dt_p schema ldp params in
  let panel_len_pad := panel_len_max - panel_len in
  if diagoffc + panel_dim <? panel_len then
    let i := Z.max 0 (diagoffc + panel_dim) in
    let p12_len := panel_len - i in
    let p12_len_max := p12_len + panel_len_pad in
    let p12 := p + i * ldp * esz dt_p in
    let c12 := c + i * ldc in
    let '(conjc12, (c12', incc12, ldc12)) :=
      if bli_is_lower uploc then
        (if bli_is_hermitian strucc then bli_toggle_conj conjc else conjc,
         bli_reflect_to_stored_part E (diagoffc - i) c12 incc ldc)
      else (conjc, (c12, incc, ldc)) in
    if bli_is_lower uploc && bli_is_triangular strucc then
      [Call_set0s panel_dim_r
                  (p12_len_max * (if bli_is_1m_packed schema then 2 else 1))
                  p12 1 ldp_r]
    else
      [Call_cxk conjc12 schema panel_dim panel_dim_max panel_bcast
                p12_len p12_len_max c12' incc12 ldc12 p12 ldp]
  else [].

(** The calls of [packm_struc_cxk], or the abort of the sanity check. *)
Definition packm_struc_cxk_calls (dt_c dt_p : num_t)
    (strucc : struc_t) (diagc : diag_t) (uploc : uplo_t) (conjc : conj_t)
    (schema : pack_t) (invdiag : bool)
    (panel_dim panel_len panel_dim_max panel_len_max : Z)
    (panel_dim_off panel_len_off panel_bcast : Z)
    (c incc ldc p ldp : Z) (params : P) : outcome (list pack_call) :=
  if bli_is_general strucc then
    Returned [Call_cxk conjc schema panel_dim panel_dim_max panel_bcast
                       panel_len panel_len_max c incc ldc p ldp]
  else
    let diagoffc := packm_diagoffc panel_dim_off panel_len_off in
    if packm_diag_intersects_short_edge panel_dim panel_len diagoffc then
      Aborted BLIS_NOT_YET_IMPLEMENTED
    else
      Returned
        (packm_p10 dt_p strucc uploc conjc schema
                   panel_dim panel_len panel_dim_max panel_len_max panel_bcast
                   diagoffc c incc ldc p ldp params
         ++ packm_p11 dt_p strucc diagc uploc conjc schema invdiag
                   panel_dim panel_len panel_dim_max panel_len_max panel_bcast
                   diagoffc c incc ldc p ldp
         ++ packm_p12 dt_p strucc uploc conjc schema
                   panel_dim panel_len panel_dim_max panel_len_max panel_bcast
                   diagoffc c incc ldc p ldp params).

(** One call carried out on the pack buffer: [f_cxk], [f_cxc] or the
    zero-fill macro. *)
Definition run_pack_call (dt_c dt_p : num_t) (schema : pack_t) (ldp : Z)
    (kappa : K) (params : P) (cntx : CN) (call : pack_call) (b : pbuf Rp) : pbuf Rp :=
  let '(cxk_ker_id, cxc_ker_id, _, _) := packm_struc_setup dt_p schema ldp params in
  match call with
  | Call_cxk _ _ _ _ _ _ _ _ _ _ _ _ =>
      cntx_get_cxk E dt_c dt_p cxk_ker_id cntx call kappa params cntx b
  | Call_cxc _ _ _ _ _ _ _ _ _ _ _ _ _ _ _ =>
      cntx_get_cxc E dt_c dt_p cxc_ker_id cntx call kappa params cntx b
  | Call_set0s m n p rs cs => set0s_mxn (rp_zero E) m n p rs cs b
  end.

(** [packm_struc_cxk] as a transformer of the pack buffer. *)
Definition packm_struc_cxk (dt_c dt_p : num_t)
    (strucc : struc_t) (diagc : diag_t) (uploc : uplo_t) (conjc : conj_t)
    (schema : pack_t) (invdiag : bool)
    (panel_dim panel_len panel_dim_max panel_len_max : Z)
    (panel_dim_off panel_len_off panel_bcast : Z)
    (kappa : K) (c incc ldc p ldp : Z) (params : P) (cntx : CN)
    (b : pbuf Rp) : outcome (pbuf Rp) :=
  bind (packm_struc_cxk_calls dt_c dt_p strucc diagc uploc conjc schema invdiag
          panel_dim panel_len panel_dim_max panel_len_max
          panel_dim_off panel_len_off panel_bcast c incc ldc p ldp params)
       (fun calls =>
          Returned (fold_left
                      (fun acc call =>
                         run_pack_call dt_c dt_p schema ldp kappa params cntx call acc)
                      calls b)).

End PackmStruc.

(* ------------------------------------------------------------------ *)
(** ** Scalars and matrix descriptors

    Elements are kept in the layout of [scomplex]/[dcomplex], a real and an
    imaginary part over a type [R] of machine reals; the arithmetic of [R]
    is a parameter. *)

Record scomplex (R : Type) := { real : R; imag : R }.

Arguments real {R} _.
Arguments imag {R} _.

Record arith (R : Type) := {
  rzero : R;
  rone : R;
  radd : R -> R -> R;
  rsub : R -> R -> R;
  rmul : R -> R -> R;
  rneg : R -> R
}.

Arguments rzero {R} _.
Arguments rone {R} _.
Arguments radd {R} _ _ _.
Arguments rsub {R} _ _ _.
Arguments rmul {R} _ _ _.
Arguments rneg {R} _ _.

Definition czero {R : Type} (ar : arith R) : scomplex R :=
  {| real := rzero ar; imag := rzero ar |}.

Definition cone {R : Type} (ar : arith R) : scomplex R :=
  {| real := rone ar; imag := rzero ar |}.

Definition cconj {R : Type} (ar : arith R) (x : scomplex R) : scomplex R :=
  {| real := real x; imag := rneg ar (imag x) |}.

Definition cmul {R : Type} (ar : arith R) (x y : scomplex R) : scomplex R :=
  {| real := rsub ar (rmul ar (real x) (real y)) (rmul ar (imag x) (imag y));
     imag := radd ar (rmul ar (real x) (imag y)) (rmul ar (imag x) (real y)) |}.

(** A 1x1 scalar object such as [alpha], [beta], [BLIS_ONE]: its value and
    its conjugation bit. *)
Record scal (R : Type) := { sc_value : scomplex R; sc_conj : conj_t }.

Arguments sc_value {R} _.
Arguments sc_conj {R} _.

Definition BLIS_ZERO {R : Type} (ar : arith R) : scal R :=
  {| sc_value := czero ar; sc_conj := BLIS_NO_CONJUGATE |}.

Definition BLIS_ONE {R : Type} (ar : arith R) : scal R :=
  {| sc_value := cone ar; sc_conj := BLIS_NO_CONJUGATE |}.

Definition scal_toggle_conj {R : Type} (s : scal R) : scal R :=
  {| sc_value := sc_value s; sc_conj := bli_toggle_conj (sc_conj s) |}.

(** The value a scalar object stands for, its conjugation bit applied. *)
Definition scal_val {R : Type} (ar : arith R) (s : scal R) : scomplex R :=
  match sc_conj s with
  | BLIS_NO_CONJUGATE => sc_value s
  | BLIS_CONJUGATE => cconj ar (sc_value s)
  end.

(** Modelled from the spec: the matrix descriptor [obj_t] (spec, section 3;
    the struct is declared in [bli_type_defs.h]). *)
Record obj_t (R : Type) := {
  obj_buffer : Z;
  obj_offm : Z;
  obj_offn : Z;
  obj_m : Z;
  obj_n : Z;
  obj_diag_off : Z;
  obj_rs : Z;
  obj_cs : Z;
  obj_dt : num_t;
  obj_target_dt : num_t;
  obj_exec_dt : num_t;
  obj_comp_dt : num_t;
  obj_struc : struc_t;
  obj_uplo : uplo_t;
  obj_diag : diag_t;
  obj_onlytrans : trans_t;
  obj_conj : conj_t;
  obj_pack_schema : pack_t;
  obj_scalar : scomplex R;
  obj_ker_fn : Z
}.

Arguments obj_buffer {R} _.
Arguments obj_offm {R} _.
Arguments obj_offn {R} _.
Arguments obj_m {R} _.
Arguments obj_n {R} _.
Arguments obj_diag_off {R} _.
Arguments obj_rs {R} _.
Arguments obj_cs {R} _.
Arguments obj_dt {R} _.
Arguments obj_target_dt {R} _.
Arguments obj_exec_dt {R} _.
Arguments obj_comp_dt {R} _.
Arguments obj_struc {R} _.
Arguments obj_uplo {R} _.
Arguments obj_diag {R} _.
Arguments obj_onlytrans {R} _.
Arguments obj_conj {R} _.
Arguments obj_pack_schema {R} _.
Arguments obj_scalar {R} _.
Arguments obj_ker_fn {R} _.

Section ObjAccessors.

Context {R : Type}.

(** Modelled from the spec: the accessors and setters of the descriptor
    (header inlines defined outside the files embedded here); each reads
    or writes the one field its name says. *)
Definition bli_obj_length (o : obj_t R) : Z := obj_m o.

Definition bli_obj_width (o : obj_t R) : Z := obj_n o.

Definition bli_obj_row_stride (o : obj_t R) : Z := obj_rs o.

Definition bli_obj_col_stride (o : obj_t R) : Z := obj_cs o.

Definition bli_obj_has_zero_dim (o : obj_t R) : bool :=
  (bli_obj_length o =? 0) || (bli_obj_width o =? 0).

Definition bli_obj_has_trans (o : obj_t R) : bool :=
  match obj_onlytrans o with BLIS_TRANSPOSE => true | BLIS_NO_TRANSPOSE => false end.

Definition bli_obj_is_triangular (o : obj_t R) : bool := bli_is_triangular (obj_struc o).

Definition bli_obj_is_lower (o : obj_t R) : bool := bli_is_lower (obj_uplo o).

Definition bli_obj_is_upper (o : obj_t R) : bool := bli_is_upper (obj_uplo o).

Definition bli_obj_is_complex (o : obj_t R) : bool := bli_is_complex (obj_dt o).

Definition bli_obj_domain (o : obj_t R) : dom_t := bli_dt_domain (obj_dt o).

Definition bli_obj_prec (o : obj_t R) : prec_t := bli_dt_prec (obj_dt o).

Definition bli_obj_comp_prec (o : obj_t R) : prec_t := bli_dt_prec (obj_comp_dt o).

Definition bli_obj_is_col_stored (o : obj_t R) : bool := Z.abs (obj_rs o) =? 1.

Definition bli_obj_is_row_stored (o : obj_t R) : bool := Z.abs (obj_cs o) =? 1.

Definition bli_obj_set_onlytrans (t : trans_t) (o : obj_t R) : obj_t R :=
  {| obj_buffer := obj_buffer o; obj_offm := obj_offm o; obj_offn := obj_offn o;
     obj_m := obj_m o; obj_n := obj_n o; obj_diag_off := obj_diag_off o;
     obj_rs := obj_rs o; obj_cs := obj_cs o;
     obj_dt := obj_dt o; obj_target_dt := obj_target_dt o;
     obj_exec_dt := obj_exec_dt o; obj_comp_dt := obj_comp_dt o;
     obj_struc := obj_struc o; obj_uplo := obj_uplo o; obj_diag := obj_diag o;
     obj_onlytrans := t; obj_conj := obj_conj o;
     obj_pack_schema := obj_pack_schema o; obj_scalar := obj_scalar o;
     obj_ker_fn := obj_ker_fn o |}.

Definition bli_obj_toggle_trans (o : obj_t R) : obj_t R :=
  bli_obj_set_onlytrans (bli_toggle_trans (obj_onlytrans o)) o.

Definition bli_obj_toggle_conj (o : obj_t R) : obj_t R :=
  {| obj_buffer := obj_buffer o; obj_offm := obj_offm o; obj_offn := obj_offn o;
     obj_m := obj_m o; obj_n := obj_n o; obj_diag_off := obj_diag_off o;
     obj_rs := obj_rs o; obj_cs := obj_cs o;
     obj_dt := obj_dt o; obj_target_dt := obj_target_dt o;
     obj_exec_dt := obj_exec_dt o; obj_comp_dt := obj_comp_dt o;
     obj_struc := obj_struc o; obj_uplo := obj_uplo o; obj_diag := obj_diag o;
     obj_onlytrans := obj_onlytrans o; obj_conj := bli_toggle_conj (obj_conj o);
     obj_pack_schema := obj_pack_schema o; obj_scalar := obj_scalar o;
     obj_ker_fn := obj_ker_fn o |}.

Definition bli_obj_set_pack_schema (s : pack_t) (o : obj_t R) : obj_t R :=
  {| obj_buffer := obj_buffer o; obj_offm := obj_offm o; obj_offn := obj_offn o;
     obj_m := obj_m o; obj_n := obj_n o; obj_diag_off := obj_diag_off o;
     obj_rs := obj_rs o; obj_cs := obj_cs o;
     obj_dt := obj_dt o; obj_target_dt := obj_target_dt o;
     obj_exec_dt := obj_exec_dt o; obj_comp_dt := obj_comp_dt o;
     obj_struc := obj_struc o; obj_uplo := obj_uplo o; obj_diag := obj_diag o;
     obj_onlytrans := obj_onlytrans o; obj_conj := obj_conj o;
     obj_pack_schema := s; obj_scalar := obj_scalar o;
     obj_ker_fn := obj_ker_fn o |}.

Definition bli_obj_set_scalar (v : scomplex R) (o : obj_t R) : obj_t R :=
  {| obj_buffer := obj_buffer o; obj_offm := obj_offm o; obj_offn := obj_offn o;
     obj_m := obj_m o; obj_n := obj_n o; obj_diag_off := obj_diag_off o;
     obj_rs := obj_rs o; obj_cs := obj_cs o;
     obj_dt := obj_dt o; obj_target_dt := obj_target_dt o;
     obj_exec_dt := obj_exec_dt o; obj_comp_dt := obj_comp_dt o;
     obj_struc := obj_struc o; obj_uplo := obj_uplo o; obj_diag := obj_diag o;
     obj_onlytrans := obj_onlytrans o; obj_conj := obj_conj o;
     obj_pack_schema := obj_pack_schema o; obj_scalar := v;
     obj_ker_fn := obj_ker_fn o |}.

Definition bli_obj_set_dts (target exec comp : num_t) (o : obj_t R) : obj_t R :=
  {| obj_buffer := obj_buffer o; obj_offm := obj_offm o; obj_offn := obj_offn o;
     obj_m := obj_m o; obj_n := obj_n o; obj_diag_off := obj_diag_off o;
     obj_rs := obj_rs o; obj_cs := obj_cs o;
     obj_dt := obj_dt o; obj_target_dt := target;
     obj_exec_dt := exec; obj_comp_dt := comp;
     obj_struc := obj_struc o; obj_uplo := obj_uplo o; obj_diag := obj_diag o;
     obj_onlytrans := obj_onlytrans o; obj_conj := obj_conj o;
     obj_pack_schema := obj_pack_schema o; obj_scalar := obj_scalar o;
     obj_ker_fn := obj_ker_fn o |}.

(** Modelled from the spec: [bli_obj_induce_trans] (a header macro defined
    outside the files embedded here).  Inducing a transposition swaps the
    dimensions, the strides and the offsets, mirrors the diagonal offset
    and swaps upper and lower; it leaves the transposition bit alone, which
    is why the callers clear the bit themselves. *)
Definition bli_obj_induce_trans (o : obj_t R) : obj_t R :=
  {| obj_buffer := obj_buffer o; obj_offm := obj_offn o; obj_offn := obj_offm o;
     obj_m := obj_n o; obj_n := obj_m o; obj_diag_off := - obj_diag_off o;
     obj_rs := obj_cs o; obj_cs := obj_rs o;
     obj_dt := obj_dt o; obj_target_dt := obj_target_dt o;
     obj_exec_dt := obj_exec_dt o; obj_comp_dt := obj_comp_dt o;
     obj_struc := obj_struc o;
     obj_uplo := if bli_is_upper_or_lower (obj_uplo o)
                 then bli_uplo_toggled (obj_uplo o) else obj_uplo o;
     obj_diag := obj_diag o;
     obj_onlytrans := obj_onlytrans o; obj_conj := obj_conj o;
     obj_pack_schema := obj_pack_schema o; obj_scalar := obj_scalar o;
     obj_ker_fn := obj_ker_fn o |}.

(** [bli_obj_alias_to] copies the descriptor; the alias shares the buffer. *)
Definition bli_obj_alias_to (o : obj_t R) : obj_t R := o.

(** Modelled from the spec: [bli_obj_alias_and_reset_origin] (header macro
    defined outside the files embedded here) makes a non-owning alias and resets
    the origin offsets: the offsets are folded into the buffer address. *)
Definition bli_obj_alias_and_reset_origin (o : obj_t R) : obj_t R :=
  {| obj_buffer := obj_buffer o + obj_offm o * obj_rs o + obj_offn o * obj_cs o;
     obj_offm := 0; obj_offn := 0;
     obj_m := obj_m o; obj_n := obj_n o; obj_diag_off := obj_diag_off o;
     obj_rs := obj_rs o; obj_cs := obj_cs o;
     obj_dt := obj_dt o; obj_target_dt := obj_target_dt o;
     obj_exec_dt := obj_exec_dt o; obj_comp_dt := obj_comp_dt o;
     obj_struc := obj_struc o; obj_uplo := obj_uplo o; obj_diag := obj_diag o;
     obj_onlytrans := obj_onlytrans o; obj_conj := obj_conj o;
     obj_pack_schema := obj_pack_schema o; obj_scalar := obj_scalar o;
     obj_ker_fn := obj_ker_fn o |}.

(** Address of element (i, j) of the matrix an object refers to. *)
Definition obj_addr (o : obj_t R) (i j : Z) : Z :=
  obj_buffer o + (obj_offm o + i) * obj_rs o + (obj_offn o + j) * obj_cs o.

Definition obj_in_bounds (o : obj_t R) (i j : Z) : bool :=
  (0 <=? i) && (i <? obj_m o) && (0 <=? j) && (j <? obj_n o).

(** Whether (i, j) lies in the part of the matrix the object stores: all of
    it for a dense object, one triangle (diagonal included) for an upper or
    lower one.  The diagonal is where [j - i] equals the diagonal offset. *)
Definition obj_is_stored (o : obj_t R) (i j : Z) : bool :=
  obj_in_bounds o i j &&
  match obj_uplo o with
  | BLIS_DENSE => true
  | BLIS_LOWER => j - i <=? obj_diag_off o
  | BLIS_UPPER => obj_diag_off o <=? j - i
  | BLIS_ZEROS => false
  end.

Definition obj_on_diag (o : obj_t R) (i j : Z) : bool :=
  obj_in_bounds o i j && (j - i =? obj_diag_off o).

(** Whether an address holds an element selected by [sel]. *)
Definition obj_addr_of (sel : obj_t R -> Z -> Z -> bool) (o : obj_t R) (x : Z) : bool :=
  existsb (fun i => existsb (fun j => sel o i j && (obj_addr o i j =? x))
                            (zrange (obj_n o)))
          (zrange (obj_m o)).

End ObjAccessors.

(* ------------------------------------------------------------------ *)
(** ** The trsm control tree, [bli_trsm_cntl.c] and [bli_packm_cntl.c] *)

(** The functions whose addresses are stored in the nodes. *)
Inductive void_fp :=
| NULL_fp
| bli_trsm_xx_ker_var2
| bli_trsm_blk_var1
| bli_trsm_blk_var2
| bli_trsm_blk_var3
| bli_l3_packa
| bli_l3_packb.

Inductive packm_var_oft := bli_packm_blk_var1.

(** [packm_struc_cxk[dt]] and [packm_struc_cxk_md[dt_a][dt_p]]. *)
Inductive packm_ukr_fp :=
| packm_struc_cxk_fp (dt : num_t)
| packm_struc_cxk_md_fp (dt_a dt_p : num_t).

(** The loops a node lets threads split; [BLIS_THREAD_NONE] is [[]] and
    [|] is list concatenation. *)
Inductive thread_dim :=
| BLIS_THREAD_MC | BLIS_THREAD_KC | BLIS_THREAD_NC | BLIS_THREAD_MR | BLIS_THREAD_NR.

(** The nodes embedded in a [trsm_cntl_t]; a sub-node link is the address
    of one of these fields. *)
Inductive trsm_node :=
| part_jc | part_pc | pack_b | part_ic
| pack_a_trsm | part_jr_trsm | part_ir_trsm
| pack_a_gemm | part_jr_gemm | part_ir_gemm.

(** Modelled from the spec: the control-tree node (spec, section 3).  The
    header every node starts with: its variant and its sub-nodes, each with
    the thread mask it was attached with. *)
Record cntl_t := {
  cntl_var_func : void_fp;
  cntl_sub_nodes : list (list thread_dim * trsm_node)
}.

Record part_cntl_t := {
  part_cntl : cntl_t;
  part_b_alg : Z;
  part_b_max : Z;
  part_b_mult : Z;
  part_direct : dir_t;
  part_use_weighted : bool
}.

Record packm_cntl_t := {
  packm_cntl : cntl_t;
  packm_var : packm_var_oft
}.

Record packm_def_cntl_t := {
  pdef_cntl : packm_cntl_t;
  pdef_ukr : packm_ukr_fp;
  pdef_bmid_m : bszid_t;
  pdef_bmid_n : bszid_t;
  pdef_does_invert_diag : bool;
  pdef_rev_iter_if_upper : bool;
  pdef_rev_iter_if_lower : bool;
  pdef_pack_schema : pack_t;
  pdef_pack_buf_type : packbuf_t
}.

Record trsm_cntl_t := {
  t_part_jc : part_cntl_t;
  t_part_pc : part_cntl_t;
  t_pack_b : packm_def_cntl_t;
  t_part_ic : part_cntl_t;
  t_pack_a_trsm : packm_def_cntl_t;
  t_part_jr_trsm : part_cntl_t;
  t_part_ir_trsm : part_cntl_t;
  t_pack_a_gemm : packm_def_cntl_t;
  t_part_jr_gemm : part_cntl_t;
  t_part_ir_gemm : part_cntl_t
}.

(** Modelled from the spec: [bli_cntl_init_node] makes a fresh header
    without sub-nodes. *)
Definition bli_cntl_init_node (var_func : void_fp) : cntl_t :=
  {| cntl_var_func := var_func; cntl_sub_nodes := [] |}.

Definition cntl_attach (mask : list thread_dim) (sub : trsm_node) (c : cntl_t) : cntl_t :=
  {| cntl_var_func := cntl_var_func c;
     cntl_sub_nodes := cntl_sub_nodes c ++ [(mask, sub)] |}.

(** Modelled from the spec: [bli_part_cntl_init_node] fills a partitioning
    node; the roles of the arguments are those its call sites give them: variant, algorithmic, maximum and multiple blocksize,
    partitioning direction, weighted partitioning. *)
Definition bli_part_cntl_init_node (var_func : void_fp) (b_alg b_max b_mult : Z)
    (direct : dir_t) (use_weighted : bool) : part_cntl_t :=
  {| part_cntl := bli_cntl_init_node var_func;
     part_b_alg := b_alg; part_b_max := b_max; part_b_mult := b_mult;
     part_direct := direct; part_use_weighted := use_weighted |}.

Definition part_attach (mask : list thread_dim) (sub : trsm_node) (n : part_cntl_t)
  : part_cntl_t :=
  {| part_cntl := cntl_attach mask sub (part_cntl n);
     part_b_alg := part_b_alg n; part_b_max := part_b_max n;
     part_b_mult := part_b_mult n;
     part_direct := part_direct n; part_use_weighted := part_use_weighted n |}.

(** [bli_packm_cntl_init_node] *)
Definition bli_packm_cntl_init_node (var_func : void_fp) (var : packm_var_oft)
  : packm_cntl_t :=
  {| packm_var := var; packm_cntl := bli_cntl_init_node var_func |}.

(** [bli_packm_def_cntl_init_node] *)
Definition bli_packm_def_cntl_init_node (var_func : void_fp) (dt_a dt_p : num_t)
    (bmid_m bmid_n : bszid_t)
    (does_invert_diag rev_iter_if_upper rev_iter_if_lower : bool)
    (pack_schema : pack_t) (pack_buf_type : packbuf_t) : packm_def_cntl_t :=
  {| pdef_ukr := if num_t_eqb dt_a dt_p then packm_struc_cxk_fp dt_a
                 else packm_struc_cxk_md_fp dt_a dt_p;
     pdef_bmid_m := bmid_m;
     pdef_bmid_n := bmid_n;
     pdef_does_invert_diag := does_invert_diag;
     pdef_rev_iter_if_upper := rev_iter_if_upper;
     pdef_rev_iter_if_lower := rev_iter_if_lower;
     pdef_pack_schema := pack_schema;
     pdef_pack_buf_type := pack_buf_type;
     pdef_cntl := bli_packm_cntl_init_node var_func bli_packm_blk_var1 |}.

Definition pdef_attach (mask : list thread_dim) (sub : trsm_node) (n : packm_def_cntl_t)
  : packm_def_cntl_t :=
  {| pdef_cntl := {| packm_cntl := cntl_attach mask sub (packm_cntl (pdef_cntl n));
                     packm_var := packm_var (pdef_cntl n) |};
     pdef_ukr := pdef_ukr n; pdef_bmid_m := pdef_bmid_m n; pdef_bmid_n := pdef_bmid_n n;
     pdef_does_invert_diag := pdef_does_invert_diag n;
     pdef_rev_iter_if_upper := pdef_rev_iter_if_upper n;
     pdef_rev_iter_if_lower := pdef_rev_iter_if_lower n;
     pdef_pack_schema := pdef_pack_schema n;
     pdef_pack_buf_type := pdef_pack_buf_type n |}.

(** What the tree construction takes from the context: the blocksize
    queries, [bli_l3_adjust_kc] (which rewrites [pc_alg] and [pc_max]) and
    the build option [BLIS_ENABLE_TRSM_PREINVERSION]. *)
Record cntl_env (R CN : Type) := {
  bli_cntx_get_blksz_def_dt : num_t -> bszid_t -> CN -> Z;
  bli_cntx_get_blksz_max_dt : num_t -> bszid_t -> CN -> Z;
  bli_l3_adjust_kc : opid_t -> obj_t R -> obj_t R -> Z -> Z -> CN -> Z * Z;
  BLIS_ENABLE_TRSM_PREINVERSION : bool
}.

Arguments bli_cntx_get_blksz_def_dt {R CN} _ _ _ _.
Arguments bli_cntx_get_blksz_max_dt {R CN} _ _ _ _.
Arguments bli_l3_adjust_kc {R CN} _ _ _ _ _ _ _.
Arguments BLIS_ENABLE_TRSM_PREINVERSION {R CN} _.

Section TrsmCntl.

Context {R CN : Type}.
Variable E : cntl_env R CN.

Definition bli_trsm_l_cntl_init (a b c : obj_t R) (schema_a schema_b : pack_t)
    (cntx : CN) (cntl : trsm_cntl_t) : trsm_cntl_t :=
  let macro_kernel_p := bli_trsm_xx_ker_var2 in
  let dt_a := obj_dt a in
  let dt_b := obj_dt b in
  let dt_ap := obj_target_dt a in
  let dt_bp := obj_target_dt b in
  let dt_comp := obj_comp_dt c in
  let direct := if bli_obj_is_lower a then BLIS_FWD else BLIS_BWD in
  let ir_bsize := bli_cntx_get_blksz_def_dt E dt_comp BLIS_MR cntx in
  let jr_bsize := bli_cntx_get_blksz_def_dt E dt_comp BLIS_NR cntx in
  let ic_alg := bli_cntx_get_blksz_def_dt E dt_comp BLIS_MC cntx in
  let ic_max := bli_cntx_get_blksz_max_dt E dt_comp BLIS_MC cntx in
  let ic_mult := bli_cntx_get_blksz_def_dt E dt_comp BLIS_MR cntx in
  let pc_alg0 := bli_cntx_get_blksz_def_dt E dt_comp BLIS_KC cntx in
  let pc_max0 := bli_cntx_get_blksz_max_dt E dt_comp BLIS_KC cntx in
  let pc_mult := 1 in
  let jc_alg := bli_cntx_get_blksz_def_dt E dt_comp BLIS_NC cntx in
  let jc_max := bli_cntx_get_blksz_max_dt E dt_comp BLIS_NC cntx in
  let jc_mult := bli_cntx_get_blksz_def_dt E dt_comp BLIS_NR cntx in
  let '(pc_alg, pc_max) := bli_l3_adjust_kc E BLIS_TRSM a b pc_alg0 pc_max0 cntx in
  (* nodes for packing A and the macro-kernel (gemm branch) *)
  let n_part_ir_gemm :=
    bli_part_cntl_init_node NULL_fp ir_bsize ir_bsize ir_bsize BLIS_FWD false in
  let n_part_jr_gemm :=
    part_attach [BLIS_THREAD_MR; BLIS_THREAD_NR] part_ir_gemm
      (bli_part_cntl_init_node macro_kernel_p jr_bsize jr_bsize jr_bsize BLIS_FWD false) in
  let n_pack_a_gemm :=
    pdef_attach [] part_jr_gemm
      (bli_packm_def_cntl_init_node bli_l3_packa dt_a dt_ap BLIS_MR BLIS_MR
         false true false schema_a BLIS_BUFFER_FOR_A_BLOCK) in
  (* nodes for packing A and the macro-kernel (trsm branch) *)
  let n_part_ir_trsm :=
    bli_part_cntl_init_node NULL_fp ir_bsize ir_bsize ir_bsize BLIS_FWD false in
  let n_part_jr_trsm :=
    part_attach [BLIS_THREAD_MC; BLIS_THREAD_KC; BLIS_THREAD_NR] part_ir_trsm
      (bli_part_cntl_init_node macro_kernel_p jr_bsize jr_bsize jr_bsize BLIS_FWD false) in
  let n_pack_a_trsm :=
    pdef_attach [] part_jr_trsm
      (bli_packm_def_cntl_init_node bli_l3_packa dt_a dt_ap BLIS_MR BLIS_MR
         (BLIS_ENABLE_TRSM_PREINVERSION E) true false schema_a BLIS_BUFFER_FOR_A_BLOCK) in
  (* partitioning the m dimension by MC; both branches are attached *)
  let n_part_ic :=
    part_attach [BLIS_THREAD_MC; BLIS_THREAD_KC] pack_a_gemm
      (part_attach [] pack_a_trsm
         (bli_part_cntl_init_node bli_trsm_blk_var1 ic_alg ic_max ic_mult direct false)) in
  (* packing matrix B *)
  let n_pack_b :=
    pdef_attach [] part_ic
      (bli_packm_def_cntl_init_node bli_l3_packb dt_b dt_bp BLIS_NR BLIS_MR
         false false false schema_b BLIS_BUFFER_FOR_B_PANEL) in
  (* partitioning the k dimension by KC *)
  let n_part_pc :=
    part_attach [] pack_b
      (bli_part_cntl_init_node bli_trsm_blk_var3 pc_alg pc_max pc_mult direct false) in
  (* partitioning the n dimension by NC *)
  let n_part_jc :=
    part_attach [BLIS_THREAD_NC] part_pc
      (bli_part_cntl_init_node bli_trsm_blk_var2 jc_alg jc_max jc_mult BLIS_FWD false) in
  {| t_part_jc := n_part_jc;
     t_part_pc := n_part_pc;
     t_pack_b := n_pack_b;
     t_part_ic := n_part_ic;
     t_pack_a_trsm := n_pack_a_trsm;
     t_part_jr_trsm := n_part_jr_trsm;
     t_part_ir_trsm := n_part_ir_trsm;
     t_pack_a_gemm := n_pack_a_gemm;
     t_part_jr_gemm := n_part_jr_gemm;
     t_part_ir_gemm := n_part_ir_gemm |}.

Definition bli_trsm_r_cntl_init (a b c : obj_t R) (schema_a schema_b : pack_t)
    (cntx : CN) (cntl : trsm_cntl_t) : trsm_cntl_t :=
  let macro_kernel_p := bli_trsm_xx_ker_var2 in
  let dt_a := obj_dt a in
  let dt_b := obj_dt b in
  let dt_ap := obj_target_dt a in
  let dt_bp := obj_target_dt b in
  let dt_comp := obj_comp_dt c in
  let direct := if bli_obj_is_lower b then BLIS_BWD else BLIS_FWD in
  let ir_bsize := bli_cntx_get_blksz_def_dt E dt_comp BLIS_MR cntx in
  let jr_bsize := bli_cntx_get_blksz_def_dt E dt_comp BLIS_NR cntx in
  let ic_alg := bli_cntx_get_blksz_def_dt E dt_comp BLIS_MC cntx in
  let ic_max := bli_cntx_get_blksz_max_dt E dt_comp BLIS_MC cntx in
  let ic_mult := bli_cntx_get_blksz_def_dt E dt_comp BLIS_NR cntx in
  let pc_alg0 := bli_cntx_get_blksz_def_dt E dt_comp BLIS_KC cntx in
  let pc_max0 := bli_cntx_get_blksz_max_dt E dt_comp BLIS_KC cntx in
  let pc_mult := 1 in
  let jc_alg := bli_cntx_get_blksz_def_dt E dt_comp BLIS_NC cntx in
  let jc_max := bli_cntx_get_blksz_max_dt E dt_comp BLIS_NC cntx in
  let jc_mult := bli_cntx_get_blksz_def_dt E dt_comp BLIS_MR cntx in
  let '(pc_alg, pc_max) := bli_l3_adjust_kc E BLIS_TRSM a b pc_alg0 pc_max0 cntx in
  (* two nodes for the macro-kernel *)
  let n_part_ir_trsm :=
    bli_part_cntl_init_node NULL_fp ir_bsize ir_bsize ir_bsize BLIS_FWD false in
  let n_part_jr_trsm :=
    part_attach [] part_ir_trsm
      (bli_part_cntl_init_node macro_kernel_p jr_bsize jr_bsize jr_bsize BLIS_FWD false) in
  (* packing matrix A *)
  let n_pack_a_trsm :=
    pdef_attach [] part_jr_trsm
      (bli_packm_def_cntl_init_node bli_l3_packa dt_a dt_ap BLIS_NR BLIS_MR
         false false false schema_a BLIS_BUFFER_FOR_A_BLOCK) in
  (* partitioning the m dimension by MC *)
  let n_part_ic :=
    part_attach [BLIS_THREAD_MC; BLIS_THREAD_KC; BLIS_THREAD_NC;
                 BLIS_THREAD_MR; BLIS_THREAD_NR] pack_a_trsm
      (bli_part_cntl_init_node bli_trsm_blk_var1 ic_alg ic_max ic_mult BLIS_FWD false) in
  (* packing matrix B *)
  let n_pack_b :=
    pdef_attach [] part_ic
      (bli_packm_def_cntl_init_node bli_l3_packb dt_b dt_bp BLIS_MR BLIS_MR
         true false true schema_b BLIS_BUFFER_FOR_B_PANEL) in
  (* partitioning the k dimension by KC *)
  let n_part_pc :=
    part_attach [] pack_b
      (bli_part_cntl_init_node bli_trsm_blk_var3 pc_alg pc_max pc_mult direct false) in
  (* partitioning the n dimension by NC *)
  let n_part_jc :=
    part_attach [] part_pc
      (bli_part_cntl_init_node bli_trsm_blk_var2 jc_alg jc_max jc_mult direct false) in
  {| t_part_jc := n_part_jc;
     t_part_pc := n_part_pc;
     t_pack_b := n_pack_b;
     t_part_ic := n_part_ic;
     t_pack_a_trsm := n_pack_a_trsm;
     t_part_jr_trsm := n_part_jr_trsm;
     t_part_ir_trsm := n_part_ir_trsm;
     t_pack_a_gemm := t_pack_a_gemm cntl;
     t_part_jr_gemm := t_part_jr_gemm cntl;
     t_part_ir_gemm := t_part_ir_gemm cntl |}.

Definition bli_trsm_cntl_init (a b c : obj_t R) (schema_a schema_b : pack_t)
    (cntx : CN) (cntl : trsm_cntl_t) : trsm_cntl_t :=
  if bli_obj_is_triangular a
  then bli_trsm_l_cntl_init a b c schema_a schema_b cntx cntl
  else bli_trsm_r_cntl_init a b c schema_a schema_b cntx cntl.

End TrsmCntl.

(* ------------------------------------------------------------------ *)
(** ** The expert object API, [bli_l3_oapi_ex.c]

    The entry points take their operands by [const obj_t*] and work on
    local copies.  The model keeps the descriptors in a store indexed by
    the places they live in: objects owned by the caller and the local
    variables of the entry points.  Element memory is a map from addresses
    to elements, and every invocation of the thread decorator is recorded
    with the arguments it received. *)

Inductive objref :=
| caller_obj (n : nat)
| ref_a_local | ref_b_local | ref_c_local | ref_ct
| ref_ah | ref_bh | ref_at | ref_bt.

Definition objref_eqb (x y : objref) : bool :=
  match x, y with
  | caller_obj n, caller_obj k => Nat.eqb n k
  | ref_a_local, ref_a_local | ref_b_local, ref_b_local
  | ref_c_local, ref_c_local | ref_ct, ref_ct
  | ref_ah, ref_ah | ref_bh, ref_bh | ref_at, ref_at | ref_bt, ref_bt => true
  | _, _ => false
  end.

(** The places an entry point does not write: everything but its three
    local aliases and the temporary [ct]. *)
Definition not_alias (r : objref) : bool :=
  match r with
  | ref_a_local | ref_b_local | ref_c_local | ref_ct => false
  | _ => true
  end.

Definition mem (R : Type) : Type := Z -> scomplex R.

(** The arguments of one call of [bli_l3_thread_decorator] (the function
    pointer is [bli_l3_int] at every call site). *)
Record l3_call (R CN RN CT : Type) := {
  l3_alpha : scal R;
  l3_a : obj_t R;
  l3_b : obj_t R;
  l3_beta : scal R;
  l3_c : obj_t R;
  l3_cntx : CN;
  l3_cntl : CT;
  l3_rntm : RN
}.

Arguments l3_alpha {R CN RN CT} _.
Arguments l3_a {R CN RN CT} _.
Arguments l3_b {R CN RN CT} _.
Arguments l3_beta {R CN RN CT} _.
Arguments l3_c {R CN RN CT} _.
Arguments l3_cntx {R CN RN CT} _.
Arguments l3_cntl {R CN RN CT} _.
Arguments l3_rntm {R CN RN CT} _.

Record state (R CN RN CT : Type) := {
  st_obj : objref -> obj_t R;
  st_mem : mem R;
  st_calls : list (l3_call R CN RN CT)
}.

Arguments st_obj {R CN RN CT} _ _.
Arguments st_mem {R CN RN CT} _ _.
Arguments st_calls {R CN RN CT} _.

(** The collaborators of the entry points that live outside these sources:
    parameter checks (they yield the code they would report), the scalar
    comparison, the small-matrix handler, the induced-method and context
    queries, the mixed-datatype policy, the runtime, object creation, the
    control-tree constructors, the thread decorator, and the build options
    tested with [#ifdef].  [CN], [RN] and [CT] are the types of contexts,
    runtimes and control trees. *)
Record l3_env (R CN RN CT : Type) := {
  ar : arith R;
  bli_error_checking_is_enabled : bool;
  bli_gemm_check : scal R -> obj_t R -> obj_t R -> scal R -> obj_t R -> option CN -> err_t;
  bli_gemmt_check : scal R -> obj_t R -> obj_t R -> scal R -> obj_t R -> option CN -> err_t;
  bli_her2k_check : scal R -> obj_t R -> obj_t R -> scal R -> obj_t R -> option CN -> err_t;
  bli_syr2k_check : scal R -> obj_t R -> obj_t R -> scal R -> obj_t R -> option CN -> err_t;
  bli_hemm_check :
    side_t -> scal R -> obj_t R -> obj_t R -> scal R -> obj_t R -> option CN -> err_t;
  bli_symm_check :
    side_t -> scal R -> obj_t R -> obj_t R -> scal R -> obj_t R -> option CN -> err_t;
  bli_trmm3_check :
    side_t -> scal R -> obj_t R -> obj_t R -> scal R -> obj_t R -> option CN -> err_t;
  bli_herk_check : scal R -> obj_t R -> scal R -> obj_t R -> option CN -> err_t;
  bli_syrk_check : scal R -> obj_t R -> scal R -> obj_t R -> option CN -> err_t;
  bli_trmm_check : side_t -> scal R -> obj_t R -> obj_t R -> option CN -> err_t;
  bli_trsm_check : side_t -> scal R -> obj_t R -> obj_t R -> option CN -> err_t;
  bli_obj_equals : scal R -> scal R -> bool;
  (* Some: BLIS_SUCCESS with the memory it leaves; None: BLIS_FAILURE *)
  bli_gemmsup : scal R -> obj_t R -> obj_t R -> scal R -> obj_t R ->
                option CN -> option RN -> mem R -> option (mem R);
  bli_rntm_init_from_global : RN;
  (* bli_gemmind_find_avail, bli_gemmtind_find_avail, ... *)
  bli_ind_find_avail : opid_t -> num_t -> ind_t;
  bli_gks_query_ind_cntx : ind_t -> CN;
  (* for BLIS_GEMM_VIR_UKR, the only kernel asked about *)
  bli_cntx_dislikes_storage_of : obj_t R -> CN -> bool;
  l3_schema_a : CN -> pack_t;
  l3_schema_b : CN -> pack_t;
  BLIS_ENABLE_GEMM_MD : bool;
  BLIS_ENABLE_GEMM_MD_EXTRA_MEM : bool;
  BLIS_DISABLE_HEMM_RIGHT : bool;
  BLIS_DISABLE_SYMM_RIGHT : bool;
  BLIS_DISABLE_TRMM_RIGHT : bool;
  BLIS_DISABLE_TRMM3_RIGHT : bool;
  (* the objects and the context as bli_gemm_md leaves them *)
  bli_gemm_md : obj_t R -> obj_t R -> scal R -> obj_t R -> CN ->
                obj_t R * obj_t R * obj_t R * CN;
  bli_gemm_md_is_ccr : obj_t R -> obj_t R -> obj_t R -> bool;
  bli_gemm_md_is_crc : obj_t R -> obj_t R -> obj_t R -> bool;
  bli_gemm_md_is_crr : obj_t R -> obj_t R -> obj_t R -> bool;
  (* conversion of a scalar to a datatype *)
  typecast : num_t -> scomplex R -> scomplex R;
  bli_rntm_set_ways_for_op : opid_t -> side_t -> Z -> Z -> Z -> RN -> RN;
  bli_obj_create : num_t -> Z -> Z -> Z -> Z -> mem R -> obj_t R;
  bli_xpbym : obj_t R -> scal R -> obj_t R -> mem R -> mem R;
  bli_gemm_cntl_create : opid_t -> pack_t -> pack_t -> Z -> CT;
  bli_trsm_cntl_create : side_t -> pack_t -> pack_t -> Z -> CT;
  bli_l3_thread_decorator : l3_call R CN RN CT -> mem R -> mem R
}.

Arguments ar {R CN RN CT} _.
Arguments bli_error_checking_is_enabled {R CN RN CT} _.
Arguments bli_gemm_check {R CN RN CT} _ _ _ _ _ _ _.
Arguments bli_gemmt_check {R CN RN CT} _ _ _ _ _ _ _.
Arguments bli_her2k_check {R CN RN CT} _ _ _ _ _ _ _.
Arguments bli_syr2k_check {R CN RN CT} _ _ _ _ _ _ _.
Arguments bli_hemm_check {R CN RN CT} _ _ _ _ _ _ _ _.
Arguments bli_symm_check {R CN RN CT} _ _ _ _ _ _ _ _.
Arguments bli_trmm3_check {R CN RN CT} _ _ _ _ _ _ _ _.
Arguments bli_herk_check {R CN RN CT} _ _ _ _ _ _.
Arguments bli_syrk_check {R CN RN CT} _ _ _ _ _ _.
Arguments bli_trmm_check {R CN RN CT} _ _ _ _ _ _.
Arguments bli_trsm_check {R CN RN CT} _ _ _ _ _ _.
Arguments bli_obj_equals {R CN RN CT} _ _ _.
Arguments bli_gemmsup {R CN RN CT} _ _ _ _ _ _ _ _ _.
Arguments bli_rntm_init_from_global {R CN RN CT} _.
Arguments bli_ind_find_avail {R CN RN CT} _ _ _.
Arguments bli_gks_query_ind_cntx {R CN RN CT} _ _.
Arguments bli_cntx_dislikes_storage_of {R CN RN CT} _ _ _.
Arguments l3_schema_a {R CN RN CT} _ _.
Arguments l3_schema_b {R CN RN CT} _ _.
Arguments BLIS_ENABLE_GEMM_MD {R CN RN CT} _.
Arguments BLIS_ENABLE_GEMM_MD_EXTRA_MEM {R CN RN CT} _.
Arguments BLIS_DISABLE_HEMM_RIGHT {R CN RN CT} _.
Arguments BLIS_DISABLE_SYMM_RIGHT {R CN RN CT} _.
Arguments BLIS_DISABLE_TRMM_RIGHT {R CN RN CT} _.
Arguments BLIS_DISABLE_TRMM3_RIGHT {R CN RN CT} _.
Arguments bli_gemm_md {R CN RN CT} _ _ _ _ _ _.
Arguments bli_gemm_md_is_ccr {R CN RN CT} _ _ _ _.
Arguments bli_gemm_md_is_crc {R CN RN CT} _ _ _ _.
Arguments bli_gemm_md_is_crr {R CN RN CT} _ _ _ _.
Arguments typecast {R CN RN CT} _ _ _.
Arguments bli_rntm_set_ways_for_op {R CN RN CT} _ _ _ _ _ _ _.
Arguments bli_obj_create {R CN RN CT} _ _ _ _ _ _ _.
Arguments bli_xpbym {R CN RN CT} _ _ _ _ _.
Arguments bli_gemm_cntl_create {R CN RN CT} _ _ _ _ _.
Arguments bli_trsm_cntl_create {R CN RN CT} _ _ _ _ _.
Arguments bli_l3_thread_decorator {R CN RN CT} _ _ _.

Section L3.

Context {R CN RN CT : Type}.
Variable E : l3_env R CN RN CT.

Local Abbreviation State := (state R CN RN CT).

(** *** Store operations *)

Definition set_obj (r : objref) (o : obj_t R) (s : State) : State :=
  {| st_obj := fun r' => if objref_eqb r' r then o else st_obj s r';
     st_mem := st_mem s;
     st_calls := st_calls s |}.

Definition upd_obj (r : objref) (f : obj_t R -> obj_t R) (s : State) : State :=
  set_obj r (f (st_obj s r)) s.

Definition set_mem (m : mem R) (s : State) : State :=
  {| st_obj := st_obj s; st_mem := m; st_calls := st_calls s |}.

(** [bli_obj_swap( &x, &y )] *)
Definition bli_obj_swap (x y : objref) (s : State) : State :=
  let ox := st_obj s x in
  let oy := st_obj s y in
  set_obj y ox (set_obj x oy s).

(** The three aliasing statements at the head of the dense entry points. *)
Definition alias_locals (a b c : objref) (s : State) : State :=
  let s := set_obj ref_a_local (bli_obj_alias_and_reset_origin (st_obj s a)) s in
  let s := set_obj ref_b_local (bli_obj_alias_and_reset_origin (st_obj s b)) s in
  set_obj ref_c_local (bli_obj_alias_and_reset_origin (st_obj s c)) s.

(** [bli_obj_induce_trans] on each of the three local aliases. *)
Definition induce_trans_abc (s : State) : State :=
  upd_obj ref_c_local bli_obj_induce_trans
    (upd_obj ref_b_local bli_obj_induce_trans
       (upd_obj ref_a_local bli_obj_induce_trans s)).

(** "If C is stored by rows and the micro-kernel prefers contiguous
    columns, or if C is stored by columns and the micro-kernel prefers
    contiguous rows, transpose the entire operation": the step of gemm and
    gemmt that swaps A and B and induces a transposition on all three. *)
Definition orient_for_ukr (cntx : CN) (s : State) : State :=
  if bli_cntx_dislikes_storage_of E (st_obj s ref_c_local) cntx
  then induce_trans_abc (bli_obj_swap ref_a_local ref_b_local s)
  else s.

(** *** Absent helpers with a fixed meaning *)

(** Modelled from the spec: [bli_scalm] (level-1m, defined outside the
    files embedded here) scales C by beta: every element C stores becomes beta times
    its value, and nothing else is written. *)
Definition bli_scalm (beta : scal R) (c : obj_t R) (m : mem R) : mem R :=
  fun x =>
    if obj_addr_of obj_is_stored c x
    then cmul (ar E) (scal_val (ar E) beta) (m x)
    else m x.

(** Modelled from the spec: [bli_setid] (level-1d, defined outside the
    files embedded here) sets the imaginary part of every element on the diagonal of C
    to the given real value. *)
Definition bli_setid (alpha : scal R) (c : obj_t R) (m : mem R) : mem R :=
  fun x =>
    if obj_addr_of obj_on_diag c x
    then {| real := real (m x); imag := real (scal_val (ar E) alpha) |}
    else m x.

(** Modelled from the spec: [bli_obj_scalar_attach( conj, alpha, obj )] (a
    header function defined outside the files embedded here) puts alpha
    into the scalar the object carries; by the comments at its call sites
    alpha, conjugated as asked, is cast to the target datatype of the
    object and becomes that scalar. *)
Definition bli_obj_scalar_attach (conj : conj_t) (alpha : scal R) (o : obj_t R) : obj_t R :=
  let v := scal_val (ar E) alpha in
  let v := match conj with
           | BLIS_NO_CONJUGATE => v
           | BLIS_CONJUGATE => cconj (ar E) v
           end in
  bli_obj_set_scalar (typecast E (obj_target_dt o) v) o.

(** Modelled from the spec: [bli_obj_scalar_detach] hands the carried
    scalar back as a scalar object. *)
Definition bli_obj_scalar_detach (o : obj_t R) : scal R :=
  {| sc_value := obj_scalar o; sc_conj := BLIS_NO_CONJUGATE |}.

(** Modelled from the spec: [bli_l3_set_schemas] (defined outside the
    files embedded here) sets the pack schemas of A and B to the ones the context
    asks for; C is read only. *)
Definition bli_l3_set_schemas (a b c : objref) (cntx : CN) (s : State) : State :=
  upd_obj b (bli_obj_set_pack_schema (l3_schema_b E cntx))
    (upd_obj a (bli_obj_set_pack_schema (l3_schema_a E cntx)) s).

(** [if ( bli_error_checking_is_enabled() ) bli_xxx_check( ... );] *)
Definition l3_check (e : err_t) : outcome unit :=
  if bli_error_checking_is_enabled E then
    match e with
    | BLIS_SUCCESS => Returned tt
    | other => Aborted other
    end
  else Returned tt.

Definition err_is_success (e : err_t) : bool :=
  match e with BLIS_SUCCESS => true | _ => false end.

(** The invocation of the back-end through the thread decorator. *)
Definition l3_thread_decorate (alpha : scal R) (a b : objref) (beta : scal R) (c : objref)
    (cntx : CN) (cntl : CT) (rntm : RN) (s : State) : State :=
  let call := {| l3_alpha := alpha; l3_a := st_obj s a; l3_b := st_obj s b;
                 l3_beta := beta; l3_c := st_obj s c;
                 l3_cntx := cntx; l3_cntl := cntl; l3_rntm := rntm |} in
  {| st_obj := st_obj s;
     st_mem := bli_l3_thread_decorator E call (st_mem s);
     st_calls := st_calls s ++ [call] |}.

(** *** [bli_l3_return_early_if_trivial] *)

Definition bli_l3_return_early_if_trivial (alpha : scal R) (a b : objref)
    (beta : scal R) (c : objref) (s : State) : err_t * State :=
  if bli_obj_has_zero_dim (st_obj s c) then (BLIS_SUCCESS, s)
  else if bli_obj_equals E alpha (BLIS_ZERO (ar E))
          || bli_obj_has_zero_dim (st_obj s a)
          || bli_obj_has_zero_dim (st_obj s b)
  then (BLIS_SUCCESS, set_mem (bli_scalm beta (st_obj s c) (st_mem s)) s)
  else (BLIS_FAILURE, s).

(** The runtime and the context the entry points settle on. *)
Definition local_rntm (rntm : option RN) : RN :=
  match rntm with
  | None => bli_rntm_init_from_global E
  | Some r => r
  end.

Definition resolve_cntx (cntx : option CN) (im : ind_t) : CN :=
  match cntx with
  | None => bli_gks_query_ind_cntx E im
  | Some x => x
  end.

(** Reading the schemas of A and B and resetting them to "not packed". *)
Definition reset_schemas (s : State) : State :=
  upd_obj ref_b_local (bli_obj_set_pack_schema BLIS_NOT_PACKED)
    (upd_obj ref_a_local (bli_obj_set_pack_schema BLIS_NOT_PACKED) s).

Definition take_schemas (s : State) : pack_t * pack_t * State :=
  let schema_a := obj_pack_schema (st_obj s ref_a_local) in
  let schema_b := obj_pack_schema (st_obj s ref_b_local) in
  (schema_a, schema_b, reset_schemas s).

(** *** [bli_gemm_ex] *)

(** From the aliasing of the operands to the mixed-datatype policy: the
    state and the context just before the scalars are attached. *)
Definition gemm_prepare (a b c : objref) (beta : scal R) (cntx : CN) (s : State)
  : State * CN :=
  let s := alias_locals a b c s in
  let s := orient_for_ukr cntx s in
  let s := bli_l3_set_schemas ref_a_local ref_b_local ref_c_local cntx s in
  (* #ifdef BLIS_ENABLE_GEMM_MD *)
  if BLIS_ENABLE_GEMM_MD E
     && (negb (num_t_eqb (obj_dt (st_obj s ref_c_local)) (obj_dt (st_obj s ref_a_local)))
         || negb (num_t_eqb (obj_dt (st_obj s ref_c_local)) (obj_dt (st_obj s ref_b_local)))
         || negb (prec_t_eqb (bli_obj_comp_prec (st_obj s ref_c_local))
                             (bli_obj_prec (st_obj s ref_c_local))))
  then
    let '(a', b', c', cntx') :=
      bli_gemm_md E (st_obj s ref_a_local) (st_obj s ref_b_local) beta
                    (st_obj s ref_c_local) cntx in
    (set_obj ref_c_local c' (set_obj ref_b_local b' (set_obj ref_a_local a' s)), cntx')
  else (s, cntx).

(** "Attach alpha to B", "Attach beta to C". *)
Definition gemm_attach_scalars (alpha beta : scal R) (s : State) : State :=
  let s := upd_obj ref_b_local (bli_obj_scalar_attach BLIS_NO_CONJUGATE alpha) s in
  upd_obj ref_c_local (bli_obj_scalar_attach BLIS_NO_CONJUGATE beta) s.

Definition gemm_is_ccr_mismatch (a_l b_l c_l : obj_t R) : bool :=
  bli_gemm_md_is_ccr E a_l b_l c_l && negb (bli_obj_is_col_stored c_l).

Definition gemm_is_crc_mismatch (a_l b_l c_l : obj_t R) : bool :=
  bli_gemm_md_is_crc E a_l b_l c_l && negb (bli_obj_is_row_stored c_l).

(** [use_ct]: whether the product is accumulated in a temporary matrix
    (only with BLIS_ENABLE_GEMM_MD and BLIS_ENABLE_GEMM_MD_EXTRA_MEM). *)
Definition gemm_use_ct (a_l b_l c_l : obj_t R) : bool :=
  BLIS_ENABLE_GEMM_MD E && BLIS_ENABLE_GEMM_MD_EXTRA_MEM E
  && (negb (prec_t_eqb (bli_obj_prec c_l) (bli_obj_comp_prec c_l))
      || bli_gemm_md_is_crr E a_l b_l c_l
      || gemm_is_ccr_mismatch a_l b_l c_l
      || gemm_is_crc_mismatch a_l b_l c_l).

(** The temporary matrix conformal to C. *)
Definition gemm_make_ct (a_l b_l c_l : obj_t R) (m0 : mem R) : obj_t R :=
  let m := bli_obj_length c_l in
  let n := bli_obj_width c_l in
  let rs := bli_obj_row_stride c_l in
  let cs := bli_obj_col_stride c_l in
  let dt_ct := bli_dt_of (bli_obj_domain c_l) (bli_obj_comp_prec c_l) in
  let dt_ct := if bli_gemm_md_is_crr E a_l b_l c_l
               then bli_dt_of BLIS_REAL (bli_obj_comp_prec c_l) else dt_ct in
  let '(rs, cs) := if gemm_is_ccr_mismatch a_l b_l c_l then (1, m)
                   else if gemm_is_crc_mismatch a_l b_l c_l then (n, 1) else (rs, cs) in
  let ct := bli_obj_create E dt_ct m n rs cs m0 in
  let dt_exec := obj_exec_dt c_l in
  let dt_comp := obj_comp_dt c_l in
  bli_obj_set_dts dt_ct dt_exec dt_comp ct.

Definition bli_gemm_ex (alpha : scal R) (a b : objref) (beta : scal R) (c : objref)
    (cntx : option CN) (rntm : option RN) (s : State) : outcome State :=
  bind (l3_check (bli_gemm_check E alpha (st_obj s a) (st_obj s b) beta (st_obj s c) cntx))
  (fun _ =>
  let '(r, s) := bli_l3_return_early_if_trivial alpha a b beta c s in
  if err_is_success r then Returned s else
  match bli_gemmsup E alpha (st_obj s a) (st_obj s b) beta (st_obj s c) cntx rntm
                    (st_mem s) with
  | Some m => Returned (set_mem m s)
  | None =>
  let rntm_l := local_rntm rntm in
  let dt := obj_dt (st_obj s c) in
  let im := if bli_obj_is_complex (st_obj s c) && bli_obj_is_complex (st_obj s a)
               && bli_obj_is_complex (st_obj s b)
            then bli_ind_find_avail E BLIS_GEMM dt else BLIS_NAT in
  let cntx := resolve_cntx cntx im in
  let '(s, cntx) := gemm_prepare a b c beta cntx s in
  let s := gemm_attach_scalars alpha beta s in
  let alpha := BLIS_ONE (ar E) in
  let beta := BLIS_ONE (ar E) in
  let rntm_l :=
    bli_rntm_set_ways_for_op E BLIS_GEMM BLIS_LEFT
      (bli_obj_length (st_obj s ref_c_local)) (bli_obj_width (st_obj s ref_c_local))
      (bli_obj_width (st_obj s ref_a_local)) rntm_l in
  let cp := ref_c_local in
  let betap := beta in
  (* #ifdef BLIS_ENABLE_GEMM_MD, #ifdef BLIS_ENABLE_GEMM_MD_EXTRA_MEM *)
  let a_l := st_obj s ref_a_local in
  let b_l := st_obj s ref_b_local in
  let c_l := st_obj s ref_c_local in
  let use_ct := gemm_use_ct a_l b_l c_l in
  let '(s, cp, betap) :=
    if use_ct
    then (set_obj ref_ct (gemm_make_ct a_l b_l c_l (st_mem s)) s, ref_ct, BLIS_ZERO (ar E))
    else (s, cp, betap) in
  let '(schema_a, schema_b, s) := take_schemas s in
  let cntl := bli_gemm_cntl_create E BLIS_GEMM schema_a schema_b (obj_ker_fn (st_obj s c)) in
  let s := l3_thread_decorate alpha ref_a_local ref_b_local betap cp cntx cntl rntm_l s in
  let s :=
    if use_ct then
      let beta_local := bli_obj_scalar_detach (st_obj s ref_c_local) in
      set_mem (bli_xpbym E (st_obj s ref_ct) beta_local (st_obj s ref_c_local) (st_mem s)) s
    else s in
  Returned s
  end).

(** *** [bli_gemmt_ex] *)

Definition bli_gemmt_ex (alpha : scal R) (a b : objref) (beta : scal R) (c : objref)
    (cntx : option CN) (rntm : option RN) (s : State) : outcome State :=
  bind (l3_check (bli_gemmt_check E alpha (st_obj s a) (st_obj s b) beta (st_obj s c) cntx))
  (fun _ =>
  let '(r, s) := bli_l3_return_early_if_trivial alpha a b beta c s in
  if err_is_success r then Returned s else
  let rntm_l := local_rntm rntm in
  let dt := obj_dt (st_obj s c) in
  let im := if num_t_eqb (obj_dt (st_obj s a)) (obj_dt (st_obj s c))
               && num_t_eqb (obj_dt (st_obj s b)) (obj_dt (st_obj s c))
               && bli_obj_is_complex (st_obj s c)
            then bli_ind_find_avail E BLIS_GEMMT dt else BLIS_NAT in
  let cntx := resolve_cntx cntx im in
  let s := alias_locals a b c s in
  let s := orient_for_ukr cntx s in
  let s := bli_l3_set_schemas ref_a_local ref_b_local ref_c_local cntx s in
  let rntm_l :=
    bli_rntm_set_ways_for_op E BLIS_GEMM BLIS_LEFT
      (bli_obj_length (st_obj s ref_c_local)) (bli_obj_width (st_obj s ref_c_local))
      (bli_obj_width (st_obj s ref_a_local)) rntm_l in
  let '(schema_a, schema_b, s) := take_schemas s in
  let cntl := bli_gemm_cntl_create E BLIS_GEMMT schema_a schema_b (obj_ker_fn (st_obj s c)) in
  Returned (l3_thread_decorate alpha ref_a_local ref_b_local beta ref_c_local
              cntx cntl rntm_l s)).

(** *** [bli_her2k_ex], [bli_syr2k_ex], [bli_herk_ex], [bli_syrk_ex] *)

Definition bli_her2k_ex (alpha : scal R) (a b : objref) (beta : scal R) (c : objref)
    (cntx : option CN) (rntm : option RN) (s : State) : outcome State :=
  bind (l3_check (bli_her2k_check E alpha (st_obj s a) (st_obj s b) beta (st_obj s c) cntx))
  (fun _ =>
  let alphah := scal_toggle_conj alpha in
  let s := set_obj ref_ah
             (bli_obj_toggle_conj (bli_obj_toggle_trans (bli_obj_alias_to (st_obj s a)))) s in
  let s := set_obj ref_bh
             (bli_obj_toggle_conj (bli_obj_toggle_trans (bli_obj_alias_to (st_obj s b)))) s in
  (* invoke gemmt twice, using beta only the first time *)
  bind (bli_gemmt_ex alpha a ref_bh beta c cntx rntm s) (fun s =>
  bind (bli_gemmt_ex alphah b ref_ah (BLIS_ONE (ar E)) c cntx rntm s) (fun s =>
  Returned (set_mem (bli_setid (BLIS_ZERO (ar E)) (st_obj s c) (st_mem s)) s)))).

Definition bli_syr2k_ex (alpha : scal R) (a b : objref) (beta : scal R) (c : objref)
    (cntx : option CN) (rntm : option RN) (s : State) : outcome State :=
  bind (l3_check (bli_syr2k_check E alpha (st_obj s a) (st_obj s b) beta (st_obj s c) cntx))
  (fun _ =>
  let s := set_obj ref_at (bli_obj_toggle_trans (bli_obj_alias_to (st_obj s a))) s in
  let s := set_obj ref_bt (bli_obj_toggle_trans (bli_obj_alias_to (st_obj s b))) s in
  (* invoke gemmt twice, using beta only the first time *)
  bind (bli_gemmt_ex alpha a ref_bt beta c cntx rntm s) (fun s =>
  bli_gemmt_ex alpha b ref_at (BLIS_ONE (ar E)) c cntx rntm s)).

Definition bli_herk_ex (alpha : scal R) (a : objref) (beta : scal R) (c : objref)
    (cntx : option CN) (rntm : option RN) (s : State) : outcome State :=
  bind (l3_check (bli_herk_check E alpha (st_obj s a) beta (st_obj s c) cntx))
  (fun _ =>
  let s := set_obj ref_ah
             (bli_obj_toggle_conj (bli_obj_toggle_trans (bli_obj_alias_to (st_obj s a)))) s in
  bind (bli_gemmt_ex alpha a ref_ah beta c cntx rntm s) (fun s =>
  Returned (set_mem (bli_setid (BLIS_ZERO (ar E)) (st_obj s c) (st_mem s)) s))).

Definition bli_syrk_ex (alpha : scal R) (a : objref) (beta : scal R) (c : objref)
    (cntx : option CN) (rntm : option RN) (s : State) : outcome State :=
  bind (l3_check (bli_syrk_check E alpha (st_obj s a) beta (st_obj s c) cntx))
  (fun _ =>
  let s := set_obj ref_at (bli_obj_toggle_trans (bli_obj_alias_to (st_obj s a))) s in
  bli_gemmt_ex alpha a ref_at beta c cntx rntm s).

(** *** [bli_hemm_ex], [bli_symm_ex] *)

Definition bli_hemm_ex (side : side_t) (alpha : scal R) (a b : objref) (beta : scal R)
    (c : objref) (cntx : option CN) (rntm : option RN) (s : State) : outcome State :=
  bind (l3_check (bli_hemm_check E side alpha (st_obj s a) (st_obj s b) beta
                                 (st_obj s c) cntx))
  (fun _ =>
  let '(r, s) := bli_l3_return_early_if_trivial alpha a b beta c s in
  if err_is_success r then Returned s else
  let rntm_l := local_rntm rntm in
  let dt := obj_dt (st_obj s c) in
  let im := if num_t_eqb (obj_dt (st_obj s a)) (obj_dt (st_obj s c))
               && num_t_eqb (obj_dt (st_obj s b)) (obj_dt (st_obj s c))
               && bli_obj_is_complex (st_obj s c)
            then bli_ind_find_avail E BLIS_HEMM dt else BLIS_NAT in
  let cntx := resolve_cntx cntx im in
  let s := alias_locals a b c s in
  let '(side, s) :=
    if BLIS_DISABLE_HEMM_RIGHT E then
      (* cast right-side hemm in terms of the left side *)
      if bli_is_right side then (bli_toggle_side side, induce_trans_abc s)
      else (side, s)
    else
      let '(side, s) :=
        if bli_cntx_dislikes_storage_of E (st_obj s ref_c_local) cntx then
          (bli_toggle_side side,
           upd_obj ref_c_local bli_obj_induce_trans
             (upd_obj ref_b_local bli_obj_induce_trans
                (upd_obj ref_a_local bli_obj_toggle_conj s)))
        else (side, s) in
      if bli_is_right side then (side, bli_obj_swap ref_a_local ref_b_local s)
      else (side, s) in
  let s := bli_l3_set_schemas ref_a_local ref_b_local ref_c_local cntx s in
  let rntm_l :=
    bli_rntm_set_ways_for_op E BLIS_HEMM BLIS_LEFT
      (bli_obj_length (st_obj s ref_c_local)) (bli_obj_width (st_obj s ref_c_local))
      (bli_obj_width (st_obj s ref_a_local)) rntm_l in
  let '(schema_a, schema_b, s) := take_schemas s in
  let cntl := bli_gemm_cntl_create E BLIS_GEMM schema_a schema_b (obj_ker_fn (st_obj s c)) in
  Returned (l3_thread_decorate alpha ref_a_local ref_b_local beta ref_c_local
              cntx cntl rntm_l s)).

Definition bli_symm_ex (side : side_t) (alpha : scal R) (a b : objref) (beta : scal R)
    (c : objref) (cntx : option CN) (rntm : option RN) (s : State) : outcome State :=
  bind (l3_check (bli_symm_check E side alpha (st_obj s a) (st_obj s b) beta
                                 (st_obj s c) cntx))
  (fun _ =>
  let '(r, s) := bli_l3_return_early_if_trivial alpha a b beta c s in
  if err_is_success r then Returned s else
  let rntm_l := local_rntm rntm in
  let dt := obj_dt (st_obj s c) in
  let im := if num_t_eqb (obj_dt (st_obj s a)) (obj_dt (st_obj s c))
               && num_t_eqb (obj_dt (st_obj s b)) (obj_dt (st_obj s c))
               && bli_obj_is_complex (st_obj s c)
            then bli_ind_find_avail E BLIS_SYMM dt else BLIS_NAT in
  let cntx := resolve_cntx cntx im in
  let s := alias_locals a b c s in
  let '(side, s) :=
    if BLIS_DISABLE_SYMM_RIGHT E then
      (* cast right-side symm in terms of the left side *)
      if bli_is_right side then (bli_toggle_side side, induce_trans_abc s)
      else (side, s)
    else
      let '(side, s) :=
        if bli_cntx_dislikes_storage_of E (st_obj s ref_c_local) cntx then
          (bli_toggle_side side,
           upd_obj ref_c_local bli_obj_induce_trans
             (upd_obj ref_b_local bli_obj_induce_trans s))
        else (side, s) in
      if bli_is_right side then (side, bli_obj_swap ref_a_local ref_b_local s)
      else (side, s) in
  let s := bli_l3_set_schemas ref_a_local ref_b_local ref_c_local cntx s in
  let rntm_l :=
    bli_rntm_set_ways_for_op E BLIS_SYMM BLIS_LEFT
      (bli_obj_length (st_obj s ref_c_local)) (bli_obj_width (st_obj s ref_c_local))
      (bli_obj_width (st_obj s ref_a_local)) rntm_l in
  let '(schema_a, schema_b, s) := take_schemas s in
  let cntl := bli_gemm_cntl_create E BLIS_GEMM schema_a schema_b (obj_ker_fn (st_obj s c)) in
  Returned (l3_thread_decorate alpha ref_a_local ref_b_local beta ref_c_local
              cntx cntl rntm_l s)).

(** *** The triangular entry points *)

(** "If A is marked as needing a transposition, we simply induce a
    transposition": the step shared by trmm3, trmm and trsm. *)
Definition normalize_trans_a (s : State) : State :=
  if bli_obj_has_trans (st_obj s ref_a_local) then
    upd_obj ref_a_local (bli_obj_set_onlytrans BLIS_NO_TRANSPOSE)
      (upd_obj ref_a_local bli_obj_induce_trans s)
  else s.

(** The choice between casting the right side to the left one (under the
    build option [disable_right]) and running it natively. *)
Definition orient_triangular (disable_right : bool) (side : side_t) (cntx : CN)
    (s : State) : side_t * State :=
  if disable_right then
    if bli_is_right side then (bli_toggle_side side, induce_trans_abc s)
    else (side, s)
  else
    let '(side, s) :=
      if bli_cntx_dislikes_storage_of E (st_obj s ref_c_local) cntx
      then (bli_toggle_side side, induce_trans_abc s)
      else (side, s) in
    if bli_is_right side then (side, bli_obj_swap ref_a_local ref_b_local s)
    else (side, s).

Definition bli_trmm3_ex (side : side_t) (alpha : scal R) (a b : objref) (beta : scal R)
    (c : objref) (cntx : option CN) (rntm : option RN) (s : State) : outcome State :=
  bind (l3_check (bli_trmm3_check E side alpha (st_obj s a) (st_obj s b) beta
                                  (st_obj s c) cntx))
  (fun _ =>
  let '(r, s) := bli_l3_return_early_if_trivial alpha a b beta c s in
  if err_is_success r then Returned s else
  let rntm_l := local_rntm rntm in
  let dt := obj_dt (st_obj s c) in
  let im := if num_t_eqb (obj_dt (st_obj s a)) (obj_dt (st_obj s c))
               && num_t_eqb (obj_dt (st_obj s b)) (obj_dt (st_obj s c))
               && bli_obj_is_complex (st_obj s c)
            then bli_ind_find_avail E BLIS_TRMM3 dt else BLIS_NAT in
  let cntx := resolve_cntx cntx im in
  let s := alias_locals a b c s in
  let s := normalize_trans_a s in
  let '(side, s) := orient_triangular (BLIS_DISABLE_TRMM3_RIGHT E) side cntx s in
  let s := bli_l3_set_schemas ref_a_local ref_b_local ref_c_local cntx s in
  let rntm_l :=
    bli_rntm_set_ways_for_op E BLIS_TRMM3 side
      (bli_obj_length (st_obj s ref_c_local)) (bli_obj_width (st_obj s ref_c_local))
      (bli_obj_width (st_obj s ref_a_local)) rntm_l in
  let '(schema_a, schema_b, s) := take_schemas s in
  let cntl := bli_gemm_cntl_create E BLIS_TRMM schema_a schema_b
                (obj_ker_fn (st_obj s ref_c_local)) in
  Returned (l3_thread_decorate alpha ref_a_local ref_b_local beta ref_c_local
              cntx cntl rntm_l s)).

Definition bli_trmm_ex (side : side_t) (alpha : scal R) (a b : objref)
    (cntx : option CN) (rntm : option RN) (s : State) : outcome State :=
  bind (l3_check (bli_trmm_check E side alpha (st_obj s a) (st_obj s b) cntx))
  (fun _ =>
  let '(r, s) := bli_l3_return_early_if_trivial alpha a b (BLIS_ZERO (ar E)) b s in
  if err_is_success r then Returned s else
  let rntm_l := local_rntm rntm in
  let dt := obj_dt (st_obj s b) in
  let im := if num_t_eqb (obj_dt (st_obj s a)) (obj_dt (st_obj s b))
               && bli_obj_is_complex (st_obj s b)
            then bli_ind_find_avail E BLIS_TRMM dt else BLIS_NAT in
  let cntx := resolve_cntx cntx im in
  let s := alias_locals a b b s in
  let s := normalize_trans_a s in
  let '(side, s) := orient_triangular (BLIS_DISABLE_TRMM_RIGHT E) side cntx s in
  let s := bli_l3_set_schemas ref_a_local ref_b_local ref_c_local cntx s in
  let rntm_l :=
    bli_rntm_set_ways_for_op E BLIS_TRMM side
      (bli_obj_length (st_obj s ref_c_local)) (bli_obj_width (st_obj s ref_c_local))
      (bli_obj_width (st_obj s ref_a_local)) rntm_l in
  let '(schema_a, schema_b, s) := take_schemas s in
  let cntl := bli_gemm_cntl_create E BLIS_TRMM schema_a schema_b
                (obj_ker_fn (st_obj s ref_c_local)) in
  Returned (l3_thread_decorate alpha ref_a_local ref_b_local (BLIS_ZERO (ar E)) ref_c_local
              cntx cntl rntm_l s)).

Definition bli_trsm_ex (side : side_t) (alpha : scal R) (a b : objref)
    (cntx : option CN) (rntm : option RN) (s : State) : outcome State :=
  bind (l3_check (bli_trsm_check E side alpha (st_obj s a) (st_obj s b) cntx))
  (fun _ =>
  let '(r, s) := bli_l3_return_early_if_trivial alpha a b (BLIS_ZERO (ar E)) b s in
  if err_is_success r then Returned s else
  let rntm_l := local_rntm rntm in
  let dt := obj_dt (st_obj s b) in
  let im := if num_t_eqb (obj_dt (st_obj s a)) (obj_dt (st_obj s b))
               && bli_obj_is_complex (st_obj s b)
            then bli_ind_find_avail E BLIS_TRSM dt else BLIS_NAT in
  let cntx := resolve_cntx cntx im in
  let s := alias_locals a b b s in
  let s := normalize_trans_a s in
  (* #if 1: a right-side solve is always cast to the left side *)
  let '(side, s) :=
    if bli_is_right side then (bli_toggle_side side, induce_trans_abc s)
    else (side, s) in
  let s := bli_l3_set_schemas ref_a_local ref_b_local ref_c_local cntx s in
  let rntm_l :=
    bli_rntm_set_ways_for_op E BLIS_TRSM side
      (bli_obj_length (st_obj s ref_c_local)) (bli_obj_width (st_obj s ref_c_local))
      (bli_obj_width (st_obj s ref_a_local)) rntm_l in
  let '(schema_a, schema_b, s) := take_schemas s in
  let cntl := bli_trsm_cntl_create E
                (if bli_obj_is_triangular (st_obj s a) then BLIS_LEFT else BLIS_RIGHT)
                schema_a schema_b (obj_ker_fn (st_obj s ref_c_local)) in
  Returned (l3_thread_decorate alpha ref_a_local ref_b_local alpha ref_c_local
              cntx cntl rntm_l s)).

End L3.

(* ------------------------------------------------------------------ *)
(** ** Entry points grouped by signature *)

(** The entry points that take beta and a separate C. *)
Inductive beta_entry :=
| entry_gemm
| entry_gemmt
| entry_hemm (side : side_t)
| entry_symm (side : side_t)
| entry_trmm3 (side : side_t).

(** The triangular entry points; trmm3 alone takes beta and C. *)
Inductive tri_entry (R : Type) :=
| entry_tri_trmm3 (beta : scal R) (c : objref)
| entry_tri_trmm
| entry_tri_trsm.

Arguments entry_tri_trmm3 {R} beta c.
Arguments entry_tri_trmm {R}.
Arguments entry_tri_trsm {R}.

Section Entries.

Context {R CN RN CT : Type}.
Variable E : l3_env R CN RN CT.

Local Abbreviation State := (state R CN RN CT).

(** A parameter check lets the call through. *)
Definition check_passes (e : err_t) : Prop :=
  bli_error_checking_is_enabled E = false \/ e = BLIS_SUCCESS.

Definition beta_entry_run (op : beta_entry) (alpha : scal R) (a b : objref)
    (beta : scal R) (c : objref) (cntx : option CN) (rntm : option RN) (s : State)
  : outcome State :=
  match op with
  | entry_gemm => bli_gemm_ex E alpha a b beta c cntx rntm s
  | entry_gemmt => bli_gemmt_ex E alpha a b beta c cntx rntm s
  | entry_hemm side => bli_hemm_ex E side alpha a b beta c cntx rntm s
  | entry_symm side => bli_symm_ex E side alpha a b beta c cntx rntm s
  | entry_trmm3 side => bli_trmm3_ex E side alpha a b beta c cntx rntm s
  end.

(** The code the parameter check of an entry point reports. *)
Definition beta_entry_check (op : beta_entry) (alpha : scal R) (a b : obj_t R)
    (beta : scal R) (c : obj_t R) (cntx : option CN) : err_t :=
  match op with
  | entry_gemm => bli_gemm_check E alpha a b beta c cntx
  | entry_gemmt => bli_gemmt_check E alpha a b beta c cntx
  | entry_hemm side => bli_hemm_check E side alpha a b beta c cntx
  | entry_symm side => bli_symm_check E side alpha a b beta c cntx
  | entry_trmm3 side => bli_trmm3_check E side alpha a b beta c cntx
  end.

Definition tri_entry_run (op : tri_entry R) (side : side_t) (alpha : scal R)
    (a b : objref) (cntx : option CN) (rntm : option RN) (s : State) : outcome State :=
  match op with
  | entry_tri_trmm3 beta c => bli_trmm3_ex E side alpha a b beta c cntx rntm s
  | entry_tri_trmm => bli_trmm_ex E side alpha a b cntx rntm s
  | entry_tri_trsm => bli_trsm_ex E side alpha a b cntx rntm s
  end.

Definition tri_entry_check (op : tri_entry R) (side : side_t) (alpha : scal R)
    (a b : objref) (cntx : option CN) (s : State) : err_t :=
  match op with
  | entry_tri_trmm3 beta c =>
      bli_trmm3_check E side alpha (st_obj s a) (st_obj s b) beta (st_obj s c) cntx
  | entry_tri_trmm => bli_trmm_check E side alpha (st_obj s a) (st_obj s b) cntx
  | entry_tri_trsm => bli_trsm_check E side alpha (st_obj s a) (st_obj s b) cntx
  end.

(** The object a triangular entry point writes through, and the beta it
    hands to the trivial-case test. *)
Definition tri_entry_c (op : tri_entry R) (b : objref) : objref :=
  match op with
  | entry_tri_trmm3 _ c => c
  | _ => b
  end.

Definition tri_entry_beta (op : tri_entry R) : scal R :=
  match op with
  | entry_tri_trmm3 beta _ => beta
  | _ => BLIS_ZERO (ar E)
  end.

(** *** The rank-k operations as the spec words them

    "her2k and syr2k are two gemmt calls (the second with beta = 1); herk
    and syrk are one gemmt."  [X^H] and [X^T] are descriptors of the same
    buffer with the transposition (and conjugation) bits toggled; they are
    placed in the temporaries the calls read them from. *)

Definition obj_conjtrans (o : obj_t R) : obj_t R :=
  bli_obj_toggle_conj (bli_obj_toggle_trans o).

Definition obj_trans (o : obj_t R) : obj_t R := bli_obj_toggle_trans o.

Definition gemmt_twice (alpha1 : scal R) (a1 b1 : objref) (beta : scal R) (c : objref)
    (alpha2 : scal R) (a2 b2 : objref) (cntx : option CN) (rntm : option RN) (s : State)
  : outcome State :=
  bind (bli_gemmt_ex E alpha1 a1 b1 beta c cntx rntm s)
       (fun s1 => bli_gemmt_ex E alpha2 a2 b2 (BLIS_ONE (ar E)) c cntx rntm s1).

(** gemmt(alpha, A, B^H, beta, C) then gemmt(conj(alpha), B, A^H, 1, C) *)
Definition her2k_by_gemmt (alpha : scal R) (a b : objref) (beta : scal R) (c : objref)
    (cntx : option CN) (rntm : option RN) (s : State) : outcome State :=
  let s := set_obj ref_ah (obj_conjtrans (st_obj s a)) s in
  let s := set_obj ref_bh (obj_conjtrans (st_obj s b)) s in
  gemmt_twice alpha a ref_bh beta c (scal_toggle_conj alpha) b ref_ah cntx rntm s.

(** gemmt(alpha, A, B^T, beta, C) then gemmt(alpha, B, A^T, 1, C) *)
Definition syr2k_by_gemmt (alpha : scal R) (a b : objref) (beta : scal R) (c : objref)
    (cntx : option CN) (rntm : option RN) (s : State) : outcome State :=
  let s := set_obj ref_at (obj_trans (st_obj s a)) s in
  let s := set_obj ref_bt (obj_trans (st_obj s b)) s in
  gemmt_twice alpha a ref_bt beta c alpha b ref_at cntx rntm s.

(** gemmt(alpha, A, A^H, beta, C) *)
Definition herk_by_gemmt (alpha : scal R) (a : objref) (beta : scal R) (c : objref)
    (cntx : option CN) (rntm : option RN) (s : State) : outcome State :=
  let s := set_obj ref_ah (obj_conjtrans (st_obj s a)) s in
  bli_gemmt_ex E alpha a ref_ah beta c cntx rntm s.

(** gemmt(alpha, A, A^T, beta, C) *)
Definition syrk_by_gemmt (alpha : scal R) (a : objref) (beta : scal R) (c : objref)
    (cntx : option CN) (rntm : option RN) (s : State) : outcome State :=
  let s := set_obj ref_at (obj_trans (st_obj s a)) s in
  bli_gemmt_ex E alpha a ref_at beta c cntx rntm s.

(** The last step of the Hermitian rank-k entry points. *)
Definition zero_diag_imag (c : objref) (s : State) : outcome State :=
  Returned (set_mem (bli_setid E (BLIS_ZERO (ar E)) (st_obj s c) (st_mem s)) s).

End Entries.

(* ------------------------------------------------------------------ *)
(** ** The gemmt macro-kernel *)

Definition mem_store {R : Type} (m : mem R) (x : Z) (v : scomplex R) : mem R :=
  fun y => if Z.eqb y x then v else m y.

Inductive tile_loc := tile_inside | tile_on_diagonal | tile_outside.

(** The register blocksizes and the micro-kernel: the value it produces
    for element (i, j) of the C operand of a call, given the memory the
    micro-tile starts from. *)
Record gemmt_ker (R CN RN CT : Type) := {
  gk_mr : Z;
  gk_nr : Z;
  gk_ukr : l3_call R CN RN CT -> mem R -> Z -> Z -> scomplex R
}.

Arguments gk_mr {R CN RN CT} _.
Arguments gk_nr {R CN RN CT} _.
Arguments gk_ukr {R CN RN CT} _ _ _ _ _.

Section GemmtMacroKernel.

Context {R CN RN CT : Type}.
Variable G : gemmt_ker R CN RN CT.

(** The elements of the micro-tile at (i0, j0) that lie inside C. *)
Definition tile_elems (c : obj_t R) (i0 j0 : Z) : list (Z * Z) :=
  filter (fun ij => obj_in_bounds c (fst ij) (snd ij))
         (flat_map (fun dj => map (fun di => (i0 + di, j0 + dj)) (zrange (gk_mr G)))
                   (zrange (gk_nr G))).

(** Where a micro-tile lies relative to the stored triangle of C. *)
Definition gemmt_tile_loc (c : obj_t R) (elems : list (Z * Z)) : tile_loc :=
  if forallb (fun ij => obj_is_stored c (fst ij) (snd ij)) elems then tile_inside
  else if existsb (fun ij => obj_is_stored c (fst ij) (snd ij)) elems then tile_on_diagonal
  else tile_outside.

Definition gemmt_store_elems (call : l3_call R CN RN CT) (elems : list (Z * Z))
    (m : mem R) : mem R :=
  fold_left (fun acc ij =>
               mem_store acc (obj_addr (l3_c call) (fst ij) (snd ij))
                         (gk_ukr G call m (fst ij) (snd ij)))
            elems m.

(** Modelled from the spec: the gemmt macro-kernel (the macro-kernels are
    defined outside the files embedded here).  It "discriminates each micro-tile's
    location relative to the declared output triangle and either (a)
    computes and stores in place, (b) computes into a temporary and
    masked-stores, or (c) skips entirely". *)
Definition gemmt_tile (call : l3_call R CN RN CT) (i0 j0 : Z) (m : mem R) : mem R :=
  let c := l3_c call in
  let elems := tile_elems c i0 j0 in
  match gemmt_tile_loc c elems with
  | tile_inside => gemmt_store_elems call elems m
  | tile_on_diagonal =>
      gemmt_store_elems call
        (filter (fun ij => obj_is_stored c (fst ij) (snd ij)) elems) m
  | tile_outside => m
  end.

(** The origins of the blocks of size [blk] that cover [extent]. *)
Definition tile_origins (extent blk : Z) : list Z :=
  map (fun k => k * blk) (zrange ((extent + blk - 1) / blk)).

(** The JR loop around the IR loop around the micro-tile. *)
Definition gemmt_macro_kernel (call : l3_call R CN RN CT) (m : mem R) : mem R :=
  let c := l3_c call in
  fold_left
    (fun acc j0 =>
       fold_left (fun acc' i0 => gemmt_tile call i0 j0 acc')
                 (tile_origins (obj_m c) (gk_mr G)) acc)
    (tile_origins (obj_n c) (gk_nr G)) m.

End GemmtMacroKernel.

(* ------------------------------------------------------------------ *)
(** ** Geometry of the regions of a packed panel

    The quantities [packm_struc_cxk] computes for its three regions, named
    so that statements can refer to them. *)

Definition packm_panel_dim_r {Rp K P CN : Type} (E : packm_env Rp K P CN)
    (dt_p : num_t) (schema : pack_t) (ldp : Z) (params : P) : Z :=
  snd (fst (packm_struc_setup E dt_p schema ldp params)).

Definition packm_ldp_r {Rp K P CN : Type} (E : packm_env Rp K P CN)
    (dt_p : num_t) (schema : pack_t) (ldp : Z) (params : P) : Z :=
  snd (packm_struc_setup E dt_p schema ldp params).

Definition packm_p10_len_max (panel_len panel_len_max diagoffc : Z) : Z :=
  let p10_len := Z.min diagoffc panel_len in
  if p10_len =? panel_len then panel_len_max else p10_len.

(** The column [i] at which p12 starts. *)
Definition packm_p12_i (panel_dim diagoffc : Z) : Z := Z.max 0 (diagoffc + panel_dim).

Definition packm_p12_len (panel_dim panel_len diagoffc : Z) : Z :=
  panel_len - packm_p12_i panel_dim diagoffc.

Definition packm_p12_len_max (panel_dim panel_len panel_len_max diagoffc : Z) : Z :=
  packm_p12_len panel_dim panel_len diagoffc + (panel_len_max - panel_len).

(** Number of real columns a zero fill of [len_max] columns covers. *)
Definition packm_zero_cols (schema : pack_t) (len_max : Z) : Z :=
  len_max * (if bli_is_1m_packed schema then 2 else 1).

(** Whether a call is the zero-fill macro rather than a packing kernel. *)
Definition is_set0s (call : pack_call) : bool :=
  match call with Call_set0s _ _ _ _ _ => true | _ => false end.

(* ------------------------------------------------------------------ *)
(** ** Properties of packing kernels used as assumptions

    The packing kernels are supplied by the context.  The zero-fill
    property of the structured packer needs one fact about them: a kernel
    handed the panel pointer [p] writes nothing before [p]. *)

Definition pack_call_p (call : pack_call) : Z :=
  match call with
  | Call_cxk _ _ _ _ _ _ _ _ _ _ p _ => p
  | Call_cxc _ _ _ _ _ _ _ _ _ _ _ _ _ p _ => p
  | Call_set0s _ _ p _ _ => p
  end.

Definition kernel_writes_forward {Rp K P CN : Type}
    (ker : pack_call -> K -> P -> CN -> pbuf Rp -> pbuf Rp) : Prop :=
  forall call kappa params cntx b x,
    x < pack_call_p call -> ker call kappa params cntx b x = b x.

Definition kernels_write_forward {Rp K P CN : Type} (E : packm_env Rp K P CN) : Prop :=
  forall dt_c dt_p id cntx,
    kernel_writes_forward (cntx_get_cxk E dt_c dt_p id cntx)
    /\ kernel_writes_forward (cntx_get_cxc E dt_c dt_p id cntx).

(** Modelled from the spec: the general packing kernel pads the long axis
    of the panel it is handed with zeros, from [panel_len] to
    [panel_len_max] (spec, general packing: "the long axis is padded with
    zeros to [panel_len_max] at the final partial block"; the kernels are
    looked up in the context and lie outside the files embedded here).
    The padding is addressed the way the zero fill of the packer addresses
    its region: rows of [ctypep_r] elements at unit stride, columns at the
    stride [ldp_r], and twice as many columns under the 1m schemas. *)
Definition kernels_pad_with_zeros {Rp K P CN : Type} (E : packm_env Rp K P CN) : Prop :=
  forall dt_c dt_p id cntx conjc schema panel_dim panel_dim_max panel_bcast
         panel_len panel_len_max c incc ldc p ldp kappa params cx b r j,
    0 <= r < packm_panel_dim_r E dt_p schema ldp params ->
    packm_zero_cols schema panel_len <= j < packm_zero_cols schema panel_len_max ->
    cntx_get_cxk E dt_c dt_p id cntx
      (Call_cxk conjc schema panel_dim panel_dim_max panel_bcast
                panel_len panel_len_max c incc ldc p ldp)
      kappa params cx b (p + r * 1 + j * packm_ldp_r E dt_p schema ldp params)
    = rp_zero E.

(** Elements of an object occupy pairwise distinct addresses. *)
Definition obj_addr_injective {R : Type} (o : obj_t R) : Prop :=
  forall i j i' j',
    obj_in_bounds o i j = true -> obj_in_bounds o i' j' = true ->
    obj_addr o i j = obj_addr o i' j' -> i = i' /\ j = j'.

(* ------------------------------------------------------------------ *)
(** ** Concrete instances, used to exercise the statements

    Exact integer arithmetic stands in for the machine reals. *)

Definition Z_arith : arith Z :=
  {| rzero := 0; rone := 1; radd := Z.add; rsub := Z.sub; rmul := Z.mul; rneg := Z.opp |}.

Definition scal_Z (re im : Z) : scal Z :=
  {| sc_value := {| real := re; imag := im |}; sc_conj := BLIS_NO_CONJUGATE |}.

Definition scal_eqb_Z (x y : scal Z) : bool :=
  (real (scal_val Z_arith x) =? real (scal_val Z_arith y))
  && (imag (scal_val Z_arith x) =? imag (scal_val Z_arith y)).

(** A column-major m x n object at a buffer address. *)
Definition demo_obj (buffer m n : Z) (dt comp_dt : num_t) (struc : struc_t) (uplo : uplo_t)
    (trans : trans_t) : obj_t Z :=
  {| obj_buffer := buffer; obj_offm := 0; obj_offn := 0;
     obj_m := m; obj_n := n; obj_diag_off := 0; obj_rs := 1; obj_cs := m;
     obj_dt := dt; obj_target_dt := dt; obj_exec_dt := dt; obj_comp_dt := comp_dt;
     obj_struc := struc; obj_uplo := uplo; obj_diag := BLIS_NONUNIT_DIAG;
     obj_onlytrans := trans; obj_conj := BLIS_NO_CONJUGATE;
     obj_pack_schema := BLIS_NOT_PACKED;
     obj_scalar := cone Z_arith; obj_ker_fn := 0 |}.

(** An environment with error checking on and every check passing, no
    small-matrix path, native execution, a micro-kernel that likes every
    storage, and the given build options and back-end. *)
Definition demo_env (md extra_mem : bool)
    (decorator : l3_call Z unit unit unit -> mem Z -> mem Z) : l3_env Z unit unit unit :=
  {| ar := Z_arith;
     bli_error_checking_is_enabled := true;
     bli_gemm_check := fun _ _ _ _ _ _ => BLIS_SUCCESS;
     bli_gemmt_check := fun _ _ _ _ _ _ => BLIS_SUCCESS;
     bli_her2k_check := fun _ _ _ _ _ _ => BLIS_SUCCESS;
     bli_syr2k_check := fun _ _ _ _ _ _ => BLIS_SUCCESS;
     bli_hemm_check := fun _ _ _ _ _ _ _ => BLIS_SUCCESS;
     bli_symm_check := fun _ _ _ _ _ _ _ => BLIS_SUCCESS;
     bli_trmm3_check := fun _ _ _ _ _ _ _ => BLIS_SUCCESS;
     bli_herk_check := fun _ _ _ _ _ => BLIS_SUCCESS;
     bli_syrk_check := fun _ _ _ _ _ => BLIS_SUCCESS;
     bli_trmm_check := fun _ _ _ _ _ => BLIS_SUCCESS;
     bli_trsm_check := fun _ _ _ _ _ => BLIS_SUCCESS;
     bli_obj_equals := scal_eqb_Z;
     bli_gemmsup := fun _ _ _ _ _ _ _ _ => None;
     bli_rntm_init_from_global := tt;
     bli_ind_find_avail := fun _ _ => BLIS_NAT;
     bli_gks_query_ind_cntx := fun _ => tt;
     bli_cntx_dislikes_storage_of := fun _ _ => false;
     l3_schema_a := fun _ => BLIS_PACKED_ROW_PANELS;
     l3_schema_b := fun _ => BLIS_PACKED_COL_PANELS;
     BLIS_ENABLE_GEMM_MD := md;
     BLIS_ENABLE_GEMM_MD_EXTRA_MEM := extra_mem;
     BLIS_DISABLE_HEMM_RIGHT := false;
     BLIS_DISABLE_SYMM_RIGHT := false;
     BLIS_DISABLE_TRMM_RIGHT := false;
     BLIS_DISABLE_TRMM3_RIGHT := false;
     bli_gemm_md := fun a b _ c cntx => (a, b, c, cntx);
     bli_gemm_md_is_ccr := fun _ _ _ => false;
     bli_gemm_md_is_crc := fun _ _ _ => false;
     bli_gemm_md_is_crr := fun _ _ _ => false;
     typecast := fun _ v => v;
     bli_rntm_set_ways_for_op := fun _ _ _ _ _ r => r;
     bli_obj_create := fun dt m n rs cs _ =>
       {| obj_buffer := 1000; obj_offm := 0; obj_offn := 0;
          obj_m := m; obj_n := n; obj_diag_off := 0; obj_rs := rs; obj_cs := cs;
          obj_dt := dt; obj_target_dt := dt; obj_exec_dt := dt; obj_comp_dt := dt;
          obj_struc := BLIS_GENERAL; obj_uplo := BLIS_DENSE;
          obj_diag := BLIS_NONUNIT_DIAG;
          obj_onlytrans := BLIS_NO_TRANSPOSE; obj_conj := BLIS_NO_CONJUGATE;
          obj_pack_schema := BLIS_NOT_PACKED;
          obj_scalar := cone Z_arith; obj_ker_fn := 0 |};
     bli_xpbym := fun _ _ _ m => m;
     bli_gemm_cntl_create := fun _ _ _ _ => tt;
     bli_trsm_cntl_create := fun _ _ _ _ => tt;
     bli_l3_thread_decorator := decorator |}.

(** A back-end that leaves memory alone. *)
Definition idle_decorator : l3_call Z unit unit unit -> mem Z -> mem Z := fun _ m => m.

(** The caller owns A, B and C at places 0, 1 and 2. *)
Definition demo_state (A B C : obj_t Z) (m : mem Z) : state Z unit unit unit :=
  {| st_obj := fun r =>
       match r with
       | caller_obj 0 => A
       | caller_obj 1 => B
       | _ => C
       end;
     st_mem := m;
     st_calls := [] |}.

(** Memory holding [1 + i] at every address. *)
Definition demo_mem : mem Z := fun _ => {| real := 1; imag := 1 |}.

Definition demo_A : obj_t Z :=
  demo_obj 100 1 1 BLIS_DCOMPLEX BLIS_DCOMPLEX BLIS_GENERAL BLIS_DENSE BLIS_NO_TRANSPOSE.

Definition demo_B : obj_t Z :=
  demo_obj 200 1 1 BLIS_DCOMPLEX BLIS_DCOMPLEX BLIS_GENERAL BLIS_DENSE BLIS_NO_TRANSPOSE.

(** A 1x1 Hermitian C stored at address 0. *)
Definition demo_C1 : obj_t Z :=
  demo_obj 0 1 1 BLIS_DCOMPLEX BLIS_DCOMPLEX BLIS_HERMITIAN BLIS_LOWER BLIS_NO_TRANSPOSE.

(** A 2x2 general C at addresses 0..3. *)
Definition demo_C2 : obj_t Z :=
  demo_obj 0 2 2 BLIS_DCOMPLEX BLIS_DCOMPLEX BLIS_GENERAL BLIS_DENSE BLIS_NO_TRANSPOSE.

(** A 2x2 C of which the lower triangle is stored. *)
Definition demo_C2_lower : obj_t Z :=
  demo_obj 0 2 2 BLIS_DCOMPLEX BLIS_DCOMPLEX BLIS_GENERAL BLIS_LOWER BLIS_NO_TRANSPOSE.

(** A single-precision complex C whose computation precision is double. *)
Definition demo_C_mixed : obj_t Z :=
  demo_obj 0 1 1 BLIS_SCOMPLEX BLIS_DCOMPLEX BLIS_GENERAL BLIS_DENSE BLIS_NO_TRANSPOSE.

(** A 2x2 lower triangular A marked for transposition, and a 2x2 B. *)
Definition demo_A_tri_trans : obj_t Z :=
  demo_obj 100 2 2 BLIS_DCOMPLEX BLIS_DCOMPLEX BLIS_TRIANGULAR BLIS_LOWER BLIS_TRANSPOSE.

Definition demo_A_tri : obj_t Z :=
  demo_obj 100 2 2 BLIS_DCOMPLEX BLIS_DCOMPLEX BLIS_TRIANGULAR BLIS_LOWER BLIS_NO_TRANSPOSE.

Definition demo_B2 : obj_t Z :=
  demo_obj 0 2 2 BLIS_DCOMPLEX BLIS_DCOMPLEX BLIS_GENERAL BLIS_DENSE BLIS_NO_TRANSPOSE.

(** A gemmt micro-kernel on 1x1 tiles that produces [7 + 0i] everywhere. *)
Definition demo_gemmt_ker : gemmt_ker Z unit unit unit :=
  {| gk_mr := 1; gk_nr := 1; gk_ukr := fun _ _ _ _ => {| real := 7; imag := 0 |} |}.

(** Blocksizes MR = NR = 4, MC = KC = NC = 8, unchanged by the KC
    adjustment. *)
Definition demo_cntl_env : cntl_env Z unit :=
  {| bli_cntx_get_blksz_def_dt := fun _ id _ =>
       match id with BLIS_MR | BLIS_NR | BLIS_KR => 4 | _ => 8 end;
     bli_cntx_get_blksz_max_dt := fun _ id _ =>
       match id with BLIS_MR | BLIS_NR | BLIS_KR => 4 | _ => 8 end;
     bli_l3_adjust_kc := fun _ _ _ alg mx _ => (alg, mx);
     BLIS_ENABLE_TRSM_PREINVERSION := true |}.

Definition empty_part_cntl : part_cntl_t :=
  bli_part_cntl_init_node NULL_fp 0 0 0 BLIS_FWD false.

Definition empty_packm_cntl : packm_def_cntl_t :=
  bli_packm_def_cntl_init_node NULL_fp BLIS_FLOAT BLIS_FLOAT BLIS_MR BLIS_MR
    false false false BLIS_NOT_PACKED BLIS_BUFFER_FOR_A_BLOCK.

(** A [trsm_cntl_t] before initialisation. *)
Definition empty_trsm_cntl : trsm_cntl_t :=
  {| t_part_jc := empty_part_cntl; t_part_pc := empty_part_cntl;
     t_pack_b := empty_packm_cntl; t_part_ic := empty_part_cntl;
     t_pack_a_trsm := empty_packm_cntl; t_part_jr_trsm := empty_part_cntl;
     t_part_ir_trsm := empty_part_cntl; t_pack_a_gemm := empty_packm_cntl;
     t_part_jr_gemm := empty_part_cntl; t_part_ir_gemm := empty_part_cntl |}.

Definition demo_B_tri_lower : obj_t Z :=
  demo_obj 200 2 2 BLIS_DCOMPLEX BLIS_DCOMPLEX BLIS_TRIANGULAR BLIS_LOWER BLIS_NO_TRANSPOSE.

Definition demo_A_tri_upper : obj_t Z :=
  demo_obj 100 2 2 BLIS_DCOMPLEX BLIS_DCOMPLEX BLIS_TRIANGULAR BLIS_UPPER BLIS_NO_TRANSPOSE.

(** Packing kernels that mark the first element of the panel they get,
    MR = 4, and a remapping that swaps the two strides. *)
Definition demo_packm_env : packm_env Z unit unit unit :=
  {| rp_zero := 0;
     bli_packm_def_cntl_bmult_m_def := fun _ => 4;
     bli_reflect_to_stored_part := fun diagoff c incc ldc =>
       (c + diagoff * (ldc - incc), ldc, incc);
     cntx_get_cxk := fun _ _ _ _ call _ _ _ b => pbuf_store b (pack_call_p call) 7;
     cntx_get_cxc := fun _ _ _ _ call _ _ _ b => pbuf_store b (pack_call_p call) 9 |}.

(** A pack buffer full of ones. *)
Definition demo_pbuf : pbuf Z := fun _ => 1.

(** The same environment with a general packing kernel that also pads:
    it marks the first element of its panel and then zeroes the columns
    from [panel_len] to [panel_len_max]. *)
Definition demo_pad_cxk (dt_p : num_t) (call : pack_call) (params : unit) (b : pbuf Z)
  : pbuf Z :=
  match call with
  | Call_cxk _ schema _ _ _ panel_len panel_len_max _ _ _ p ldp =>
      let ldp_r := packm_ldp_r demo_packm_env dt_p schema ldp params in
      set0s_mxn 0 (packm_panel_dim_r demo_packm_env dt_p schema ldp params)
        (packm_zero_cols schema panel_len_max - packm_zero_cols schema panel_len)
        (p + packm_zero_cols schema panel_len * ldp_r) 1 ldp_r
        (pbuf_store b p 7)
  | _ => b
  end.

Definition demo_packm_pad_env : packm_env Z unit unit unit :=
  {| rp_zero := 0;
     bli_packm_def_cntl_bmult_m_def := fun _ => 4;
     bli_reflect_to_stored_part := fun diagoff c incc ldc =>
       (c + diagoff * (ldc - incc), ldc, incc);
     cntx_get_cxk := fun _ dt_p _ _ call _ params _ b => demo_pad_cxk dt_p call params b;
     cntx_get_cxc := fun _ _ _ _ call _ _ _ b => pbuf_store b (pack_call_p call) 9 |}.








(* ------------------------------------------------------------------ *)
(** ** The Hermitian eigenvalue drivers, [f2c_zheev.c] and [f2c_cheev.c]

    [f2c_zheev_] and [f2c_cheev_] are the same program text up to the
    precision of the reals, the names of the routines they call and the
    two routine names they pass as strings.  The reals are a type [F]
    with the operations the drivers use.

    Integers are [bla_integer], the Fortran INTEGER of the BLAS layer.  Its
    declaration lies outside the files embedded here; it is a signed
    integer of 32 or 64 bits, by the choice of the build.  A value is kept
    in [Z] and every arithmetic operation of the drivers is followed by
    the wrap-around of two's complement, [bla_wrap].

    The arrays [a], [w], [work] and [rwork] are maps from the offset, in
    elements, from the pointer the caller passed.  The drivers begin with
    the "parameter adjustments" [a -= a_offset; --w; --work; --rwork;], so
    that an access [a[k]] reads offset [k - a_offset] of the caller's
    array and [w[k]], [work[k]], [rwork[k]] read offset [k - 1]. *)

Inductive bla_int_size := BLA_INT32 | BLA_INT64.

Definition bla_int_bits (sz : bla_int_size) : Z :=
  match sz with BLA_INT32 => 32 | BLA_INT64 => 64 end.

(** The value a [bla_integer] holds after an operation whose exact result
    is [z]. *)
Definition bla_wrap (sz : bla_int_size) (z : Z) : Z :=
  let h := 2 ^ (bla_int_bits sz - 1) in
  (z + h) mod (2 * h) - h.

(** [z] is a value of [bla_integer]. *)
Definition bla_int_fits (sz : bla_int_size) (z : Z) : Prop :=
  - 2 ^ (bla_int_bits sz - 1) <= z < 2 ^ (bla_int_bits sz - 1).

Record heev_arrays (F : Type) := {
  hv_a : Z -> scomplex F;
  hv_w : Z -> F;
  hv_work : Z -> scomplex F;
  hv_rwork : Z -> F
}.

Arguments hv_a {F} _ _.
Arguments hv_w {F} _ _.
Arguments hv_work {F} _ _.
Arguments hv_rwork {F} _ _.

(** The calls a driver makes to routines with effects, with the scalar
    arguments they receive; an array argument [&x[k]] is recorded as the
    index [k]. *)
Inductive heev_call (F : Type) :=
| Call_xerbla (srname : string) (info : Z)
| Call_lanhe (norm uplo : ascii) (n lda : Z) (work : Z)
| Call_lascl (type : ascii) (kl ku : Z) (cfrom cto : F) (m n lda : Z)
| Call_hetrd (uplo : ascii) (n lda : Z) (e tau work lwork : Z)
| Call_sterf (n : Z) (e : Z)
| Call_ungtr (uplo : ascii) (n lda : Z) (tau work lwork : Z)
| Call_steqr (compz : ascii) (n : Z) (e : Z) (ldz : Z) (work : Z)
| Call_scal (n : Z) (alpha : F) (incx : Z).

Arguments Call_xerbla {F} srname info.
Arguments Call_lanhe {F} norm uplo n lda work.
Arguments Call_lascl {F} type kl ku cfrom cto m n lda.
Arguments Call_hetrd {F} uplo n lda e tau work lwork.
Arguments Call_sterf {F} n e.
Arguments Call_ungtr {F} uplo n lda tau work lwork.
Arguments Call_steqr {F} compz n e ldz work.
Arguments Call_scal {F} n alpha incx.

(** What a driver leaves behind: the arrays, [*info] and the calls it
    made, in program order. *)
Record heev_state (F : Type) := {
  hs_arr : heev_arrays F;
  hs_info : Z;
  hs_trace : list (heev_call F)
}.

Arguments hs_arr {F} _.
Arguments hs_info {F} _.
Arguments hs_trace {F} _.

(** The arithmetic of the reals and the routines that live outside these
    sources.  [heev_lanhe] is [f2c_zlanhe_] or [f2c_clanhe_], and likewise
    [heev_lascl], [heev_hetrd], [heev_ungtr] and [heev_steqr];
    [heev_sterf] is [f2c_dsterf_] or [f2c_ssterf_], [heev_scal] is
    [dscal_] or [sscal_], [bla_lamch_] is [bla_dlamch_] or [bla_slamch_].
    A routine that is handed [info] receives the value [*info] holds and
    yields the value it leaves there; one that is handed the local
    [iinfo] yields the value it leaves in it.  [bla_integer_size] is the
    width the build gives [bla_integer]. *)
Record heev_env (F : Type) := {
  bla_integer_size : bla_int_size;
  fzero : F;
  fone : F;
  f_of_int : Z -> F;
  fdiv : F -> F -> F;
  fsqrt : F -> F;
  flt : F -> F -> bool;
  bla_lsame_ : ascii -> ascii -> bool;
  f2c_ilaenv_ : Z -> string -> ascii -> Z -> Z -> Z -> Z -> Z;
  bla_lamch_ : string -> F;
  heev_lanhe : ascii -> ascii -> Z -> Z -> Z -> heev_arrays F -> F * heev_arrays F;
  heev_lascl : ascii -> Z -> Z -> F -> F -> Z -> Z -> Z -> Z -> heev_arrays F ->
               heev_arrays F * Z;
  heev_hetrd : ascii -> Z -> Z -> Z -> Z -> Z -> Z -> heev_arrays F -> heev_arrays F * Z;
  heev_sterf : Z -> Z -> Z -> heev_arrays F -> heev_arrays F * Z;
  heev_ungtr : ascii -> Z -> Z -> Z -> Z -> Z -> heev_arrays F -> heev_arrays F * Z;
  heev_steqr : ascii -> Z -> Z -> Z -> Z -> Z -> heev_arrays F -> heev_arrays F * Z;
  heev_scal : Z -> F -> Z -> heev_arrays F -> heev_arrays F
}.

Arguments bla_integer_size {F} _.
Arguments fzero {F} _.
Arguments fone {F} _.
Arguments f_of_int {F} _ _.
Arguments fdiv {F} _ _ _.
Arguments fsqrt {F} _ _.
Arguments flt {F} _ _ _.
Arguments bla_lsame_ {F} _ _ _.
Arguments f2c_ilaenv_ {F} _ _ _ _ _ _ _ _.
Arguments bla_lamch_ {F} _ _.
Arguments heev_lanhe {F} _ _ _ _ _ _ _.
Arguments heev_lascl {F} _ _ _ _ _ _ _ _ _ _ _.
Arguments heev_hetrd {F} _ _ _ _ _ _ _ _ _.
Arguments heev_sterf {F} _ _ _ _ _.
Arguments heev_ungtr {F} _ _ _ _ _ _ _ _.
Arguments heev_steqr {F} _ _ _ _ _ _ _ _.
Arguments heev_scal {F} _ _ _ _ _.

(** Stores through the adjusted pointers. *)
Definition store_a {F : Type} (m : heev_arrays F) (x : Z) (v : scomplex F) : heev_arrays F :=
  {| hv_a := fun y => if Z.eqb y x then v else hv_a m y;
     hv_w := hv_w m; hv_work := hv_work m; hv_rwork := hv_rwork m |}.

Definition store_w {F : Type} (m : heev_arrays F) (x : Z) (v : F) : heev_arrays F :=
  {| hv_a := hv_a m;
     hv_w := fun y => if Z.eqb y x then v else hv_w m y;
     hv_work := hv_work m; hv_rwork := hv_rwork m |}.

Definition store_work {F : Type} (m : heev_arrays F) (x : Z) (v : scomplex F)
  : heev_arrays F :=
  {| hv_a := hv_a m; hv_w := hv_w m;
     hv_work := fun y => if Z.eqb y x then v else hv_work m y;
     hv_rwork := hv_rwork m |}.

Section Heev.

Context {F : Type}.
Variable E : heev_env F.

Local Abbreviation wrap := (bla_wrap (bla_integer_size E)).

(** The body shared by the two drivers; [srname] is the name handed to
    [xerbla_] and [trdname] the one handed to [f2c_ilaenv_].  The result is
    the value returned and the state left.  An index into an array is
    the offset from the adjusted pointer, which is pointer arithmetic and
    does not wrap. *)
Definition f2c_heev (srname trdname : string) (jobz uplo : ascii) (n lda lwork : Z)
    (m : heev_arrays F) : Z * heev_state F :=
  (* parameter adjustments *)
  let a_dim1 := lda in
  let a_offset := wrap (1 + a_dim1) in
  (* test the input parameters *)
  let wantz := bla_lsame_ E jobz "V" in
  let lower := bla_lsame_ E uplo "L" in
  let lquery := lwork =? -1 in
  let info := 0 in
  let info :=
    if negb (wantz || bla_lsame_ E jobz "N") then -1
    else if negb (lower || bla_lsame_ E uplo "U") then -2
    else if n <? 0 then -3
    else if lda <? Z.max 1 n then -5
    else info in
  (* lwkopt is set on the path on which it is read later *)
  let '(info, lwkopt, m) :=
    if info =? 0 then
      let nb := f2c_ilaenv_ E 1 trdname uplo n (-1) (-1) (-1) in
      let lwkopt := Z.max 1 (wrap (wrap (nb + 1) * n)) in
      let m := store_work m (1 - 1) {| real := f_of_int E lwkopt; imag := fzero E |} in
      let info :=
        if (lwork <? Z.max 1 (wrap (wrap (Z.shiftl n 1) - 1))) && negb lquery
        then -8 else info in
      (info, lwkopt, m)
    else (info, 0, m) in
  if negb (info =? 0) then
    let i__1 := wrap (- info) in
    (0, {| hs_arr := m; hs_info := info; hs_trace := [Call_xerbla srname i__1] |})
  else if lquery then
    (0, {| hs_arr := m; hs_info := info; hs_trace := [] |})
  (* quick return if possible *)
  else if n =? 0 then
    (0, {| hs_arr := m; hs_info := info; hs_trace := [] |})
  else if n =? 1 then
    let i__1 := wrap (a_dim1 + 1) in
    let m := store_w m (1 - 1) (real (hv_a m (i__1 - a_offset))) in
    let m := store_work m (1 - 1) {| real := fone E; imag := fzero E |} in
    let m :=
      if wantz then
        let i__1 := wrap (a_dim1 + 1) in
        store_a m (i__1 - a_offset) {| real := fone E; imag := fzero E |}
      else m in
    (0, {| hs_arr := m; hs_info := info; hs_trace := [] |})
  else
  (* get machine constants *)
  let safmin := bla_lamch_ E "Safe minimum" in
  let eps := bla_lamch_ E "Precision" in
  let smlnum := fdiv E safmin eps in
  let bignum := fdiv E (fone E) smlnum in
  let rmin := fsqrt E smlnum in
  let rmax := fsqrt E bignum in
  (* scale matrix to allowable range, if necessary *)
  let '(anrm, m) := heev_lanhe E "M" uplo n lda 1 m in
  let t := [Call_lanhe "M" uplo n lda 1] in
  let iscale := 0 in
  (* sigma is set on the paths on which iscale becomes 1 *)
  let '(iscale, sigma) :=
    if flt E (fzero E) anrm && flt E anrm rmin then (1, fdiv E rmin anrm)
    else if flt E rmax anrm then (1, fdiv E rmax anrm)
    else (iscale, fzero E) in
  let '(m, info, t) :=
    if iscale =? 1 then
      let '(m, info) := heev_lascl E uplo 0 0 (fone E) sigma n n lda info m in
      (m, info, t ++ [Call_lascl uplo 0 0 (fone E) sigma n n lda])
    else (m, info, t) in
  (* reduce the Hermitian matrix to tridiagonal form *)
  let inde := 1 in
  let indtau := 1 in
  let indwrk := wrap (indtau + n) in
  let llwork := wrap (wrap (lwork - indwrk) + 1) in
  let '(m, iinfo) := heev_hetrd E uplo n lda inde indtau indwrk llwork m in
  let t := t ++ [Call_hetrd uplo n lda inde indtau indwrk llwork] in
  (* for eigenvalues only, sterf; for eigenvectors, ungtr and then steqr *)
  let '(m, info, t) :=
    if negb wantz then
      let '(m, info) := heev_sterf E n inde info m in
      (m, info, t ++ [Call_sterf n inde])
    else
      let '(m, iinfo) := heev_ungtr E uplo n lda indtau indwrk llwork m in
      let t := t ++ [Call_ungtr uplo n lda indtau indwrk llwork] in
      let indwrk := wrap (inde + n) in
      let '(m, info) := heev_steqr E jobz n inde lda indwrk info m in
      (m, info, t ++ [Call_steqr jobz n inde lda indwrk]) in
  (* if the matrix was scaled, rescale the eigenvalues *)
  let '(m, t) :=
    if iscale =? 1 then
      let imax := if info =? 0 then n else wrap (info - 1) in
      let d__1 := fdiv E (fone E) sigma in
      (heev_scal E imax d__1 1 m, t ++ [Call_scal imax d__1 1])
    else (m, t) in
  (* set WORK(1) to the optimal workspace size *)
  let m := store_work m (1 - 1) {| real := f_of_int E lwkopt; imag := fzero E |} in
  (0, {| hs_arr := m; hs_info := info; hs_trace := t |}).

Definition f2c_zheev_ (jobz uplo : ascii) (n lda lwork : Z) (m : heev_arrays F)
  : Z * heev_state F :=
  f2c_heev "ZHEEV " "ZHETRD" jobz uplo n lda lwork m.

Definition f2c_cheev_ (jobz uplo : ascii) (n lda lwork : Z) (m : heev_arrays F)
  : Z * heev_state F :=
  f2c_heev "CHEEV " "CHETRD" jobz uplo n lda lwork m.

End Heev.

(** The argument tests of the drivers, named for the statements. *)
Definition heev_jobz_ok {F : Type} (E : heev_env F) (jobz : ascii) : bool :=
  bla_lsame_ E jobz "V" || bla_lsame_ E jobz "N".

Definition heev_uplo_ok {F : Type} (E : heev_env F) (uplo : ascii) : bool :=
  bla_lsame_ E uplo "L" || bla_lsame_ E uplo "U".

(** The first four tests pass. *)
Definition heev_args_ok {F : Type} (E : heev_env F) (jobz uplo : ascii) (n lda : Z) : Prop :=
  heev_jobz_ok E jobz = true /\ heev_uplo_ok E uplo = true /\ 0 <= n /\ Z.max 1 n <= lda.

(** The workspace size the drivers report in [WORK(1)], [max(1, (nb + 1) * n)]
    as [bla_integer] arithmetic yields it. *)
Definition heev_lwkopt {F : Type} (E : heev_env F) (trdname : string) (uplo : ascii) (n : Z)
  : Z :=
  let wrap := bla_wrap (bla_integer_size E) in
  Z.max 1 (wrap (wrap (f2c_ilaenv_ E 1 trdname uplo n (-1) (-1) (-1) + 1) * n)).

(** The least workspace the drivers accept, [max(1, 2n - 1)] as
    [bla_integer] arithmetic yields it. *)
Definition heev_lwmin {F : Type} (E : heev_env F) (n : Z) : Z :=
  let wrap := bla_wrap (bla_integer_size E) in
  Z.max 1 (wrap (wrap (Z.shiftl n 1) - 1)).

(** Whether the matrix is scaled, and by what factor: a norm below the
    square root of [safmin / eps] is brought up to it, one above the
    square root of the inverse of that is brought down to it.  The factor
    is used only when the flag is 1. *)
Definition heev_scaling {F : Type} (E : heev_env F) (anrm : F) : Z * F :=
  let smlnum := fdiv E (bla_lamch_ E "Safe minimum") (bla_lamch_ E "Precision") in
  let rmin := fsqrt E smlnum in
  let rmax := fsqrt E (fdiv E (fone E) smlnum) in
  if flt E (fzero E) anrm && flt E anrm rmin then (1, fdiv E rmin anrm)
  else if flt E rmax anrm then (1, fdiv E rmax anrm)
  else (0, fzero E).

(** The two drivers by name. *)
Inductive heev_driver := ZHEEV | CHEEV.

Definition heev_srname (d : heev_driver) : string :=
  match d with ZHEEV => "ZHEEV " | CHEEV => "CHEEV " end.

Definition heev_trdname (d : heev_driver) : string :=
  match d with ZHEEV => "ZHETRD" | CHEEV => "CHETRD" end.

Definition heev_run {F : Type} (E : heev_env F) (d : heev_driver)
    (jobz uplo : ascii) (n lda lwork : Z) (m : heev_arrays F) : Z * heev_state F :=
  match d with
  | ZHEEV => f2c_zheev_ E jobz uplo n lda lwork m
  | CHEEV => f2c_cheev_ E jobz uplo n lda lwork m
  end.

(** An environment for the drivers over exact integers: a 32-bit
    [bla_integer], character comparison by equality, a block size of 32
    from [f2c_ilaenv_], unit machine constants, and routines that leave
    the arrays alone, report success and find a norm of 1. *)
Definition demo_heev_env : heev_env Z :=
  {| bla_integer_size := BLA_INT32;
     fzero := 0; fone := 1; f_of_int := fun k => k;
     fdiv := Z.div; fsqrt := Z.sqrt; flt := Z.ltb;
     bla_lsame_ := Ascii.eqb;
     f2c_ilaenv_ := fun _ _ _ _ _ _ _ => 32;
     bla_lamch_ := fun _ => 1;
     heev_lanhe := fun _ _ _ _ _ m => (1, m);
     heev_lascl := fun _ _ _ _ _ _ _ _ _ m => (m, 0);
     heev_hetrd := fun _ _ _ _ _ _ _ m => (m, 0);
     heev_sterf := fun _ _ _ m => (m, 0);
     heev_ungtr := fun _ _ _ _ _ _ m => (m, 0);
     heev_steqr := fun _ _ _ _ _ _ m => (m, 0);
     heev_scal := fun _ _ _ m => m |}.

(** Arrays holding [5 + 7i] in [a] and zero elsewhere. *)
Definition demo_heev_arrays : heev_arrays Z :=
  {| hv_a := fun _ => {| real := 5; imag := 7 |};
     hv_w := fun _ => 0;
     hv_work := fun _ => {| real := 0; imag := 0 |};
     hv_rwork := fun _ => 0 |}.

(** The same with a matrix that has to be scaled: the norm found is 9,
    above an [rmax] of 1, and the eigenvalue routines report 3. *)
Definition demo_heev_env_scaled : heev_env Z :=
  {| bla_integer_size := BLA_INT32;
     fzero := 0; fone := 1; f_of_int := fun k => k;
     fdiv := Z.div; fsqrt := Z.sqrt; flt := Z.ltb;
     bla_lsame_ := Ascii.eqb;
     f2c_ilaenv_ := fun _ _ _ _ _ _ _ => 32;
     bla_lamch_ := fun _ => 4;
     heev_lanhe := fun _ _ _ _ _ m => (9, m);
     heev_lascl := fun _ _ _ _ _ _ _ _ _ m => (m, 0);
     heev_hetrd := fun _ _ _ _ _ _ _ m => (m, 0);
     heev_sterf := fun _ _ _ m => (m, 3);
     heev_ungtr := fun _ _ _ _ _ _ m => (m, 0);
     heev_steqr := fun _ _ _ _ _ _ m => (m, 3);
     heev_scal := fun _ _ _ m => m |}.

(* ------------------------------------------------------------------ *)
(** ** The prototype-generating macros, [bli_gentprot_macro_defs.h]

    Each [INSERT_GENTPROT...] macro expands to a sequence of invocations
    of an inner macro, one per combination of datatypes.  An invocation is
    kept as the inner macro, its C type arguments, its type character
    arguments and the name argument it forwards; a macro is the list of
    its invocations in the order of the header. *)

Inductive ctype := c_float | c_double | c_scomplex | c_dcomplex | c_gint_t.

(** The type characters; [ch_blank] is an empty macro argument. *)
Inductive tchar := ch_s | ch_d | ch_c | ch_z | ch_i | ch_u | ch_blank.

Inductive gentprot_macro :=
| GENTPROT | GENTPROTRO | GENTPROTCO | GENTPROTDOT | GENTPROTR | GENTPROTR2
| GENTPROTSCAL | GENTPROTI | GENTPROTRI | GENTPROT2 | GENTPROT2R | GENTPROT3
| GENTPROT3U12.

Inductive macro_arg :=
| arg_blasname | arg_rblasname | arg_cblasname | arg_funcname | arg_va_args.

Record gentprot_inst := gp {
  gp_macro : gentprot_macro;
  gp_types : list ctype;
  gp_chars : list tchar;
  gp_arg : macro_arg
}.

Definition INSERT_GENTPROT_BLAS : list gentprot_inst :=
  [
    gp GENTPROT [c_float] [ch_s] arg_blasname;
    gp GENTPROT [c_double] [ch_d] arg_blasname;
    gp GENTPROT [c_scomplex] [ch_c] arg_blasname;
    gp GENTPROT [c_dcomplex] [ch_z] arg_blasname
  ].

Definition INSERT_GENTPROTRO_BLAS : list gentprot_inst :=
  [
    gp GENTPROTRO [c_float] [ch_s] arg_blasname;
    gp GENTPROTRO [c_double] [ch_d] arg_blasname
  ].

Definition INSERT_GENTPROTCO_BLAS : list gentprot_inst :=
  [
    gp GENTPROTCO [c_scomplex; c_float] [ch_c; ch_s] arg_blasname;
    gp GENTPROTCO [c_dcomplex; c_double] [ch_z; ch_d] arg_blasname
  ].

Definition INSERT_GENTPROTDOTR_BLAS : list gentprot_inst :=
  [
    gp GENTPROTDOT [c_float] [ch_s; ch_blank] arg_blasname;
    gp GENTPROTDOT [c_double] [ch_d; ch_blank] arg_blasname
  ].

Definition INSERT_GENTPROTDOTC_BLAS : list gentprot_inst :=
  [
    gp GENTPROTDOT [c_scomplex] [ch_c; ch_c] arg_blasname;
    gp GENTPROTDOT [c_scomplex] [ch_c; ch_u] arg_blasname;
    gp GENTPROTDOT [c_dcomplex] [ch_z; ch_c] arg_blasname;
    gp GENTPROTDOT [c_dcomplex] [ch_z; ch_u] arg_blasname
  ].

Definition INSERT_GENTPROTDOT_BLAS : list gentprot_inst :=
  INSERT_GENTPROTDOTR_BLAS ++ INSERT_GENTPROTDOTC_BLAS.

Definition INSERT_GENTPROTR_BLAS : list gentprot_inst :=
  [
    gp GENTPROTR [c_float; c_float] [ch_s; ch_s] arg_rblasname;
    gp GENTPROTR [c_double; c_double] [ch_d; ch_d] arg_rblasname;
    gp GENTPROTR [c_scomplex; c_float] [ch_c; ch_s] arg_cblasname;
    gp GENTPROTR [c_dcomplex; c_double] [ch_z; ch_d] arg_cblasname
  ].

Definition INSERT_GENTPROTR2_BLAS : list gentprot_inst :=
  [
    gp GENTPROTR2 [c_float; c_float] [ch_blank; ch_s] arg_blasname;
    gp GENTPROTR2 [c_double; c_double] [ch_blank; ch_d] arg_blasname;
    gp GENTPROTR2 [c_scomplex; c_float] [ch_c; ch_s] arg_blasname;
    gp GENTPROTR2 [c_dcomplex; c_double] [ch_z; ch_d] arg_blasname
  ].

Definition INSERT_GENTPROTSCAL_BLAS : list gentprot_inst :=
  [
    gp GENTPROTSCAL [c_float; c_float] [ch_blank; ch_s] arg_blasname;
    gp GENTPROTSCAL [c_double; c_double] [ch_blank; ch_d] arg_blasname;
    gp GENTPROTSCAL [c_scomplex; c_scomplex] [ch_blank; ch_c] arg_blasname;
    gp GENTPROTSCAL [c_dcomplex; c_dcomplex] [ch_blank; ch_z] arg_blasname;
    gp GENTPROTSCAL [c_float; c_scomplex] [ch_s; ch_c] arg_blasname;
    gp GENTPROTSCAL [c_double; c_dcomplex] [ch_d; ch_z] arg_blasname
  ].

Definition INSERT_GENTPROT_BASIC : list gentprot_inst :=
  [
    gp GENTPROT [c_float] [ch_s] arg_va_args;
    gp GENTPROT [c_double] [ch_d] arg_va_args;
    gp GENTPROT [c_scomplex] [ch_c] arg_va_args;
    gp GENTPROT [c_dcomplex] [ch_z] arg_va_args
  ].

Definition INSERT_GENTPROTR_BASIC : list gentprot_inst :=
  [
    gp GENTPROTR [c_float; c_float] [ch_s; ch_s] arg_va_args;
    gp GENTPROTR [c_double; c_double] [ch_d; ch_d] arg_va_args;
    gp GENTPROTR [c_scomplex; c_float] [ch_c; ch_s] arg_va_args;
    gp GENTPROTR [c_dcomplex; c_double] [ch_z; ch_d] arg_va_args
  ].

Definition INSERT_GENTPROTRO_BASIC : list gentprot_inst :=
  [
    gp GENTPROTRO [c_float] [ch_s] arg_va_args;
    gp GENTPROTRO [c_double] [ch_d] arg_va_args
  ].

Definition INSERT_GENTPROTCO_BASIC : list gentprot_inst :=
  [
    gp GENTPROTCO [c_scomplex; c_float] [ch_c; ch_s] arg_va_args;
    gp GENTPROTCO [c_dcomplex; c_double] [ch_z; ch_d] arg_va_args
  ].

Definition INSERT_GENTPROT_BASIC_I : list gentprot_inst :=
  [
    gp GENTPROT [c_float] [ch_s] arg_va_args;
    gp GENTPROT [c_double] [ch_d] arg_va_args;
    gp GENTPROT [c_scomplex] [ch_c] arg_va_args;
    gp GENTPROT [c_dcomplex] [ch_z] arg_va_args;
    gp GENTPROT [c_gint_t] [ch_i] arg_va_args
  ].

Definition INSERT_GENTPROTI_BASIC : list gentprot_inst :=
  [
    gp GENTPROTI [c_float; c_gint_t] [ch_s; ch_i] arg_va_args;
    gp GENTPROTI [c_double; c_gint_t] [ch_d; ch_i] arg_va_args;
    gp GENTPROTI [c_scomplex; c_gint_t] [ch_c; ch_i] arg_va_args;
    gp GENTPROTI [c_dcomplex; c_gint_t] [ch_z; ch_i] arg_va_args
  ].

Definition INSERT_GENTPROTRI_BASIC : list gentprot_inst :=
  [
    gp GENTPROTRI [c_float; c_float; c_gint_t] [ch_s; ch_s; ch_i] arg_funcname;
    gp GENTPROTRI [c_double; c_double; c_gint_t] [ch_d; ch_d; ch_i] arg_funcname;
    gp GENTPROTRI [c_scomplex; c_float; c_gint_t] [ch_c; ch_s; ch_i] arg_funcname;
    gp GENTPROTRI [c_dcomplex; c_double; c_gint_t] [ch_z; ch_d; ch_i] arg_funcname
  ].

Definition INSERT_GENTPROT2_BASIC : list gentprot_inst :=
  [
    gp GENTPROT2 [c_float; c_float] [ch_s; ch_s] arg_va_args;
    gp GENTPROT2 [c_double; c_double] [ch_d; ch_d] arg_va_args;
    gp GENTPROT2 [c_scomplex; c_scomplex] [ch_c; ch_c] arg_va_args;
    gp GENTPROT2 [c_dcomplex; c_dcomplex] [ch_z; ch_z] arg_va_args
  ].

Definition INSERT_GENTPROT2_MIX_D : list gentprot_inst :=
  [
    gp GENTPROT2 [c_float; c_scomplex] [ch_s; ch_c] arg_va_args;
    gp GENTPROT2 [c_scomplex; c_float] [ch_c; ch_s] arg_va_args;
    gp GENTPROT2 [c_double; c_dcomplex] [ch_d; ch_z] arg_va_args;
    gp GENTPROT2 [c_dcomplex; c_double] [ch_z; ch_d] arg_va_args
  ].

Definition INSERT_GENTPROT2_MIX_P : list gentprot_inst :=
  [
    gp GENTPROT2 [c_float; c_double] [ch_s; ch_d] arg_va_args;
    gp GENTPROT2 [c_float; c_dcomplex] [ch_s; ch_z] arg_va_args;
    gp GENTPROT2 [c_double; c_float] [ch_d; ch_s] arg_va_args;
    gp GENTPROT2 [c_double; c_scomplex] [ch_d; ch_c] arg_va_args;
    gp GENTPROT2 [c_scomplex; c_double] [ch_c; ch_d] arg_va_args;
    gp GENTPROT2 [c_scomplex; c_dcomplex] [ch_c; ch_z] arg_va_args;
    gp GENTPROT2 [c_dcomplex; c_float] [ch_z; ch_s] arg_va_args;
    gp GENTPROT2 [c_dcomplex; c_scomplex] [ch_z; ch_c] arg_va_args
  ].

Definition INSERT_GENTPROT2_MIX_DP : list gentprot_inst :=
  [
    gp GENTPROT2 [c_float; c_double] [ch_s; ch_d] arg_va_args;
    gp GENTPROT2 [c_float; c_scomplex] [ch_s; ch_c] arg_va_args;
    gp GENTPROT2 [c_float; c_dcomplex] [ch_s; ch_z] arg_va_args;
    gp GENTPROT2 [c_double; c_float] [ch_d; ch_s] arg_va_args;
    gp GENTPROT2 [c_double; c_scomplex] [ch_d; ch_c] arg_va_args;
    gp GENTPROT2 [c_double; c_dcomplex] [ch_d; ch_z] arg_va_args;
    gp GENTPROT2 [c_scomplex; c_float] [ch_c; ch_s] arg_va_args;
    gp GENTPROT2 [c_scomplex; c_double] [ch_c; ch_d] arg_va_args;
    gp GENTPROT2 [c_scomplex; c_dcomplex] [ch_c; ch_z] arg_va_args;
    gp GENTPROT2 [c_dcomplex; c_float] [ch_z; ch_s] arg_va_args;
    gp GENTPROT2 [c_dcomplex; c_double] [ch_z; ch_d] arg_va_args;
    gp GENTPROT2 [c_dcomplex; c_scomplex] [ch_z; ch_c] arg_va_args
  ].

Definition INSERT_GENTPROT2R_BASIC : list gentprot_inst :=
  [
    gp GENTPROT2R [c_float; c_float; c_float] [ch_s; ch_s; ch_s] arg_va_args;
    gp GENTPROT2R [c_double; c_double; c_double] [ch_d; ch_d; ch_d] arg_va_args;
    gp GENTPROT2R [c_scomplex; c_scomplex; c_float] [ch_c; ch_c; ch_s] arg_va_args;
    gp GENTPROT2R [c_dcomplex; c_dcomplex; c_double] [ch_z; ch_z; ch_d] arg_va_args
  ].

Definition INSERT_GENTPROT2R_MIX_D : list gentprot_inst :=
  [
    gp GENTPROT2R [c_float; c_scomplex; c_float] [ch_s; ch_c; ch_s] arg_va_args;
    gp GENTPROT2R [c_scomplex; c_float; c_float] [ch_c; ch_s; ch_s] arg_va_args;
    gp GENTPROT2R [c_double; c_dcomplex; c_double] [ch_d; ch_z; ch_d] arg_va_args;
    gp GENTPROT2R [c_dcomplex; c_double; c_double] [ch_z; ch_d; ch_d] arg_va_args
  ].

Definition INSERT_GENTPROT2R_MIX_P : list gentprot_inst :=
  [
    gp GENTPROT2R [c_float; c_double; c_float] [ch_s; ch_d; ch_s] arg_va_args;
    gp GENTPROT2R [c_float; c_dcomplex; c_float] [ch_s; ch_z; ch_s] arg_va_args;
    gp GENTPROT2R [c_double; c_float; c_double] [ch_d; ch_s; ch_d] arg_va_args;
    gp GENTPROT2R [c_double; c_scomplex; c_double] [ch_d; ch_c; ch_d] arg_va_args;
    gp GENTPROT2R [c_scomplex; c_double; c_float] [ch_c; ch_d; ch_s] arg_va_args;
    gp GENTPROT2R [c_scomplex; c_dcomplex; c_float] [ch_c; ch_z; ch_s] arg_va_args;
    gp GENTPROT2R [c_dcomplex; c_float; c_double] [ch_z; ch_s; ch_d] arg_va_args;
    gp GENTPROT2R [c_dcomplex; c_scomplex; c_double] [ch_z; ch_c; ch_d] arg_va_args
  ].

Definition INSERT_GENTPROT3_BASIC : list gentprot_inst :=
  [
    gp GENTPROT3 [c_float; c_float; c_float] [ch_s; ch_s; ch_s] arg_funcname;
    gp GENTPROT3 [c_double; c_double; c_double] [ch_d; ch_d; ch_d] arg_funcname;
    gp GENTPROT3 [c_scomplex; c_scomplex; c_scomplex] [ch_c; ch_c; ch_c] arg_funcname;
    gp GENTPROT3 [c_dcomplex; c_dcomplex; c_dcomplex] [ch_z; ch_z; ch_z] arg_funcname
  ].

Definition INSERT_GENTPROT3_MIX_D : list gentprot_inst :=
  [
    gp GENTPROT3 [c_float; c_float; c_scomplex] [ch_s; ch_s; ch_c] arg_funcname;
    gp GENTPROT3 [c_float; c_scomplex; c_float] [ch_s; ch_c; ch_s] arg_funcname;
    gp GENTPROT3 [c_float; c_scomplex; c_scomplex] [ch_s; ch_c; ch_c] arg_funcname;
    gp GENTPROT3 [c_double; c_double; c_dcomplex] [ch_d; ch_d; ch_z] arg_funcname;
    gp GENTPROT3 [c_double; c_dcomplex; c_double] [ch_d; ch_z; ch_d] arg_funcname;
    gp GENTPROT3 [c_double; c_dcomplex; c_dcomplex] [ch_d; ch_z; ch_z] arg_funcname;
    gp GENTPROT3 [c_scomplex; c_float; c_float] [ch_c; ch_s; ch_s] arg_funcname;
    gp GENTPROT3 [c_scomplex; c_float; c_scomplex] [ch_c; ch_s; ch_c] arg_funcname;
    gp GENTPROT3 [c_scomplex; c_scomplex; c_float] [ch_c; ch_c; ch_s] arg_funcname;
    gp GENTPROT3 [c_dcomplex; c_double; c_double] [ch_z; ch_d; ch_d] arg_funcname;
    gp GENTPROT3 [c_dcomplex; c_double; c_dcomplex] [ch_z; ch_d; ch_z] arg_funcname;
    gp GENTPROT3 [c_dcomplex; c_dcomplex; c_double] [ch_z; ch_z; ch_d] arg_funcname
  ].

Definition INSERT_GENTPROT3_MIX_P : list gentprot_inst :=
  [
    gp GENTPROT3 [c_float; c_float; c_double] [ch_s; ch_s; ch_d] arg_funcname;
    gp GENTPROT3 [c_float; c_float; c_dcomplex] [ch_s; ch_s; ch_z] arg_funcname;
    gp GENTPROT3 [c_float; c_double; c_float] [ch_s; ch_d; ch_s] arg_funcname;
    gp GENTPROT3 [c_float; c_double; c_double] [ch_s; ch_d; ch_d] arg_funcname;
    gp GENTPROT3 [c_float; c_double; c_scomplex] [ch_s; ch_d; ch_c] arg_funcname;
    gp GENTPROT3 [c_float; c_double; c_dcomplex] [ch_s; ch_d; ch_z] arg_funcname;
    gp GENTPROT3 [c_float; c_scomplex; c_double] [ch_s; ch_c; ch_d] arg_funcname;
    gp GENTPROT3 [c_float; c_scomplex; c_dcomplex] [ch_s; ch_c; ch_z] arg_funcname;
    gp GENTPROT3 [c_float; c_dcomplex; c_float] [ch_s; ch_z; ch_s] arg_funcname;
    gp GENTPROT3 [c_float; c_dcomplex; c_double] [ch_s; ch_z; ch_d] arg_funcname;
    gp GENTPROT3 [c_float; c_dcomplex; c_scomplex] [ch_s; ch_z; ch_c] arg_funcname;
    gp GENTPROT3 [c_float; c_dcomplex; c_dcomplex] [ch_s; ch_z; ch_z] arg_funcname;
    gp GENTPROT3 [c_double; c_float; c_float] [ch_d; ch_s; ch_s] arg_funcname;
    gp GENTPROT3 [c_double; c_float; c_double] [ch_d; ch_s; ch_d] arg_funcname;
    gp GENTPROT3 [c_double; c_float; c_scomplex] [ch_d; ch_s; ch_c] arg_funcname;
    gp GENTPROT3 [c_double; c_float; c_dcomplex] [ch_d; ch_s; ch_z] arg_funcname;
    gp GENTPROT3 [c_double; c_double; c_float] [ch_d; ch_d; ch_s] arg_funcname;
    gp GENTPROT3 [c_double; c_double; c_scomplex] [ch_d; ch_d; ch_c] arg_funcname;
    gp GENTPROT3 [c_double; c_scomplex; c_float] [ch_d; ch_c; ch_s] arg_funcname;
    gp GENTPROT3 [c_double; c_scomplex; c_double] [ch_d; ch_c; ch_d] arg_funcname;
    gp GENTPROT3 [c_double; c_scomplex; c_scomplex] [ch_d; ch_c; ch_c] arg_funcname;
    gp GENTPROT3 [c_double; c_scomplex; c_dcomplex] [ch_d; ch_c; ch_z] arg_funcname;
    gp GENTPROT3 [c_double; c_dcomplex; c_float] [ch_d; ch_z; ch_s] arg_funcname;
    gp GENTPROT3 [c_double; c_dcomplex; c_scomplex] [ch_d; ch_z; ch_c] arg_funcname;
    gp GENTPROT3 [c_scomplex; c_float; c_double] [ch_c; ch_s; ch_d] arg_funcname;
    gp GENTPROT3 [c_scomplex; c_float; c_dcomplex] [ch_c; ch_s; ch_z] arg_funcname;
    gp GENTPROT3 [c_scomplex; c_double; c_float] [ch_c; ch_d; ch_s] arg_funcname;
    gp GENTPROT3 [c_scomplex; c_double; c_double] [ch_c; ch_d; ch_d] arg_funcname;
    gp GENTPROT3 [c_scomplex; c_double; c_scomplex] [ch_c; ch_d; ch_c] arg_funcname;
    gp GENTPROT3 [c_scomplex; c_double; c_dcomplex] [ch_c; ch_d; ch_z] arg_funcname;
    gp GENTPROT3 [c_scomplex; c_scomplex; c_double] [ch_c; ch_c; ch_d] arg_funcname;
    gp GENTPROT3 [c_scomplex; c_scomplex; c_dcomplex] [ch_c; ch_c; ch_z] arg_funcname;
    gp GENTPROT3 [c_scomplex; c_dcomplex; c_float] [ch_c; ch_z; ch_s] arg_funcname;
    gp GENTPROT3 [c_scomplex; c_dcomplex; c_double] [ch_c; ch_z; ch_d] arg_funcname;
    gp GENTPROT3 [c_scomplex; c_dcomplex; c_scomplex] [ch_c; ch_z; ch_c] arg_funcname;
    gp GENTPROT3 [c_scomplex; c_dcomplex; c_dcomplex] [ch_c; ch_z; ch_z] arg_funcname;
    gp GENTPROT3 [c_dcomplex; c_float; c_float] [ch_z; ch_s; ch_s] arg_funcname;
    gp GENTPROT3 [c_dcomplex; c_float; c_double] [ch_z; ch_s; ch_d] arg_funcname;
    gp GENTPROT3 [c_dcomplex; c_float; c_scomplex] [ch_z; ch_s; ch_c] arg_funcname;
    gp GENTPROT3 [c_dcomplex; c_float; c_dcomplex] [ch_z; ch_s; ch_z] arg_funcname;
    gp GENTPROT3 [c_dcomplex; c_double; c_float] [ch_z; ch_d; ch_s] arg_funcname;
    gp GENTPROT3 [c_dcomplex; c_double; c_scomplex] [ch_z; ch_d; ch_c] arg_funcname;
    gp GENTPROT3 [c_dcomplex; c_scomplex; c_float] [ch_z; ch_c; ch_s] arg_funcname;
    gp GENTPROT3 [c_dcomplex; c_scomplex; c_double] [ch_z; ch_c; ch_d] arg_funcname;
    gp GENTPROT3 [c_dcomplex; c_scomplex; c_scomplex] [ch_z; ch_c; ch_c] arg_funcname;
    gp GENTPROT3 [c_dcomplex; c_scomplex; c_dcomplex] [ch_z; ch_c; ch_z] arg_funcname;
    gp GENTPROT3 [c_dcomplex; c_dcomplex; c_float] [ch_z; ch_z; ch_s] arg_funcname;
    gp GENTPROT3 [c_dcomplex; c_dcomplex; c_scomplex] [ch_z; ch_z; ch_c] arg_funcname
  ].

Definition INSERT_GENTPROT3U12_BASIC : list gentprot_inst :=
  [
    gp GENTPROT3U12 [c_float; c_float; c_float; c_float] [ch_s; ch_s; ch_s; ch_s] arg_funcname;
    gp GENTPROT3U12 [c_double; c_double; c_double; c_double] [ch_d; ch_d; ch_d; ch_d] arg_funcname;
    gp GENTPROT3U12 [c_scomplex; c_scomplex; c_scomplex; c_scomplex] [ch_c; ch_c; ch_c; ch_c] arg_funcname;
    gp GENTPROT3U12 [c_dcomplex; c_dcomplex; c_dcomplex; c_dcomplex] [ch_z; ch_z; ch_z; ch_z] arg_funcname
  ].

Definition INSERT_GENTPROT3U12_MIX_D : list gentprot_inst :=
  [
    gp GENTPROT3U12 [c_float; c_float; c_scomplex; c_float] [ch_s; ch_s; ch_c; ch_s] arg_funcname;
    gp GENTPROT3U12 [c_float; c_scomplex; c_float; c_scomplex] [ch_s; ch_c; ch_s; ch_c] arg_funcname;
    gp GENTPROT3U12 [c_float; c_scomplex; c_scomplex; c_scomplex] [ch_s; ch_c; ch_c; ch_c] arg_funcname;
    gp GENTPROT3U12 [c_double; c_double; c_dcomplex; c_double] [ch_d; ch_d; ch_z; ch_d] arg_funcname;
    gp GENTPROT3U12 [c_double; c_dcomplex; c_double; c_dcomplex] [ch_d; ch_z; ch_d; ch_z] arg_funcname;
    gp GENTPROT3U12 [c_double; c_dcomplex; c_dcomplex; c_dcomplex] [ch_d; ch_z; ch_z; ch_z] arg_funcname;
    gp GENTPROT3U12 [c_scomplex; c_float; c_float; c_scomplex] [ch_c; ch_s; ch_s; ch_c] arg_funcname;
    gp GENTPROT3U12 [c_scomplex; c_float; c_scomplex; c_scomplex] [ch_c; ch_s; ch_c; ch_c] arg_funcname;
    gp GENTPROT3U12 [c_scomplex; c_scomplex; c_float; c_scomplex] [ch_c; ch_c; ch_s; ch_c] arg_funcname;
    gp GENTPROT3U12 [c_dcomplex; c_double; c_double; c_dcomplex] [ch_z; ch_d; ch_d; ch_z] arg_funcname;
    gp GENTPROT3U12 [c_dcomplex; c_double; c_dcomplex; c_dcomplex] [ch_z; ch_d; ch_z; ch_z] arg_funcname;
    gp GENTPROT3U12 [c_dcomplex; c_dcomplex; c_double; c_dcomplex] [ch_z; ch_z; ch_d; ch_z] arg_funcname
  ].

Definition INSERT_GENTPROT3U12_MIX_P : list gentprot_inst :=
  [
    gp GENTPROT3U12 [c_float; c_float; c_double; c_float] [ch_s; ch_s; ch_d; ch_s] arg_funcname;
    gp GENTPROT3U12 [c_float; c_float; c_dcomplex; c_float] [ch_s; ch_s; ch_z; ch_s] arg_funcname;
    gp GENTPROT3U12 [c_float; c_double; c_float; c_double] [ch_s; ch_d; ch_s; ch_d] arg_funcname;
    gp GENTPROT3U12 [c_float; c_double; c_double; c_double] [ch_s; ch_d; ch_d; ch_d] arg_funcname;
    gp GENTPROT3U12 [c_float; c_double; c_scomplex; c_double] [ch_s; ch_d; ch_c; ch_d] arg_funcname;
    gp GENTPROT3U12 [c_float; c_double; c_dcomplex; c_double] [ch_s; ch_d; ch_z; ch_d] arg_funcname;
    gp GENTPROT3U12 [c_float; c_scomplex; c_double; c_scomplex] [ch_s; ch_c; ch_d; ch_c] arg_funcname;
    gp GENTPROT3U12 [c_float; c_scomplex; c_dcomplex; c_scomplex] [ch_s; ch_c; ch_z; ch_c] arg_funcname;
    gp GENTPROT3U12 [c_float; c_dcomplex; c_float; c_dcomplex] [ch_s; ch_z; ch_s; ch_z] arg_funcname;
    gp GENTPROT3U12 [c_float; c_dcomplex; c_double; c_dcomplex] [ch_s; ch_z; ch_d; ch_z] arg_funcname;
    gp GENTPROT3U12 [c_float; c_dcomplex; c_scomplex; c_dcomplex] [ch_s; ch_z; ch_c; ch_z] arg_funcname;
    gp GENTPROT3U12 [c_float; c_dcomplex; c_dcomplex; c_dcomplex] [ch_s; ch_z; ch_z; ch_z] arg_funcname;
    gp GENTPROT3U12 [c_double; c_float; c_float; c_double] [ch_d; ch_s; ch_s; ch_d] arg_funcname;
    gp GENTPROT3U12 [c_double; c_float; c_double; c_double] [ch_d; ch_s; ch_d; ch_d] arg_funcname;
    gp GENTPROT3U12 [c_double; c_float; c_scomplex; c_double] [ch_d; ch_s; ch_c; ch_d] arg_funcname;
    gp GENTPROT3U12 [c_double; c_float; c_dcomplex; c_double] [ch_d; ch_s; ch_z; ch_d] arg_funcname;
    gp GENTPROT3U12 [c_double; c_double; c_float; c_double] [ch_d; ch_d; ch_s; ch_d] arg_funcname;
    gp GENTPROT3U12 [c_double; c_double; c_scomplex; c_double] [ch_d; ch_d; ch_c; ch_d] arg_funcname;
    gp GENTPROT3U12 [c_double; c_scomplex; c_float; c_dcomplex] [ch_d; ch_c; ch_s; ch_z] arg_funcname;
    gp GENTPROT3U12 [c_double; c_scomplex; c_double; c_dcomplex] [ch_d; ch_c; ch_d; ch_z] arg_funcname;
    gp GENTPROT3U12 [c_double; c_scomplex; c_scomplex; c_dcomplex] [ch_d; ch_c; ch_c; ch_z] arg_funcname;
    gp GENTPROT3U12 [c_double; c_scomplex; c_dcomplex; c_dcomplex] [ch_d; ch_c; ch_z; ch_z] arg_funcname;
    gp GENTPROT3U12 [c_double; c_dcomplex; c_float; c_dcomplex] [ch_d; ch_z; ch_s; ch_z] arg_funcname;
    gp GENTPROT3U12 [c_double; c_dcomplex; c_scomplex; c_dcomplex] [ch_d; ch_z; ch_c; ch_z] arg_funcname;
    gp GENTPROT3U12 [c_scomplex; c_float; c_double; c_scomplex] [ch_c; ch_s; ch_d; ch_c] arg_funcname;
    gp GENTPROT3U12 [c_scomplex; c_float; c_dcomplex; c_scomplex] [ch_c; ch_s; ch_z; ch_c] arg_funcname;
    gp GENTPROT3U12 [c_scomplex; c_double; c_float; c_dcomplex] [ch_c; ch_d; ch_s; ch_z] arg_funcname;
    gp GENTPROT3U12 [c_scomplex; c_double; c_double; c_dcomplex] [ch_c; ch_d; ch_d; ch_z] arg_funcname;
    gp GENTPROT3U12 [c_scomplex; c_double; c_scomplex; c_dcomplex] [ch_c; ch_d; ch_c; ch_z] arg_funcname;
    gp GENTPROT3U12 [c_scomplex; c_double; c_dcomplex; c_dcomplex] [ch_c; ch_d; ch_z; ch_z] arg_funcname;
    gp GENTPROT3U12 [c_scomplex; c_scomplex; c_double; c_scomplex] [ch_c; ch_c; ch_d; ch_c] arg_funcname;
    gp GENTPROT3U12 [c_scomplex; c_scomplex; c_dcomplex; c_scomplex] [ch_c; ch_c; ch_z; ch_c] arg_funcname;
    gp GENTPROT3U12 [c_scomplex; c_dcomplex; c_float; c_dcomplex] [ch_c; ch_z; ch_s; ch_z] arg_funcname;
    gp GENTPROT3U12 [c_scomplex; c_dcomplex; c_double; c_dcomplex] [ch_c; ch_z; ch_d; ch_z] arg_funcname;
    gp GENTPROT3U12 [c_scomplex; c_dcomplex; c_scomplex; c_dcomplex] [ch_c; ch_z; ch_c; ch_z] arg_funcname;
    gp GENTPROT3U12 [c_scomplex; c_dcomplex; c_dcomplex; c_dcomplex] [ch_c; ch_z; ch_z; ch_z] arg_funcname;
    gp GENTPROT3U12 [c_dcomplex; c_float; c_float; c_dcomplex] [ch_z; ch_s; ch_s; ch_z] arg_funcname;
    gp GENTPROT3U12 [c_dcomplex; c_float; c_double; c_dcomplex] [ch_z; ch_s; ch_d; ch_z] arg_funcname;
    gp GENTPROT3U12 [c_dcomplex; c_float; c_scomplex; c_dcomplex] [ch_z; ch_s; ch_c; ch_z] arg_funcname;
    gp GENTPROT3U12 [c_dcomplex; c_float; c_dcomplex; c_dcomplex] [ch_z; ch_s; ch_z; ch_z] arg_funcname;
    gp GENTPROT3U12 [c_dcomplex; c_double; c_float; c_dcomplex] [ch_z; ch_d; ch_s; ch_z] arg_funcname;
    gp GENTPROT3U12 [c_dcomplex; c_double; c_scomplex; c_dcomplex] [ch_z; ch_d; ch_c; ch_z] arg_funcname;
    gp GENTPROT3U12 [c_dcomplex; c_scomplex; c_float; c_dcomplex] [ch_z; ch_c; ch_s; ch_z] arg_funcname;
    gp GENTPROT3U12 [c_dcomplex; c_scomplex; c_double; c_dcomplex] [ch_z; ch_c; ch_d; ch_z] arg_funcname;
    gp GENTPROT3U12 [c_dcomplex; c_scomplex; c_scomplex; c_dcomplex] [ch_z; ch_c; ch_c; ch_z] arg_funcname;
    gp GENTPROT3U12 [c_dcomplex; c_scomplex; c_dcomplex; c_dcomplex] [ch_z; ch_c; ch_z; ch_z] arg_funcname;
    gp GENTPROT3U12 [c_dcomplex; c_dcomplex; c_float; c_dcomplex] [ch_z; ch_z; ch_s; ch_z] arg_funcname;
    gp GENTPROT3U12 [c_dcomplex; c_dcomplex; c_scomplex; c_dcomplex] [ch_z; ch_z; ch_c; ch_z] arg_funcname
  ].

(** All the macros of the header. *)
Definition gentprot_all : list gentprot_inst :=
  INSERT_GENTPROT_BLAS ++ INSERT_GENTPROTRO_BLAS ++ INSERT_GENTPROTCO_BLAS
  ++ INSERT_GENTPROTDOTR_BLAS ++ INSERT_GENTPROTDOTC_BLAS ++ INSERT_GENTPROTDOT_BLAS
  ++ INSERT_GENTPROTR_BLAS ++ INSERT_GENTPROTR2_BLAS ++ INSERT_GENTPROTSCAL_BLAS
  ++ INSERT_GENTPROT_BASIC ++ INSERT_GENTPROTR_BASIC ++ INSERT_GENTPROTRO_BASIC
  ++ INSERT_GENTPROTCO_BASIC ++ INSERT_GENTPROT_BASIC_I ++ INSERT_GENTPROTI_BASIC
  ++ INSERT_GENTPROTRI_BASIC
  ++ INSERT_GENTPROT2_BASIC ++ INSERT_GENTPROT2_MIX_D ++ INSERT_GENTPROT2_MIX_P
  ++ INSERT_GENTPROT2_MIX_DP
  ++ INSERT_GENTPROT2R_BASIC ++ INSERT_GENTPROT2R_MIX_D ++ INSERT_GENTPROT2R_MIX_P
  ++ INSERT_GENTPROT3_BASIC ++ INSERT_GENTPROT3_MIX_D ++ INSERT_GENTPROT3_MIX_P
  ++ INSERT_GENTPROT3U12_BASIC ++ INSERT_GENTPROT3U12_MIX_D ++ INSERT_GENTPROT3U12_MIX_P.

(** *** Vocabulary for statements about the macros *)

(** The C type of a BLIS datatype and the character that stands for it. *)
Definition ctype_of (dt : num_t) : ctype :=
  match dt with
  | BLIS_FLOAT => c_float
  | BLIS_DOUBLE => c_double
  | BLIS_SCOMPLEX => c_scomplex
  | BLIS_DCOMPLEX => c_dcomplex
  end.

Definition tchar_of (t : ctype) : tchar :=
  match t with
  | c_float => ch_s
  | c_double => ch_d
  | c_scomplex => ch_c
  | c_dcomplex => ch_z
  | c_gint_t => ch_i
  end.

Definition ctype_eqb (x y : ctype) : bool :=
  match x, y with
  | c_float, c_float | c_double, c_double | c_scomplex, c_scomplex
  | c_dcomplex, c_dcomplex | c_gint_t, c_gint_t => true
  | _, _ => false
  end.

Definition tchar_eqb (x y : tchar) : bool :=
  match x, y with
  | ch_s, ch_s | ch_d, ch_d | ch_c, ch_c | ch_z, ch_z | ch_i, ch_i | ch_u, ch_u
  | ch_blank, ch_blank => true
  | _, _ => false
  end.

Fixpoint list_eqb {A : Type} (eqb : A -> A -> bool) (l1 l2 : list A) : bool :=
  match l1, l2 with
  | [], [] => true
  | x :: l1', y :: l2' => eqb x y && list_eqb eqb l1' l2'
  | _, _ => false
  end.

(** How many invocations of a macro have the given datatypes as their
    first operands. *)
Definition gentprot_count (dts : list num_t) (tbl : list gentprot_inst) : nat :=
  List.length
    (filter (fun i => list_eqb ctype_eqb (firstn (List.length dts) (gp_types i))
                               (map ctype_of dts))
            tbl).

(** The union of two datatypes: complex if either is, and of the higher
    precision of the two. *)
Definition dt_union (x y : num_t) : num_t :=
  bli_dt_of
    (match bli_dt_domain x, bli_dt_domain y with
     | BLIS_REAL, BLIS_REAL => BLIS_REAL
     | _, _ => BLIS_COMPLEX
     end)
    (match bli_dt_prec x, bli_dt_prec y with
     | BLIS_SINGLE_PREC, BLIS_SINGLE_PREC => BLIS_SINGLE_PREC
     | _, _ => BLIS_DOUBLE_PREC
     end).

(** The arguments an invocation has when its operands are the datatypes
    [dts]: the types followed by the derived ones, and the characters of
    all of them. *)
Definition gentprot_args (mac : gentprot_macro) (dts : list num_t)
  : option (list ctype * list tchar) :=
  let with_chars (tys : list ctype) := Some (tys, map tchar_of tys) in
  let real_of (x : num_t) := ctype_of (bli_dt_proj_to_real x) in
  match mac, dts with
  | GENTPROT, [x] => with_chars [ctype_of x]
  | GENTPROTRO, [x] =>
      if bli_is_complex x then None else with_chars [ctype_of x]
  | GENTPROTCO, [x] =>
      if bli_is_complex x then with_chars [ctype_of x; real_of x] else None
  | GENTPROTR, [x] => with_chars [ctype_of x; real_of x]
  | GENTPROTI, [x] => with_chars [ctype_of x; c_gint_t]
  | GENTPROTRI, [x] => with_chars [ctype_of x; real_of x; c_gint_t]
  | GENTPROT2, [x; y] => with_chars [ctype_of x; ctype_of y]
  | GENTPROT2R, [x; y] => with_chars [ctype_of x; ctype_of y; real_of x]
  | GENTPROT3, [x; y; z] => with_chars [ctype_of x; ctype_of y; ctype_of z]
  | GENTPROT3U12, [x; y; z] =>
      with_chars [ctype_of x; ctype_of y; ctype_of z; ctype_of (dt_union x y)]
  (* one character for the complex type, blank for a real one, and one for
     the real projection *)
  | GENTPROTR2, [x] =>
      Some ([ctype_of x; real_of x],
            [if bli_is_complex x then tchar_of (ctype_of x) else ch_blank;
             tchar_of (real_of x)])
  (* scal: the scalar has the type of the vector or its real projection; its
     character is blank when the two types agree *)
  | GENTPROTSCAL, [a; x] =>
      if num_t_eqb a x then
        Some ([ctype_of a; ctype_of x], [ch_blank; tchar_of (ctype_of x)])
      else if num_t_eqb a (bli_dt_proj_to_real x) then
        Some ([ctype_of a; ctype_of x], [tchar_of (ctype_of a); tchar_of (ctype_of x)])
      else None
  | _, _ => None
  end.

(** The datatype a C type stands for. *)
Definition num_of_ctype (t : ctype) : option num_t :=
  match t with
  | c_float => Some BLIS_FLOAT
  | c_double => Some BLIS_DOUBLE
  | c_scomplex => Some BLIS_SCOMPLEX
  | c_dcomplex => Some BLIS_DCOMPLEX
  | c_gint_t => None
  end.

(** The number of operands of an inner macro; the remaining type arguments
    are derived from them. *)
Definition gentprot_arity (mac : gentprot_macro) : nat :=
  match mac with
  | GENTPROT | GENTPROTRO | GENTPROTCO | GENTPROTDOT | GENTPROTR | GENTPROTR2
  | GENTPROTI | GENTPROTRI => 1
  | GENTPROTSCAL | GENTPROT2 | GENTPROT2R => 2
  | GENTPROT3 | GENTPROT3U12 => 3
  end.

(** The operands of an invocation, when they are floating-point types. *)
Definition gentprot_operands (i : gentprot_inst) : option (list num_t) :=
  fold_right (fun t acc =>
                match num_of_ctype t, acc with
                | Some dt, Some l => Some (dt :: l)
                | _, _ => None
                end)
             (Some []) (firstn (gentprot_arity (gp_macro i)) (gp_types i)).

(** Whether an invocation has the arguments [gentprot_args] gives for its
    operands. *)
Definition gentprot_inst_ok (i : gentprot_inst) : bool :=
  match gentprot_operands i with
  | Some dts =>
      match gentprot_args (gp_macro i) dts with
      | Some (tys, chs) =>
          list_eqb ctype_eqb tys (gp_types i) && list_eqb tchar_eqb chs (gp_chars i)
      | None => false
      end
  | None => false
  end.

(** Whether all the given datatypes have the same precision. *)
Definition same_prec (dts : list num_t) : bool :=
  match dts with
  | [] => true
  | x :: rest => forallb (fun y => prec_t_eqb (bli_dt_prec y) (bli_dt_prec x)) rest
  end.

Definition all_equal (dts : list num_t) : bool :=
  match dts with
  | [] => true
  | x :: rest => forallb (num_t_eqb x) rest
  end.

(* ------------------------------------------------------------------ *)
(** ** Vocabulary for statements about the control tree *)

(** The header of a node of a [trsm_cntl_t], by the name of its field. *)
Definition trsm_node_cntl (T : trsm_cntl_t) (nd : trsm_node) : cntl_t :=
  match nd with
  | part_jc => part_cntl (t_part_jc T)
  | part_pc => part_cntl (t_part_pc T)
  | pack_b => packm_cntl (pdef_cntl (t_pack_b T))
  | part_ic => part_cntl (t_part_ic T)
  | pack_a_trsm => packm_cntl (pdef_cntl (t_pack_a_trsm T))
  | part_jr_trsm => part_cntl (t_part_jr_trsm T)
  | part_ir_trsm => part_cntl (t_part_ir_trsm T)
  | pack_a_gemm => packm_cntl (pdef_cntl (t_pack_a_gemm T))
  | part_jr_gemm => part_cntl (t_part_jr_gemm T)
  | part_ir_gemm => part_cntl (t_part_ir_gemm T)
  end.

(** The nodes below a node, in preorder, following at most [fuel] links. *)
Fixpoint trsm_walk (fuel : nat) (T : trsm_cntl_t) (nd : trsm_node) : list trsm_node :=
  match fuel with
  | O => [nd]
  | S k =>
      nd :: flat_map (fun link => trsm_walk k T (snd link))
                     (cntl_sub_nodes (trsm_node_cntl T nd))
  end.

(** The thread dimensions met on each path from a node to a leaf, following
    at most [fuel] links. *)
Fixpoint trsm_paths (fuel : nat) (T : trsm_cntl_t) (nd : trsm_node)
  : list (list thread_dim) :=
  match fuel with
  | O => [[]]
  | S k =>
      match cntl_sub_nodes (trsm_node_cntl T nd) with
      | [] => [[]]
      | links =>
          flat_map (fun link => map (app (fst link)) (trsm_paths k T (snd link))) links
      end
  end.


(* ------------------------------------------------------------------ *)
(** ** Vocabulary for statements about the packed panel *)

(** The number of panel columns a call covers: the padded length handed to
    a kernel, or the real columns of a zero fill counted in panel columns. *)
Definition pack_call_len_max (schema : pack_t) (call : pack_call) : Z :=
  match call with
  | Call_cxk _ _ _ _ _ _ len_max _ _ _ _ _ => len_max
  | Call_cxc _ _ _ _ _ _ _ _ _ len_max _ _ _ _ _ => len_max
  | Call_set0s _ n _ _ _ => n / (if bli_is_1m_packed schema then 2 else 1)
  end.

(** The calls cover consecutive column ranges of the panel at [p], the
    first of them starting at column [i]. *)
Fixpoint calls_tile (dt_p : num_t) (schema : pack_t) (p ldp : Z) (i : Z)
    (calls : list pack_call) : Prop :=
  match calls with
  | [] => True
  | call :: rest =>
      pack_call_p call = p + i * ldp * esz dt_p
      /\ calls_tile dt_p schema p ldp (i + pack_call_len_max schema call) rest
  end.

Definition calls_len_max (schema : pack_t) (calls : list pack_call) : Z :=
  fold_right (fun call acc => pack_call_len_max schema call + acc) 0 calls.

(* ------------------------------------------------------------------ *)
(** ** The eleven entry points under one name *)

Inductive l3_op :=
| op_gemm | op_gemmt | op_her2k | op_syr2k
| op_hemm (side : side_t) | op_symm (side : side_t) | op_trmm3 (side : side_t)
| op_herk | op_syrk
| op_trmm (side : side_t) | op_trsm (side : side_t).

(** An entry point run on the operands it takes: herk and syrk have no B,
    trmm and trsm have neither beta nor C. *)
Definition l3_run {R CN RN CT : Type} (E : l3_env R CN RN CT) (op : l3_op)
    (alpha : scal R) (a b : objref) (beta : scal R) (c : objref)
    (cntx : option CN) (rntm : option RN) (s : state R CN RN CT)
  : outcome (state R CN RN CT) :=
  match op with
  | op_gemm => bli_gemm_ex E alpha a b beta c cntx rntm s
  | op_gemmt => bli_gemmt_ex E alpha a b beta c cntx rntm s
  | op_her2k => bli_her2k_ex E alpha a b beta c cntx rntm s
  | op_syr2k => bli_syr2k_ex E alpha a b beta c cntx rntm s
  | op_hemm side => bli_hemm_ex E side alpha a b beta c cntx rntm s
  | op_symm side => bli_symm_ex E side alpha a b beta c cntx rntm s
  | op_trmm3 side => bli_trmm3_ex E side alpha a b beta c cntx rntm s
  | op_herk => bli_herk_ex E alpha a beta c cntx rntm s
  | op_syrk => bli_syrk_ex E alpha a beta c cntx rntm s
  | op_trmm side => bli_trmm_ex E side alpha a b cntx rntm s
  | op_trsm side => bli_trsm_ex E side alpha a b cntx rntm s
  end.

(** The number of back-end invocations an entry point can make. *)
Definition l3_max_calls (op : l3_op) : nat :=
  match op with
  | op_her2k | op_syr2k => 2
  | _ => 1
  end.

(** The code the parameter check of an entry point reports. *)
Definition l3_op_check {R CN RN CT : Type} (E : l3_env R CN RN CT) (op : l3_op)
    (alpha : scal R) (a b : obj_t R) (beta : scal R) (c : obj_t R) (cntx : option CN)
  : err_t :=
  match op with
  | op_gemm => bli_gemm_check E alpha a b beta c cntx
  | op_gemmt => bli_gemmt_check E alpha a b beta c cntx
  | op_her2k => bli_her2k_check E alpha a b beta c cntx
  | op_syr2k => bli_syr2k_check E alpha a b beta c cntx
  | op_hemm side => bli_hemm_check E side alpha a b beta c cntx
  | op_symm side => bli_symm_check E side alpha a b beta c cntx
  | op_trmm3 side => bli_trmm3_check E side alpha a b beta c cntx
  | op_herk => bli_herk_check E alpha a beta c cntx
  | op_syrk => bli_syrk_check E alpha a beta c cntx
  | op_trmm side => bli_trmm_check E side alpha a b cntx
  | op_trsm side => bli_trsm_check E side alpha a b cntx
  end.

(** A back-end call whose A and B operands are marked as not packed. *)
Definition l3_call_unpacked {R CN RN CT : Type} (call : l3_call R CN RN CT) : Prop :=
  obj_pack_schema (l3_a call) = BLIS_NOT_PACKED
  /\ obj_pack_schema (l3_b call) = BLIS_NOT_PACKED.

(** A step that leaves the descriptors of the caller and the record of
    back-end calls as they were. *)
Definition l3_quiet {R CN RN CT : Type} (s s' : state R CN RN CT) : Prop :=
  (forall n, st_obj s' (caller_obj n) = st_obj s (caller_obj n))
  /\ st_calls s' = st_calls s.

(** A run that leaves the descriptors of the caller as they were and adds
    at most [k] back-end calls, each on unpacked A and B operands. *)
Definition l3_effect {R CN RN CT : Type} (k : nat) (s s' : state R CN RN CT) : Prop :=
  (forall n, st_obj s' (caller_obj n) = st_obj s (caller_obj n))
  /\ exists calls,
       st_calls s' = st_calls s ++ calls
       /\ (List.length calls <= k)%nat
       /\ Forall l3_call_unpacked calls.

(** [demo_env] with every parameter check reporting the given code. *)
Definition demo_env_rejecting (code : err_t)
    (decorator : l3_call Z unit unit unit -> mem Z -> mem Z) : l3_env Z unit unit unit :=
  let E := demo_env false false decorator in
  {| ar := ar E;
     bli_error_checking_is_enabled := true;
     bli_gemm_check := fun _ _ _ _ _ _ => code;
     bli_gemmt_check := fun _ _ _ _ _ _ => code;
     bli_her2k_check := fun _ _ _ _ _ _ => code;
     bli_syr2k_check := fun _ _ _ _ _ _ => code;
     bli_hemm_check := fun _ _ _ _ _ _ _ => code;
     bli_symm_check := fun _ _ _ _ _ _ _ => code;
     bli_trmm3_check := fun _ _ _ _ _ _ _ => code;
     bli_herk_check := fun _ _ _ _ _ => code;
     bli_syrk_check := fun _ _ _ _ _ => code;
     bli_trmm_check := fun _ _ _ _ _ => code;
     bli_trsm_check := fun _ _ _ _ _ => code;
     bli_obj_equals := bli_obj_equals E;
     bli_gemmsup := bli_gemmsup E;
     bli_rntm_init_from_global := bli_rntm_init_from_global E;
     bli_ind_find_avail := bli_ind_find_avail E;
     bli_gks_query_ind_cntx := bli_gks_query_ind_cntx E;
     bli_cntx_dislikes_storage_of := bli_cntx_dislikes_storage_of E;
     l3_schema_a := l3_schema_a E;
     l3_schema_b := l3_schema_b E;
     BLIS_ENABLE_GEMM_MD := BLIS_ENABLE_GEMM_MD E;
     BLIS_ENABLE_GEMM_MD_EXTRA_MEM := BLIS_ENABLE_GEMM_MD_EXTRA_MEM E;
     BLIS_DISABLE_HEMM_RIGHT := BLIS_DISABLE_HEMM_RIGHT E;
     BLIS_DISABLE_SYMM_RIGHT := BLIS_DISABLE_SYMM_RIGHT E;
     BLIS_DISABLE_TRMM_RIGHT := BLIS_DISABLE_TRMM_RIGHT E;
     BLIS_DISABLE_TRMM3_RIGHT := BLIS_DISABLE_TRMM3_RIGHT E;
     bli_gemm_md := bli_gemm_md E;
     bli_gemm_md_is_ccr := bli_gemm_md_is_ccr E;
     bli_gemm_md_is_crc := bli_gemm_md_is_crc E;
     bli_gemm_md_is_crr := bli_gemm_md_is_crr E;
     typecast := typecast E;
     bli_rntm_set_ways_for_op := bli_rntm_set_ways_for_op E;
     bli_obj_create := bli_obj_create E;
     bli_xpbym := bli_xpbym E;
     bli_gemm_cntl_create := bli_gemm_cntl_create E;
     bli_trsm_cntl_create := bli_trsm_cntl_create E;
     bli_l3_thread_decorator := decorator |}.

(** A symmetric 2x2 A and a 2x3 B and C for the right-side cases. *)
Definition demo_A_sym : obj_t Z :=
  demo_obj 100 2 2 BLIS_DCOMPLEX BLIS_DCOMPLEX BLIS_SYMMETRIC BLIS_LOWER BLIS_NO_TRANSPOSE.

Definition demo_A_sym3 : obj_t Z :=
  demo_obj 100 3 3 BLIS_DCOMPLEX BLIS_DCOMPLEX BLIS_SYMMETRIC BLIS_LOWER BLIS_NO_TRANSPOSE.

Definition demo_B23 : obj_t Z :=
  demo_obj 200 2 3 BLIS_DCOMPLEX BLIS_DCOMPLEX BLIS_GENERAL BLIS_DENSE BLIS_NO_TRANSPOSE.

Definition demo_C23 : obj_t Z :=
  demo_obj 0 2 3 BLIS_DCOMPLEX BLIS_DCOMPLEX BLIS_GENERAL BLIS_DENSE BLIS_NO_TRANSPOSE.

(* ================================================================== *)
(** * Properties *)

(* ------------------------------------------------------------------ *)
(** ** Index ranges, the zero-fill macro and the sanity check of the packer *)

Lemma In_zrange (n i : Z) : In i (zrange n) <-> 0 <= i < n.
Proof.
  unfold zrange. rewrite in_map_iff. split.
  - intros [k [<- Hk]]. apply in_seq in Hk. lia.
  - intros Hi. exists (Z.to_nat i). split; [lia|]. apply in_seq. lia.
Qed.

Lemma fold_store_in {Rp : Type} (v : Rp) (l : list Z) :
  forall (b : pbuf Rp) (y : Z),
    In y l -> fold_left (fun acc x => pbuf_store acc x v) l b y = v.
Proof.
  induction l as [|x l IH] using rev_ind; intros b y Hin.
  - contradiction.
  - rewrite fold_left_app. cbn. unfold pbuf_store at 1.
    destruct (Z.eqb_spec y x) as [->|Hne]; [reflexivity|].
    apply IH. apply in_app_or in Hin. destruct Hin as [H|[H|[]]]; [exact H|congruence].
Qed.

Lemma fold_store_notin {Rp : Type} (v : Rp) (l : list Z) :
  forall (b : pbuf Rp) (y : Z),
    ~ In y l -> fold_left (fun acc x => pbuf_store acc x v) l b y = b y.
Proof.
  induction l as [|x l IH]; intros b y Hnin; cbn; [reflexivity|].
  rewrite IH by (intro H; apply Hnin; right; exact H).
  unfold pbuf_store. destruct (Z.eqb_spec y x) as [->|Hne]; [|reflexivity].
  exfalso. apply Hnin. left. reflexivity.
Qed.

Lemma In_set0s_addrs (m n p rs cs x : Z) :
  In x (set0s_addrs m n p rs cs) <->
  exists i j, 0 <= i < m /\ 0 <= j < n /\ x = p + i * rs + j * cs.
Proof.
  unfold set0s_addrs. rewrite in_flat_map. split.
  - intros [j [Hj Hx]]. apply in_map_iff in Hx. destruct Hx as [i [<- Hi]].
    apply In_zrange in Hj. apply In_zrange in Hi. exists i, j. auto.
  - intros [i [j [Hi [Hj ->]]]]. exists j. split; [apply In_zrange; exact Hj|].
    apply in_map_iff. exists i. split; [reflexivity|apply In_zrange; exact Hi].
Qed.

Lemma set0s_mxn_zero {Rp : Type} (z : Rp) (m n p rs cs i j : Z) (b : pbuf Rp) :
  0 <= i < m -> 0 <= j < n ->
  set0s_mxn z m n p rs cs b (p + i * rs + j * cs) = z.
Proof.
  intros Hi Hj. unfold set0s_mxn. apply fold_store_in.
  apply In_set0s_addrs. exists i, j. auto.
Qed.

Section PackmFacts.

Context {Rp K P CN : Type}.
Variable E : packm_env Rp K P CN.

Lemma intersects_short_edge_iff (panel_dim panel_len d : Z) :
  packm_diag_intersects_short_edge panel_dim panel_len d = true <->
  (- panel_dim < d < 0) \/ (panel_len - panel_dim < d < panel_len).
Proof.
  unfold packm_diag_intersects_short_edge.
  rewrite orb_true_iff, !andb_true_iff, !Z.ltb_lt. tauto.
Qed.

(** C4.  On a structured (non-general) sub-panel whose diagonal offset
    [panel_dim_off - panel_len_off] lies strictly inside the short edge of
    the micro-panel, that is in the open interval (-panel_dim, 0) or in
    (panel_len - panel_dim, panel_len), [packm_struc_cxk] ends in the
    not-yet-implemented error and produces no packed panel.  For every
    geometry outside the two open intervals, and for every general panel,
    it returns a packed buffer. *)
Theorem packm_struc_cxk_diagonal_check
    (dt_c dt_p : num_t) (strucc : struc_t) (diagc : diag_t) (uploc : uplo_t)
    (conjc : conj_t) (schema : pack_t) (invdiag : bool)
    (panel_dim panel_len panel_dim_max panel_len_max : Z)
    (panel_dim_off panel_len_off panel_bcast : Z)
    (kappa : K) (c incc ldc p ldp : Z) (params : P) (cntx : CN) (b : pbuf Rp) :
  let diagoffc := panel_dim_off - panel_len_off in
  let inside_short_edge :=
    (- panel_dim < diagoffc < 0) \/ (panel_len - panel_dim < diagoffc < panel_len) in
  let run :=
    packm_struc_cxk E dt_c dt_p strucc diagc uploc conjc schema invdiag
      panel_dim panel_len panel_dim_max panel_len_max
      panel_dim_off panel_len_off panel_bcast kappa c incc ldc p ldp params cntx b in
  (bli_is_general strucc = false -> inside_short_edge ->
   run = Aborted BLIS_NOT_YET_IMPLEMENTED)
  /\ (~ inside_short_edge -> exists b', run = Returned b')
  /\ (bli_is_general strucc = true -> exists b', run = Returned b').
Proof.
  intros diagoffc inside run. subst run.
  unfold packm_struc_cxk, packm_struc_cxk_calls, packm_diagoffc.
  fold diagoffc.
  destruct (packm_diag_intersects_short_edge panel_dim panel_len diagoffc) eqn:Hx.
  - apply intersects_short_edge_iff in Hx.
    split; [|split].
    + intros -> _. reflexivity.
    + intros Hn. contradiction.
    + intros ->. cbn. eexists. reflexivity.
  - assert (Hn : ~ inside).
    { intro H. apply intersects_short_edge_iff in H. congruence. }
    split; [|split].
    + intros _ H. contradiction.
    + intros _. destruct (bli_is_general strucc); cbn; eexists; reflexivity.
    + intros ->. cbn. eexists. reflexivity.
Qed.

End PackmFacts.

(* ------------------------------------------------------------------ *)
(** ** The structured packer: what follows the zero fill *)

Section PackmZero.

Context {Rp K P CN : Type}.
Variable E : packm_env Rp K P CN.

Lemma kernel_calls_below (dt_c dt_p : num_t) (schema : pack_t) (ldp : Z)
    (kappa : K) (params : P) (cntx : CN) (x : Z) :
  kernels_write_forward E ->
  forall (calls : list pack_call) (b : pbuf Rp),
    (forall call, In call calls -> is_set0s call = false /\ x < pack_call_p call) ->
    fold_left (fun acc call => run_pack_call E dt_c dt_p schema ldp kappa params cntx call acc)
              calls b x = b x.
Proof.
  intros HE calls. induction calls as [|call calls IH]; intros b Hall; cbn; [reflexivity|].
  rewrite IH by (intros c0 Hc0; apply Hall; right; exact Hc0).
  destruct (Hall call (or_introl eq_refl)) as [Hk Hlt].
  unfold run_pack_call.
  destruct (packm_struc_setup E dt_p schema ldp params) as [[[id1 id2] pr] lr].
  destruct call; cbn in Hk; try discriminate.
  - destruct (HE dt_c dt_p id1 cntx) as [H _]. apply H. exact Hlt.
  - destruct (HE dt_c dt_p id2 cntx) as [_ H]. apply H. exact Hlt.
Qed.

Lemma p10_zero_before_diag (dt_p : num_t) (schema : pack_t) (ldp : Z) (params : P)
    (d i r j : Z) :
  bli_packm_def_cntl_bmult_m_def E params <= ldp ->
  (bli_is_1m_packed schema = true -> bli_is_complex dt_p = true) ->
  0 <= r < packm_panel_dim_r E dt_p schema ldp params ->
  0 <= j < packm_zero_cols schema d ->
  d <= i ->
  r * 1 + j * packm_ldp_r E dt_p schema ldp params < i * ldp * esz dt_p.
Proof.
  unfold packm_panel_dim_r, packm_ldp_r, packm_zero_cols, packm_struc_setup, esz.
  intros Hbm H1m Hr Hj Hi.
  destruct (bli_is_1m_packed schema).
  - rewrite (H1m eq_refl). cbn in Hr |- *.
    assert (j + 1 <= 2 * i) by lia.
    assert ((j + 1) * ldp <= (2 * i) * ldp) by (apply Z.mul_le_mono_nonneg_r; lia).
    lia.
  - destruct dt_p; cbn in Hr |- *.
    + assert ((j + 1) * ldp <= i * ldp) by (apply Z.mul_le_mono_nonneg_r; lia). lia.
    + assert ((j + 1) * ldp <= i * ldp) by (apply Z.mul_le_mono_nonneg_r; lia). lia.
    + assert ((j + 1) * ldp <= i * ldp) by (apply Z.mul_le_mono_nonneg_r; lia). lia.
    + assert ((j + 1) * ldp <= i * ldp) by (apply Z.mul_le_mono_nonneg_r; lia). lia.
Qed.

Lemma setup_fields (dt_p : num_t) (schema : pack_t) (ldp : Z) (params : P) :
  exists id1 id2,
    packm_struc_setup E dt_p schema ldp params =
    (id1, id2, packm_panel_dim_r E dt_p schema ldp params,
     packm_ldp_r E dt_p schema ldp params).
Proof.
  unfold packm_panel_dim_r, packm_ldp_r.
  destruct (packm_struc_setup E dt_p schema ldp params) as [[[id1 id2] pr] lr].
  exists id1, id2. reflexivity.
Qed.

End PackmZero.

Section PackmZeroThm.

Context {Rp K P CN : Type}.
Variable E : packm_env Rp K P CN.

Lemma packm_p12_lower_tri (dt_p : num_t) (conjc : conj_t) (schema : pack_t)
    (panel_dim panel_len panel_dim_max panel_len_max panel_bcast diagoffc : Z)
    (c incc ldc p ldp : Z) (params : P) :
  diagoffc + panel_dim < panel_len ->
  packm_p12 E dt_p BLIS_TRIANGULAR BLIS_LOWER conjc schema
            panel_dim panel_len panel_dim_max panel_len_max panel_bcast
            diagoffc c incc ldc p ldp params
  = [Call_set0s (packm_panel_dim_r E dt_p schema ldp params)
       (packm_zero_cols schema
          (packm_p12_len_max panel_dim panel_len panel_len_max diagoffc))
       (p + packm_p12_i panel_dim diagoffc * ldp * esz dt_p) 1
       (packm_ldp_r E dt_p schema ldp params)].
Proof.
  intros H. unfold packm_p12.
  destruct (setup_fields E dt_p schema ldp params) as [id1 [id2 ->]].
  apply Z.ltb_lt in H. rewrite H. cbn.
  destruct (bli_reflect_to_stored_part E _ _ _ _) as [[c' i'] l']. reflexivity.
Qed.

Lemma packm_p12_last (dt_p : num_t) (strucc : struc_t) (uploc : uplo_t) (conjc : conj_t)
    (schema : pack_t)
    (panel_dim panel_len panel_dim_max panel_len_max panel_bcast diagoffc : Z)
    (c incc ldc p ldp : Z) (params : P) :
  diagoffc + panel_dim < panel_len ->
  let p12 := p + packm_p12_i panel_dim diagoffc * ldp * esz dt_p in
  let p12_len_max := packm_p12_len_max panel_dim panel_len panel_len_max diagoffc in
  exists last,
    packm_p12 E dt_p strucc uploc conjc schema
              panel_dim panel_len panel_dim_max panel_len_max panel_bcast
              diagoffc c incc ldc p ldp params = [last]
    /\ (last = Call_set0s (packm_panel_dim_r E dt_p schema ldp params)
                 (packm_zero_cols schema p12_len_max) p12 1
                 (packm_ldp_r E dt_p schema ldp params)
        \/ exists conjc12 c12 incc12 ldc12,
             last = Call_cxk conjc12 schema panel_dim panel_dim_max panel_bcast
                      (packm_p12_len panel_dim panel_len diagoffc) p12_len_max
                      c12 incc12 ldc12 p12 ldp).
Proof.
  intros H p12 p12_len_max. unfold packm_p12.
  destruct (setup_fields E dt_p schema ldp params) as [id1 [id2 ->]].
  apply Z.ltb_lt in H. rewrite H.
  destruct (bli_is_lower uploc).
  - destruct (bli_reflect_to_stored_part E _ _ _ _) as [[c' i'] l'].
    destruct (bli_is_triangular strucc); cbn; eexists; split; try reflexivity.
    + left. reflexivity.
    + right. do 4 eexists. reflexivity.
  - cbn. eexists. split; [reflexivity|]. right. do 4 eexists. reflexivity.
Qed.

Lemma packm_p10_upper_tri (dt_p : num_t) (conjc : conj_t) (schema : pack_t)
    (panel_dim panel_len panel_dim_max panel_len_max panel_bcast diagoffc : Z)
    (c incc ldc p ldp : Z) (params : P) :
  0 < diagoffc ->
  packm_p10 E dt_p BLIS_TRIANGULAR BLIS_UPPER conjc schema
            panel_dim panel_len panel_dim_max panel_len_max panel_bcast
            diagoffc c incc ldc p ldp params
  = [Call_set0s (packm_panel_dim_r E dt_p schema ldp params)
       (packm_zero_cols schema (packm_p10_len_max panel_len panel_len_max diagoffc))
       p 1 (packm_ldp_r E dt_p schema ldp params)].
Proof.
  intros H. unfold packm_p10.
  destruct (setup_fields E dt_p schema ldp params) as [id1 [id2 ->]].
  apply Z.ltb_lt in H. rewrite H. cbn.
  destruct (bli_reflect_to_stored_part E _ _ _ _) as [[c' i'] l']. reflexivity.
Qed.

(** The calls for p11 and p12 of an upper panel are kernel calls on panels
    that start at or after the diagonal block. *)
Lemma packm_upper_tail_calls (dt_p : num_t) (strucc : struc_t) (diagc : diag_t)
    (conjc : conj_t) (schema : pack_t) (invdiag : bool)
    (panel_dim panel_len panel_dim_max panel_len_max panel_bcast diagoffc : Z)
    (c incc ldc p ldp : Z) (params : P) (call : pack_call) :
  0 < panel_dim -> 0 < diagoffc -> 0 <= ldp ->
  In call
     (packm_p11 dt_p strucc diagc BLIS_UPPER conjc schema invdiag
                panel_dim panel_len panel_dim_max panel_len_max panel_bcast
                diagoffc c incc ldc p ldp
      ++ packm_p12 E dt_p strucc BLIS_UPPER conjc schema
                panel_dim panel_len panel_dim_max panel_len_max panel_bcast
                diagoffc c incc ldc p ldp params) ->
  diagoffc < panel_len
  /\ is_set0s call = false
  /\ exists i, diagoffc <= i /\ pack_call_p call = p + i * ldp * esz dt_p.
Proof.
  intros Hpd Hd Hldp Hin. apply in_app_or in Hin. destruct Hin as [Hin|Hin].
  - unfold packm_p11 in Hin.
    destruct ((0 <=? diagoffc) && (diagoffc + panel_dim <=? panel_len)) eqn:Hc;
      [|contradiction].
    apply andb_true_iff in Hc. destruct Hc as [_ Hc]. apply Z.leb_le in Hc.
    destruct Hin as [<-|[]]. cbn. split; [lia|]. split; [reflexivity|].
    exists diagoffc. split; [lia|reflexivity].
  - unfold packm_p12 in Hin.
    destruct (setup_fields E dt_p schema ldp params) as [id1 [id2 Hs]].
    rewrite Hs in Hin.
    destruct (diagoffc + panel_dim <? panel_len) eqn:Hc; [|contradiction].
    apply Z.ltb_lt in Hc. cbn in Hin.
    destruct Hin as [<-|[]]. cbn. split; [lia|]. split; [reflexivity|].
    exists (Z.max 0 (diagoffc + panel_dim)). split; [lia|reflexivity].
Qed.

(** A column index of the panel, counted in [ctypep] elements, in the
    columns of the zero fill. *)
Lemma p12_column_offset (dt_p : num_t) (schema : pack_t) (ldp : Z) (params : P) (i : Z) :
  (bli_is_1m_packed schema = true -> bli_is_complex dt_p = true) ->
  i * ldp * esz dt_p
  = (i * (if bli_is_1m_packed schema then 2 else 1))
    * packm_ldp_r E dt_p schema ldp params.
Proof.
  unfold packm_ldp_r, packm_struc_setup, esz. intros H1m.
  destruct (bli_is_1m_packed schema).
  - rewrite (H1m eq_refl). cbn. lia.
  - destruct dt_p; cbn; lia.
Qed.

(** C5.  For a structured panel that passes the sanity check.  (p10) When
    the structure is triangular and upper and the panel starts after the
    diagonal, the p10 region is handled by the zero-fill macro, not by the
    packing kernel that reads the source; and, the kernels writing nothing
    before the panel they are handed, the returned buffer holds the zero of
    the real projection at every address of that region.  (p12) When the
    structure is triangular and lower, the p12 region of the returned
    buffer is zero, the padding columns included.  (padding) Whenever p12
    is packed it is the last call, and it runs from its first column to
    column [panel_len_max]: either as a zero fill, or as a kernel call
    that is given the padded length; and, the packing kernel padding its
    panel with zeros as the spec says of it, the returned buffer is zero
    in every column from [panel_len] to [panel_len_max], whichever of the
    two the call is. *)
Theorem packm_struc_cxk_zero_fill
    (dt_c dt_p : num_t) (strucc : struc_t) (diagc : diag_t) (uploc : uplo_t)
    (conjc : conj_t) (schema : pack_t) (invdiag : bool)
    (panel_dim panel_len panel_dim_max panel_len_max : Z)
    (panel_dim_off panel_len_off panel_bcast : Z)
    (kappa : K) (c incc ldc p ldp : Z) (params : P) (cntx : CN) (b : pbuf Rp) :
  let diagoffc := packm_diagoffc panel_dim_off panel_len_off in
  let panel_dim_r := packm_panel_dim_r E dt_p schema ldp params in
  let ldp_r := packm_ldp_r E dt_p schema ldp params in
  let p10_len_max := packm_p10_len_max panel_len panel_len_max diagoffc in
  let p12 := p + packm_p12_i panel_dim diagoffc * ldp * esz dt_p in
  let p12_len_max := packm_p12_len_max panel_dim panel_len panel_len_max diagoffc in
  let calls :=
    packm_struc_cxk_calls E dt_c dt_p strucc diagc uploc conjc schema invdiag
      panel_dim panel_len panel_dim_max panel_len_max
      panel_dim_off panel_len_off panel_bcast c incc ldc p ldp params in
  let run :=
    packm_struc_cxk E dt_c dt_p strucc diagc uploc conjc schema invdiag
      panel_dim panel_len panel_dim_max panel_len_max
      panel_dim_off panel_len_off panel_bcast kappa c incc ldc p ldp params cntx b in
  bli_is_general strucc = false ->
  packm_diag_intersects_short_edge panel_dim panel_len diagoffc = false ->
  (* p10 of an upper triangular panel *)
  (strucc = BLIS_TRIANGULAR -> uploc = BLIS_UPPER -> 0 < diagoffc ->
     calls = Returned
               (Call_set0s panel_dim_r (packm_zero_cols schema p10_len_max) p 1 ldp_r
                :: packm_p11 dt_p strucc diagc uploc conjc schema invdiag
                     panel_dim panel_len panel_dim_max panel_len_max panel_bcast
                     diagoffc c incc ldc p ldp
                ++ packm_p12 E dt_p strucc uploc conjc schema
                     panel_dim panel_len panel_dim_max panel_len_max panel_bcast
                     diagoffc c incc ldc p ldp params)
     /\ (kernels_write_forward E -> 0 < panel_dim ->
         bli_packm_def_cntl_bmult_m_def E params <= ldp ->
         (bli_is_1m_packed schema = true -> bli_is_complex dt_p = true) ->
         exists b', run = Returned b'
           /\ forall r j, 0 <= r < panel_dim_r ->
                          0 <= j < packm_zero_cols schema p10_len_max ->
                          b' (p + r * 1 + j * ldp_r) = rp_zero E))
  (* p12 of a lower triangular panel *)
  /\ (strucc = BLIS_TRIANGULAR -> uploc = BLIS_LOWER -> diagoffc + panel_dim < panel_len ->
      exists b', run = Returned b'
        /\ calls = Returned
                     (packm_p10 E dt_p strucc uploc conjc schema
                        panel_dim panel_len panel_dim_max panel_len_max panel_bcast
                        diagoffc c incc ldc p ldp params
                      ++ packm_p11 dt_p strucc diagc uploc conjc schema invdiag
                           panel_dim panel_len panel_dim_max panel_len_max panel_bcast
                           diagoffc c incc ldc p ldp
                      ++ [Call_set0s panel_dim_r (packm_zero_cols schema p12_len_max)
                                     p12 1 ldp_r])
        /\ forall r j, 0 <= r < panel_dim_r ->
                       0 <= j < packm_zero_cols schema p12_len_max ->
                       b' (p12 + r * 1 + j * ldp_r) = rp_zero E)
  (* p12 is the last region and runs to panel_len_max *)
  /\ (diagoffc + panel_dim < panel_len ->
      packm_p12_i panel_dim diagoffc + p12_len_max = panel_len_max
      /\ (exists front last,
            calls = Returned (front ++ [last])
            /\ (last = Call_set0s panel_dim_r (packm_zero_cols schema p12_len_max)
                                  p12 1 ldp_r
                \/ exists conjc12 c12 incc12 ldc12,
                     last = Call_cxk conjc12 schema panel_dim panel_dim_max panel_bcast
                              (packm_p12_len panel_dim panel_len diagoffc) p12_len_max
                              c12 incc12 ldc12 p12 ldp))
      (* and the columns from panel_len to panel_len_max of the returned
         buffer are zero, the packing kernel padding as the zero fill does *)
      /\ (kernels_pad_with_zeros E -> 0 <= panel_len ->
          (bli_is_1m_packed schema = true -> bli_is_complex dt_p = true) ->
          exists b', run = Returned b'
            /\ forall r j, 0 <= r < panel_dim_r ->
                           packm_zero_cols schema panel_len <= j
                           < packm_zero_cols schema panel_len_max ->
                           b' (p + r * 1 + j * ldp_r) = rp_zero E)).
Proof.
  intros diagoffc panel_dim_r ldp_r p10_len_max p12 p12_len_max calls run Hgen Hchk.
  subst calls run.
  unfold packm_struc_cxk, packm_struc_cxk_calls. fold diagoffc.
  rewrite Hgen, Hchk. cbn [bind].
  split; [|split].
  - (* p10, upper *)
    intros -> -> Hd.
    rewrite (packm_p10_upper_tri dt_p conjc schema panel_dim panel_len panel_dim_max
               panel_len_max panel_bcast diagoffc c incc ldc p ldp params Hd).
    fold panel_dim_r ldp_r p10_len_max.
    split.
    + reflexivity.
    + intros HE Hpd Hbm H1m. eexists. split; [reflexivity|].
      intros r j Hr Hj. cbn [app fold_left].
      set (b0 := run_pack_call E dt_c dt_p schema ldp kappa params cntx _ b).
      assert (Hb0 : b0 (p + r * 1 + j * ldp_r) = rp_zero E).
      { subst b0. unfold run_pack_call.
        destruct (setup_fields E dt_p schema ldp params) as [id1 [id2 ->]].
        apply set0s_mxn_zero; assumption. }
      rewrite <- Hb0.
      apply kernel_calls_below; [exact HE|].
      intros call Hin.
      assert (Hldp : 0 <= ldp).
      { unfold panel_dim_r, packm_panel_dim_r, packm_struc_setup in Hr.
        destruct (bli_is_1m_packed schema); [cbn in Hr; lia|].
        destruct (negb _); cbn in Hr; lia. }
      destruct (packm_upper_tail_calls dt_p BLIS_TRIANGULAR diagc conjc schema invdiag
                  panel_dim panel_len panel_dim_max panel_len_max panel_bcast diagoffc
                  c incc ldc p ldp params call Hpd Hd Hldp Hin)
        as [Hlen [Hk [i [Hi ->]]]].
      split; [exact Hk|].
      assert (Hpm : p10_len_max = diagoffc).
      { unfold p10_len_max, packm_p10_len_max.
        rewrite Z.min_l by lia.
        destruct (Z.eqb_spec diagoffc panel_len); [lia|reflexivity]. }
      rewrite Hpm in Hj.
      pose proof (p10_zero_before_diag E dt_p schema ldp params diagoffc i r j
                    Hbm H1m Hr Hj Hi) as Hlt.
      fold ldp_r in Hlt. lia.
  - (* p12, lower *)
    intros -> -> Hlt.
    rewrite (packm_p12_lower_tri dt_p conjc schema panel_dim panel_len panel_dim_max
               panel_len_max panel_bcast diagoffc c incc ldc p ldp params Hlt).
    eexists. split; [reflexivity|]. split; [reflexivity|].
    intros r j Hr Hj.
    rewrite !fold_left_app. cbn [fold_left].
    unfold run_pack_call at 1.
    destruct (setup_fields E dt_p schema ldp params) as [id1 [id2 ->]].
    apply set0s_mxn_zero; assumption.
  - (* padding *)
    intros Hlt.
    destruct (packm_p12_last dt_p strucc uploc conjc schema panel_dim panel_len
                panel_dim_max panel_len_max panel_bcast diagoffc c incc ldc p ldp
                params Hlt) as [last [Hl Hshape]].
    rewrite Hl. rewrite app_assoc.
    split; [|split].
    + unfold p12_len_max, packm_p12_len_max, packm_p12_len. lia.
    + eexists. exists last. split; [reflexivity|exact Hshape].
    + intros Hpad Hlen H1m. eexists. split; [reflexivity|].
      intros r j Hr Hj.
      rewrite fold_left_app. cbn [fold_left].
      set (i := packm_p12_i panel_dim diagoffc) in *.
      set (k := if bli_is_1m_packed schema then 2 else 1).
      assert (Hk : 0 < k) by (subst k; destruct (bli_is_1m_packed schema); lia).
      assert (Hi : 0 <= i <= panel_len) by (subst i; unfold packm_p12_i; lia).
      assert (Hoff : i * ldp * esz dt_p = (i * k) * ldp_r)
        by (subst k; apply p12_column_offset; exact H1m).
      assert (Haddr : p + r * 1 + j * ldp_r = p12 + r * 1 + (j - i * k) * ldp_r)
        by (subst p12; fold i; lia).
      unfold packm_zero_cols in Hj. fold k in Hj.
      rewrite Haddr.
      unfold run_pack_call at 1.
      destruct (setup_fields E dt_p schema ldp params) as [id1 [id2 ->]].
      destruct Hshape as [-> | [conjc12 [c12 [incc12 [ldc12 ->]]]]].
      * apply set0s_mxn_zero; [exact Hr|].
        unfold packm_zero_cols, p12_len_max, packm_p12_len_max, packm_p12_len.
        fold i k. nia.
      * apply Hpad; [exact Hr|].
        unfold packm_zero_cols, p12_len_max, packm_p12_len_max, packm_p12_len.
        fold i k. nia.
Qed.

End PackmZeroThm.

(* ------------------------------------------------------------------ *)
(** ** Element addresses and the trivial case *)

Section ObjFacts.

Context {R : Type}.

Lemma obj_in_bounds_iff (o : obj_t R) (i j : Z) :
  obj_in_bounds o i j = true <-> 0 <= i < obj_m o /\ 0 <= j < obj_n o.
Proof.
  unfold obj_in_bounds. rewrite !andb_true_iff, !Z.leb_le, !Z.ltb_lt. lia.
Qed.

Lemma obj_is_stored_in_bounds (o : obj_t R) (i j : Z) :
  obj_is_stored o i j = true -> obj_in_bounds o i j = true.
Proof. unfold obj_is_stored. intros H. apply andb_true_iff in H. tauto. Qed.

Lemma obj_on_diag_in_bounds (o : obj_t R) (i j : Z) :
  obj_on_diag o i j = true -> obj_in_bounds o i j = true.
Proof. unfold obj_on_diag. intros H. apply andb_true_iff in H. tauto. Qed.

Lemma obj_addr_of_true (sel : obj_t R -> Z -> Z -> bool) (o : obj_t R) (x : Z) :
  obj_addr_of sel o x = true <->
  exists i j, 0 <= i < obj_m o /\ 0 <= j < obj_n o
              /\ sel o i j = true /\ obj_addr o i j = x.
Proof.
  unfold obj_addr_of. rewrite existsb_exists. split.
  - intros [i [Hi H]]. apply existsb_exists in H. destruct H as [j [Hj H]].
    apply andb_true_iff in H. destruct H as [Hs Ha].
    apply In_zrange in Hi. apply In_zrange in Hj. apply Z.eqb_eq in Ha.
    exists i, j. auto.
  - intros [i [j [Hi [Hj [Hs Ha]]]]]. exists i. split; [apply In_zrange; exact Hi|].
    apply existsb_exists. exists j. split; [apply In_zrange; exact Hj|].
    rewrite Hs. apply Z.eqb_eq in Ha. rewrite Ha. reflexivity.
Qed.

Lemma obj_addr_of_elem (sel : obj_t R -> Z -> Z -> bool) (o : obj_t R) (i j : Z) :
  obj_in_bounds o i j = true -> sel o i j = true ->
  obj_addr_of sel o (obj_addr o i j) = true.
Proof.
  intros Hb Hs. apply obj_addr_of_true. apply obj_in_bounds_iff in Hb.
  exists i, j. tauto.
Qed.

End ObjFacts.

Section L3Facts.

Context {R CN RN CT : Type}.
Variable E : l3_env R CN RN CT.

Local Abbreviation State := (state R CN RN CT).

Lemma l3_check_passes (e : err_t) :
  check_passes E e -> l3_check E e = Returned tt.
Proof.
  unfold check_passes, l3_check. intros [H|H]; rewrite H; [reflexivity|].
  destruct (bli_error_checking_is_enabled E); reflexivity.
Qed.

Lemma bli_scalm_stored (beta : scal R) (c : obj_t R) (m : mem R) (i j : Z) :
  obj_is_stored c i j = true ->
  bli_scalm E beta c m (obj_addr c i j)
  = cmul (ar E) (scal_val (ar E) beta) (m (obj_addr c i j)).
Proof.
  intros Hs. unfold bli_scalm.
  rewrite (obj_addr_of_elem obj_is_stored c i j (obj_is_stored_in_bounds c i j Hs) Hs).
  reflexivity.
Qed.

Lemma bli_scalm_elsewhere (beta : scal R) (c : obj_t R) (m : mem R) (x : Z) :
  obj_addr_of obj_is_stored c x = false -> bli_scalm E beta c m x = m x.
Proof. intros H. unfold bli_scalm. rewrite H. reflexivity. Qed.

Lemma bli_setid_diag (alpha : scal R) (c : obj_t R) (m : mem R) (i j : Z) :
  obj_on_diag c i j = true ->
  imag (bli_setid E alpha c m (obj_addr c i j)) = real (scal_val (ar E) alpha).
Proof.
  intros Hd. unfold bli_setid.
  rewrite (obj_addr_of_elem obj_on_diag c i j (obj_on_diag_in_bounds c i j Hd) Hd).
  reflexivity.
Qed.

(** The trivial-case test, case by case. *)
Lemma early_zero_dim_c (alpha : scal R) (a b : objref) (beta : scal R) (c : objref)
    (s : State) :
  bli_obj_has_zero_dim (st_obj s c) = true ->
  bli_l3_return_early_if_trivial E alpha a b beta c s = (BLIS_SUCCESS, s).
Proof. intros H. unfold bli_l3_return_early_if_trivial. rewrite H. reflexivity. Qed.

Lemma early_scales_c (alpha : scal R) (a b : objref) (beta : scal R) (c : objref)
    (s : State) :
  bli_obj_has_zero_dim (st_obj s c) = false ->
  bli_obj_equals E alpha (BLIS_ZERO (ar E)) = true
  \/ bli_obj_has_zero_dim (st_obj s a) = true
  \/ bli_obj_has_zero_dim (st_obj s b) = true ->
  bli_l3_return_early_if_trivial E alpha a b beta c s
  = (BLIS_SUCCESS, set_mem (bli_scalm E beta (st_obj s c) (st_mem s)) s).
Proof.
  intros Hc H. unfold bli_l3_return_early_if_trivial. rewrite Hc.
  assert (Ht : bli_obj_equals E alpha (BLIS_ZERO (ar E))
               || bli_obj_has_zero_dim (st_obj s a)
               || bli_obj_has_zero_dim (st_obj s b) = true).
  { rewrite !orb_true_iff. tauto. }
  rewrite Ht. reflexivity.
Qed.

(** C1.  For gemm, gemmt, hemm, symm and trmm3, on a call that passes the
    parameter check: if C has a zero dimension the call returns the state
    it was given; otherwise, if alpha equals zero or A or B has a zero
    dimension, the call returns with C scaled by beta, every element C
    stores being beta times its former value and every other address
    unchanged, and the back-end has not been called. *)
Theorem l3_trivial_short_circuit (op : beta_entry) (alpha : scal R) (a b : objref)
    (beta : scal R) (c : objref) (cntx : option CN) (rntm : option RN) (s : State) :
  let A := st_obj s a in
  let B := st_obj s b in
  let C := st_obj s c in
  let run := beta_entry_run E op alpha a b beta c cntx rntm s in
  check_passes E (beta_entry_check E op alpha A B beta C cntx) ->
  (bli_obj_has_zero_dim C = true -> run = Returned s)
  /\ (bli_obj_has_zero_dim C = false ->
      bli_obj_equals E alpha (BLIS_ZERO (ar E)) = true
      \/ bli_obj_has_zero_dim A = true
      \/ bli_obj_has_zero_dim B = true ->
      exists s',
        run = Returned s'
        /\ s' = set_mem (bli_scalm E beta C (st_mem s)) s
        /\ (forall i j, obj_is_stored C i j = true ->
              st_mem s' (obj_addr C i j)
              = cmul (ar E) (scal_val (ar E) beta) (st_mem s (obj_addr C i j)))
        /\ (forall x, obj_addr_of obj_is_stored C x = false -> st_mem s' x = st_mem s x)
        /\ st_calls s' = st_calls s).
Proof.
  intros A B C run Hchk. subst run A B C.
  split.
  - intros Hz.
    destruct op; cbn [beta_entry_run beta_entry_check] in *;
      unfold bli_gemm_ex, bli_gemmt_ex, bli_hemm_ex, bli_symm_ex, bli_trmm3_ex;
      rewrite (l3_check_passes _ Hchk); cbn [bind];
      rewrite (early_zero_dim_c alpha a b beta c s Hz); reflexivity.
  - intros Hnz Htriv.
    exists (set_mem (bli_scalm E beta (st_obj s c) (st_mem s)) s).
    split; [|split; [reflexivity|split; [|split]]].
    + destruct op; cbn [beta_entry_run beta_entry_check] in *;
        unfold bli_gemm_ex, bli_gemmt_ex, bli_hemm_ex, bli_symm_ex, bli_trmm3_ex;
        rewrite (l3_check_passes _ Hchk); cbn [bind];
        rewrite (early_scales_c alpha a b beta c s Hnz Htriv); reflexivity.
    + intros i j Hs. cbn [set_mem st_mem]. apply bli_scalm_stored. exact Hs.
    + intros x Hx. cbn [set_mem st_mem]. apply bli_scalm_elsewhere. exact Hx.
    + reflexivity.
Qed.

End L3Facts.

Section TriTrivial.

Context {R CN RN CT : Type}.
Variable E : l3_env R CN RN CT.

Local Abbreviation State := (state R CN RN CT).



End TriTrivial.

(* ------------------------------------------------------------------ *)
(** ** The descriptor store *)

Section StoreFacts.

Context {R CN RN CT : Type}.

Local Abbreviation State := (state R CN RN CT).

Lemma st_obj_set_obj (r r' : objref) (o : obj_t R) (s : State) :
  st_obj (set_obj r o s) r' = if objref_eqb r' r then o else st_obj s r'.
Proof. reflexivity. Qed.

Lemma st_obj_upd_obj (r r' : objref) (f : obj_t R -> obj_t R) (s : State) :
  st_obj (upd_obj r f s) r' = if objref_eqb r' r then f (st_obj s r) else st_obj s r'.
Proof. reflexivity. Qed.

Lemma st_obj_set_mem (m : mem R) (s : State) (r : objref) :
  st_obj (set_mem m s) r = st_obj s r.
Proof. reflexivity. Qed.

Lemma st_obj_decorate (alpha : scal R) (a b : objref) (beta : scal R) (c : objref)
    (E : l3_env R CN RN CT) (cntx : CN) (cntl : CT) (rntm : RN) (s : State) (r : objref) :
  st_obj (l3_thread_decorate E alpha a b beta c cntx cntl rntm s) r = st_obj s r.
Proof. reflexivity. Qed.

Lemma objref_eqb_not_alias (r : objref) :
  not_alias r = true ->
  objref_eqb r ref_a_local = false /\ objref_eqb r ref_b_local = false
  /\ objref_eqb r ref_c_local = false /\ objref_eqb r ref_ct = false.
Proof. destruct r; cbn; intros H; try discriminate; repeat split. Qed.

Lemma alias_locals_other (a b c : objref) (s : State) (r : objref) :
  not_alias r = true -> st_obj (alias_locals a b c s) r = st_obj s r.
Proof.
  intros H. destruct (objref_eqb_not_alias r H) as [Ha [Hb [Hc _]]].
  unfold alias_locals. rewrite !st_obj_set_obj, Ha, Hb, Hc. reflexivity.
Qed.

Lemma alias_locals_a (a b c : objref) (s : State) :
  st_obj (alias_locals a b c s) ref_a_local = bli_obj_alias_and_reset_origin (st_obj s a).
Proof. reflexivity. Qed.

Lemma alias_locals_b (a b c : objref) (s : State) :
  not_alias b = true ->
  st_obj (alias_locals a b c s) ref_b_local = bli_obj_alias_and_reset_origin (st_obj s b).
Proof.
  intros H. destruct (objref_eqb_not_alias b H) as [Ha _].
  unfold alias_locals. rewrite !st_obj_set_obj. cbn [objref_eqb]. rewrite Ha. reflexivity.
Qed.

Lemma alias_locals_c (a b c : objref) (s : State) :
  not_alias c = true ->
  st_obj (alias_locals a b c s) ref_c_local = bli_obj_alias_and_reset_origin (st_obj s c).
Proof.
  intros H. destruct (objref_eqb_not_alias c H) as [Ha [Hb _]].
  unfold alias_locals. rewrite !st_obj_set_obj. cbn [objref_eqb]. rewrite Ha, Hb.
  reflexivity.
Qed.

Lemma swap_ab_other (s : State) (r : objref) :
  not_alias r = true -> st_obj (bli_obj_swap ref_a_local ref_b_local s) r = st_obj s r.
Proof.
  intros H. destruct (objref_eqb_not_alias r H) as [Ha [Hb _]].
  unfold bli_obj_swap. rewrite !st_obj_set_obj, Ha, Hb. reflexivity.
Qed.

Lemma swap_ab_c (s : State) :
  st_obj (bli_obj_swap ref_a_local ref_b_local s) ref_c_local = st_obj s ref_c_local.
Proof. reflexivity. Qed.

Lemma swap_ab_a (s : State) :
  st_obj (bli_obj_swap ref_a_local ref_b_local s) ref_a_local = st_obj s ref_b_local.
Proof. reflexivity. Qed.

Lemma swap_ab_b (s : State) :
  st_obj (bli_obj_swap ref_a_local ref_b_local s) ref_b_local = st_obj s ref_a_local.
Proof. reflexivity. Qed.

Lemma induce_abc_other (s : State) (r : objref) :
  not_alias r = true -> st_obj (induce_trans_abc s) r = st_obj s r.
Proof.
  intros H. destruct (objref_eqb_not_alias r H) as [Ha [Hb [Hc _]]].
  unfold induce_trans_abc. rewrite !st_obj_upd_obj, Ha, Hb, Hc. reflexivity.
Qed.

Lemma induce_abc_a (s : State) :
  st_obj (induce_trans_abc s) ref_a_local = bli_obj_induce_trans (st_obj s ref_a_local).
Proof. reflexivity. Qed.

Lemma induce_abc_b (s : State) :
  st_obj (induce_trans_abc s) ref_b_local = bli_obj_induce_trans (st_obj s ref_b_local).
Proof. reflexivity. Qed.

Lemma induce_abc_c (s : State) :
  st_obj (induce_trans_abc s) ref_c_local = bli_obj_induce_trans (st_obj s ref_c_local).
Proof. reflexivity. Qed.

Lemma set_schemas_other (E : l3_env R CN RN CT) (cntx : CN) (s : State) (r : objref) :
  objref_eqb r ref_a_local = false -> objref_eqb r ref_b_local = false ->
  st_obj (bli_l3_set_schemas E ref_a_local ref_b_local ref_c_local cntx s) r = st_obj s r.
Proof.
  intros Ha Hb. unfold bli_l3_set_schemas. rewrite !st_obj_upd_obj, Ha, Hb. reflexivity.
Qed.

Lemma set_schemas_a (E : l3_env R CN RN CT) (cntx : CN) (s : State) :
  st_obj (bli_l3_set_schemas E ref_a_local ref_b_local ref_c_local cntx s) ref_a_local
  = bli_obj_set_pack_schema (l3_schema_a E cntx) (st_obj s ref_a_local).
Proof. reflexivity. Qed.

Lemma set_schemas_b (E : l3_env R CN RN CT) (cntx : CN) (s : State) :
  st_obj (bli_l3_set_schemas E ref_a_local ref_b_local ref_c_local cntx s) ref_b_local
  = bli_obj_set_pack_schema (l3_schema_b E cntx) (st_obj s ref_b_local).
Proof. reflexivity. Qed.

Lemma take_schemas_eq (s : State) :
  take_schemas s
  = (obj_pack_schema (st_obj s ref_a_local), obj_pack_schema (st_obj s ref_b_local),
     reset_schemas s).
Proof. reflexivity. Qed.

Lemma reset_schemas_other (s : State) (r : objref) :
  objref_eqb r ref_a_local = false -> objref_eqb r ref_b_local = false ->
  st_obj (reset_schemas s) r = st_obj s r.
Proof.
  intros Ha Hb. unfold reset_schemas. rewrite !st_obj_upd_obj, Ha, Hb. reflexivity.
Qed.

Lemma reset_schemas_a (s : State) :
  st_obj (reset_schemas s) ref_a_local
  = bli_obj_set_pack_schema BLIS_NOT_PACKED (st_obj s ref_a_local).
Proof. reflexivity. Qed.

Lemma reset_schemas_b (s : State) :
  st_obj (reset_schemas s) ref_b_local
  = bli_obj_set_pack_schema BLIS_NOT_PACKED (st_obj s ref_b_local).
Proof. reflexivity. Qed.

Lemma reset_schemas_mem (s : State) : st_mem (reset_schemas s) = st_mem s.
Proof. reflexivity. Qed.

Lemma reset_schemas_calls (s : State) : st_calls (reset_schemas s) = st_calls s.
Proof. reflexivity. Qed.

Lemma alias_locals_mem (a b c : objref) (s : State) :
  st_mem (alias_locals a b c s) = st_mem s /\ st_calls (alias_locals a b c s) = st_calls s.
Proof. split; reflexivity. Qed.

Lemma swap_mem (x y : objref) (s : State) :
  st_mem (bli_obj_swap x y s) = st_mem s /\ st_calls (bli_obj_swap x y s) = st_calls s.
Proof. split; reflexivity. Qed.

Lemma induce_abc_mem (s : State) :
  st_mem (induce_trans_abc s) = st_mem s /\ st_calls (induce_trans_abc s) = st_calls s.
Proof. split; reflexivity. Qed.

Lemma set_schemas_mem (E : l3_env R CN RN CT) (a b c : objref) (cntx : CN) (s : State) :
  st_mem (bli_l3_set_schemas E a b c cntx s) = st_mem s
  /\ st_calls (bli_l3_set_schemas E a b c cntx s) = st_calls s.
Proof. split; reflexivity. Qed.

End StoreFacts.

(* ------------------------------------------------------------------ *)
(** ** The two ways through gemmt *)

Section GemmtFacts.

Context {R CN RN CT : Type}.
Variable E : l3_env R CN RN CT.

Local Abbreviation State := (state R CN RN CT).

Lemma early_keeps_objs (alpha : scal R) (a b : objref) (beta : scal R) (c : objref)
    (s : State) :
  st_obj (snd (bli_l3_return_early_if_trivial E alpha a b beta c s)) = st_obj s
  /\ st_calls (snd (bli_l3_return_early_if_trivial E alpha a b beta c s)) = st_calls s.
Proof.
  unfold bli_l3_return_early_if_trivial.
  destruct (bli_obj_has_zero_dim (st_obj s c)); [split; reflexivity|].
  destruct (_ || _ || _); split; reflexivity.
Qed.

Lemma early_failure_keeps_state (alpha : scal R) (a b : objref) (beta : scal R)
    (c : objref) (s : State) (r : err_t) (s1 : State) :
  bli_l3_return_early_if_trivial E alpha a b beta c s = (r, s1) ->
  err_is_success r = false -> s1 = s.
Proof.
  unfold bli_l3_return_early_if_trivial.
  destruct (bli_obj_has_zero_dim (st_obj s c)).
  - intros H. inversion H. subst. discriminate.
  - destruct (_ || _ || _); intros H; inversion H; subst; [discriminate|reflexivity].
Qed.

(** What the trivial-case test does to memory: nothing, or the scaling. *)
Lemma early_mem (alpha : scal R) (a b : objref) (beta : scal R) (c : objref) (s : State) :
  st_mem (snd (bli_l3_return_early_if_trivial E alpha a b beta c s)) = st_mem s
  \/ st_mem (snd (bli_l3_return_early_if_trivial E alpha a b beta c s))
     = bli_scalm E beta (st_obj s c) (st_mem s).
Proof.
  unfold bli_l3_return_early_if_trivial.
  destruct (bli_obj_has_zero_dim (st_obj s c)); [left; reflexivity|].
  destruct (_ || _ || _); [right|left]; reflexivity.
Qed.

Lemma orient_other (cntx : CN) (s : State) (r : objref) :
  not_alias r = true -> st_obj (orient_for_ukr E cntx s) r = st_obj s r.
Proof.
  intros H. unfold orient_for_ukr.
  destruct (bli_cntx_dislikes_storage_of E _ _); [|reflexivity].
  rewrite induce_abc_other, swap_ab_other by exact H. reflexivity.
Qed.

Lemma orient_c (cntx : CN) (s : State) :
  st_obj (orient_for_ukr E cntx s) ref_c_local = st_obj s ref_c_local
  \/ st_obj (orient_for_ukr E cntx s) ref_c_local
     = bli_obj_induce_trans (st_obj s ref_c_local).
Proof.
  unfold orient_for_ukr.
  destruct (bli_cntx_dislikes_storage_of E _ _); [right|left]; reflexivity.
Qed.

Lemma orient_mem (cntx : CN) (s : State) :
  st_mem (orient_for_ukr E cntx s) = st_mem s
  /\ st_calls (orient_for_ukr E cntx s) = st_calls s.
Proof.
  unfold orient_for_ukr.
  destruct (bli_cntx_dislikes_storage_of E _ _); split; reflexivity.
Qed.

(** The two ways a gemmt call goes once its parameter check has passed:
    the trivial case, or one call of the back-end on a control tree of the
    gemmt family whose C operand is the alias of C, possibly transposed. *)
Lemma gemmt_cases (alpha : scal R) (a b : objref) (beta : scal R) (c : objref)
    (cntx : option CN) (rntm : option RN) (s : State) :
  not_alias c = true ->
  check_passes E (bli_gemmt_check E alpha (st_obj s a) (st_obj s b) beta (st_obj s c) cntx) ->
  (err_is_success (fst (bli_l3_return_early_if_trivial E alpha a b beta c s)) = true
   /\ bli_gemmt_ex E alpha a b beta c cntx rntm s
      = Returned (snd (bli_l3_return_early_if_trivial E alpha a b beta c s)))
  \/ (err_is_success (fst (bli_l3_return_early_if_trivial E alpha a b beta c s)) = false
      /\ exists s' call,
           bli_gemmt_ex E alpha a b beta c cntx rntm s = Returned s'
           /\ st_mem s' = bli_l3_thread_decorator E call (st_mem s)
           /\ st_calls s' = st_calls s ++ [call]
           /\ (forall r, not_alias r = true -> st_obj s' r = st_obj s r)
           /\ (exists sa sb kf, l3_cntl call = bli_gemm_cntl_create E BLIS_GEMMT sa sb kf)
           /\ l3_alpha call = alpha /\ l3_beta call = beta
           /\ (l3_c call = bli_obj_alias_and_reset_origin (st_obj s c)
               \/ l3_c call
                  = bli_obj_induce_trans (bli_obj_alias_and_reset_origin (st_obj s c)))).
Proof.
  intros Hc Hchk. unfold bli_gemmt_ex. rewrite (l3_check_passes _ _ Hchk). cbn [bind].
  destruct (bli_l3_return_early_if_trivial E alpha a b beta c s) as [r s1] eqn:He.
  cbn [fst snd].
  destruct (err_is_success r) eqn:Hs.
  - left. split; reflexivity.
  - right. split; [reflexivity|].
    pose proof (early_failure_keeps_state _ _ _ _ _ _ _ _ He Hs). subst s1.
    rewrite take_schemas_eq.
    cbv beta iota zeta.
    set (cx := resolve_cntx E cntx _).
    set (s0 := orient_for_ukr E cx (alias_locals a b c s)).
    set (s1 := bli_l3_set_schemas E ref_a_local ref_b_local ref_c_local cx s0).
    eexists. eexists. split; [reflexivity|].
    unfold l3_thread_decorate. cbn [st_mem st_calls st_obj l3_cntl l3_alpha l3_beta l3_c].
    assert (Hm : st_mem (reset_schemas s1) = st_mem s
                 /\ st_calls (reset_schemas s1) = st_calls s).
    { subst s1 s0. destruct (orient_mem cx (alias_locals a b c s)) as [H1 H2].
      split; cbn; [rewrite H1|rewrite H2]; reflexivity. }
    destruct Hm as [Hm1 Hm2]. rewrite Hm1, Hm2.
    split; [reflexivity|]. split; [reflexivity|].
    split.
    { intros r0 Hr0. destruct (objref_eqb_not_alias r0 Hr0) as [Ha [Hb _]].
      rewrite reset_schemas_other by assumption. subst s1.
      rewrite set_schemas_other by assumption. subst s0.
      rewrite orient_other, alias_locals_other by exact Hr0. reflexivity. }
    split; [do 3 eexists; reflexivity|].
    split; [reflexivity|]. split; [reflexivity|].
    rewrite (reset_schemas_other s1 ref_c_local) by reflexivity. subst s1.
    rewrite (set_schemas_other E cx s0 ref_c_local) by reflexivity. subst s0.
    rewrite <- (alias_locals_c a b c s Hc).
    apply orient_c.
Qed.

Lemma gemmt_returns (alpha : scal R) (a b : objref) (beta : scal R) (c : objref)
    (cntx : option CN) (rntm : option RN) (s : State) :
  check_passes E (bli_gemmt_check E alpha (st_obj s a) (st_obj s b) beta (st_obj s c) cntx) ->
  exists s', bli_gemmt_ex E alpha a b beta c cntx rntm s = Returned s'.
Proof.
  intros Hchk. unfold bli_gemmt_ex. rewrite (l3_check_passes _ _ Hchk). cbn [bind].
  destruct (bli_l3_return_early_if_trivial E alpha a b beta c s) as [r s1].
  destruct (err_is_success r); eexists; reflexivity.
Qed.

Lemma gemmt_keeps_objs (alpha : scal R) (a b : objref) (beta : scal R) (c : objref)
    (cntx : option CN) (rntm : option RN) (s s' : State) :
  bli_gemmt_ex E alpha a b beta c cntx rntm s = Returned s' ->
  forall r, not_alias r = true -> st_obj s' r = st_obj s r.
Proof.
  unfold bli_gemmt_ex. intros Hrun r Hr.
  destruct (l3_check E _); cbn [bind] in Hrun; [|discriminate].
  destruct (bli_l3_return_early_if_trivial E alpha a b beta c s) as [e s1] eqn:He.
  destruct (err_is_success e) eqn:Hs.
  - inversion Hrun. subst s'.
    pose proof (early_keeps_objs alpha a b beta c s) as [Ho _].
    rewrite He in Ho. cbn in Ho. rewrite Ho. reflexivity.
  - pose proof (early_failure_keeps_state _ _ _ _ _ _ _ _ He Hs). subst s1.
    rewrite take_schemas_eq in Hrun. cbv beta iota zeta in Hrun.
    inversion Hrun. subst s'. clear Hrun.
    destruct (objref_eqb_not_alias r Hr) as [Ha [Hb _]].
    rewrite st_obj_decorate, reset_schemas_other, set_schemas_other by assumption.
    rewrite orient_other, alias_locals_other by exact Hr. reflexivity.
Qed.

End GemmtFacts.

(* ------------------------------------------------------------------ *)
(** ** The stored triangle under aliasing and transposition *)

Section StoredAddresses.

Context {R : Type}.

Lemma stored_alias (o : obj_t R) (i j : Z) :
  obj_is_stored (bli_obj_alias_and_reset_origin o) i j = obj_is_stored o i j
  /\ obj_addr (bli_obj_alias_and_reset_origin o) i j = obj_addr o i j.
Proof.
  split; [reflexivity|]. unfold obj_addr, bli_obj_alias_and_reset_origin. cbn. lia.
Qed.

Lemma stored_induce_trans (o : obj_t R) (i j : Z) :
  obj_is_stored (bli_obj_induce_trans o) i j = obj_is_stored o j i
  /\ obj_addr (bli_obj_induce_trans o) i j = obj_addr o j i.
Proof.
  split.
  - unfold obj_is_stored, obj_in_bounds, bli_obj_induce_trans. cbn.
    destruct (obj_uplo o); cbn.
    + rewrite !andb_false_r. reflexivity.
    + apply eq_true_iff_eq.
      rewrite !andb_true_iff, !Z.leb_le, !Z.ltb_lt. lia.
    + apply eq_true_iff_eq.
      rewrite !andb_true_iff, !Z.leb_le, !Z.ltb_lt. lia.
    + apply eq_true_iff_eq.
      rewrite !andb_true_iff, !Z.leb_le, !Z.ltb_lt. lia.
  - unfold obj_addr, bli_obj_induce_trans. cbn. lia.
Qed.

Lemma stored_addr_alias (o : obj_t R) (x : Z) :
  obj_addr_of obj_is_stored (bli_obj_alias_and_reset_origin o) x = true ->
  obj_addr_of obj_is_stored o x = true.
Proof.
  intros H. apply obj_addr_of_true in H. destruct H as [i [j [Hi [Hj [Hs Ha]]]]].
  destruct (stored_alias o i j) as [E1 E2]. rewrite E1 in Hs. rewrite E2 in Ha.
  apply obj_addr_of_true. exists i, j. auto.
Qed.

Lemma stored_addr_induce_trans (o : obj_t R) (x : Z) :
  obj_addr_of obj_is_stored (bli_obj_induce_trans o) x = true ->
  obj_addr_of obj_is_stored o x = true.
Proof.
  intros H. apply obj_addr_of_true in H. destruct H as [i [j [Hi [Hj [Hs Ha]]]]].
  destruct (stored_induce_trans o i j) as [E1 E2]. rewrite E1 in Hs. rewrite E2 in Ha.
  apply obj_addr_of_true. exists j, i. cbn in Hi, Hj. auto.
Qed.

Lemma not_stored_addr (o : obj_t R) (i j : Z) :
  obj_addr_injective o ->
  obj_in_bounds o i j = true -> obj_is_stored o i j = false ->
  obj_addr_of obj_is_stored o (obj_addr o i j) = false.
Proof.
  intros Hinj Hb Hs.
  destruct (obj_addr_of obj_is_stored o (obj_addr o i j)) eqn:H; [|reflexivity].
  apply obj_addr_of_true in H. destruct H as [i' [j' [Hi [Hj [Hs' Ha]]]]].
  assert (Hb' : obj_in_bounds o i' j' = true) by (apply obj_in_bounds_iff; auto).
  destruct (Hinj i' j' i j Hb' Hb Ha) as [-> ->]. congruence.
Qed.

End StoredAddresses.

Section MacroKernelFacts.

Context {R CN RN CT : Type}.
Variable G : gemmt_ker R CN RN CT.

Lemma gemmt_store_elems_frame (call : l3_call R CN RN CT) (x : Z) (elems : list (Z * Z)) :
  forall (m0 m : mem R),
    (forall ij, In ij elems -> obj_addr (l3_c call) (fst ij) (snd ij) <> x) ->
    fold_left (fun acc ij =>
                 mem_store acc (obj_addr (l3_c call) (fst ij) (snd ij))
                           (gk_ukr G call m0 (fst ij) (snd ij)))
              elems m x = m x.
Proof.
  induction elems as [|ij elems IH]; intros m0 m Hall; cbn; [reflexivity|].
  rewrite IH by (intros ij' Hin; apply Hall; right; exact Hin).
  unfold mem_store. destruct (Z.eqb_spec x (obj_addr (l3_c call) (fst ij) (snd ij))) as [He|Hne].
  - exfalso. apply (Hall ij (or_introl eq_refl)). symmetry. exact He.
  - reflexivity.
Qed.

Lemma gemmt_tile_frame (call : l3_call R CN RN CT) (i0 j0 x : Z) (m : mem R) :
  obj_addr_of obj_is_stored (l3_c call) x = false ->
  gemmt_tile G call i0 j0 m x = m x.
Proof.
  intros Hx. unfold gemmt_tile, gemmt_tile_loc.
  set (c := l3_c call). set (elems := tile_elems G c i0 j0).
  assert (Hstored : forall ij, obj_is_stored c (fst ij) (snd ij) = true ->
                               obj_addr c (fst ij) (snd ij) <> x).
  { intros ij Hs He.
    pose proof (obj_addr_of_elem obj_is_stored c (fst ij) (snd ij)
                  (obj_is_stored_in_bounds c _ _ Hs) Hs) as H.
    rewrite He in H. subst c. congruence. }
  destruct (forallb _ elems) eqn:Hall.
  - unfold gemmt_store_elems. apply gemmt_store_elems_frame.
    intros ij Hin. apply Hstored.
    rewrite forallb_forall in Hall. apply Hall. exact Hin.
  - destruct (existsb _ elems); [|reflexivity].
    unfold gemmt_store_elems. apply gemmt_store_elems_frame.
    intros ij Hin. apply Hstored. apply filter_In in Hin. tauto.
Qed.

Lemma gemmt_macro_kernel_frame (call : l3_call R CN RN CT) (x : Z) (m : mem R) :
  obj_addr_of obj_is_stored (l3_c call) x = false ->
  gemmt_macro_kernel G call m x = m x.
Proof.
  intros Hx. unfold gemmt_macro_kernel.
  generalize (tile_origins (obj_n (l3_c call)) (gk_nr G)) as js.
  intros js. revert m.
  induction js as [|j0 js IHj]; intros m; cbn; [reflexivity|].
  rewrite IHj.
  generalize (tile_origins (obj_m (l3_c call)) (gk_mr G)) as is_.
  intros is_. revert m.
  induction is_ as [|i0 is_ IHi]; intros m; cbn; [reflexivity|].
  rewrite IHi. apply gemmt_tile_frame. exact Hx.
Qed.

End MacroKernelFacts.

Section GemmtFrame.

Context {R CN RN CT : Type}.
Variable E : l3_env R CN RN CT.
Variable G : gemmt_ker R CN RN CT.

Local Abbreviation State := (state R CN RN CT).

(** C9.  A gemmt call that passes its parameter check, run with a back-end
    that stores through the gemmt macro-kernel, returns, and leaves every
    address that holds no element of the stored triangle of C as it was;
    in particular, when the elements of C occupy pairwise distinct
    addresses, every element of C strictly outside the stored triangle
    keeps its value. *)
Theorem gemmt_preserves_off_triangle (alpha : scal R) (a b : objref) (beta : scal R)
    (nc : nat) (cntx : option CN) (rntm : option RN) (s : State) :
  let c := caller_obj nc in
  let C := st_obj s c in
  (forall sa sb kf call m,
      l3_cntl call = bli_gemm_cntl_create E BLIS_GEMMT sa sb kf ->
      bli_l3_thread_decorator E call m = gemmt_macro_kernel G call m) ->
  check_passes E (bli_gemmt_check E alpha (st_obj s a) (st_obj s b) beta C cntx) ->
  exists s',
    bli_gemmt_ex E alpha a b beta c cntx rntm s = Returned s'
    /\ (forall x, obj_addr_of obj_is_stored C x = false -> st_mem s' x = st_mem s x)
    /\ (obj_addr_injective C ->
        forall i j, obj_in_bounds C i j = true -> obj_is_stored C i j = false ->
                    st_mem s' (obj_addr C i j) = st_mem s (obj_addr C i j)).
Proof.
  intros c C Hbk Hchk.
  assert (Hframe : exists s',
             bli_gemmt_ex E alpha a b beta c cntx rntm s = Returned s'
             /\ forall x, obj_addr_of obj_is_stored C x = false -> st_mem s' x = st_mem s x).
  { destruct (gemmt_cases E alpha a b beta c cntx rntm s eq_refl Hchk)
      as [[_ Hrun] | [_ [s' [call [Hrun [Hm [_ [_ [[sa [sb [kf Hcntl]]] [_ [_ Hc]]]]]]]]]]].
    - eexists. split; [exact Hrun|]. intros x Hx.
      destruct (early_mem E alpha a b beta c s) as [-> | ->]; [reflexivity|].
      apply bli_scalm_elsewhere. exact Hx.
    - exists s'. split; [exact Hrun|]. intros x Hx.
      rewrite Hm, (Hbk sa sb kf call (st_mem s) Hcntl).
      apply gemmt_macro_kernel_frame.
      destruct (obj_addr_of obj_is_stored (l3_c call) x) eqn:Hcx; [|reflexivity].
      exfalso. fold c in Hc. fold C in Hc.
      destruct Hc as [Hc | Hc]; rewrite Hc in Hcx.
      + apply stored_addr_alias in Hcx. congruence.
      + apply stored_addr_induce_trans, stored_addr_alias in Hcx. congruence. }
  destruct Hframe as [s' [Hrun Hfr]].
  exists s'. split; [exact Hrun|]. split; [exact Hfr|].
  intros Hinj i j Hb Hs. apply Hfr. apply not_stored_addr; assumption.
Qed.

End GemmtFrame.

(* ------------------------------------------------------------------ *)
(** ** The rank-k updates *)

Section RankK.

Context {R CN RN CT : Type}.
Variable E : l3_env R CN RN CT.

Local Abbreviation State := (state R CN RN CT).

Lemma zero_diag_imag_spec (c : objref) (s s' : State) :
  zero_diag_imag E c s = Returned s' ->
  forall i j, obj_on_diag (st_obj s c) i j = true ->
              imag (st_mem s' (obj_addr (st_obj s c) i j)) = rzero (ar E).
Proof.
  unfold zero_diag_imag. intros H i j Hd. inversion H. subst s'. clear H.
  cbn [set_mem st_mem]. rewrite (bli_setid_diag E _ _ _ i j Hd). reflexivity.
Qed.

(** The Hermitian rank-k entry points are their parameter check, the gemmt
    calls, and the zeroing of the imaginary parts of the diagonal. *)
Lemma herk_unfold (alpha : scal R) (a : objref) (beta : scal R) (c : objref)
    (cntx : option CN) (rntm : option RN) (s : State) :
  bli_herk_ex E alpha a beta c cntx rntm s
  = bind (l3_check E (bli_herk_check E alpha (st_obj s a) beta (st_obj s c) cntx))
         (fun _ => bind (herk_by_gemmt E alpha a beta c cntx rntm s)
                        (zero_diag_imag E c)).
Proof. reflexivity. Qed.

Lemma her2k_unfold (alpha : scal R) (a b : objref) (beta : scal R) (c : objref)
    (cntx : option CN) (rntm : option RN) (s : State) :
  bli_her2k_ex E alpha a b beta c cntx rntm s
  = bind (l3_check E (bli_her2k_check E alpha (st_obj s a) (st_obj s b) beta
                                      (st_obj s c) cntx))
         (fun _ => bind (her2k_by_gemmt E alpha a b beta c cntx rntm s)
                        (zero_diag_imag E c)).
Proof.
  unfold bli_her2k_ex, her2k_by_gemmt, gemmt_twice.
  destruct (l3_check E _); [|reflexivity]. cbn [bind].
  cbv zeta.
  destruct (bli_gemmt_ex E alpha a ref_bh beta c cntx rntm _) as [s1|e];
    [|reflexivity].
  cbn [bind].
  destruct (bli_gemmt_ex E (scal_toggle_conj alpha) b ref_ah _ c cntx rntm s1)
    as [s2|e]; reflexivity.
Qed.

(** C3.  her2k is its parameter check, then gemmt(alpha, A, B^H, beta, C)
    and gemmt(conj(alpha), B, A^H, 1, C), then the zeroing of the
    imaginary parts of the diagonal of C; herk is its parameter check,
    then gemmt(alpha, A, A^H, beta, C), then the same zeroing; syr2k is
    its parameter check, then gemmt(alpha, A, B^T, beta, C) and
    gemmt(alpha, B, A^T, 1, C); syrk is its parameter check, then
    gemmt(alpha, A, A^T, beta, C). *)
Theorem rank_k_by_gemmt (alpha : scal R) (a b : objref) (beta : scal R) (c : objref)
    (cntx : option CN) (rntm : option RN) (s : State) :
  bli_her2k_ex E alpha a b beta c cntx rntm s
  = bind (l3_check E (bli_her2k_check E alpha (st_obj s a) (st_obj s b) beta
                                      (st_obj s c) cntx))
         (fun _ => bind (her2k_by_gemmt E alpha a b beta c cntx rntm s)
                        (zero_diag_imag E c))
  /\ bli_syr2k_ex E alpha a b beta c cntx rntm s
     = bind (l3_check E (bli_syr2k_check E alpha (st_obj s a) (st_obj s b) beta
                                         (st_obj s c) cntx))
            (fun _ => syr2k_by_gemmt E alpha a b beta c cntx rntm s)
  /\ bli_herk_ex E alpha a beta c cntx rntm s
     = bind (l3_check E (bli_herk_check E alpha (st_obj s a) beta (st_obj s c) cntx))
            (fun _ => bind (herk_by_gemmt E alpha a beta c cntx rntm s)
                           (zero_diag_imag E c))
  /\ bli_syrk_ex E alpha a beta c cntx rntm s
     = bind (l3_check E (bli_syrk_check E alpha (st_obj s a) beta (st_obj s c) cntx))
            (fun _ => syrk_by_gemmt E alpha a beta c cntx rntm s).
Proof.
  split; [apply her2k_unfold|].
  split; [reflexivity|].
  split; [apply herk_unfold|reflexivity].
Qed.

(** C2.  Whenever herk or her2k returns, the imaginary part of every
    diagonal element of C is zero; and both return when their parameter
    check and the checks of the gemmt calls they make pass. *)
Theorem hermitian_rank_k_diag_imag_zero (alpha : scal R) (na nb : nat) (beta : scal R)
    (nc : nat) (cntx : option CN) (rntm : option RN) (s : State) :
  let a := caller_obj na in
  let b := caller_obj nb in
  let c := caller_obj nc in
  let A := st_obj s a in
  let B := st_obj s b in
  let C := st_obj s c in
  let diag_imag_zero (s' : State) :=
    forall i j, obj_on_diag C i j = true ->
                imag (st_mem s' (obj_addr C i j)) = rzero (ar E) in
  (* herk *)
  (forall s', bli_herk_ex E alpha a beta c cntx rntm s = Returned s' -> diag_imag_zero s')
  /\ (check_passes E (bli_herk_check E alpha A beta C cntx) ->
      check_passes E (bli_gemmt_check E alpha A (obj_conjtrans A) beta C cntx) ->
      exists s', bli_herk_ex E alpha a beta c cntx rntm s = Returned s'
                 /\ diag_imag_zero s')
  (* her2k *)
  /\ (forall s', bli_her2k_ex E alpha a b beta c cntx rntm s = Returned s' ->
                 diag_imag_zero s')
  /\ (check_passes E (bli_her2k_check E alpha A B beta C cntx) ->
      check_passes E (bli_gemmt_check E alpha A (obj_conjtrans B) beta C cntx) ->
      check_passes E (bli_gemmt_check E (scal_toggle_conj alpha) B (obj_conjtrans A)
                                      (BLIS_ONE (ar E)) C cntx) ->
      exists s', bli_her2k_ex E alpha a b beta c cntx rntm s = Returned s'
                 /\ diag_imag_zero s').
Proof.
  intros a b c A B C diag_imag_zero.
  assert (Hherk : forall s', bli_herk_ex E alpha a beta c cntx rntm s = Returned s' ->
                             diag_imag_zero s').
  { intros s' Hrun. rewrite herk_unfold in Hrun.
    destruct (l3_check E _); cbn [bind] in Hrun; [|discriminate].
    unfold herk_by_gemmt in Hrun. cbv zeta in Hrun.
    destruct (bli_gemmt_ex E alpha a ref_ah beta c cntx rntm _) as [s1|e] eqn:Hg;
      cbn [bind] in Hrun; [|discriminate].
    pose proof (gemmt_keeps_objs E _ _ _ _ _ _ _ _ _ Hg c eq_refl) as Hc.
    rewrite st_obj_set_obj in Hc. cbn [objref_eqb c] in Hc.
    intros i j Hd.
    pose proof (zero_diag_imag_spec c s1 s' Hrun i j) as Hz.
    rewrite Hc in Hz. apply Hz. exact Hd. }
  assert (Hher2k : forall s', bli_her2k_ex E alpha a b beta c cntx rntm s = Returned s' ->
                              diag_imag_zero s').
  { intros s' Hrun. rewrite her2k_unfold in Hrun.
    destruct (l3_check E _); cbn [bind] in Hrun; [|discriminate].
    unfold her2k_by_gemmt, gemmt_twice in Hrun. cbv zeta in Hrun.
    destruct (bli_gemmt_ex E alpha a ref_bh beta c cntx rntm _) as [s1|e] eqn:Hg1;
      cbn [bind] in Hrun; [|discriminate].
    destruct (bli_gemmt_ex E (scal_toggle_conj alpha) b ref_ah _ c cntx rntm s1)
      as [s2|e] eqn:Hg2; cbn [bind] in Hrun; [|discriminate].
    pose proof (gemmt_keeps_objs E _ _ _ _ _ _ _ _ _ Hg1 c eq_refl) as Hc1.
    pose proof (gemmt_keeps_objs E _ _ _ _ _ _ _ _ _ Hg2 c eq_refl) as Hc2.
    rewrite !st_obj_set_obj in Hc1. cbn [objref_eqb c] in Hc1.
    intros i j Hd.
    pose proof (zero_diag_imag_spec c s2 s' Hrun i j) as Hz.
    rewrite Hc2, Hc1 in Hz. apply Hz. exact Hd. }
  split; [exact Hherk|]. split; [|split; [exact Hher2k|]].
  - intros Hk Hg.
    assert (Hret : exists s', bli_herk_ex E alpha a beta c cntx rntm s = Returned s').
    { unfold A, C in Hk, Hg. unfold bli_herk_ex. rewrite (l3_check_passes E _ Hk). cbn [bind]. cbv zeta.
      match goal with
      | |- context [bli_gemmt_ex E alpha a ref_ah beta c cntx rntm ?s0] =>
          destruct (gemmt_returns E alpha a ref_ah beta c cntx rntm s0) as [s1 Hs1]
      end.
      { rewrite !st_obj_set_obj. cbn [objref_eqb a c]. exact Hg. }
      rewrite Hs1. cbn [bind]. eexists. reflexivity. }
    destruct Hret as [s' Hs']. exists s'. split; [exact Hs'|]. apply Hherk. exact Hs'.
  - intros Hk Hg1 Hg2.
    assert (Hret : exists s', bli_her2k_ex E alpha a b beta c cntx rntm s = Returned s').
    { unfold A, B, C in Hk, Hg1, Hg2. unfold bli_her2k_ex.
      rewrite (l3_check_passes E _ Hk). cbn [bind]. cbv zeta.
      match goal with
      | |- context [bli_gemmt_ex E alpha a ref_bh beta c cntx rntm ?s0] =>
          destruct (gemmt_returns E alpha a ref_bh beta c cntx rntm s0) as [s1 Hs1];
          [ rewrite !st_obj_set_obj; cbn [objref_eqb a b c]; exact Hg1 | ];
          pose proof (gemmt_keeps_objs E _ _ _ _ _ _ _ _ _ Hs1) as Hk1;
          assert (Hb1 : st_obj s1 b = B)
            by (rewrite (Hk1 b eq_refl), !st_obj_set_obj; reflexivity);
          assert (Hc1 : st_obj s1 c = C)
            by (rewrite (Hk1 c eq_refl), !st_obj_set_obj; reflexivity);
          assert (Ha1 : st_obj s1 ref_ah = obj_conjtrans A)
            by (rewrite (Hk1 ref_ah eq_refl), !st_obj_set_obj; reflexivity)
      end.
      rewrite Hs1. cbn [bind].
      destruct (gemmt_returns E (scal_toggle_conj alpha) b ref_ah (BLIS_ONE (ar E)) c
                  cntx rntm s1) as [s2 Hs2].
      { rewrite Hb1, Hc1, Ha1. exact Hg2. }
      rewrite Hs2. cbn [bind]. eexists. reflexivity. }
    destruct Hret as [s' Hs']. exists s'. split; [exact Hs'|]. apply Hher2k. exact Hs'.
Qed.

End RankK.

(* ------------------------------------------------------------------ *)
(** ** The scalars of gemm *)

Section GemmScalars.

Context {R CN RN CT : Type}.
Variable E : l3_env R CN RN CT.

Local Abbreviation State := (state R CN RN CT).

Lemma gemm_prepare_calls (a b c : objref) (beta : scal R) (cntx : CN) (s : State) :
  st_calls (fst (gemm_prepare E a b c beta cntx s)) = st_calls s
  /\ st_mem (fst (gemm_prepare E a b c beta cntx s)) = st_mem s.
Proof.
  unfold gemm_prepare. cbv zeta.
  destruct (orient_mem E cntx (alias_locals a b c s)) as [Hm Hc].
  destruct (BLIS_ENABLE_GEMM_MD E && _).
  - destruct (bli_gemm_md E _ _ _ _ _) as [[[a' b'] c'] cntx'].
    cbn. rewrite Hm, Hc. split; reflexivity.
  - cbn. rewrite Hm, Hc. split; reflexivity.
Qed.

(** C6.  In gemm, the scalar-attachment step makes alpha the scalar carried
    by the local alias of B and beta the scalar carried by the local alias
    of C, and leaves the local alias of A alone.  On a call that reaches
    the back-end, the alpha passed on is the unit scalar; the beta passed
    on is the unit scalar, and the C operand the local alias of C, unless
    the mixed-datatype staging accumulates into a temporary matrix, in
    which case the beta passed on is zero and the C operand is the
    temporary. *)
Theorem gemm_scalar_attachment (alpha : scal R) (a b : objref) (beta : scal R)
    (c : objref) (cntx : option CN) (rntm : option RN) (s : State) :
  let A := st_obj s a in
  let B := st_obj s b in
  let C := st_obj s c in
  let cx := resolve_cntx E cntx
              (if bli_obj_is_complex C && bli_obj_is_complex A && bli_obj_is_complex B
               then bli_ind_find_avail E BLIS_GEMM (obj_dt C) else BLIS_NAT) in
  (* the state before and after the scalars are attached *)
  let s0 := fst (gemm_prepare E a b c beta cx s) in
  let s1 := gemm_attach_scalars E alpha beta s0 in
  let use_ct := gemm_use_ct E (st_obj s1 ref_a_local) (st_obj s1 ref_b_local)
                            (st_obj s1 ref_c_local) in
  (* alpha goes to the local B, beta to the local C, the local A is left alone *)
  (obj_scalar (st_obj s1 ref_b_local)
   = typecast E (obj_target_dt (st_obj s0 ref_b_local)) (scal_val (ar E) alpha)
   /\ obj_scalar (st_obj s1 ref_c_local)
      = typecast E (obj_target_dt (st_obj s0 ref_c_local)) (scal_val (ar E) beta)
   /\ st_obj s1 ref_a_local = st_obj s0 ref_a_local)
  (* what the back-end receives *)
  /\ (check_passes E (bli_gemm_check E alpha A B beta C cntx) ->
      err_is_success (fst (bli_l3_return_early_if_trivial E alpha a b beta c s)) = false ->
      bli_gemmsup E alpha A B beta C cntx rntm (st_mem s) = None ->
      exists s' call,
        bli_gemm_ex E alpha a b beta c cntx rntm s = Returned s'
        /\ st_calls s' = st_calls s ++ [call]
        /\ l3_alpha call = BLIS_ONE (ar E)
        /\ l3_beta call = (if use_ct then BLIS_ZERO (ar E) else BLIS_ONE (ar E))
        /\ l3_a call = bli_obj_set_pack_schema BLIS_NOT_PACKED (st_obj s1 ref_a_local)
        /\ l3_b call = bli_obj_set_pack_schema BLIS_NOT_PACKED (st_obj s1 ref_b_local)
        /\ l3_c call
           = (if use_ct
              then gemm_make_ct E (st_obj s1 ref_a_local) (st_obj s1 ref_b_local)
                                (st_obj s1 ref_c_local) (st_mem s)
              else st_obj s1 ref_c_local)).
Proof.
  intros A B C cx s0 s1 use_ct.
  split.
  - subst s1. unfold gemm_attach_scalars, bli_obj_scalar_attach.
    rewrite !st_obj_upd_obj. cbn [objref_eqb]. repeat split; reflexivity.
  - intros Hchk Hearly Hsup.
    unfold bli_gemm_ex. fold A B C. rewrite (l3_check_passes E _ Hchk). cbn [bind].
    destruct (bli_l3_return_early_if_trivial E alpha a b beta c s) as [r se] eqn:He.
    cbn [fst] in Hearly. rewrite Hearly.
    pose proof (early_failure_keeps_state E _ _ _ _ _ _ _ _ He Hearly). subst se.
    fold A B C. rewrite Hsup. fold cx.
    destruct (gemm_prepare_calls a b c beta cx s) as [Hcalls Hmem].
    fold s0 in Hcalls, Hmem.
    destruct (gemm_prepare E a b c beta cx s) as [s0' cx'] eqn:Hp.
    cbn [fst] in s0. subst s0. fold s1.
    assert (Hm1 : st_mem s1 = st_mem s /\ st_calls s1 = st_calls s).
    { subst s1. unfold gemm_attach_scalars. cbn. auto. }
    destruct Hm1 as [Hm1 Hc1].
    cbv zeta. fold use_ct.
    destruct use_ct eqn:Hct; cbv beta iota; rewrite take_schemas_eq; cbv beta iota.
    + eexists. eexists. split; [reflexivity|].
      cbn [set_mem st_calls l3_thread_decorate st_obj l3_alpha l3_beta l3_a l3_b l3_c].
      rewrite reset_schemas_calls. cbn [set_obj st_calls]. rewrite Hc1.
      split; [reflexivity|]. split; [reflexivity|]. split; [reflexivity|].
      rewrite reset_schemas_a, reset_schemas_b.
      rewrite (reset_schemas_other _ ref_ct) by reflexivity.
      rewrite !st_obj_set_obj. cbn [objref_eqb set_obj st_mem]. rewrite Hm1.
      repeat split; reflexivity.
    + eexists. eexists. split; [reflexivity|].
      cbn [set_mem st_calls l3_thread_decorate st_obj l3_alpha l3_beta l3_a l3_b l3_c].
      rewrite reset_schemas_calls. rewrite Hc1.
      split; [reflexivity|]. split; [reflexivity|]. split; [reflexivity|].
      rewrite reset_schemas_a, reset_schemas_b.
      rewrite (reset_schemas_other _ ref_c_local) by reflexivity.
      repeat split; reflexivity.
Qed.

End GemmScalars.

(* ------------------------------------------------------------------ *)
(** ** The triangular entry points *)

Section Triangular.

Context {R CN RN CT : Type}.
Variable E : l3_env R CN RN CT.

Local Abbreviation State := (state R CN RN CT).

Lemma set_pack_schema_twice (p q : pack_t) (o : obj_t R) :
  bli_obj_set_pack_schema p (bli_obj_set_pack_schema q o) = bli_obj_set_pack_schema p o.
Proof. reflexivity. Qed.

Lemma normalize_other (s : State) (r : objref) :
  objref_eqb r ref_a_local = false ->
  st_obj (normalize_trans_a s) r = st_obj s r.
Proof.
  intros H. unfold normalize_trans_a.
  destruct (bli_obj_has_trans (st_obj s ref_a_local)); [|reflexivity].
  rewrite !st_obj_upd_obj, H. reflexivity.
Qed.

Lemma normalize_a (s : State) :
  bli_obj_has_trans (st_obj s ref_a_local) = true ->
  st_obj (normalize_trans_a s) ref_a_local
  = bli_obj_set_onlytrans BLIS_NO_TRANSPOSE (bli_obj_induce_trans (st_obj s ref_a_local)).
Proof. intros H. unfold normalize_trans_a. rewrite H. reflexivity. Qed.

Lemma normalize_mem (s : State) :
  st_mem (normalize_trans_a s) = st_mem s /\ st_calls (normalize_trans_a s) = st_calls s.
Proof.
  unfold normalize_trans_a.
  destruct (bli_obj_has_trans (st_obj s ref_a_local)); split; reflexivity.
Qed.

(** Where the alias of A ends up after the orientation step, and how often
    it has been transposed on the way. *)
Lemma orient_triangular_spec (disable_right : bool) (side : side_t) (cntx : CN)
    (s : State) :
  let so := snd (orient_triangular E disable_right side cntx s) in
  (forall r, not_alias r = true -> st_obj so r = st_obj s r)
  /\ st_mem so = st_mem s /\ st_calls so = st_calls s
  /\ exists k, (k <= 1)%nat
       /\ (st_obj so ref_a_local = Nat.iter k bli_obj_induce_trans (st_obj s ref_a_local)
           \/ st_obj so ref_b_local
              = Nat.iter k bli_obj_induce_trans (st_obj s ref_a_local)).
Proof.
  unfold orient_triangular.
  destruct disable_right.
  - destruct (bli_is_right side); cbn [snd].
    + split; [intros r Hr; apply induce_abc_other; exact Hr|].
      split; [reflexivity|]. split; [reflexivity|].
      exists 1%nat. split; [lia|]. left. reflexivity.
    + split; [reflexivity|]. split; [reflexivity|]. split; [reflexivity|].
      exists 0%nat. split; [lia|]. left. reflexivity.
  - destruct (bli_cntx_dislikes_storage_of E (st_obj s ref_c_local) cntx).
    + destruct (bli_is_right (bli_toggle_side side)); cbn [snd].
      * split; [intros r Hr; rewrite swap_ab_other, induce_abc_other by exact Hr;
                reflexivity|].
        split; [reflexivity|]. split; [reflexivity|].
        exists 1%nat. split; [lia|]. right. reflexivity.
      * split; [intros r Hr; apply induce_abc_other; exact Hr|].
        split; [reflexivity|]. split; [reflexivity|].
        exists 1%nat. split; [lia|]. left. reflexivity.
    + destruct (bli_is_right side); cbn [snd].
      * split; [intros r Hr; apply swap_ab_other; exact Hr|].
        split; [reflexivity|]. split; [reflexivity|].
        exists 0%nat. split; [lia|]. right. reflexivity.
      * split; [reflexivity|]. split; [reflexivity|]. split; [reflexivity|].
        exists 0%nat. split; [lia|]. left. reflexivity.
Qed.

Lemma iter_induce_trans_onlytrans (k : nat) (o : obj_t R) :
  obj_onlytrans (Nat.iter k bli_obj_induce_trans o) = obj_onlytrans o.
Proof. induction k as [|k IH]; cbn; [reflexivity|exact IH]. Qed.

(** The tail shared by the three entry points: from the oriented state to
    the call of the back-end. *)
Lemma tri_tail (alpha beta : scal R) (cx : CN) (cntl : CT) (rntm : RN)
    (s so : State) (A0 : obj_t R) :
  let s' :=
    l3_thread_decorate E alpha ref_a_local ref_b_local beta ref_c_local cx cntl rntm
      (reset_schemas (bli_l3_set_schemas E ref_a_local ref_b_local ref_c_local cx so)) in
  (forall r, not_alias r = true -> st_obj so r = st_obj s r) ->
  st_calls so = st_calls s ->
  (exists k, (k <= 1)%nat
     /\ (st_obj so ref_a_local = Nat.iter k bli_obj_induce_trans A0
         \/ st_obj so ref_b_local = Nat.iter k bli_obj_induce_trans A0)) ->
  obj_onlytrans A0 = BLIS_NO_TRANSPOSE ->
  (forall n, st_obj s' (caller_obj n) = st_obj s (caller_obj n))
  /\ exists call k,
       st_calls s' = st_calls s ++ [call] /\ (k <= 1)%nat
       /\ (l3_a call
           = bli_obj_set_pack_schema BLIS_NOT_PACKED (Nat.iter k bli_obj_induce_trans A0)
           \/ l3_b call
              = bli_obj_set_pack_schema BLIS_NOT_PACKED
                  (Nat.iter k bli_obj_induce_trans A0))
       /\ obj_onlytrans (bli_obj_set_pack_schema BLIS_NOT_PACKED
                           (Nat.iter k bli_obj_induce_trans A0)) = BLIS_NO_TRANSPOSE.
Proof.
  intros s' Hother Hcalls [k [Hk Hloc]] Htr. subst s'.
  split.
  - intros n. rewrite st_obj_decorate.
    rewrite reset_schemas_other, set_schemas_other by reflexivity.
    apply Hother. reflexivity.
  - eexists. exists k.
    cbn [l3_thread_decorate st_calls l3_a l3_b].
    rewrite reset_schemas_calls.
    destruct (set_schemas_mem E ref_a_local ref_b_local ref_c_local cx so) as [_ ->].
    rewrite Hcalls. split; [reflexivity|]. split; [exact Hk|].
    rewrite reset_schemas_a, reset_schemas_b, set_schemas_a, set_schemas_b.
    rewrite !set_pack_schema_twice.
    split.
    + destruct Hloc as [-> | ->]; [left|right]; reflexivity.
    + cbn [bli_obj_set_pack_schema obj_onlytrans].
      rewrite iter_induce_trans_onlytrans. exact Htr.
Qed.

(** C8.  For trmm, trmm3 and trsm called on an A that carries the
    transposition flag, on a call that passes the parameter check: the
    local alias of A is transposed by induction and its flag cleared, which
    swaps upper and lower; the call returns with every object of the
    caller as it was; and when the back-end is called, one of its two
    operands is that normalised alias, transposed at most once more by the
    orientation step, and marked no-transpose. *)
Theorem tri_entry_transposed_a (op : tri_entry R) (side : side_t) (alpha : scal R)
    (na nb : nat) (cntx : option CN) (rntm : option RN) (s : State) :
  let a := caller_obj na in
  let b := caller_obj nb in
  let c := tri_entry_c op b in
  let A := st_obj s a in
  let A_norm :=
    bli_obj_set_onlytrans BLIS_NO_TRANSPOSE
      (bli_obj_induce_trans (bli_obj_alias_and_reset_origin A)) in
  not_alias c = true ->
  check_passes E (tri_entry_check E op side alpha a b cntx s) ->
  bli_obj_has_trans A = true ->
  (* the normalisation of the local alias *)
  st_obj (normalize_trans_a (alias_locals a b c s)) ref_a_local = A_norm
  /\ obj_onlytrans A_norm = BLIS_NO_TRANSPOSE
  /\ obj_uplo A_norm = bli_uplo_toggled (obj_uplo A)
  (* the call *)
  /\ exists s',
       tri_entry_run E op side alpha a b cntx rntm s = Returned s'
       /\ (forall n, st_obj s' (caller_obj n) = st_obj s (caller_obj n))
       /\ (err_is_success
             (fst (bli_l3_return_early_if_trivial E alpha a b (tri_entry_beta E op) c s))
           = false ->
           exists call k,
             st_calls s' = st_calls s ++ [call] /\ (k <= 1)%nat
             /\ (l3_a call
                 = bli_obj_set_pack_schema BLIS_NOT_PACKED
                     (Nat.iter k bli_obj_induce_trans A_norm)
                 \/ l3_b call
                    = bli_obj_set_pack_schema BLIS_NOT_PACKED
                        (Nat.iter k bli_obj_induce_trans A_norm))
             /\ obj_onlytrans (bli_obj_set_pack_schema BLIS_NOT_PACKED
                                 (Nat.iter k bli_obj_induce_trans A_norm))
                = BLIS_NO_TRANSPOSE).
Proof.
  intros a b c A A_norm Hc Hchk Htr.
  assert (Hnorm : st_obj (normalize_trans_a (alias_locals a b c s)) ref_a_local = A_norm).
  { rewrite normalize_a; rewrite alias_locals_a; [reflexivity|exact Htr]. }
  split; [exact Hnorm|]. split; [reflexivity|].
  split.
  { unfold A_norm. cbn. unfold bli_is_upper_or_lower.
    destruct (obj_uplo A); reflexivity. }
  (* the common shape of the three entry points *)
  assert (Hshape : forall (beta beta' : scal R) (cx_of : State -> CN)
                          (cntl_of : State -> side_t -> CT)
                          (rntm_of : State -> side_t -> RN) (dis : bool),
             exists s',
               (let '(r, s1) := bli_l3_return_early_if_trivial E alpha a b beta c s in
                if err_is_success r then Returned s1 else
                let cx := cx_of s1 in
                let s2 := normalize_trans_a (alias_locals a b c s1) in
                let '(side', s3) := orient_triangular E dis side cx s2 in
                let s4 := bli_l3_set_schemas E ref_a_local ref_b_local ref_c_local cx s3 in
                Returned (l3_thread_decorate E alpha ref_a_local ref_b_local beta'
                            ref_c_local cx (cntl_of s4 side') (rntm_of s4 side')
                            (reset_schemas s4))) = Returned s'
               /\ (forall n, st_obj s' (caller_obj n) = st_obj s (caller_obj n))
               /\ (err_is_success
                     (fst (bli_l3_return_early_if_trivial E alpha a b beta c s)) = false ->
                   exists call k,
                     st_calls s' = st_calls s ++ [call] /\ (k <= 1)%nat
                     /\ (l3_a call
                         = bli_obj_set_pack_schema BLIS_NOT_PACKED
                             (Nat.iter k bli_obj_induce_trans A_norm)
                         \/ l3_b call
                            = bli_obj_set_pack_schema BLIS_NOT_PACKED
                                (Nat.iter k bli_obj_induce_trans A_norm))
                     /\ obj_onlytrans (bli_obj_set_pack_schema BLIS_NOT_PACKED
                                         (Nat.iter k bli_obj_induce_trans A_norm))
                        = BLIS_NO_TRANSPOSE)).
  { intros beta beta' cx_of cntl_of rntm_of dis.
    destruct (bli_l3_return_early_if_trivial E alpha a b beta c s) as [r s1] eqn:He.
    cbn [fst].
    destruct (err_is_success r) eqn:Hs.
    - exists s1. split; [reflexivity|]. split; [|discriminate].
      intros n. pose proof (early_keeps_objs E alpha a b beta c s) as [Ho _].
      rewrite He in Ho. cbn in Ho. rewrite Ho. reflexivity.
    - pose proof (early_failure_keeps_state E _ _ _ _ _ _ _ _ He Hs). subst s1.
      cbv zeta. set (cx := cx_of s).
      pose proof (orient_triangular_spec dis side cx
                    (normalize_trans_a (alias_locals a b c s))) as Hspec.
      destruct (orient_triangular E dis side cx
                  (normalize_trans_a (alias_locals a b c s))) as [side' s3].
      cbn [snd] in Hspec. destruct Hspec as [Hother [_ [Hcalls Hloc]]].
      eexists. split; [reflexivity|].
      rewrite Hnorm in Hloc.
      destruct (tri_tail alpha beta' cx
                  (cntl_of (bli_l3_set_schemas E ref_a_local ref_b_local ref_c_local cx s3)
                           side')
                  (rntm_of (bli_l3_set_schemas E ref_a_local ref_b_local ref_c_local cx s3)
                           side')
                  s s3 A_norm) as [H1 H2]; try reflexivity.
      + intros r0 Hr0. rewrite (Hother r0 Hr0).
        destruct (objref_eqb_not_alias r0 Hr0) as [Ha _].
        rewrite normalize_other by exact Ha. apply alias_locals_other. exact Hr0.
      + rewrite Hcalls. destruct (normalize_mem (alias_locals a b c s)) as [_ ->].
        reflexivity.
      + exact Hloc.
      + split; [exact H1|]. intros _. exact H2. }
  destruct op as [beta c0| |]; subst c;
    cbn [tri_entry_run tri_entry_check tri_entry_beta tri_entry_c] in *.
  - (* trmm3 *)
    unfold bli_trmm3_ex. rewrite (l3_check_passes E _ Hchk). cbn [bind].
    destruct (Hshape beta beta
                (fun s1 => resolve_cntx E cntx
                   (if num_t_eqb (obj_dt (st_obj s1 a)) (obj_dt (st_obj s1 c0))
                       && num_t_eqb (obj_dt (st_obj s1 b)) (obj_dt (st_obj s1 c0))
                       && bli_obj_is_complex (st_obj s1 c0)
                    then bli_ind_find_avail E BLIS_TRMM3 (obj_dt (st_obj s1 c0))
                    else BLIS_NAT))
                (fun s4 _ => bli_gemm_cntl_create E BLIS_TRMM
                               (obj_pack_schema (st_obj s4 ref_a_local))
                               (obj_pack_schema (st_obj s4 ref_b_local))
                               (obj_ker_fn (st_obj (reset_schemas s4) ref_c_local)))
                (fun s4 side' => bli_rntm_set_ways_for_op E BLIS_TRMM3 side'
                               (bli_obj_length (st_obj s4 ref_c_local))
                               (bli_obj_width (st_obj s4 ref_c_local))
                               (bli_obj_width (st_obj s4 ref_a_local))
                               (local_rntm E rntm))
                (BLIS_DISABLE_TRMM3_RIGHT E)) as [s' [Hrun Hrest]].
    exists s'. split; [|exact Hrest].
    rewrite <- Hrun. clear.
    destruct (bli_l3_return_early_if_trivial E alpha a b beta c0 s) as [r s1].
    destruct (err_is_success r); [reflexivity|].
    cbv zeta.
    destruct (orient_triangular E _ side _ _) as [side' s3].
    rewrite take_schemas_eq. reflexivity.
  - (* trmm *)
    unfold bli_trmm_ex. rewrite (l3_check_passes E _ Hchk). cbn [bind].
    destruct (Hshape (BLIS_ZERO (ar E)) (BLIS_ZERO (ar E))
                (fun s1 => resolve_cntx E cntx
                   (if num_t_eqb (obj_dt (st_obj s1 a)) (obj_dt (st_obj s1 b))
                       && bli_obj_is_complex (st_obj s1 b)
                    then bli_ind_find_avail E BLIS_TRMM (obj_dt (st_obj s1 b))
                    else BLIS_NAT))
                (fun s4 _ => bli_gemm_cntl_create E BLIS_TRMM
                               (obj_pack_schema (st_obj s4 ref_a_local))
                               (obj_pack_schema (st_obj s4 ref_b_local))
                               (obj_ker_fn (st_obj (reset_schemas s4) ref_c_local)))
                (fun s4 side' => bli_rntm_set_ways_for_op E BLIS_TRMM side'
                               (bli_obj_length (st_obj s4 ref_c_local))
                               (bli_obj_width (st_obj s4 ref_c_local))
                               (bli_obj_width (st_obj s4 ref_a_local))
                               (local_rntm E rntm))
                (BLIS_DISABLE_TRMM_RIGHT E)) as [s' [Hrun Hrest]].
    exists s'. split; [|exact Hrest].
    rewrite <- Hrun. clear.
    destruct (bli_l3_return_early_if_trivial E alpha a b (BLIS_ZERO (ar E)) b s) as [r s1].
    destruct (err_is_success r); [reflexivity|].
    cbv zeta.
    destruct (orient_triangular E _ side _ _) as [side' s3].
    rewrite take_schemas_eq. reflexivity.
  - (* trsm *)
    unfold bli_trsm_ex. rewrite (l3_check_passes E _ Hchk). cbn [bind].
    destruct (Hshape (BLIS_ZERO (ar E)) alpha
                (fun s1 => resolve_cntx E cntx
                   (if num_t_eqb (obj_dt (st_obj s1 a)) (obj_dt (st_obj s1 b))
                       && bli_obj_is_complex (st_obj s1 b)
                    then bli_ind_find_avail E BLIS_TRSM (obj_dt (st_obj s1 b))
                    else BLIS_NAT))
                (fun s4 _ => bli_trsm_cntl_create E
                               (if bli_obj_is_triangular (st_obj (reset_schemas s4) a)
                                then BLIS_LEFT else BLIS_RIGHT)
                               (obj_pack_schema (st_obj s4 ref_a_local))
                               (obj_pack_schema (st_obj s4 ref_b_local))
                               (obj_ker_fn (st_obj (reset_schemas s4) ref_c_local)))
                (fun s4 side' => bli_rntm_set_ways_for_op E BLIS_TRSM side'
                               (bli_obj_length (st_obj s4 ref_c_local))
                               (bli_obj_width (st_obj s4 ref_c_local))
                               (bli_obj_width (st_obj s4 ref_a_local))
                               (local_rntm E rntm))
                true) as [s' [Hrun Hrest]].
    exists s'. split; [|exact Hrest].
    rewrite <- Hrun. clear.
    destruct (bli_l3_return_early_if_trivial E alpha a b (BLIS_ZERO (ar E)) b s) as [r s1].
    destruct (err_is_success r); [reflexivity|].
    cbv zeta. unfold orient_triangular.
    destruct (bli_is_right side); rewrite take_schemas_eq; reflexivity.
Qed.

End Triangular.

(* ------------------------------------------------------------------ *)
(** ** Directions in the trsm control tree *)

Section TrsmCntlFacts.

Context {R CN : Type}.
Variable E : cntl_env R CN.

(** C7.  In the left-side trsm tree the m (IC) and k (PC) loops run forward
    when A is lower triangular and backward when A is upper triangular,
    and the n (JC) loop runs forward.  In the right-side tree the k (PC)
    and n (JC) loops run backward when B is lower triangular and forward
    when B is upper triangular, and the m (IC) loop runs forward whatever
    the triangle of B.  [bli_trsm_cntl_init] builds the left-side tree
    when A is triangular and the right-side tree otherwise. *)
Theorem trsm_cntl_directions (a b c : obj_t R) (schema_a schema_b : pack_t)
    (cntx : CN) (cntl : trsm_cntl_t) :
  let left := bli_trsm_l_cntl_init E a b c schema_a schema_b cntx cntl in
  let right := bli_trsm_r_cntl_init E a b c schema_a schema_b cntx cntl in
  (* left-side tree: the m and k loops follow the triangle of A *)
  (bli_obj_is_lower a = true ->
   part_direct (t_part_ic left) = BLIS_FWD /\ part_direct (t_part_pc left) = BLIS_FWD)
  /\ (bli_obj_is_upper a = true ->
      part_direct (t_part_ic left) = BLIS_BWD /\ part_direct (t_part_pc left) = BLIS_BWD)
  /\ part_direct (t_part_jc left) = BLIS_FWD
  (* right-side tree: the k and n loops follow the triangle of B, the m
     loop runs forward *)
  /\ (bli_obj_is_lower b = true ->
      part_direct (t_part_pc right) = BLIS_BWD /\ part_direct (t_part_jc right) = BLIS_BWD)
  /\ (bli_obj_is_upper b = true ->
      part_direct (t_part_pc right) = BLIS_FWD /\ part_direct (t_part_jc right) = BLIS_FWD)
  /\ part_direct (t_part_ic right) = BLIS_FWD
  (* which tree is built *)
  /\ (bli_obj_is_triangular a = true ->
      bli_trsm_cntl_init E a b c schema_a schema_b cntx cntl = left)
  /\ (bli_obj_is_triangular a = false ->
      bli_trsm_cntl_init E a b c schema_a schema_b cntx cntl = right).
Proof.
  intros left right. subst left right.
  assert (Hinit : (bli_obj_is_triangular a = true ->
                   bli_trsm_cntl_init E a b c schema_a schema_b cntx cntl
                   = bli_trsm_l_cntl_init E a b c schema_a schema_b cntx cntl)
                  /\ (bli_obj_is_triangular a = false ->
                      bli_trsm_cntl_init E a b c schema_a schema_b cntx cntl
                      = bli_trsm_r_cntl_init E a b c schema_a schema_b cntx cntl)).
  { unfold bli_trsm_cntl_init. split; intros ->; reflexivity. }
  revert Hinit.
  unfold bli_trsm_l_cntl_init, bli_trsm_r_cntl_init.
  destruct (bli_l3_adjust_kc E BLIS_TRSM a b _ _ cntx) as [pc_alg pc_max].
  cbn.
  unfold bli_obj_is_upper, bli_obj_is_lower. intros Hinit.
  split; [intros Ha; rewrite Ha; split; reflexivity|].
  split; [intros Ha; destruct (obj_uplo a); try discriminate; split; reflexivity|].
  split; [reflexivity|].
  split; [intros Hb; rewrite Hb; split; reflexivity|].
  split; [intros Hb; destruct (obj_uplo b); try discriminate; split; reflexivity|].
  split; [reflexivity|].
  exact Hinit.
Qed.

End TrsmCntlFacts.

Lemma trsm_cntl_directions_witness :
  (part_direct (t_part_ic (bli_trsm_l_cntl_init demo_cntl_env demo_A_tri demo_B2 demo_B2
                             BLIS_PACKED_ROW_PANELS BLIS_PACKED_COL_PANELS tt
                             empty_trsm_cntl)) = BLIS_FWD
   /\ part_direct (t_part_pc (bli_trsm_l_cntl_init demo_cntl_env demo_A_tri demo_B2 demo_B2
                                BLIS_PACKED_ROW_PANELS BLIS_PACKED_COL_PANELS tt
                                empty_trsm_cntl)) = BLIS_FWD)
  /\ (part_direct (t_part_pc (bli_trsm_r_cntl_init demo_cntl_env demo_B2 demo_B_tri_lower
                                demo_B2 BLIS_PACKED_ROW_PANELS BLIS_PACKED_COL_PANELS tt
                                empty_trsm_cntl)) = BLIS_BWD
      /\ part_direct (t_part_jc (bli_trsm_r_cntl_init demo_cntl_env demo_B2 demo_B_tri_lower
                                   demo_B2 BLIS_PACKED_ROW_PANELS BLIS_PACKED_COL_PANELS tt
                                   empty_trsm_cntl)) = BLIS_BWD).
Proof.
  split.
  - apply (proj1 (trsm_cntl_directions demo_cntl_env demo_A_tri demo_B2 demo_B2
                    BLIS_PACKED_ROW_PANELS BLIS_PACKED_COL_PANELS tt empty_trsm_cntl)).
    reflexivity.
  - apply (proj1 (proj2 (proj2 (proj2
             (trsm_cntl_directions demo_cntl_env demo_B2 demo_B_tri_lower demo_B2
                BLIS_PACKED_ROW_PANELS BLIS_PACKED_COL_PANELS tt empty_trsm_cntl))))).
    reflexivity.
Defined.

(** On the right-side tree the m (IC) loop runs forward although B is lower
    triangular. *)
Lemma trsm_cntl_directions_counterexample :
  bli_obj_is_lower demo_B_tri_lower = true
  /\ part_direct (t_part_ic (bli_trsm_r_cntl_init demo_cntl_env demo_B2 demo_B_tri_lower
                               demo_B2 BLIS_PACKED_ROW_PANELS BLIS_PACKED_COL_PANELS tt
                               empty_trsm_cntl)) <> BLIS_BWD.
Proof. split; [reflexivity|]. cbn. discriminate. Qed.

(* ------------------------------------------------------------------ *)
(** ** Executions on concrete inputs *)

(* ---------------- packing ---------------- *)

Lemma demo_kernels_write_forward : kernels_write_forward demo_packm_env.
Proof.
  intros dt_c dt_p id cntx. split; intros call kappa params cx b x Hlt; cbn;
    unfold pbuf_store; destruct (Z.eqb_spec x (pack_call_p call)); try lia; reflexivity.
Qed.

Lemma demo_kernels_pad : kernels_pad_with_zeros demo_packm_pad_env.
Proof.
  intros dt_c dt_p id cntx conjc schema panel_dim panel_dim_max panel_bcast
         panel_len panel_len_max c incc ldc p ldp kappa params cx b r j Hr Hj.
  cbn [cntx_get_cxk demo_packm_pad_env rp_zero]. unfold demo_pad_cxk.
  change (packm_ldp_r demo_packm_pad_env dt_p schema ldp params)
    with (packm_ldp_r demo_packm_env dt_p schema ldp params).
  change (packm_panel_dim_r demo_packm_pad_env dt_p schema ldp params)
    with (packm_panel_dim_r demo_packm_env dt_p schema ldp params) in Hr.
  set (l := packm_ldp_r demo_packm_env dt_p schema ldp params).
  replace (p + r * 1 + j * l)
    with (p + packm_zero_cols schema panel_len * l + r * 1
          + (j - packm_zero_cols schema panel_len) * l) by lia.
  apply set0s_mxn_zero; [exact Hr|lia].
Qed.

(** A lower triangular panel whose diagonal starts two columns before the
    panel aborts; one whose diagonal starts at column 4 of 8 is packed. *)
Lemma packm_struc_cxk_diagonal_check_witness :
  packm_struc_cxk demo_packm_env BLIS_DOUBLE BLIS_DOUBLE BLIS_TRIANGULAR
    BLIS_NONUNIT_DIAG BLIS_LOWER BLIS_NO_CONJUGATE BLIS_PACKED_ROW_PANELS false
    4 8 4 8 0 2 1 tt 0 1 6 0 4 tt tt demo_pbuf
  = Aborted BLIS_NOT_YET_IMPLEMENTED
  /\ (exists b',
        packm_struc_cxk demo_packm_env BLIS_DOUBLE BLIS_DOUBLE BLIS_TRIANGULAR
          BLIS_NONUNIT_DIAG BLIS_LOWER BLIS_NO_CONJUGATE BLIS_PACKED_ROW_PANELS false
          4 8 4 8 4 0 1 tt 0 1 6 0 4 tt tt demo_pbuf = Returned b')
  /\ (exists b',
        packm_struc_cxk demo_packm_env BLIS_DOUBLE BLIS_DOUBLE BLIS_GENERAL
          BLIS_NONUNIT_DIAG BLIS_DENSE BLIS_NO_CONJUGATE BLIS_PACKED_ROW_PANELS false
          4 8 4 8 0 2 1 tt 0 1 6 0 4 tt tt demo_pbuf = Returned b').
Proof.
  split; [|split].
  - apply (proj1 (packm_struc_cxk_diagonal_check demo_packm_env BLIS_DOUBLE BLIS_DOUBLE
                    BLIS_TRIANGULAR BLIS_NONUNIT_DIAG BLIS_LOWER BLIS_NO_CONJUGATE
                    BLIS_PACKED_ROW_PANELS false 4 8 4 8 0 2 1 tt 0 1 6 0 4 tt tt
                    demo_pbuf)).
    + reflexivity.
    + left. lia.
  - apply (proj1 (proj2 (packm_struc_cxk_diagonal_check demo_packm_env BLIS_DOUBLE
                    BLIS_DOUBLE BLIS_TRIANGULAR BLIS_NONUNIT_DIAG BLIS_LOWER
                    BLIS_NO_CONJUGATE BLIS_PACKED_ROW_PANELS false 4 8 4 8 4 0 1 tt
                    0 1 6 0 4 tt tt demo_pbuf))).
    lia.
  - apply (proj2 (proj2 (packm_struc_cxk_diagonal_check demo_packm_env BLIS_DOUBLE
                    BLIS_DOUBLE BLIS_GENERAL BLIS_NONUNIT_DIAG BLIS_DENSE
                    BLIS_NO_CONJUGATE BLIS_PACKED_ROW_PANELS false 4 8 4 8 0 2 1 tt
                    0 1 6 0 4 tt tt demo_pbuf))).
    reflexivity.
Defined.

(** The second micro-panel (rows 4..7) of an upper triangular block packed
    with MR = 4: its first four columns lie below the diagonal and are
    zero; the first micro-panel (rows 0..3) of a lower triangular block:
    columns 4..7 lie above the diagonal and are zero; an upper triangular
    micro-panel of 6 columns padded to 8 and packed with kernels that
    pad: columns 6 and 7 are zero. *)
Lemma packm_struc_cxk_zero_fill_witness :
  (exists b',
     packm_struc_cxk demo_packm_env BLIS_DOUBLE BLIS_DOUBLE BLIS_TRIANGULAR
       BLIS_NONUNIT_DIAG BLIS_UPPER BLIS_NO_CONJUGATE BLIS_PACKED_ROW_PANELS false
       4 8 4 8 4 0 1 tt 0 1 6 0 4 tt tt demo_pbuf = Returned b'
     /\ b' (0 + 3 * 1 + 2 * 4) = 0)
  /\ (exists b',
        packm_struc_cxk demo_packm_env BLIS_DOUBLE BLIS_DOUBLE BLIS_TRIANGULAR
          BLIS_NONUNIT_DIAG BLIS_LOWER BLIS_NO_CONJUGATE BLIS_PACKED_ROW_PANELS false
          4 6 4 8 0 0 1 tt 0 1 6 0 4 tt tt demo_pbuf = Returned b'
        /\ b' (0 + 4 * 4 * 1 + 1 * 1 + 3 * 4) = 0)
  /\ packm_p12_i 4 0 + packm_p12_len_max 4 6 8 0 = 8
  /\ (exists b',
        packm_struc_cxk demo_packm_pad_env BLIS_DOUBLE BLIS_DOUBLE BLIS_TRIANGULAR
          BLIS_NONUNIT_DIAG BLIS_UPPER BLIS_NO_CONJUGATE BLIS_PACKED_ROW_PANELS false
          4 6 4 8 0 0 1 tt 0 1 6 0 4 tt tt demo_pbuf = Returned b'
        /\ b' (0 + 2 * 1 + 6 * 4) = 0
        /\ b' (0 + 3 * 1 + 7 * 4) = 0).
Proof.
  pose proof (packm_struc_cxk_zero_fill demo_packm_env BLIS_DOUBLE BLIS_DOUBLE
                BLIS_TRIANGULAR BLIS_NONUNIT_DIAG BLIS_UPPER BLIS_NO_CONJUGATE
                BLIS_PACKED_ROW_PANELS false 4 8 4 8 4 0 1 tt 0 1 6 0 4 tt tt demo_pbuf
                eq_refl eq_refl) as [Hup _].
  pose proof (packm_struc_cxk_zero_fill demo_packm_env BLIS_DOUBLE BLIS_DOUBLE
                BLIS_TRIANGULAR BLIS_NONUNIT_DIAG BLIS_LOWER BLIS_NO_CONJUGATE
                BLIS_PACKED_ROW_PANELS false 4 6 4 8 0 0 1 tt 0 1 6 0 4 tt tt demo_pbuf
                eq_refl eq_refl) as [_ [Hlo Hpad]].
  pose proof (packm_struc_cxk_zero_fill demo_packm_pad_env BLIS_DOUBLE BLIS_DOUBLE
                BLIS_TRIANGULAR BLIS_NONUNIT_DIAG BLIS_UPPER BLIS_NO_CONJUGATE
                BLIS_PACKED_ROW_PANELS false 4 6 4 8 0 0 1 tt 0 1 6 0 4 tt tt demo_pbuf
                eq_refl eq_refl) as [_ [_ Hcxk]].
  split; [|split; [|split]].
  - destruct (Hup eq_refl eq_refl ltac:(reflexivity)) as [_ Hz].
    destruct (Hz demo_kernels_write_forward ltac:(lia) ltac:(cbn; lia)
                 ltac:(discriminate)) as [b' [Hrun Hzero]].
    exists b'. split; [exact Hrun|]. apply Hzero; cbn; lia.
  - destruct (Hlo eq_refl eq_refl ltac:(cbn; lia)) as [b' [Hrun [_ Hzero]]].
    exists b'. split; [exact Hrun|]. apply Hzero; cbn; lia.
  - apply Hpad. cbn. lia.
  - destruct (Hcxk ltac:(cbn; lia)) as [_ [_ Hbuf]].
    destruct (Hbuf demo_kernels_pad ltac:(lia) ltac:(discriminate))
      as [b' [Hrun Hzero]].
    exists b'. split; [exact Hrun|].
    split; apply Hzero; cbn; lia.
Defined.

(* ---------------- level-3 entry points ---------------- *)

(** gemm with alpha = 0 and beta = 2 on a 2x2 C of [1 + i]: C becomes
    [2 + 2i] and the back-end is not entered; on a C without rows the call
    returns the state it was given. *)
Lemma l3_trivial_short_circuit_witness :
  (exists s',
     beta_entry_run (demo_env false false idle_decorator) entry_gemm
       (scal_Z 0 0) (caller_obj 0) (caller_obj 1) (scal_Z 2 0) (caller_obj 2) None None
       (demo_state demo_A demo_B demo_C2 demo_mem) = Returned s'
     /\ st_mem s' 3 = {| real := 2; imag := 2 |}
     /\ st_calls s' = [])
  /\ beta_entry_run (demo_env false false idle_decorator) entry_gemm
       (scal_Z 1 0) (caller_obj 0) (caller_obj 1) (scal_Z 2 0) (caller_obj 2) None None
       (demo_state demo_A demo_B
          (demo_obj 0 0 2 BLIS_DCOMPLEX BLIS_DCOMPLEX BLIS_GENERAL BLIS_DENSE
                    BLIS_NO_TRANSPOSE) demo_mem)
     = Returned (demo_state demo_A demo_B
                   (demo_obj 0 0 2 BLIS_DCOMPLEX BLIS_DCOMPLEX BLIS_GENERAL BLIS_DENSE
                             BLIS_NO_TRANSPOSE) demo_mem).
Proof.
  split.
  - destruct (proj2 (l3_trivial_short_circuit (demo_env false false idle_decorator)
                       entry_gemm (scal_Z 0 0) (caller_obj 0) (caller_obj 1) (scal_Z 2 0)
                       (caller_obj 2) None None
                       (demo_state demo_A demo_B demo_C2 demo_mem)
                       (or_intror eq_refl))
                    eq_refl (or_introl eq_refl))
      as [s' [Hrun [Heq [Hel [_ Hcalls]]]]].
    exists s'. split; [exact Hrun|]. split; [|exact Hcalls].
    exact (Hel 1 1 eq_refl).
  - apply (proj1 (l3_trivial_short_circuit (demo_env false false idle_decorator)
                    entry_gemm (scal_Z 1 0) (caller_obj 0) (caller_obj 1) (scal_Z 2 0)
                    (caller_obj 2) None None _ (or_intror eq_refl))).
    reflexivity.
Defined.



(** herk and her2k on a 1x1 C holding [1 + i]: the imaginary part of the
    diagonal element is zero afterwards. *)
Lemma hermitian_rank_k_diag_imag_zero_witness :
  (exists s',
     bli_herk_ex (demo_env false false idle_decorator) (scal_Z 1 0) (caller_obj 0)
       (scal_Z 1 0) (caller_obj 2) None None
       (demo_state demo_A demo_B demo_C1 demo_mem) = Returned s'
     /\ imag (st_mem s' 0) = 0)
  /\ (exists s',
        bli_her2k_ex (demo_env false false idle_decorator) (scal_Z 1 0) (caller_obj 0)
          (caller_obj 1) (scal_Z 1 0) (caller_obj 2) None None
          (demo_state demo_A demo_B demo_C1 demo_mem) = Returned s'
        /\ imag (st_mem s' 0) = 0).
Proof.
  pose proof (hermitian_rank_k_diag_imag_zero (demo_env false false idle_decorator)
                (scal_Z 1 0) 0 1 (scal_Z 1 0) 2 None None
                (demo_state demo_A demo_B demo_C1 demo_mem)) as [_ [Hk [_ H2k]]].
  split.
  - destruct (Hk (or_intror eq_refl) (or_intror eq_refl)) as [s' [Hrun Hz]].
    exists s'. split; [exact Hrun|]. exact (Hz 0 0 eq_refl).
  - destruct (H2k (or_intror eq_refl) (or_intror eq_refl) (or_intror eq_refl))
      as [s' [Hrun Hz]].
    exists s'. split; [exact Hrun|]. exact (Hz 0 0 eq_refl).
Defined.

(** herk and gemmt disagree on a C whose diagonal holds [1 + i]: with
    alpha = 0 and beta = 1 the gemmt call leaves [1 + i], herk leaves [1]. *)
Lemma rank_k_by_gemmt_counterexample :
  (exists s1 s2,
     bli_herk_ex (demo_env false false idle_decorator) (scal_Z 0 0) (caller_obj 0)
       (scal_Z 1 0) (caller_obj 2) None None
       (demo_state demo_A demo_B demo_C1 demo_mem) = Returned s1
     /\ herk_by_gemmt (demo_env false false idle_decorator) (scal_Z 0 0) (caller_obj 0)
          (scal_Z 1 0) (caller_obj 2) None None
          (demo_state demo_A demo_B demo_C1 demo_mem) = Returned s2
     /\ st_mem s1 0 = {| real := 1; imag := 0 |}
     /\ st_mem s2 0 = {| real := 1; imag := 1 |}
     /\ st_mem s1 0 <> st_mem s2 0)
  /\ (exists s1 s2,
        bli_her2k_ex (demo_env false false idle_decorator) (scal_Z 0 0) (caller_obj 0)
          (caller_obj 1) (scal_Z 1 0) (caller_obj 2) None None
          (demo_state demo_A demo_B demo_C1 demo_mem) = Returned s1
        /\ her2k_by_gemmt (demo_env false false idle_decorator) (scal_Z 0 0)
             (caller_obj 0) (caller_obj 1) (scal_Z 1 0) (caller_obj 2) None None
             (demo_state demo_A demo_B demo_C1 demo_mem) = Returned s2
        /\ st_mem s1 0 = {| real := 1; imag := 0 |}
        /\ st_mem s2 0 = {| real := 1; imag := 1 |}
        /\ st_mem s1 0 <> st_mem s2 0).
Proof.
  split; eexists; eexists; (split; [reflexivity|]); (split; [reflexivity|]);
    (split; [reflexivity|]); (split; [reflexivity|]); cbn; discriminate.
Qed.

(** gemm with alpha = 2 and beta = 3, homogeneous datatypes: the back-end
    receives unit scalars, B carries alpha and C carries beta. *)
Lemma gemm_scalar_attachment_witness :
  exists s' call,
    bli_gemm_ex (demo_env false false idle_decorator) (scal_Z 2 0) (caller_obj 0)
      (caller_obj 1) (scal_Z 3 0) (caller_obj 2) None None
      (demo_state demo_A demo_B demo_C2 demo_mem) = Returned s'
    /\ st_calls s' = [call]
    /\ l3_alpha call = BLIS_ONE Z_arith
    /\ l3_beta call = BLIS_ONE Z_arith
    /\ obj_scalar (l3_a call) = {| real := 1; imag := 0 |}
    /\ obj_scalar (l3_b call) = {| real := 2; imag := 0 |}
    /\ obj_scalar (l3_c call) = {| real := 3; imag := 0 |}.
Proof.
  destruct (proj2 (gemm_scalar_attachment (demo_env false false idle_decorator)
                     (scal_Z 2 0) (caller_obj 0) (caller_obj 1) (scal_Z 3 0)
                     (caller_obj 2) None None
                     (demo_state demo_A demo_B demo_C2 demo_mem))
                  (or_intror eq_refl) eq_refl eq_refl)
    as [s' [call [Hrun [Hcalls [Ha [Hb [Hla [Hlb Hlc]]]]]]]].
  exists s', call.
  split; [exact Hrun|]. split; [exact Hcalls|]. split; [exact Ha|].
  split; [exact Hb|].
  rewrite Hla, Hlb, Hlc. repeat split.
Defined.

(** gemm with alpha = 2 and beta = 3.  With homogeneous datatypes the A
    operand the back-end receives carries 1, not alpha; it is the B
    operand that carries alpha.  With the mixed-datatype staging compiled
    in and a C whose computation precision differs from its storage
    precision, the beta the back-end receives is zero, not one. *)
Lemma gemm_scalar_attachment_counterexample :
  (exists s' call,
     bli_gemm_ex (demo_env false false idle_decorator) (scal_Z 2 0) (caller_obj 0)
       (caller_obj 1) (scal_Z 3 0) (caller_obj 2) None None
       (demo_state demo_A demo_B demo_C2 demo_mem) = Returned s'
     /\ st_calls s' = [call]
     /\ obj_scalar (l3_a call)
        <> typecast (demo_env false false idle_decorator) (obj_target_dt (l3_a call))
                    (scal_val Z_arith (scal_Z 2 0))
     /\ obj_scalar (l3_b call)
        = typecast (demo_env false false idle_decorator) (obj_target_dt (l3_b call))
                   (scal_val Z_arith (scal_Z 2 0)))
  /\ (exists s' call,
        bli_gemm_ex (demo_env true true idle_decorator) (scal_Z 2 0) (caller_obj 0)
          (caller_obj 1) (scal_Z 3 0) (caller_obj 2) None None
          (demo_state demo_A demo_B demo_C_mixed demo_mem) = Returned s'
        /\ st_calls s' = [call]
        /\ l3_beta call = BLIS_ZERO Z_arith
        /\ l3_beta call <> BLIS_ONE Z_arith).
Proof.
  split.
  - eexists. eexists. split; [vm_compute; reflexivity|].
    split; [vm_compute; reflexivity|].
    split; vm_compute; [discriminate|reflexivity].
  - eexists. eexists. split; [vm_compute; reflexivity|].
    split; [vm_compute; reflexivity|].
    split; vm_compute; [reflexivity|discriminate].
Qed.

(** trmm from the left with a lower triangular A marked for transposition:
    the back-end receives A as an upper triangular object without the
    transposition bit, and the caller's A is as before. *)
Lemma tri_entry_transposed_a_witness :
  exists s' call,
    tri_entry_run (demo_env false false idle_decorator) entry_tri_trmm BLIS_LEFT
      (scal_Z 1 0) (caller_obj 0) (caller_obj 1) None None
      (demo_state demo_A_tri_trans demo_B2 demo_B2 demo_mem) = Returned s'
    /\ st_obj s' (caller_obj 0) = demo_A_tri_trans
    /\ st_calls s' = [call]
    /\ obj_onlytrans (l3_a call) = BLIS_NO_TRANSPOSE
    /\ obj_uplo (l3_a call) = BLIS_UPPER.
Proof.
  destruct (tri_entry_transposed_a (demo_env false false idle_decorator) entry_tri_trmm
              BLIS_LEFT (scal_Z 1 0) 0 1 None None
              (demo_state demo_A_tri_trans demo_B2 demo_B2 demo_mem)
              eq_refl (or_intror eq_refl) eq_refl)
    as [_ [_ [_ [s' [Hrun [Hobjs Hcall]]]]]].
  assert (Hrun' := Hrun). vm_compute in Hrun'.
  injection Hrun' as Hs'.
  destruct (Hcall eq_refl) as [call0 [k [Hcalls _]]].
  exists s'. eexists. split; [exact Hrun|]. split; [exact (Hobjs 0%nat)|].
  rewrite <- Hs'. cbn [st_calls]. split; [reflexivity|]. split; reflexivity.
Defined.

(** gemmt on a 2x2 C with the lower triangle stored, through a macro-kernel
    on 1x1 tiles: element (0, 1), above the diagonal, is left as it was. *)
Lemma gemmt_preserves_off_triangle_witness :
  exists s',
    bli_gemmt_ex (demo_env false false (gemmt_macro_kernel demo_gemmt_ker)) (scal_Z 1 0)
      (caller_obj 0) (caller_obj 1) (scal_Z 1 0) (caller_obj 2) None None
      (demo_state demo_A_tri demo_A_tri demo_C2_lower demo_mem) = Returned s'
    /\ st_mem s' 2 = {| real := 1; imag := 1 |}.
Proof.
  destruct (gemmt_preserves_off_triangle
              (demo_env false false (gemmt_macro_kernel demo_gemmt_ker)) demo_gemmt_ker
              (scal_Z 1 0) (caller_obj 0) (caller_obj 1) (scal_Z 1 0) 2 None None
              (demo_state demo_A_tri demo_A_tri demo_C2_lower demo_mem)
              (fun _ _ _ _ _ _ => eq_refl) (or_intror eq_refl))
    as [s' [Hrun [_ Hel]]].
  exists s'. split; [exact Hrun|].
  refine (Hel _ 0 1 eq_refl eq_refl).
  intros i j i' j' Hb Hb' Ha.
  apply obj_in_bounds_iff in Hb. apply obj_in_bounds_iff in Hb'.
  unfold obj_addr in Ha. cbn in Hb, Hb', Ha. lia.
Defined.

(** The same call writes the stored triangle: element (0, 0) receives the
    value of the micro-kernel. *)
Example gemmt_demo_writes_triangle :
  exists s',
    bli_gemmt_ex (demo_env false false (gemmt_macro_kernel demo_gemmt_ker)) (scal_Z 1 0)
      (caller_obj 0) (caller_obj 1) (scal_Z 1 0) (caller_obj 2) None None
      (demo_state demo_A_tri demo_A_tri demo_C2_lower demo_mem) = Returned s'
    /\ st_mem s' 0 = {| real := 7; imag := 0 |}
    /\ st_mem s' 1 = {| real := 7; imag := 0 |}
    /\ st_mem s' 2 = {| real := 1; imag := 1 |}
    /\ st_mem s' 3 = {| real := 7; imag := 0 |}.
Proof.
  eexists. split; [reflexivity|]. repeat split.
Qed.

(* ------------------------------------------------------------------ *)
(** ** The Hermitian eigenvalue drivers *)

(** Values of [bla_integer] are not changed by the wrap-around. *)
Lemma bla_wrap_fits (sz : bla_int_size) (z : Z) :
  bla_int_fits sz z -> bla_wrap sz z = z.
Proof.
  unfold bla_int_fits, bla_wrap.
  destruct sz; cbn [bla_int_bits];
    [change (2 ^ (32 - 1)) with 2147483648
    |change (2 ^ (64 - 1)) with 9223372036854775808];
    cbv zeta; intros H; rewrite Z.mod_small by lia; lia.
Qed.

Lemma bla_int_fits_small (sz : bla_int_size) (z : Z) :
  -128 <= z <= 127 -> bla_int_fits sz z.
Proof.
  unfold bla_int_fits.
  destruct sz; cbn [bla_int_bits];
    [change (2 ^ (32 - 1)) with 2147483648
    |change (2 ^ (64 - 1)) with 9223372036854775808]; lia.
Qed.

Lemma bla_wrap_small (sz : bla_int_size) (z : Z) :
  -128 <= z <= 127 -> bla_wrap sz z = z.
Proof. intros H. apply bla_wrap_fits, bla_int_fits_small, H. Qed.

Lemma shiftl_1 (n : Z) : Z.shiftl n 1 = 2 * n.
Proof. rewrite Z.shiftl_mul_pow2 by lia. change (2 ^ 1) with 2. lia. Qed.

Section HeevFacts.

Context {F : Type}.
Variable E : heev_env F.

Lemma heev_run_eq (d : heev_driver) (jobz uplo : ascii) (n lda lwork : Z)
    (m : heev_arrays F) :
  heev_run E d jobz uplo n lda lwork m
  = f2c_heev E (heev_srname d) (heev_trdname d) jobz uplo n lda lwork m.
Proof. destruct d; reflexivity. Qed.

(** The state of a driver that has passed the four argument tests, at the
    test of [info] that follows the workspace computation. *)
Lemma heev_args_ok_tests (jobz uplo : ascii) (n lda : Z) :
  heev_args_ok E jobz uplo n lda ->
  (if negb (bla_lsame_ E jobz "V" || bla_lsame_ E jobz "N") then -1
   else if negb (bla_lsame_ E uplo "L" || bla_lsame_ E uplo "U") then -2
   else if n <? 0 then -3
   else if lda <? Z.max 1 n then -5
   else 0) = 0.
Proof.
  intros [Hj [Hu [Hn Hl]]]. unfold heev_jobz_ok in Hj. unfold heev_uplo_ok in Hu.
  rewrite Hj, Hu. cbn [negb].
  destruct (Z.ltb_spec n 0); [lia|].
  destruct (Z.ltb_spec lda (Z.max 1 n)); [lia|]. reflexivity.
Qed.

(** X1.  Argument checking of zheev and cheev.  The tests are made in the
    order JOBZ, UPLO, N, LDA, and the first one that fails decides: the
    driver stores minus the position of the argument (1, 2, 3 or 5) in
    INFO, reports the routine name and that position to xerbla, and
    returns 0 without having touched A, W, WORK or RWORK and without
    calling any computational routine. *)
Theorem heev_illegal_argument (d : heev_driver) (jobz uplo : ascii) (n lda lwork : Z)
    (m : heev_arrays F) :
  let run := heev_run E d jobz uplo n lda lwork m in
  let rejected (k : Z) :=
    run = (0, {| hs_arr := m; hs_info := - k;
                 hs_trace := [Call_xerbla (heev_srname d) k] |}) in
  (heev_jobz_ok E jobz = false -> rejected 1)
  /\ (heev_jobz_ok E jobz = true -> heev_uplo_ok E uplo = false -> rejected 2)
  /\ (heev_jobz_ok E jobz = true -> heev_uplo_ok E uplo = true -> n < 0 -> rejected 3)
  /\ (heev_jobz_ok E jobz = true -> heev_uplo_ok E uplo = true -> 0 <= n ->
      lda < Z.max 1 n -> rejected 5).
Proof.
  intros run rejected. subst run rejected. cbv beta.
  rewrite heev_run_eq. unfold f2c_heev, heev_jobz_ok, heev_uplo_ok. cbv zeta.
  repeat split.
  - intros Hj. rewrite Hj. cbn [negb Z.eqb andb].
    rewrite (bla_wrap_small _ (- -1)) by lia. reflexivity.
  - intros Hj Hu. rewrite Hj, Hu. cbn [negb Z.eqb andb].
    rewrite (bla_wrap_small _ (- -2)) by lia. reflexivity.
  - intros Hj Hu Hn. rewrite Hj, Hu. cbn [negb].
    destruct (Z.ltb_spec n 0); [|lia]. cbn [negb Z.eqb andb].
    rewrite (bla_wrap_small _ (- -3)) by lia. reflexivity.
  - intros Hj Hu Hn Hl. rewrite Hj, Hu. cbn [negb].
    destruct (Z.ltb_spec n 0); [lia|].
    destruct (Z.ltb_spec lda (Z.max 1 n)); [|lia]. cbn [negb Z.eqb andb].
    rewrite (bla_wrap_small _ (- -5)) by lia. reflexivity.
Qed.

(** X2.  Workspace handling of zheev and cheev once JOBZ, UPLO, N and LDA
    are legal.  The driver writes the workspace size [heev_lwkopt], that
    is max(1, (NB + 1) * N) as [bla_integer] arithmetic yields it, to
    WORK(1) before it looks at LWORK.  With LWORK = -1 (a workspace query)
    it then returns with INFO = 0 and no further call.  With another LWORK
    below [heev_lwmin], that is max(1, 2N - 1) in the same arithmetic, it
    sets INFO = -8 and reports argument 8 to xerbla.  With LWORK at least
    that, xerbla is never called.  The two sizes are the mathematical
    max(1, (NB + 1) * N) and max(1, 2N - 1) when NB + 1, (NB + 1) * N and
    2N are values of [bla_integer]; otherwise they wrap around. *)
Theorem heev_workspace_size (d : heev_driver) (jobz uplo : ascii) (n lda lwork : Z)
    (m : heev_arrays F) :
  let run := heev_run E d jobz uplo n lda lwork m in
  let nb := f2c_ilaenv_ E 1 (heev_trdname d) uplo n (-1) (-1) (-1) in
  let lwkopt := heev_lwkopt E (heev_trdname d) uplo n in
  let lwmin := heev_lwmin E n in
  let m' := store_work m 0 {| real := f_of_int E lwkopt; imag := fzero E |} in
  heev_args_ok E jobz uplo n lda ->
  (lwork = -1 ->
   run = (0, {| hs_arr := m'; hs_info := 0; hs_trace := [] |}))
  /\ (lwork <> -1 -> lwork < lwmin ->
      run = (0, {| hs_arr := m'; hs_info := -8;
                   hs_trace := [Call_xerbla (heev_srname d) 8] |}))
  /\ (lwmin <= lwork ->
      forall srname k, ~ In (Call_xerbla srname k) (hs_trace (snd run)))
  (* the two sizes when the products fit [bla_integer] *)
  /\ (bla_int_fits (bla_integer_size E) (nb + 1) ->
      bla_int_fits (bla_integer_size E) ((nb + 1) * n) ->
      lwkopt = Z.max 1 ((nb + 1) * n))
  /\ (bla_int_fits (bla_integer_size E) (2 * n) -> lwmin = Z.max 1 (2 * n - 1)).
Proof.
  intros run nb lwkopt lwmin m' Hok. subst run nb lwkopt lwmin m'.
  rewrite heev_run_eq. unfold f2c_heev, heev_lwkopt, heev_lwmin. cbv zeta.
  rewrite (heev_args_ok_tests _ _ _ _ Hok). cbn [Z.eqb].
  change (1 - 1) with 0.
  set (lwmin := Z.max 1 (bla_wrap _ (bla_wrap _ (Z.shiftl n 1) - 1))).
  split; [|split; [|split; [|split]]].
  - intros ->. cbn [Z.eqb negb andb].
    rewrite andb_false_r. reflexivity.
  - intros Hq Hs.
    destruct (Z.eqb_spec lwork (-1)); [contradiction|].
    destruct (Z.ltb_spec lwork lwmin); [|lia].
    cbn [negb andb Z.eqb].
    rewrite (bla_wrap_small _ (- -8)) by lia. reflexivity.
  - intros Hs srname k.
    assert (H1 : 1 <= lwmin) by (subst lwmin; lia).
    destruct (Z.eqb_spec lwork (-1)); [lia|].
    destruct (Z.ltb_spec lwork lwmin); [lia|].
    cbn [andb negb Z.eqb].
    destruct (n =? 0); [cbn; tauto|].
    destruct (n =? 1); [destruct (bla_lsame_ E jobz "V"); cbn; tauto|].
    destruct (heev_lanhe E "M" uplo n lda 1 _) as [anrm m1].
    set (sc := if flt E (fzero E) anrm && flt E anrm _ then _ else _).
    destruct sc as [iscale sigma].
    destruct (iscale =? 1).
    + destruct (heev_lascl E uplo 0 0 (fone E) sigma n n lda 0 m1) as [m2 info2].
      destruct (heev_hetrd E uplo n lda 1 1 _ _ m2) as [m3 ii].
      destruct (bla_lsame_ E jobz "V"); cbn [negb].
      * destruct (heev_ungtr E uplo n lda 1 _ _ m3) as [m4 ii4].
        destruct (heev_steqr E jobz n 1 lda _ info2 m4) as [m5 info5].
        cbn. intros Hin. repeat (destruct Hin as [Hin|Hin]; [discriminate|]). exact Hin.
      * destruct (heev_sterf E n 1 info2 m3) as [m4 info4].
        cbn. intros Hin. repeat (destruct Hin as [Hin|Hin]; [discriminate|]). exact Hin.
    + destruct (heev_hetrd E uplo n lda 1 1 _ _ m1) as [m3 ii].
      destruct (bla_lsame_ E jobz "V"); cbn [negb].
      * destruct (heev_ungtr E uplo n lda 1 _ _ m3) as [m4 ii4].
        destruct (heev_steqr E jobz n 1 lda _ 0 m4) as [m5 info5].
        cbn. intros Hin. repeat (destruct Hin as [Hin|Hin]; [discriminate|]). exact Hin.
      * destruct (heev_sterf E n 1 0 m3) as [m4 info4].
        cbn. intros Hin. repeat (destruct Hin as [Hin|Hin]; [discriminate|]). exact Hin.
  - intros Hf1 Hf2. rewrite (bla_wrap_fits _ _ Hf1), (bla_wrap_fits _ _ Hf2). reflexivity.
  - intros Hf. subst lwmin. rewrite shiftl_1, (bla_wrap_fits _ _ Hf).
    destruct Hok as [_ [_ [Hn _]]].
    rewrite bla_wrap_fits; [reflexivity|].
    unfold bla_int_fits in *. lia.
Qed.

(** X3.  Quick returns of zheev and cheev on legal arguments with
    LWORK >= 1.  For N = 0 only WORK(1) is written (with 1) and nothing is
    called.  For N = 1 nothing is called either: W(1) receives the real
    part of A(1,1), WORK(1) receives 1, A(1,1) becomes 1 exactly when
    eigenvectors are wanted, and every other entry of A, W, WORK and RWORK
    is as before. *)
Theorem heev_quick_return (d : heev_driver) (jobz uplo : ascii) (n lda lwork : Z)
    (m : heev_arrays F) :
  let run := heev_run E d jobz uplo n lda lwork m in
  let one := {| real := fone E; imag := fzero E |} in
  heev_args_ok E jobz uplo n lda -> 1 <= lwork ->
  (n = 0 ->
   run = (0, {| hs_arr := store_work m 0 {| real := f_of_int E 1; imag := fzero E |};
                hs_info := 0; hs_trace := [] |}))
  /\ (n = 1 ->
      exists arr,
        run = (0, {| hs_arr := arr; hs_info := 0; hs_trace := [] |})
        /\ (forall k, hv_w arr k = if k =? 0 then real (hv_a m 0) else hv_w m k)
        /\ (forall k, hv_work arr k = if k =? 0 then one else hv_work m k)
        /\ (forall k, hv_a arr k
                      = if (k =? 0) && bla_lsame_ E jobz "V" then one else hv_a m k)
        /\ (forall k, hv_rwork arr k = hv_rwork m k)).
Proof.
  intros run one Hok Hlw. subst run one.
  rewrite heev_run_eq. unfold f2c_heev. cbv zeta.
  rewrite (heev_args_ok_tests _ _ _ _ Hok). cbn [Z.eqb].
  change (1 - 1) with 0.
  destruct (Z.eqb_spec lwork (-1)) as [Hq|Hq]; [lia|].
  split.
  - intros ->.
    change (Z.shiftl 0 1) with 0.
    rewrite (bla_wrap_small _ 0) by lia. rewrite (bla_wrap_small _ (0 - 1)) by lia.
    destruct (Z.ltb_spec lwork (Z.max 1 (0 - 1))) as [Hs|Hs]; [lia|].
    cbn [andb negb Z.eqb].
    rewrite Z.mul_0_r, (bla_wrap_small _ 0) by lia.
    reflexivity.
  - intros ->.
    change (Z.shiftl 1 1) with 2.
    rewrite (bla_wrap_small _ 2) by lia. rewrite (bla_wrap_small _ (2 - 1)) by lia.
    destruct (Z.ltb_spec lwork (Z.max 1 (2 - 1))) as [Hs|Hs]; [lia|].
    cbn [andb negb Z.eqb].
    replace (bla_wrap (bla_integer_size E) (lda + 1)
             - bla_wrap (bla_integer_size E) (1 + lda)) with 0
      by (rewrite (Z.add_comm lda 1); lia).
    eexists. split; [reflexivity|].
    destruct (bla_lsame_ E jobz "V"); cbn [hv_w hv_work hv_a hv_rwork store_w store_work store_a];
      repeat split; intros k; try reflexivity;
      destruct (k =? 0); reflexivity.
Qed.

(** X4.  The general path of zheev and cheev (N >= 2, legal arguments,
    LWORK at least [heev_lwmin]), in full.  The driver returns 0.  It
    calls, in this order, the norm routine (lanhe with norm M), lascl
    when [heev_scaling] asks for scaling, the tridiagonal reduction
    (hetrd, with E in RWORK(1..), TAU in WORK(1..) and the workspace
    starting at WORK(N + 1)) and then either sterf (no eigenvectors) or
    ungtr followed by steqr (eigenvectors); when the matrix was scaled the
    eigenvalues are scaled back by 1 / sigma at the very end, over N
    entries if INFO = 0 and over INFO - 1 entries otherwise.  INFO is the
    value sterf, respectively steqr, leaves in it, having been handed the
    value lascl left (0 without scaling); what hetrd and ungtr report is
    dropped.  The arrays are the ones this chain of routines leaves, with
    the workspace size written to WORK(1) at the end. *)
Theorem heev_general_path (d : heev_driver) (jobz uplo : ascii) (n lda lwork : Z)
    (m : heev_arrays F) :
  let run := heev_run E d jobz uplo n lda lwork m in
  let wrap := bla_wrap (bla_integer_size E) in
  let wantz := bla_lsame_ E jobz "V" in
  let indwrk := wrap (1 + n) in
  let llwork := wrap (wrap (lwork - indwrk) + 1) in
  let lwkopt :=
    {| real := f_of_int E (heev_lwkopt E (heev_trdname d) uplo n); imag := fzero E |} in
  (* the norm, the scaling decision and the scaling *)
  let r1 := heev_lanhe E "M" uplo n lda 1 (store_work m 0 lwkopt) in
  let scaled := fst (heev_scaling E (fst r1)) =? 1 in
  let sigma := snd (heev_scaling E (fst r1)) in
  let r2 := if scaled then heev_lascl E uplo 0 0 (fone E) sigma n n lda 0 (snd r1)
            else (snd r1, 0) in
  (* the reduction and the eigenvalue routine; [iinfo] is dropped *)
  let r3 := heev_hetrd E uplo n lda 1 1 indwrk llwork (fst r2) in
  let r5 := if wantz
            then heev_steqr E jobz n 1 lda indwrk (snd r2)
                   (fst (heev_ungtr E uplo n lda 1 indwrk llwork (fst r3)))
            else heev_sterf E n 1 (snd r2) (fst r3) in
  let info := snd r5 in
  (* the rescaling of the eigenvalues *)
  let imax := if info =? 0 then n else wrap (info - 1) in
  let arr := if scaled then heev_scal E imax (fdiv E (fone E) sigma) 1 (fst r5)
             else fst r5 in
  heev_args_ok E jobz uplo n lda -> 2 <= n -> heev_lwmin E n <= lwork ->
  run = (0, {| hs_arr := store_work arr 0 lwkopt;
               hs_info := info;
               hs_trace :=
                 [Call_lanhe "M" uplo n lda 1]
                 ++ (if scaled then [Call_lascl uplo 0 0 (fone E) sigma n n lda] else [])
                 ++ [Call_hetrd uplo n lda 1 1 indwrk llwork]
                 ++ (if wantz
                     then [Call_ungtr uplo n lda 1 indwrk llwork;
                           Call_steqr jobz n 1 lda indwrk]
                     else [Call_sterf n 1])
                 ++ (if scaled then [Call_scal imax (fdiv E (fone E) sigma) 1] else []) |}).
Proof.
  intros run wrap wantz indwrk llwork lwkopt r1 scaled sigma r2 r3 r5 info imax arr
         Hok Hn Hlw.
  subst run wrap wantz indwrk llwork lwkopt r1 scaled sigma r2 r3 r5 info imax arr.
  rewrite heev_run_eq. unfold f2c_heev, heev_lwkopt, heev_lwmin, heev_scaling in *.
  cbv zeta in *.
  rewrite (heev_args_ok_tests _ _ _ _ Hok). cbn [Z.eqb].
  change (1 - 1) with 0.
  destruct (Z.eqb_spec lwork (-1)) as [Hq|Hq]; [lia|].
  destruct (Z.ltb_spec lwork (Z.max 1 (bla_wrap (bla_integer_size E)
                                         (bla_wrap (bla_integer_size E) (Z.shiftl n 1) - 1))))
    as [Hs|Hs]; [lia|].
  cbn [andb negb Z.eqb].
  destruct (Z.eqb_spec n 0) as [Hn0|Hn0]; [lia|].
  destruct (Z.eqb_spec n 1) as [Hn1|Hn1]; [lia|].
  destruct (heev_lanhe E "M" uplo n lda 1 _) as [anrm m1]. cbn [fst snd].
  destruct (flt E (fzero E) anrm && flt E anrm _); cbn [fst snd Z.eqb Pos.eqb].
  - destruct (heev_lascl E uplo 0 0 (fone E) _ n n lda 0 m1) as [m2 info2]. cbn [fst snd].
    destruct (heev_hetrd E uplo n lda 1 1 _ _ m2) as [m3 ii]. cbn [fst snd].
    destruct (bla_lsame_ E jobz "V"); cbn [negb].
    + destruct (heev_ungtr E uplo n lda 1 _ _ m3) as [m4 ii4]. cbn [fst snd].
      destruct (heev_steqr E jobz n 1 lda _ info2 m4) as [m5 info5]. reflexivity.
    + destruct (heev_sterf E n 1 info2 m3) as [m4 info4]. reflexivity.
  - destruct (flt E _ anrm); cbn [fst snd Z.eqb Pos.eqb].
    + destruct (heev_lascl E uplo 0 0 (fone E) _ n n lda 0 m1) as [m2 info2]. cbn [fst snd].
      destruct (heev_hetrd E uplo n lda 1 1 _ _ m2) as [m3 ii]. cbn [fst snd].
      destruct (bla_lsame_ E jobz "V"); cbn [negb].
      * destruct (heev_ungtr E uplo n lda 1 _ _ m3) as [m4 ii4]. cbn [fst snd].
        destruct (heev_steqr E jobz n 1 lda _ info2 m4) as [m5 info5]. reflexivity.
      * destruct (heev_sterf E n 1 info2 m3) as [m4 info4]. reflexivity.
    + destruct (heev_hetrd E uplo n lda 1 1 _ _ m1) as [m3 ii]. cbn [fst snd].
      destruct (bla_lsame_ E jobz "V"); cbn [negb].
      * destruct (heev_ungtr E uplo n lda 1 _ _ m3) as [m4 ii4]. cbn [fst snd].
        destruct (heev_steqr E jobz n 1 lda _ 0 m4) as [m5 info5]. reflexivity.
      * destruct (heev_sterf E n 1 0 m3) as [m4 info4]. reflexivity.
Qed.

End HeevFacts.

(* ------------------------------------------------------------------ *)
(** ** The prototype tables *)

Lemma ctype_eqb_eq (x y : ctype) : ctype_eqb x y = true -> x = y.
Proof. destruct x, y; (reflexivity || discriminate). Qed.

Lemma tchar_eqb_eq (x y : tchar) : tchar_eqb x y = true -> x = y.
Proof. destruct x, y; (reflexivity || discriminate). Qed.

Lemma list_eqb_eq {A : Type} (eqb : A -> A -> bool) :
  (forall x y, eqb x y = true -> x = y) ->
  forall l1 l2, list_eqb eqb l1 l2 = true -> l1 = l2.
Proof.
  intros Heq. induction l1 as [|x l1 IH]; intros [|y l2] H; try discriminate.
  - reflexivity.
  - cbn in H. apply andb_prop in H. destruct H as [Hx Hl].
    f_equal; [apply Heq; exact Hx|apply IH; exact Hl].
Qed.

Lemma gentprot_operands_map (l : list ctype) :
  forall dts,
    fold_right (fun t acc =>
                  match num_of_ctype t, acc with
                  | Some dt, Some l => Some (dt :: l)
                  | _, _ => None
                  end)
               (Some []) l = Some dts ->
    map ctype_of dts = l.
Proof.
  induction l as [|t l IH]; intros dts Hop.
  - cbn in Hop. injection Hop as <-. reflexivity.
  - cbn [fold_right] in Hop.
    destruct (num_of_ctype t) as [dt|] eqn:Ht; [|discriminate].
    destruct (fold_right _ _ l) as [l'|] eqn:Hl; [|discriminate].
    injection Hop as <-. cbn [map]. f_equal.
    + destruct t; cbn in Ht; try discriminate; injection Ht as <-; reflexivity.
    + apply IH. reflexivity.
Qed.

Lemma gentprot_args_arity (mac : gentprot_macro) (dts : list num_t)
    (r : list ctype * list tchar) :
  gentprot_args mac dts = Some r -> List.length dts = gentprot_arity mac.
Proof.
  destruct mac; destruct dts as [|d1 [|d2 [|d3 [|d4 dts]]]]; cbn; intros H;
    try discriminate; reflexivity.
Qed.

Lemma gentprot_inst_ok_args (i : gentprot_inst) :
  gentprot_inst_ok i = true ->
  exists dts,
    List.length dts = gentprot_arity (gp_macro i)
    /\ map ctype_of dts = firstn (gentprot_arity (gp_macro i)) (gp_types i)
    /\ gentprot_args (gp_macro i) dts = Some (gp_types i, gp_chars i).
Proof.
  unfold gentprot_inst_ok.
  destruct (gentprot_operands i) as [dts|] eqn:Hop; [|discriminate].
  destruct (gentprot_args (gp_macro i) dts) as [[tys chs]|] eqn:Hargs; [|discriminate].
  intros H. apply andb_prop in H. destruct H as [Ht Hc].
  apply (list_eqb_eq _ ctype_eqb_eq) in Ht. apply (list_eqb_eq _ tchar_eqb_eq) in Hc.
  subst tys chs. exists dts.
  split; [exact (gentprot_args_arity _ _ _ Hargs)|].
  split; [exact (gentprot_operands_map _ _ Hop)|exact Hargs].
Qed.

(** X5.  The two-operand prototype tables.  For every pair of floating
    point datatypes: the basic table ([INSERT_GENTPROT2_BASIC], and
    likewise for the 2R tables) has exactly one invocation when the two
    are equal and none otherwise; the mixed-domain table has exactly one
    when they differ but have the same precision; the mixed-precision
    table has exactly one when the precisions differ; and
    [INSERT_GENTPROT2_MIX_DP] has exactly one whenever they differ.  So
    the basic, mixed-domain and mixed-precision tables together list each
    of the sixteen pairs once. *)
Theorem gentprot2_partition (x y : num_t) :
  let count := gentprot_count [x; y] in
  let once (b : bool) : nat := if b then 1%nat else 0%nat in
  count INSERT_GENTPROT2_BASIC = once (num_t_eqb x y)
  /\ count INSERT_GENTPROT2_MIX_D = once (negb (num_t_eqb x y) && same_prec [x; y])
  /\ count INSERT_GENTPROT2_MIX_P = once (negb (same_prec [x; y]))
  /\ count INSERT_GENTPROT2_MIX_DP = once (negb (num_t_eqb x y))
  /\ count INSERT_GENTPROT2R_BASIC = once (num_t_eqb x y)
  /\ count INSERT_GENTPROT2R_MIX_D = once (negb (num_t_eqb x y) && same_prec [x; y])
  /\ count INSERT_GENTPROT2R_MIX_P = once (negb (same_prec [x; y])).
Proof.
  destruct x, y; vm_compute; repeat split.
Qed.

(** X6.  The three-operand prototype tables ([INSERT_GENTPROT3_*] and
    [INSERT_GENTPROT3U12_*]).  For every triple of floating point
    datatypes: the basic table has exactly one invocation when the three
    are equal, the mixed-domain table exactly one when they are not all
    equal but share a precision, the mixed-precision table exactly one
    when they do not share a precision, and none otherwise.  Together the
    three tables list each of the sixty-four triples once. *)
Theorem gentprot3_partition (x y z : num_t) :
  let count := gentprot_count [x; y; z] in
  let once (b : bool) : nat := if b then 1%nat else 0%nat in
  count INSERT_GENTPROT3_BASIC = once (all_equal [x; y; z])
  /\ count INSERT_GENTPROT3_MIX_D
     = once (negb (all_equal [x; y; z]) && same_prec [x; y; z])
  /\ count INSERT_GENTPROT3_MIX_P = once (negb (same_prec [x; y; z]))
  /\ count INSERT_GENTPROT3U12_BASIC = once (all_equal [x; y; z])
  /\ count INSERT_GENTPROT3U12_MIX_D
     = once (negb (all_equal [x; y; z]) && same_prec [x; y; z])
  /\ count INSERT_GENTPROT3U12_MIX_P = once (negb (same_prec [x; y; z])).
Proof.
  destruct x, y, z; vm_compute; repeat split.
Qed.

(** X7.  The arguments of every invocation in [bli_gentprot_macro_defs.h]
    are determined by its operand datatypes.  Apart from the dot-product
    tables, the type and character arguments of an invocation are the
    ones [gentprot_args] derives from the operands (the real projection,
    the integer type, the union of the first two operands, the blank
    character of the scal and R2 tables), the only exception being the
    integer instance of [INSERT_GENTPROT_BASIC_I].  In the dot-product
    tables a real type comes once, with a blank conjugation character,
    and a complex type with the characters c and u. *)
Theorem gentprot_arguments (i : gentprot_inst) :
  In i gentprot_all ->
  (gp_macro i <> GENTPROTDOT ->
   (exists dts,
      List.length dts = gentprot_arity (gp_macro i)
      /\ map ctype_of dts = firstn (gentprot_arity (gp_macro i)) (gp_types i)
      /\ gentprot_args (gp_macro i) dts = Some (gp_types i, gp_chars i))
   \/ (gp_macro i = GENTPROT /\ gp_types i = [c_gint_t] /\ gp_chars i = [ch_i]))
  /\ (gp_macro i = GENTPROTDOT ->
      exists x conj,
        gp_types i = [ctype_of x] /\ gp_chars i = [tchar_of (ctype_of x); conj]
        /\ (if bli_is_complex x then conj = ch_c \/ conj = ch_u else conj = ch_blank)).
Proof.
  intros Hin.
  assert (Hall : forallb (fun i =>
            match gp_macro i with
            | GENTPROTDOT =>
                match gentprot_operands i, gp_chars i with
                | Some [x], [c1; c2] =>
                    list_eqb ctype_eqb (gp_types i) [ctype_of x]
                    && tchar_eqb c1 (tchar_of (ctype_of x))
                    && (if bli_is_complex x
                        then tchar_eqb c2 ch_c || tchar_eqb c2 ch_u
                        else tchar_eqb c2 ch_blank)
                | _, _ => false
                end
            | _ =>
                gentprot_inst_ok i
                || match gp_macro i with GENTPROT => true | _ => false end
                   && list_eqb ctype_eqb (gp_types i) [c_gint_t]
                   && list_eqb tchar_eqb (gp_chars i) [ch_i]
            end) gentprot_all = true) by (vm_compute; reflexivity).
  rewrite forallb_forall in Hall. specialize (Hall i Hin).
  split.
  - intros Hm.
    assert (Hor : gentprot_inst_ok i
                  || match gp_macro i with GENTPROT => true | _ => false end
                     && list_eqb ctype_eqb (gp_types i) [c_gint_t]
                     && list_eqb tchar_eqb (gp_chars i) [ch_i] = true).
    { destruct (gp_macro i); try exact Hall. contradiction. }
    apply orb_prop in Hor. destruct Hor as [Hok|Hint].
    + left. apply gentprot_inst_ok_args. exact Hok.
    + right. apply andb_prop in Hint. destruct Hint as [Hint Hc].
      apply andb_prop in Hint. destruct Hint as [Hmac Ht].
      apply (list_eqb_eq _ ctype_eqb_eq) in Ht. apply (list_eqb_eq _ tchar_eqb_eq) in Hc.
      split; [|split; assumption].
      destruct (gp_macro i); try discriminate. reflexivity.
  - intros Hm. rewrite Hm in Hall.
    destruct (gentprot_operands i) as [[|x [|? ?]]|]; try discriminate.
    destruct (gp_chars i) as [|c1 [|c2 [|? ?]]]; try discriminate.
    apply andb_prop in Hall. destruct Hall as [Hall Hc2].
    apply andb_prop in Hall. destruct Hall as [Ht Hc1].
    apply (list_eqb_eq _ ctype_eqb_eq) in Ht. apply tchar_eqb_eq in Hc1.
    exists x, c2. split; [exact Ht|]. split; [rewrite Hc1; reflexivity|].
    destruct (bli_is_complex x).
    + apply orb_prop in Hc2. destruct Hc2 as [H|H]; apply tchar_eqb_eq in H; auto.
    + apply tchar_eqb_eq in Hc2. exact Hc2.
Qed.

(** The scal macro of the BLAS layer: the scalar of the mixed case
    [(float, scomplex)] has the character [s]. *)
Lemma gentprot_arguments_witness :
  exists dts,
    gentprot_args GENTPROTSCAL dts = Some ([c_float; c_scomplex], [ch_s; ch_c]).
Proof.
  destruct (proj1 (gentprot_arguments (gp GENTPROTSCAL [c_float; c_scomplex] [ch_s; ch_c]
                                          arg_blasname)
                     ltac:(vm_compute; tauto))
                  ltac:(discriminate)) as [[dts [_ [_ H]]]|[H _]].
  - exists dts. exact H.
  - discriminate H.
Defined.

Lemma demo_heev_args_ok (jobz uplo : ascii) (n : Z) :
  heev_jobz_ok demo_heev_env jobz = true -> heev_uplo_ok demo_heev_env uplo = true ->
  0 <= n -> 1 <= n ->
  heev_args_ok demo_heev_env jobz uplo n n.
Proof. intros Hj Hu Hn H1. repeat split; try assumption. lia. Qed.

(** A workspace query for a matrix of order 3 with a block size of 32:
    [WORK(1)] receives (32 + 1) * 3 = 99 and nothing else happens.  For
    the order 2^30 the product 33 * 2^30 does not fit 32 bits and
    [WORK(1)] receives 2^30. *)
Lemma heev_workspace_size_witness :
  heev_run demo_heev_env ZHEEV "N" "U" 3 3 (-1) demo_heev_arrays
  = (0, {| hs_arr := store_work demo_heev_arrays 0 {| real := 99; imag := 0 |};
           hs_info := 0; hs_trace := [] |})
  /\ heev_run demo_heev_env ZHEEV "N" "U" 1073741824 1073741824 (-1) demo_heev_arrays
     = (0, {| hs_arr := store_work demo_heev_arrays 0 {| real := 1073741824; imag := 0 |};
              hs_info := 0; hs_trace := [] |}).
Proof.
  split.
  - exact (proj1 (heev_workspace_size demo_heev_env ZHEEV "N" "U" 3 3 (-1) demo_heev_arrays
                    (demo_heev_args_ok "N" "U" 3 eq_refl eq_refl ltac:(lia) ltac:(lia)))
                 eq_refl).
  - exact (proj1 (heev_workspace_size demo_heev_env ZHEEV "N" "U" 1073741824 1073741824
                    (-1) demo_heev_arrays
                    (demo_heev_args_ok "N" "U" 1073741824 eq_refl eq_refl
                       ltac:(lia) ltac:(lia)))
                 eq_refl).
Defined.

(** Order 1 with eigenvectors wanted: the eigenvalue is the real part of
    the only element, and the eigenvector is 1. *)
Lemma heev_quick_return_witness :
  exists arr,
    heev_run demo_heev_env CHEEV "V" "L" 1 1 1 demo_heev_arrays
    = (0, {| hs_arr := arr; hs_info := 0; hs_trace := [] |})
    /\ hv_w arr 0 = 5
    /\ hv_a arr 0 = {| real := 1; imag := 0 |}.
Proof.
  destruct (proj2 (heev_quick_return demo_heev_env CHEEV "V" "L" 1 1 1 demo_heev_arrays
                     (demo_heev_args_ok "V" "L" 1 eq_refl eq_refl ltac:(lia) ltac:(lia))
                     ltac:(lia))
                  eq_refl) as [arr [Hrun [Hw [_ [Ha _]]]]].
  exists arr. split; [exact Hrun|]. split; [exact (Hw 0)|exact (Ha 0)].
Defined.

Lemma demo_heev_scaled_args_ok :
  heev_args_ok demo_heev_env_scaled "V" "U" 2 2.
Proof. repeat split; lia. Qed.

(** Order 2 with eigenvectors wanted and the least workspace allowed, on a
    matrix that is scaled and an eigenvalue routine that reports 3: the
    driver returns 0 with INFO = 3, reports a workspace of
    (32 + 1) * 2 = 66, and rescales 3 - 1 = 2 eigenvalues at the end. *)
Lemma heev_general_path_witness :
  heev_run demo_heev_env_scaled ZHEEV "V" "U" 2 2 3 demo_heev_arrays
  = (0, {| hs_arr :=
             store_work (store_work demo_heev_arrays 0 {| real := 66; imag := 0 |})
                        0 {| real := 66; imag := 0 |};
           hs_info := 3;
           hs_trace := [Call_lanhe "M" "U" 2 2 1; Call_lascl "U" 0 0 1 0 2 2 2;
                        Call_hetrd "U" 2 2 1 1 3 1; Call_ungtr "U" 2 2 1 3 1;
                        Call_steqr "V" 2 1 2 3; Call_scal 2 0 1] |}).
Proof.
  exact (heev_general_path demo_heev_env_scaled ZHEEV "V" "U" 2 2 3 demo_heev_arrays
           demo_heev_scaled_args_ok ltac:(lia) ltac:(vm_compute; discriminate)).
Defined.

(* ------------------------------------------------------------------ *)
(** ** The trsm control tree as a whole *)

Section TrsmCntlShape.

Context {R CN : Type}.
Variable E : cntl_env R CN.

(** X8.  The shape of the trsm control tree.  The left-side tree links all
    ten nodes of the [trsm_cntl_t]: below the IC loop there are two
    branches, the trsm one (pack A, JR, IR) and the gemm one (pack A, JR),
    and the thread dimensions met from the root to the leaves are
    NC, MC, KC, NR on one path and NC, MC, KC, MR, NR on the other; the
    tree does not depend on what the [trsm_cntl_t] held before.  The
    right-side tree links seven nodes in a single chain with thread
    dimensions MC, KC, NC, MR, NR, and leaves the three gemm nodes of the
    [trsm_cntl_t] as they were. *)
Theorem trsm_cntl_tree_shape (a b c : obj_t R) (schema_a schema_b : pack_t)
    (cntx : CN) (cntl : trsm_cntl_t) (k : nat) :
  let left := bli_trsm_l_cntl_init E a b c schema_a schema_b cntx cntl in
  let right := bli_trsm_r_cntl_init E a b c schema_a schema_b cntx cntl in
  trsm_walk (6 + k) left part_jc
  = [part_jc; part_pc; pack_b; part_ic; pack_a_trsm; part_jr_trsm; part_ir_trsm;
     pack_a_gemm; part_jr_gemm; part_ir_gemm]
  /\ trsm_paths (6 + k) left part_jc
     = [[BLIS_THREAD_NC; BLIS_THREAD_MC; BLIS_THREAD_KC; BLIS_THREAD_NR];
        [BLIS_THREAD_NC; BLIS_THREAD_MC; BLIS_THREAD_KC; BLIS_THREAD_MR; BLIS_THREAD_NR]]
  /\ (forall cntl', bli_trsm_l_cntl_init E a b c schema_a schema_b cntx cntl' = left)
  /\ trsm_walk (6 + k) right part_jc
     = [part_jc; part_pc; pack_b; part_ic; pack_a_trsm; part_jr_trsm; part_ir_trsm]
  /\ trsm_paths (6 + k) right part_jc
     = [[BLIS_THREAD_MC; BLIS_THREAD_KC; BLIS_THREAD_NC; BLIS_THREAD_MR; BLIS_THREAD_NR]]
  /\ t_pack_a_gemm right = t_pack_a_gemm cntl
  /\ t_part_jr_gemm right = t_part_jr_gemm cntl
  /\ t_part_ir_gemm right = t_part_ir_gemm cntl.
Proof.
  intros left right. subst left right.
  unfold bli_trsm_l_cntl_init, bli_trsm_r_cntl_init. cbv zeta.
  destruct (bli_l3_adjust_kc E BLIS_TRSM a b _ _ cntx) as [pc_alg pc_max].
  repeat split; try reflexivity; destruct k; reflexivity.
Qed.

(** The blocksizes stored in the nodes of the two trees. *)
Lemma trsm_cntl_blocksizes (a b c : obj_t R) (schema_a schema_b : pack_t)
    (cntx : CN) (cntl : trsm_cntl_t) :
  let left := bli_trsm_l_cntl_init E a b c schema_a schema_b cntx cntl in
  let right := bli_trsm_r_cntl_init E a b c schema_a schema_b cntx cntl in
  let def := fun id => bli_cntx_get_blksz_def_dt E (obj_comp_dt c) id cntx in
  let max := fun id => bli_cntx_get_blksz_max_dt E (obj_comp_dt c) id cntx in
  let sizes := fun n : part_cntl_t => (part_b_alg n, part_b_max n, part_b_mult n) in
  let common := fun T : trsm_cntl_t =>
    (* the cache loops *)
    sizes (t_part_ic T) = (def BLIS_MC, max BLIS_MC, def (pdef_bmid_m (t_pack_a_trsm T)))
    /\ sizes (t_part_jc T) = (def BLIS_NC, max BLIS_NC, def (pdef_bmid_m (t_pack_b T)))
    /\ (part_b_alg (t_part_pc T), part_b_max (t_part_pc T))
       = bli_l3_adjust_kc E BLIS_TRSM a b (def BLIS_KC) (max BLIS_KC) cntx
    /\ part_b_mult (t_part_pc T) = 1
    (* the register loops *)
    /\ sizes (t_part_ir_trsm T) = (def BLIS_MR, def BLIS_MR, def BLIS_MR)
    /\ sizes (t_part_jr_trsm T) = (def BLIS_NR, def BLIS_NR, def BLIS_NR)
    /\ pdef_bmid_n (t_pack_a_trsm T) = BLIS_MR
    /\ pdef_bmid_n (t_pack_b T) = BLIS_MR in
  common left
  /\ pdef_bmid_m (t_pack_a_trsm left) = BLIS_MR
  /\ pdef_bmid_m (t_pack_b left) = BLIS_NR
  /\ sizes (t_part_ir_gemm left) = (def BLIS_MR, def BLIS_MR, def BLIS_MR)
  /\ sizes (t_part_jr_gemm left) = (def BLIS_NR, def BLIS_NR, def BLIS_NR)
  /\ pdef_bmid_m (t_pack_a_gemm left) = BLIS_MR
  /\ common right
  /\ pdef_bmid_m (t_pack_a_trsm right) = BLIS_NR
  /\ pdef_bmid_m (t_pack_b right) = BLIS_MR.
Proof.
  intros left right def max sizes common. subst left right def max sizes common.
  unfold bli_trsm_l_cntl_init, bli_trsm_r_cntl_init. cbv zeta beta.
  destruct (bli_l3_adjust_kc E BLIS_TRSM a b _ _ cntx) as [pc_alg pc_max].
  repeat split.
Qed.


End TrsmCntlShape.

(* ------------------------------------------------------------------ *)
(** ** The calls of the structured packer *)

Section PackmTiling.

Context {Rp K P CN : Type}.
Variable E : packm_env Rp K P CN.

Lemma zero_fill_len_max (schema : pack_t) (m len_max p rs cs : Z) :
  pack_call_len_max schema
    (Call_set0s m (len_max * (if bli_is_1m_packed schema then 2 else 1)) p rs cs)
  = len_max.
Proof.
  cbn [pack_call_len_max]. destruct (bli_is_1m_packed schema).
  - apply Z.div_mul. lia.
  - rewrite Z.mul_1_r. apply Z.div_1_r.
Qed.

Lemma packm_p10_shape (dt_p : num_t) (strucc : struc_t) (uploc : uplo_t) (conjc : conj_t)
    (schema : pack_t)
    (panel_dim panel_len panel_dim_max panel_len_max panel_bcast diagoffc : Z)
    (c incc ldc p ldp : Z) (params : P) :
  let calls :=
    packm_p10 E dt_p strucc uploc conjc schema
      panel_dim panel_len panel_dim_max panel_len_max panel_bcast
      diagoffc c incc ldc p ldp params in
  (diagoffc <= 0 -> calls = [])
  /\ (0 < diagoffc ->
      exists call,
        calls = [call] /\ pack_call_p call = p
        /\ pack_call_len_max schema call
           = packm_p10_len_max panel_len panel_len_max diagoffc
        /\ (bli_is_triangular strucc = false -> is_set0s call = false)).
Proof.
  intros calls. subst calls. unfold packm_p10, packm_p10_len_max.
  destruct (setup_fields E dt_p schema ldp params) as [id1 [id2 Hs]]. rewrite Hs.
  split.
  - intros Hd. destruct (Z.ltb_spec 0 diagoffc); [lia|reflexivity].
  - intros Hd. destruct (Z.ltb_spec 0 diagoffc); [|lia].
    destruct (bli_reflect_to_stored_part E diagoffc c incc ldc) as [[c' incc'] ldc'].
    destruct (bli_is_upper uploc); destruct (bli_is_triangular strucc); cbn [andb];
      eexists; (split; [reflexivity|]); (split; [reflexivity|]);
      (split; [try apply zero_fill_len_max; reflexivity|]);
      intros; (reflexivity || discriminate).
Qed.

Lemma packm_p11_shape (dt_p : num_t) (strucc : struc_t) (diagc : diag_t) (uploc : uplo_t)
    (conjc : conj_t) (schema : pack_t) (invdiag : bool)
    (panel_dim panel_len panel_dim_max panel_len_max panel_bcast diagoffc : Z)
    (c incc ldc p ldp : Z) :
  let calls :=
    packm_p11 dt_p strucc diagc uploc conjc schema invdiag
      panel_dim panel_len panel_dim_max panel_len_max panel_bcast
      diagoffc c incc ldc p ldp in
  (diagoffc < 0 \/ panel_len < diagoffc + panel_dim -> calls = [])
  /\ (0 <= diagoffc -> diagoffc + panel_dim <= panel_len ->
      exists call,
        calls = [call] /\ pack_call_p call = p + diagoffc * ldp * esz dt_p
        /\ pack_call_len_max schema call
           = panel_dim + (if diagoffc + panel_dim =? panel_len
                          then panel_len_max - panel_len else 0)
        /\ is_set0s call = false).
Proof.
  intros calls. subst calls. unfold packm_p11.
  split.
  - intros Hd.
    destruct (Z.leb_spec 0 diagoffc); destruct (Z.leb_spec (diagoffc + panel_dim) panel_len);
      cbn [andb]; try reflexivity; lia.
  - intros Hd Hn.
    destruct (Z.leb_spec 0 diagoffc); [|lia].
    destruct (Z.leb_spec (diagoffc + panel_dim) panel_len); [|lia].
    cbn [andb]. eexists. repeat split.
Qed.

Lemma packm_p12_shape (dt_p : num_t) (strucc : struc_t) (uploc : uplo_t) (conjc : conj_t)
    (schema : pack_t)
    (panel_dim panel_len panel_dim_max panel_len_max panel_bcast diagoffc : Z)
    (c incc ldc p ldp : Z) (params : P) :
  let calls :=
    packm_p12 E dt_p strucc uploc conjc schema
      panel_dim panel_len panel_dim_max panel_len_max panel_bcast
      diagoffc c incc ldc p ldp params in
  (panel_len <= diagoffc + panel_dim -> calls = [])
  /\ (diagoffc + panel_dim < panel_len ->
      exists call,
        calls = [call]
        /\ pack_call_p call = p + packm_p12_i panel_dim diagoffc * ldp * esz dt_p
        /\ pack_call_len_max schema call
           = packm_p12_len_max panel_dim panel_len panel_len_max diagoffc
        /\ (bli_is_triangular strucc = false -> is_set0s call = false)).
Proof.
  intros calls. subst calls.
  unfold packm_p12, packm_p12_len_max, packm_p12_len, packm_p12_i.
  destruct (setup_fields E dt_p schema ldp params) as [id1 [id2 Hs]]. rewrite Hs.
  split.
  - intros Hd. destruct (Z.ltb_spec (diagoffc + panel_dim) panel_len); [lia|reflexivity].
  - intros Hd. destruct (Z.ltb_spec (diagoffc + panel_dim) panel_len); [|lia].
    destruct (bli_reflect_to_stored_part E _ _ incc ldc) as [[c' incc'] ldc'].
    destruct (bli_is_lower uploc); destruct (bli_is_triangular strucc); cbn [andb];
      eexists; (split; [reflexivity|]); (split; [reflexivity|]);
      (split; [try apply zero_fill_len_max; reflexivity|]);
      intros; (reflexivity || discriminate).
Qed.

(** X10.  The regions [packm_struc_cxk] hands out tile the padded panel.
    For a non-general panel with positive dimensions that passes the
    diagonal check, the packer makes between one and three calls (kernels
    or zero fill).  The column ranges they are handed are consecutive: the
    first call is handed the panel pointer, each later call the pointer
    where the range of the call before ends, and the numbers of columns
    handed out (the padded length of a kernel call, the columns of a zero
    fill) add up to [panel_len_max].  What a kernel writes within its
    range is the kernel's business. *)
Theorem packm_struc_cxk_regions_tile
    (dt_c dt_p : num_t) (strucc : struc_t) (diagc : diag_t) (uploc : uplo_t)
    (conjc : conj_t) (schema : pack_t) (invdiag : bool)
    (panel_dim panel_len panel_dim_max panel_len_max : Z)
    (panel_dim_off panel_len_off panel_bcast : Z)
    (c incc ldc p ldp : Z) (params : P) :
  let diagoffc := packm_diagoffc panel_dim_off panel_len_off in
  bli_is_general strucc = false ->
  packm_diag_intersects_short_edge panel_dim panel_len diagoffc = false ->
  0 < panel_dim -> 0 < panel_len ->
  exists calls,
    packm_struc_cxk_calls E dt_c dt_p strucc diagc uploc conjc schema invdiag
      panel_dim panel_len panel_dim_max panel_len_max
      panel_dim_off panel_len_off panel_bcast c incc ldc p ldp params
    = Returned calls
    /\ calls <> []
    /\ (List.length calls <= 3)%nat
    /\ calls_tile dt_p schema p ldp 0 calls
    /\ calls_len_max schema calls = panel_len_max.
Proof.
  intros d Hg Hchk Hm Hn.
  unfold packm_struc_cxk_calls. rewrite Hg. fold d. rewrite Hchk.
  assert (Hd : ~ ((- panel_dim < d < 0) \/ (panel_len - panel_dim < d < panel_len))).
  { intros H. apply (intersects_short_edge_iff panel_dim panel_len d) in H. congruence. }
  destruct (packm_p10_shape dt_p strucc uploc conjc schema
              panel_dim panel_len panel_dim_max panel_len_max panel_bcast d
              c incc ldc p ldp params) as [H10n H10].
  destruct (packm_p11_shape dt_p strucc diagc uploc conjc schema invdiag
              panel_dim panel_len panel_dim_max panel_len_max panel_bcast d
              c incc ldc p ldp) as [H11n H11].
  destruct (packm_p12_shape dt_p strucc uploc conjc schema
              panel_dim panel_len panel_dim_max panel_len_max panel_bcast d
              c incc ldc p ldp params) as [H12n H12].
  eexists. split; [reflexivity|].
  destruct (Z_lt_le_dec 0 d) as [Hpos|Hnpos].
  - (* the panel starts after the diagonal *)
    destruct (H10 Hpos) as [c10 [E10 [P10 [L10 _]]]]. rewrite E10.
    unfold packm_p10_len_max in L10.
    destruct (Z_le_gt_dec panel_len d) as [Hfar|Hnear].
    + (* no diagonal in the panel *)
      rewrite (H11n ltac:(lia)), (H12n ltac:(lia)). cbn [app].
      rewrite Z.min_r in L10 by lia. rewrite Z.eqb_refl in L10.
      split; [discriminate|]. split; [cbn; lia|].
      split; [cbn; split; [lia|exact I]|].
      cbn. lia.
    + rewrite Z.min_l in L10 by lia.
      destruct (Z.eqb_spec d panel_len) as [Heq|_]; [lia|].
      destruct (H11 ltac:(lia) ltac:(lia)) as [c11 [E11 [P11 [L11 _]]]]. rewrite E11.
      destruct (Z.eqb_spec (d + panel_dim) panel_len) as [Hend|Hmore].
      * rewrite (H12n ltac:(lia)). cbn [app].
        split; [discriminate|]. split; [cbn; lia|].
        split; [cbn; repeat split; lia|].
        cbn. lia.
      * destruct (H12 ltac:(lia)) as [c12 [E12 [P12 [L12 _]]]]. rewrite E12.
        unfold packm_p12_len_max, packm_p12_len, packm_p12_i in *.
        rewrite Z.max_r in * by lia. cbn [app].
        split; [discriminate|]. split; [cbn; lia|].
        split; [cbn; repeat split; lia|].
        cbn. lia.
  - rewrite (H10n Hnpos). cbn [app].
    destruct (Z.eq_dec d 0) as [Hz|Hneg].
    + (* the panel starts on the diagonal *)
      destruct (H11 ltac:(lia) ltac:(lia)) as [c11 [E11 [P11 [L11 _]]]]. rewrite E11.
      destruct (Z.eqb_spec (d + panel_dim) panel_len) as [Hend|Hmore].
      * rewrite (H12n ltac:(lia)). cbn [app].
        split; [discriminate|]. split; [cbn; lia|].
        split; [cbn; repeat split; lia|].
        cbn. lia.
      * destruct (H12 ltac:(lia)) as [c12 [E12 [P12 [L12 _]]]]. rewrite E12.
        unfold packm_p12_len_max, packm_p12_len, packm_p12_i in *.
        rewrite Z.max_r in * by lia. cbn [app].
        split; [discriminate|]. split; [cbn; lia|].
        split; [cbn; repeat split; lia|].
        cbn. lia.
    + (* the panel ends before the diagonal *)
      rewrite (H11n ltac:(lia)).
      destruct (H12 ltac:(lia)) as [c12 [E12 [P12 [L12 _]]]]. rewrite E12.
      unfold packm_p12_len_max, packm_p12_len, packm_p12_i in *.
      rewrite Z.max_l in * by lia. cbn [app].
      split; [discriminate|]. split; [cbn; lia|].
      split; [cbn; repeat split; lia|].
      cbn. lia.
Qed.

(** X11.  What [packm_struc_cxk] hands to the kernels.  A general panel is
    one call of the cxk kernel with the caller's arguments.  A Hermitian
    or symmetric panel is never zero filled.  A triangular panel is zero
    filled at most once, never when its uplo is neither upper nor lower,
    and only on the unstored side of the diagonal: at the start of the
    panel for an upper triangle, from the first column after the diagonal
    block for a lower one. *)
Theorem packm_struc_cxk_kernels_only
    (dt_c dt_p : num_t) (strucc : struc_t) (diagc : diag_t) (uploc : uplo_t)
    (conjc : conj_t) (schema : pack_t) (invdiag : bool)
    (panel_dim panel_len panel_dim_max panel_len_max : Z)
    (panel_dim_off panel_len_off panel_bcast : Z)
    (c incc ldc p ldp : Z) (params : P) :
  let calls :=
    packm_struc_cxk_calls E dt_c dt_p strucc diagc uploc conjc schema invdiag
      panel_dim panel_len panel_dim_max panel_len_max
      panel_dim_off panel_len_off panel_bcast c incc ldc p ldp params in
  (* a general panel: one kernel call with the arguments of the caller *)
  (strucc = BLIS_GENERAL ->
   calls = Returned [Call_cxk conjc schema panel_dim panel_dim_max panel_bcast
                              panel_len panel_len_max c incc ldc p ldp])
  (* Hermitian and symmetric panels are never zero filled *)
  /\ (strucc = BLIS_HERMITIAN \/ strucc = BLIS_SYMMETRIC ->
      forall l call, calls = Returned l -> In call l -> is_set0s call = false)
  (* a triangular panel is zero filled at most once, and only on the side
     of the diagonal that is not stored *)
  /\ (strucc = BLIS_TRIANGULAR ->
      forall l, calls = Returned l ->
        (List.length (filter is_set0s l) <= 1)%nat
        /\ (bli_is_upper_or_lower uploc = false -> filter is_set0s l = [])
        /\ (forall call, In call l -> is_set0s call = true ->
              if bli_is_upper uploc then pack_call_p call = p
              else pack_call_p call
                   = p + packm_p12_i panel_dim
                           (packm_diagoffc panel_dim_off panel_len_off) * ldp * esz dt_p)).
Proof.
  intros calls. subst calls. unfold packm_struc_cxk_calls.
  split; [intros ->; reflexivity|].
  split.
  - intros Hs l call Hl Hin.
    assert (Hg : bli_is_general strucc = false) by (destruct Hs; subst; reflexivity).
    assert (Ht : bli_is_triangular strucc = false) by (destruct Hs; subst; reflexivity).
    rewrite Hg in Hl.
    destruct (packm_diag_intersects_short_edge _ _ _); [discriminate|].
    injection Hl as <-.
    set (d := packm_diagoffc panel_dim_off panel_len_off) in *.
    destruct (packm_p10_shape dt_p strucc uploc conjc schema
                panel_dim panel_len panel_dim_max panel_len_max panel_bcast d
                c incc ldc p ldp params) as [H10n H10].
    destruct (packm_p11_shape dt_p strucc diagc uploc conjc schema invdiag
                panel_dim panel_len panel_dim_max panel_len_max panel_bcast d
                c incc ldc p ldp) as [H11n H11].
    destruct (packm_p12_shape dt_p strucc uploc conjc schema
                panel_dim panel_len panel_dim_max panel_len_max panel_bcast d
                c incc ldc p ldp params) as [H12n H12].
    apply in_app_or in Hin. destruct Hin as [Hin|Hin].
    + destruct (Z_lt_le_dec 0 d) as [Hpos|Hnpos].
      * destruct (H10 Hpos) as [c10 [E10 [_ [_ S10]]]]. rewrite E10 in Hin.
        destruct Hin as [<-|[]]. exact (S10 Ht).
      * rewrite (H10n Hnpos) in Hin. destruct Hin.
    + apply in_app_or in Hin. destruct Hin as [Hin|Hin].
      * unfold packm_p11 in Hin. destruct (_ && _); [|destruct Hin].
        destruct Hin as [<-|[]]. reflexivity.
      * destruct (Z_lt_le_dec (d + panel_dim) panel_len) as [Hlt|Hge].
        -- destruct (H12 Hlt) as [c12 [E12 [_ [_ S12]]]]. rewrite E12 in Hin.
           destruct Hin as [<-|[]]. exact (S12 Ht).
        -- rewrite (H12n Hge) in Hin. destruct Hin.
  - intros -> l Hl. cbn [bli_is_general] in Hl.
    destruct (packm_diag_intersects_short_edge _ _ _); [discriminate|].
    injection Hl as <-.
    set (d := packm_diagoffc panel_dim_off panel_len_off) in *.
    unfold packm_p10, packm_p11, packm_p12, packm_p12_i, bli_is_upper_or_lower.
    destruct (setup_fields E dt_p schema ldp params) as [id1 [id2 Hs]]. rewrite Hs.
    destruct (bli_reflect_to_stored_part E d c incc ldc) as [[c' incc'] ldc'].
    destruct (bli_reflect_to_stored_part E _ _ incc ldc) as [[c'' incc''] ldc''].
    destruct (0 <? d); destruct ((0 <=? d) && (d + panel_dim <=? panel_len));
      destruct (d + panel_dim <? panel_len); destruct uploc;
      cbn; (split; [lia|]); (split; [intros; (reflexivity || discriminate)|]);
      intros call Hin Hz;
      repeat (destruct Hin as [<-|Hin]; [try discriminate Hz; try reflexivity|]);
      try destruct Hin.
Qed.

End PackmTiling.

(* ------------------------------------------------------------------ *)
(** ** The entry points and their caller *)

Section L3Effects.

Context {R CN RN CT : Type}.
Variable E : l3_env R CN RN CT.

Local Abbreviation State := (state R CN RN CT).

Lemma quiet_refl (s : State) : l3_quiet s s.
Proof. split; reflexivity. Qed.

Lemma quiet_set_obj (r : objref) (o : obj_t R) (s so : State) :
  (forall n, objref_eqb (caller_obj n) r = false) ->
  l3_quiet s so -> l3_quiet s (set_obj r o so).
Proof.
  intros Hr [Ho Hc]. split; [|exact Hc].
  intros n. rewrite st_obj_set_obj, Hr. apply Ho.
Qed.

Lemma quiet_upd_obj (r : objref) (f : obj_t R -> obj_t R) (s so : State) :
  (forall n, objref_eqb (caller_obj n) r = false) ->
  l3_quiet s so -> l3_quiet s (upd_obj r f so).
Proof. intros Hr Hq. unfold upd_obj. apply quiet_set_obj; assumption. Qed.

Lemma quiet_set_mem (m : mem R) (s so : State) :
  l3_quiet s so -> l3_quiet s (set_mem m so).
Proof. intros [Ho Hc]. split; [exact Ho|exact Hc]. Qed.

Lemma quiet_alias (a b c : objref) (s so : State) :
  l3_quiet s so -> l3_quiet s (alias_locals a b c so).
Proof.
  intros [Ho Hc]. split.
  - intros n. rewrite alias_locals_other by reflexivity. apply Ho.
  - rewrite (proj2 (alias_locals_mem a b c so)). exact Hc.
Qed.

Lemma quiet_swap (s so : State) :
  l3_quiet s so -> l3_quiet s (bli_obj_swap ref_a_local ref_b_local so).
Proof.
  intros [Ho Hc]. split.
  - intros n. rewrite swap_ab_other by reflexivity. apply Ho.
  - rewrite (proj2 (swap_mem _ _ so)). exact Hc.
Qed.

Lemma quiet_induce (s so : State) :
  l3_quiet s so -> l3_quiet s (induce_trans_abc so).
Proof.
  intros [Ho Hc]. split.
  - intros n. rewrite induce_abc_other by reflexivity. apply Ho.
  - rewrite (proj2 (induce_abc_mem so)). exact Hc.
Qed.

Lemma quiet_orient (cntx : CN) (s so : State) :
  l3_quiet s so -> l3_quiet s (orient_for_ukr E cntx so).
Proof.
  intros Hq. unfold orient_for_ukr.
  destruct (bli_cntx_dislikes_storage_of E _ _); [|exact Hq].
  apply quiet_induce, quiet_swap, Hq.
Qed.

Lemma quiet_set_schemas (cntx : CN) (s so : State) :
  l3_quiet s so ->
  l3_quiet s (bli_l3_set_schemas E ref_a_local ref_b_local ref_c_local cntx so).
Proof.
  intros Hq. unfold bli_l3_set_schemas.
  apply quiet_upd_obj; [reflexivity|]. apply quiet_upd_obj; [reflexivity|]. exact Hq.
Qed.

Lemma quiet_reset (s so : State) : l3_quiet s so -> l3_quiet s (reset_schemas so).
Proof.
  intros Hq. unfold reset_schemas.
  apply quiet_upd_obj; [reflexivity|]. apply quiet_upd_obj; [reflexivity|]. exact Hq.
Qed.

Lemma quiet_normalize (s so : State) : l3_quiet s so -> l3_quiet s (normalize_trans_a so).
Proof.
  intros Hq. unfold normalize_trans_a.
  destruct (bli_obj_has_trans _); [|exact Hq].
  apply quiet_upd_obj; [reflexivity|]. apply quiet_upd_obj; [reflexivity|]. exact Hq.
Qed.

Lemma quiet_orient_triangular (disable_right : bool) (side : side_t) (cntx : CN)
    (s so : State) :
  l3_quiet s so -> l3_quiet s (snd (orient_triangular E disable_right side cntx so)).
Proof.
  intros Hq. unfold orient_triangular.
  destruct disable_right.
  - destruct (bli_is_right side); cbn [snd]; [apply quiet_induce|]; exact Hq.
  - destruct (bli_cntx_dislikes_storage_of E _ _).
    + destruct (bli_is_right (bli_toggle_side side)); cbn [snd].
      * apply quiet_swap, quiet_induce, Hq.
      * apply quiet_induce, Hq.
    + destruct (bli_is_right side); cbn [snd]; [apply quiet_swap|]; exact Hq.
Qed.

Lemma quiet_prepare (a b c : objref) (beta : scal R) (cntx : CN) (s so : State) :
  l3_quiet s so -> l3_quiet s (fst (gemm_prepare E a b c beta cntx so)).
Proof.
  intros Hq. unfold gemm_prepare. cbv zeta.
  set (s1 := bli_l3_set_schemas E _ _ _ cntx _).
  assert (H1 : l3_quiet s s1).
  { subst s1. apply quiet_set_schemas, quiet_orient, quiet_alias, Hq. }
  destruct (BLIS_ENABLE_GEMM_MD E && _); [|exact H1].
  destruct (bli_gemm_md E _ _ beta _ cntx) as [[[a' b'] c'] cntx']. cbn [fst].
  repeat (apply quiet_set_obj; [reflexivity|]). exact H1.
Qed.

Lemma quiet_attach (alpha beta : scal R) (s so : State) :
  l3_quiet s so -> l3_quiet s (gemm_attach_scalars E alpha beta so).
Proof.
  intros Hq. unfold gemm_attach_scalars.
  apply quiet_upd_obj; [reflexivity|]. apply quiet_upd_obj; [reflexivity|]. exact Hq.
Qed.

Lemma quiet_early (alpha : scal R) (a b : objref) (beta : scal R) (c : objref) (s : State) :
  l3_quiet s (snd (bli_l3_return_early_if_trivial E alpha a b beta c s)).
Proof.
  destruct (early_keeps_objs E alpha a b beta c s) as [Ho Hc].
  split; [intros n; rewrite Ho; reflexivity|exact Hc].
Qed.

Lemma effect_of_quiet (k : nat) (s s' : State) : l3_quiet s s' -> l3_effect k s s'.
Proof.
  intros [Ho Hc]. split; [exact Ho|].
  exists []. rewrite app_nil_r. split; [exact Hc|]. split; [cbn; lia|constructor].
Qed.

Lemma effect_set_mem (k : nat) (m : mem R) (s s' : State) :
  l3_effect k s s' -> l3_effect k s (set_mem m s').
Proof. intros H. exact H. Qed.

Lemma effect_trans (k1 k2 : nat) (s s1 s2 : State) :
  l3_effect k1 s s1 -> l3_effect k2 s1 s2 -> l3_effect (k1 + k2) s s2.
Proof.
  intros [Ho1 [l1 [Hc1 [Hl1 Hu1]]]] [Ho2 [l2 [Hc2 [Hl2 Hu2]]]].
  split; [intros n; rewrite Ho2; apply Ho1|].
  exists (l1 ++ l2). rewrite Hc2, Hc1, app_assoc.
  split; [reflexivity|]. split; [rewrite length_app; lia|].
  apply Forall_app. split; assumption.
Qed.

Lemma effect_decorate (alpha : scal R) (beta : scal R) (c : objref)
    (cntx : CN) (cntl : CT) (rntm : RN) (s so : State) :
  l3_quiet s so ->
  l3_effect 1 s
    (l3_thread_decorate E alpha ref_a_local ref_b_local beta c cntx cntl rntm
       (reset_schemas so)).
Proof.
  intros Hq. destruct (quiet_reset s so Hq) as [Ho Hc].
  split.
  - intros n. rewrite st_obj_decorate. apply Ho.
  - eexists. unfold l3_thread_decorate. cbn [st_calls]. rewrite Hc.
    split; [reflexivity|]. split; [cbn; lia|].
    constructor; [|constructor].
    split; cbn [l3_a l3_b]; [rewrite reset_schemas_a|rewrite reset_schemas_b]; reflexivity.
Qed.

(** The entry points that go through the trivial-case test and then make
    one call. *)
Ltac l3_open Hrun He Hs :=
  match type of Hrun with
  | bind (l3_check _ _) _ = _ =>
      destruct (l3_check E _); cbn [bind] in Hrun; [|discriminate Hrun]
  end;
  match type of Hrun with
  | context [bli_l3_return_early_if_trivial E ?al ?a ?b ?be ?c ?s] =>
      pose proof (quiet_early al a b be c s) as Hq0;
      destruct (bli_l3_return_early_if_trivial E al a b be c s) as [e0 s1] eqn:He;
      cbn [snd] in Hq0;
      destruct (err_is_success e0) eqn:Hs;
      [injection Hrun as <-; apply effect_of_quiet; exact Hq0
      |pose proof (early_failure_keeps_state E _ _ _ _ _ _ _ _ He Hs); subst s1; clear Hq0]
  end.

Lemma gemmt_effect (alpha : scal R) (a b : objref) (beta : scal R) (c : objref)
    (cntx : option CN) (rntm : option RN) (s s' : State) :
  bli_gemmt_ex E alpha a b beta c cntx rntm s = Returned s' -> l3_effect 1 s s'.
Proof.
  unfold bli_gemmt_ex. intros Hrun. l3_open Hrun He Hs.
  rewrite take_schemas_eq in Hrun. cbv beta iota zeta in Hrun.
  injection Hrun as <-.
  apply effect_decorate, quiet_set_schemas, quiet_orient, quiet_alias, quiet_refl.
Qed.

Lemma gemm_effect (alpha : scal R) (a b : objref) (beta : scal R) (c : objref)
    (cntx : option CN) (rntm : option RN) (s s' : State) :
  bli_gemm_ex E alpha a b beta c cntx rntm s = Returned s' -> l3_effect 1 s s'.
Proof.
  unfold bli_gemm_ex. intros Hrun. l3_open Hrun He Hs.
  destruct (bli_gemmsup E alpha _ _ beta _ cntx rntm _) as [m|].
  { injection Hrun as <-. apply effect_of_quiet, quiet_set_mem, quiet_refl. }
  cbv zeta in Hrun.
  set (cx := resolve_cntx E cntx _) in Hrun.
  pose proof (quiet_prepare a b c beta cx s s (quiet_refl s)) as Hp.
  destruct (gemm_prepare E a b c beta cx s) as [s0 cx0]. cbn [fst] in Hp.
  pose proof (quiet_attach alpha beta s s0 Hp) as Ha.
  set (s2 := gemm_attach_scalars E alpha beta s0) in *.
  destruct (gemm_use_ct E (st_obj s2 ref_a_local) (st_obj s2 ref_b_local)
                        (st_obj s2 ref_c_local)).
  - cbv beta iota in Hrun. rewrite take_schemas_eq in Hrun. cbv beta iota in Hrun.
    injection Hrun as <-.
    apply effect_set_mem, effect_decorate, quiet_set_obj; [reflexivity|exact Ha].
  - cbv beta iota in Hrun. rewrite take_schemas_eq in Hrun. cbv beta iota in Hrun.
    injection Hrun as <-.
    apply effect_decorate. exact Ha.
Qed.

Lemma hemm_effect (side : side_t) (alpha : scal R) (a b : objref) (beta : scal R)
    (c : objref) (cntx : option CN) (rntm : option RN) (s s' : State) :
  bli_hemm_ex E side alpha a b beta c cntx rntm s = Returned s' -> l3_effect 1 s s'.
Proof.
  unfold bli_hemm_ex. intros Hrun. l3_open Hrun He Hs.
  cbv zeta in Hrun.
  set (cx := resolve_cntx E cntx _) in Hrun.
  pose proof (quiet_alias a b c s s (quiet_refl s)) as Hal.
  set (s0 := alias_locals a b c s) in *.
  match type of Hrun with
  | context [let '(_, _) := ?X in _] => set (or := X) in Hrun
  end.
  assert (Hq : l3_quiet s (snd or)).
  { subst or. destruct (BLIS_DISABLE_HEMM_RIGHT E).
    - destruct (bli_is_right side); cbn [snd]; [apply quiet_induce|]; exact Hal.
    - destruct (bli_cntx_dislikes_storage_of E _ _).
      + assert (Hq1 : l3_quiet s
                        (upd_obj ref_c_local bli_obj_induce_trans
                           (upd_obj ref_b_local bli_obj_induce_trans
                              (upd_obj ref_a_local bli_obj_toggle_conj s0)))).
        { repeat (apply quiet_upd_obj; [reflexivity|]). exact Hal. }
        destruct (bli_is_right (bli_toggle_side side)); cbn [snd];
          [apply quiet_swap|]; exact Hq1.
      + destruct (bli_is_right side); cbn [snd]; [apply quiet_swap|]; exact Hal. }
  destruct or as [side' so]. cbn [snd] in Hq.
  rewrite take_schemas_eq in Hrun. cbv beta iota in Hrun.
  injection Hrun as <-.
  apply effect_decorate, quiet_set_schemas, Hq.
Qed.

Lemma symm_effect (side : side_t) (alpha : scal R) (a b : objref) (beta : scal R)
    (c : objref) (cntx : option CN) (rntm : option RN) (s s' : State) :
  bli_symm_ex E side alpha a b beta c cntx rntm s = Returned s' -> l3_effect 1 s s'.
Proof.
  unfold bli_symm_ex. intros Hrun. l3_open Hrun He Hs.
  cbv zeta in Hrun.
  set (cx := resolve_cntx E cntx _) in Hrun.
  pose proof (quiet_alias a b c s s (quiet_refl s)) as Hal.
  set (s0 := alias_locals a b c s) in *.
  match type of Hrun with
  | context [let '(_, _) := ?X in _] => set (or := X) in Hrun
  end.
  assert (Hq : l3_quiet s (snd or)).
  { subst or. destruct (BLIS_DISABLE_SYMM_RIGHT E).
    - destruct (bli_is_right side); cbn [snd]; [apply quiet_induce|]; exact Hal.
    - destruct (bli_cntx_dislikes_storage_of E _ _).
      + assert (Hq1 : l3_quiet s
                        (upd_obj ref_c_local bli_obj_induce_trans
                           (upd_obj ref_b_local bli_obj_induce_trans s0))).
        { repeat (apply quiet_upd_obj; [reflexivity|]). exact Hal. }
        destruct (bli_is_right (bli_toggle_side side)); cbn [snd];
          [apply quiet_swap|]; exact Hq1.
      + destruct (bli_is_right side); cbn [snd]; [apply quiet_swap|]; exact Hal. }
  destruct or as [side' so]. cbn [snd] in Hq.
  rewrite take_schemas_eq in Hrun. cbv beta iota in Hrun.
  injection Hrun as <-.
  apply effect_decorate, quiet_set_schemas, Hq.
Qed.

Lemma trmm3_effect (side : side_t) (alpha : scal R) (a b : objref) (beta : scal R)
    (c : objref) (cntx : option CN) (rntm : option RN) (s s' : State) :
  bli_trmm3_ex E side alpha a b beta c cntx rntm s = Returned s' -> l3_effect 1 s s'.
Proof.
  unfold bli_trmm3_ex. intros Hrun. l3_open Hrun He Hs.
  cbv zeta in Hrun.
  set (cx := resolve_cntx E cntx _) in Hrun.
  pose proof (quiet_orient_triangular (BLIS_DISABLE_TRMM3_RIGHT E) side cx s _
                (quiet_normalize s _ (quiet_alias a b c s s (quiet_refl s)))) as Hq.
  destruct (orient_triangular E _ side cx _) as [side' so]. cbn [snd] in Hq.
  rewrite take_schemas_eq in Hrun. cbv beta iota in Hrun.
  injection Hrun as <-.
  apply effect_decorate, quiet_set_schemas, Hq.
Qed.

Lemma trmm_effect (side : side_t) (alpha : scal R) (a b : objref)
    (cntx : option CN) (rntm : option RN) (s s' : State) :
  bli_trmm_ex E side alpha a b cntx rntm s = Returned s' -> l3_effect 1 s s'.
Proof.
  unfold bli_trmm_ex. intros Hrun. l3_open Hrun He Hs.
  cbv zeta in Hrun.
  set (cx := resolve_cntx E cntx _) in Hrun.
  pose proof (quiet_orient_triangular (BLIS_DISABLE_TRMM_RIGHT E) side cx s _
                (quiet_normalize s _ (quiet_alias a b b s s (quiet_refl s)))) as Hq.
  destruct (orient_triangular E _ side cx _) as [side' so]. cbn [snd] in Hq.
  rewrite take_schemas_eq in Hrun. cbv beta iota in Hrun.
  injection Hrun as <-.
  apply effect_decorate, quiet_set_schemas, Hq.
Qed.

Lemma trsm_effect (side : side_t) (alpha : scal R) (a b : objref)
    (cntx : option CN) (rntm : option RN) (s s' : State) :
  bli_trsm_ex E side alpha a b cntx rntm s = Returned s' -> l3_effect 1 s s'.
Proof.
  unfold bli_trsm_ex. intros Hrun. l3_open Hrun He Hs.
  cbv zeta in Hrun.
  set (cx := resolve_cntx E cntx _) in Hrun.
  pose proof (quiet_normalize s _ (quiet_alias a b b s s (quiet_refl s))) as Hn.
  destruct (bli_is_right side).
  - cbv beta iota in Hrun. rewrite take_schemas_eq in Hrun. cbv beta iota in Hrun.
    injection Hrun as <-.
    apply effect_decorate, quiet_set_schemas, quiet_induce, Hn.
  - cbv beta iota in Hrun. rewrite take_schemas_eq in Hrun. cbv beta iota in Hrun.
    injection Hrun as <-.
    apply effect_decorate, quiet_set_schemas, Hn.
Qed.

Lemma effect_after_quiet (k : nat) (s s0 s' : State) :
  l3_quiet s s0 -> l3_effect k s0 s' -> l3_effect k s s'.
Proof.
  intros Hq He. exact (effect_trans 0 k s s0 s' (effect_of_quiet 0 s s0 Hq) He).
Qed.

Lemma rank_k_effect (op : l3_op) (alpha : scal R) (a b : objref) (beta : scal R)
    (c : objref) (cntx : option CN) (rntm : option RN) (s s' : State) :
  op = op_her2k \/ op = op_syr2k \/ op = op_herk \/ op = op_syrk ->
  l3_run E op alpha a b beta c cntx rntm s = Returned s' ->
  l3_effect (l3_max_calls op) s s'.
Proof.
  intros Hop; destruct Hop as [Hop|[Hop|[Hop|Hop]]]; subst op; cbn [l3_run l3_max_calls];
    unfold bli_her2k_ex, bli_syr2k_ex, bli_herk_ex, bli_syrk_ex; intros Hrun;
    (destruct (l3_check E _); cbn [bind] in Hrun; [|discriminate Hrun]);
    cbv zeta in Hrun.
  - match type of Hrun with
    | bind (bli_gemmt_ex E _ _ _ _ _ _ _ ?s0) _ = _ =>
        assert (Hq : l3_quiet s s0)
          by (repeat (apply quiet_set_obj; [reflexivity|]); apply quiet_refl);
        destruct (bli_gemmt_ex E alpha a ref_bh beta c cntx rntm s0) as [s1|] eqn:H1;
        cbn [bind] in Hrun; [|discriminate Hrun]
    end.
    destruct (bli_gemmt_ex E _ b ref_ah _ c cntx rntm s1) as [s2|] eqn:H2;
      cbn [bind] in Hrun; [|discriminate Hrun].
    injection Hrun as <-. apply effect_set_mem.
    eapply effect_after_quiet; [exact Hq|].
    exact (effect_trans 1 1 _ _ _ (gemmt_effect _ _ _ _ _ _ _ _ _ H1)
             (gemmt_effect _ _ _ _ _ _ _ _ _ H2)).
  - match type of Hrun with
    | bind (bli_gemmt_ex E _ _ _ _ _ _ _ ?s0) _ = _ =>
        assert (Hq : l3_quiet s s0)
          by (repeat (apply quiet_set_obj; [reflexivity|]); apply quiet_refl);
        destruct (bli_gemmt_ex E alpha a ref_bt beta c cntx rntm s0) as [s1|] eqn:H1;
        cbn [bind] in Hrun; [|discriminate Hrun]
    end.
    eapply effect_after_quiet; [exact Hq|].
    exact (effect_trans 1 1 _ _ _ (gemmt_effect _ _ _ _ _ _ _ _ _ H1)
             (gemmt_effect _ _ _ _ _ _ _ _ _ Hrun)).
  - match type of Hrun with
    | bind (bli_gemmt_ex E _ _ _ _ _ _ _ ?s0) _ = _ =>
        assert (Hq : l3_quiet s s0)
          by (repeat (apply quiet_set_obj; [reflexivity|]); apply quiet_refl);
        destruct (bli_gemmt_ex E alpha a ref_ah beta c cntx rntm s0) as [s1|] eqn:H1;
        cbn [bind] in Hrun; [|discriminate Hrun]
    end.
    injection Hrun as <-. apply effect_set_mem.
    eapply effect_after_quiet; [exact Hq|].
    exact (gemmt_effect _ _ _ _ _ _ _ _ _ H1).
  - match type of Hrun with
    | bli_gemmt_ex E _ _ _ _ _ _ _ ?s0 = _ =>
        assert (Hq : l3_quiet s s0)
          by (repeat (apply quiet_set_obj; [reflexivity|]); apply quiet_refl)
    end.
    eapply effect_after_quiet; [exact Hq|].
    exact (gemmt_effect _ _ _ _ _ _ _ _ _ Hrun).
Qed.

(** Every entry point leaves the descriptors of the caller as they were
    and makes at most [l3_max_calls] back-end calls, each on unpacked A
    and B operands. *)
Lemma l3_run_effect (op : l3_op) (alpha : scal R) (a b : objref) (beta : scal R)
    (c : objref) (cntx : option CN) (rntm : option RN) (s s' : State) :
  l3_run E op alpha a b beta c cntx rntm s = Returned s' ->
  (forall n, st_obj s' (caller_obj n) = st_obj s (caller_obj n))
  /\ exists calls,
       st_calls s' = st_calls s ++ calls
       /\ (List.length calls <= l3_max_calls op)%nat
       /\ Forall l3_call_unpacked calls.
Proof.
  intros Hrun. change (l3_effect (l3_max_calls op) s s').
  destruct op;
    try (apply (rank_k_effect _ alpha a b beta c cntx rntm); [tauto|exact Hrun]);
    cbn [l3_run l3_max_calls] in *.
  - exact (gemm_effect _ _ _ _ _ _ _ _ _ Hrun).
  - exact (gemmt_effect _ _ _ _ _ _ _ _ _ Hrun).
  - exact (hemm_effect _ _ _ _ _ _ _ _ _ _ Hrun).
  - exact (symm_effect _ _ _ _ _ _ _ _ _ _ Hrun).
  - exact (trmm3_effect _ _ _ _ _ _ _ _ _ _ Hrun).
  - exact (trmm_effect _ _ _ _ _ _ _ _ Hrun).
  - exact (trsm_effect _ _ _ _ _ _ _ _ Hrun).
Qed.

(** The error path: a parameter check that reports a code makes the entry
    point stop with that code. *)
Lemma l3_check_fails (e : err_t) :
  bli_error_checking_is_enabled E = true -> e <> BLIS_SUCCESS ->
  l3_check E e = Aborted e.
Proof.
  intros Hen Hne. unfold l3_check. rewrite Hen.
  destruct e; try reflexivity. contradiction.
Qed.

Lemma l3_run_check_fails (op : l3_op) (alpha : scal R) (a b : objref)
    (beta : scal R) (c : objref) (cntx : option CN) (rntm : option RN) (s : State) :
  let e := l3_op_check E op alpha (st_obj s a) (st_obj s b) beta (st_obj s c) cntx in
  bli_error_checking_is_enabled E = true -> e <> BLIS_SUCCESS ->
  l3_run E op alpha a b beta c cntx rntm s = Aborted e.
Proof.
  intros e Hen Hne. subst e.
  destruct op; cbn [l3_run l3_op_check] in *;
    unfold bli_gemm_ex, bli_gemmt_ex, bli_her2k_ex, bli_syr2k_ex, bli_hemm_ex,
           bli_symm_ex, bli_trmm3_ex, bli_herk_ex, bli_syrk_ex, bli_trmm_ex, bli_trsm_ex;
    rewrite (l3_check_fails _ Hen Hne); reflexivity.
Qed.

(** An abort of the check comes with checking enabled and carries the code
    of the check, which is not [BLIS_SUCCESS]. *)
Lemma l3_check_aborted (e0 e : err_t) :
  l3_check E e0 = Aborted e ->
  bli_error_checking_is_enabled E = true /\ e <> BLIS_SUCCESS.
Proof.
  unfold l3_check. destruct (bli_error_checking_is_enabled E); [|discriminate].
  destruct e0; intros H; try discriminate H; injection H as <-;
    (split; [reflexivity|discriminate]).
Qed.

Ltac l3_abort Hrun :=
  match type of Hrun with
  | bind (l3_check _ ?e0) _ = _ =>
      let Hc := fresh "Hc" in
      destruct (l3_check E e0) eqn:Hc; cbn [bind] in Hrun;
      [clear Hc|injection Hrun as <-; exact (l3_check_aborted _ _ Hc)]
  end.

Ltac l3_abort_early Hrun :=
  match type of Hrun with
  | context [bli_l3_return_early_if_trivial E ?al ?a ?b ?be ?c ?s] =>
      destruct (bli_l3_return_early_if_trivial E al a b be c s) as [e0 s1];
      destruct (err_is_success e0); [discriminate Hrun|]
  end.

Lemma gemmt_aborted (alpha : scal R) (a b : objref) (beta : scal R) (c : objref)
    (cntx : option CN) (rntm : option RN) (s : State) (e : err_t) :
  bli_gemmt_ex E alpha a b beta c cntx rntm s = Aborted e ->
  bli_error_checking_is_enabled E = true /\ e <> BLIS_SUCCESS.
Proof.
  unfold bli_gemmt_ex. intros Hrun. l3_abort Hrun. l3_abort_early Hrun.
  rewrite take_schemas_eq in Hrun. cbv beta iota zeta in Hrun. discriminate Hrun.
Qed.

Lemma gemm_aborted (alpha : scal R) (a b : objref) (beta : scal R) (c : objref)
    (cntx : option CN) (rntm : option RN) (s : State) (e : err_t) :
  bli_gemm_ex E alpha a b beta c cntx rntm s = Aborted e ->
  bli_error_checking_is_enabled E = true /\ e <> BLIS_SUCCESS.
Proof.
  unfold bli_gemm_ex. intros Hrun. l3_abort Hrun. l3_abort_early Hrun.
  destruct (bli_gemmsup E alpha _ _ beta _ cntx rntm _) as [m|]; [discriminate Hrun|].
  cbv zeta in Hrun.
  destruct (gemm_prepare E a b c beta _ s1) as [s0 cx0].
  destruct (gemm_use_ct E _ _ _);
    cbv beta iota in Hrun; rewrite take_schemas_eq in Hrun; cbv beta iota in Hrun;
    discriminate Hrun.
Qed.

Lemma hemm_aborted (side : side_t) (alpha : scal R) (a b : objref) (beta : scal R)
    (c : objref) (cntx : option CN) (rntm : option RN) (s : State) (e : err_t) :
  bli_hemm_ex E side alpha a b beta c cntx rntm s = Aborted e ->
  bli_error_checking_is_enabled E = true /\ e <> BLIS_SUCCESS.
Proof.
  unfold bli_hemm_ex. intros Hrun. l3_abort Hrun. l3_abort_early Hrun.
  cbv zeta in Hrun.
  match type of Hrun with
  | context [let '(_, _) := ?X in _] => destruct X as [side' so]
  end.
  rewrite take_schemas_eq in Hrun. cbv beta iota in Hrun. discriminate Hrun.
Qed.

Lemma symm_aborted (side : side_t) (alpha : scal R) (a b : objref) (beta : scal R)
    (c : objref) (cntx : option CN) (rntm : option RN) (s : State) (e : err_t) :
  bli_symm_ex E side alpha a b beta c cntx rntm s = Aborted e ->
  bli_error_checking_is_enabled E = true /\ e <> BLIS_SUCCESS.
Proof.
  unfold bli_symm_ex. intros Hrun. l3_abort Hrun. l3_abort_early Hrun.
  cbv zeta in Hrun.
  match type of Hrun with
  | context [let '(_, _) := ?X in _] => destruct X as [side' so]
  end.
  rewrite take_schemas_eq in Hrun. cbv beta iota in Hrun. discriminate Hrun.
Qed.

Lemma trmm3_aborted (side : side_t) (alpha : scal R) (a b : objref) (beta : scal R)
    (c : objref) (cntx : option CN) (rntm : option RN) (s : State) (e : err_t) :
  bli_trmm3_ex E side alpha a b beta c cntx rntm s = Aborted e ->
  bli_error_checking_is_enabled E = true /\ e <> BLIS_SUCCESS.
Proof.
  unfold bli_trmm3_ex. intros Hrun. l3_abort Hrun. l3_abort_early Hrun.
  cbv zeta in Hrun.
  destruct (orient_triangular E _ side _ _) as [side' so].
  rewrite take_schemas_eq in Hrun. cbv beta iota in Hrun. discriminate Hrun.
Qed.

Lemma trmm_aborted (side : side_t) (alpha : scal R) (a b : objref)
    (cntx : option CN) (rntm : option RN) (s : State) (e : err_t) :
  bli_trmm_ex E side alpha a b cntx rntm s = Aborted e ->
  bli_error_checking_is_enabled E = true /\ e <> BLIS_SUCCESS.
Proof.
  unfold bli_trmm_ex. intros Hrun. l3_abort Hrun. l3_abort_early Hrun.
  cbv zeta in Hrun.
  destruct (orient_triangular E _ side _ _) as [side' so].
  rewrite take_schemas_eq in Hrun. cbv beta iota in Hrun. discriminate Hrun.
Qed.

Lemma trsm_aborted (side : side_t) (alpha : scal R) (a b : objref)
    (cntx : option CN) (rntm : option RN) (s : State) (e : err_t) :
  bli_trsm_ex E side alpha a b cntx rntm s = Aborted e ->
  bli_error_checking_is_enabled E = true /\ e <> BLIS_SUCCESS.
Proof.
  unfold bli_trsm_ex. intros Hrun. l3_abort Hrun. l3_abort_early Hrun.
  cbv zeta in Hrun.
  destruct (bli_is_right side);
    cbv beta iota in Hrun; rewrite take_schemas_eq in Hrun; cbv beta iota in Hrun;
    discriminate Hrun.
Qed.

Lemma rank_k_aborted (op : l3_op) (alpha : scal R) (a b : objref) (beta : scal R)
    (c : objref) (cntx : option CN) (rntm : option RN) (s : State) (e : err_t) :
  op = op_her2k \/ op = op_syr2k \/ op = op_herk \/ op = op_syrk ->
  l3_run E op alpha a b beta c cntx rntm s = Aborted e ->
  bli_error_checking_is_enabled E = true /\ e <> BLIS_SUCCESS.
Proof.
  intros Hop; destruct Hop as [Hop|[Hop|[Hop|Hop]]]; subst op; cbn [l3_run];
    unfold bli_her2k_ex, bli_syr2k_ex, bli_herk_ex, bli_syrk_ex; intros Hrun;
    l3_abort Hrun; cbv zeta in Hrun.
  - match type of Hrun with
    | bind ?X _ = _ => destruct X as [s1|e1] eqn:H1; cbn [bind] in Hrun
    end.
    + match type of Hrun with
      | bind ?X _ = _ => destruct X as [s2|e2] eqn:H2; cbn [bind] in Hrun
      end; [discriminate Hrun|].
      injection Hrun as <-. exact (gemmt_aborted _ _ _ _ _ _ _ _ _ H2).
    + injection Hrun as <-. exact (gemmt_aborted _ _ _ _ _ _ _ _ _ H1).
  - match type of Hrun with
    | bind ?X _ = _ => destruct X as [s1|e1] eqn:H1; cbn [bind] in Hrun
    end.
    + exact (gemmt_aborted _ _ _ _ _ _ _ _ _ Hrun).
    + injection Hrun as <-. exact (gemmt_aborted _ _ _ _ _ _ _ _ _ H1).
  - match type of Hrun with
    | bind ?X _ = _ => destruct X as [s1|e1] eqn:H1; cbn [bind] in Hrun
    end; [discriminate Hrun|].
    injection Hrun as <-. exact (gemmt_aborted _ _ _ _ _ _ _ _ _ H1).
  - exact (gemmt_aborted _ _ _ _ _ _ _ _ _ Hrun).
Qed.

Lemma l3_run_aborted (op : l3_op) (alpha : scal R) (a b : objref) (beta : scal R)
    (c : objref) (cntx : option CN) (rntm : option RN) (s : State) (e : err_t) :
  l3_run E op alpha a b beta c cntx rntm s = Aborted e ->
  bli_error_checking_is_enabled E = true /\ e <> BLIS_SUCCESS.
Proof.
  intros Hrun.
  destruct op;
    try (eapply rank_k_aborted; [|exact Hrun]; tauto);
    cbn [l3_run] in Hrun.
  - exact (gemm_aborted _ _ _ _ _ _ _ _ _ Hrun).
  - exact (gemmt_aborted _ _ _ _ _ _ _ _ _ Hrun).
  - exact (hemm_aborted _ _ _ _ _ _ _ _ _ _ Hrun).
  - exact (symm_aborted _ _ _ _ _ _ _ _ _ _ Hrun).
  - exact (trmm3_aborted _ _ _ _ _ _ _ _ _ _ Hrun).
  - exact (trmm_aborted _ _ _ _ _ _ _ _ Hrun).
  - exact (trsm_aborted _ _ _ _ _ _ _ _ Hrun).
Qed.

(** X12.  What every level-3 entry point does to its caller, for gemm,
    gemmt, her2k, syr2k, hemm, symm, trmm3, herk, syrk, trmm and trsm.
    When error checking is enabled and the entry point's own check reports
    a code other than success, the call stops with that code.  A call that
    stops at all does so with error checking enabled and a code other than
    success.  A call that returns has left every object descriptor of the
    caller as it was and has invoked the back-end at most once (at most
    twice for her2k and syr2k), each time on A and B operands marked as
    not packed. *)
Theorem l3_entry_outcome (op : l3_op) (alpha : scal R) (a b : objref) (beta : scal R)
    (c : objref) (cntx : option CN) (rntm : option RN) (s : State) :
  let e0 := l3_op_check E op alpha (st_obj s a) (st_obj s b) beta (st_obj s c) cntx in
  (* a failing check of the entry point stops it with the code of the check *)
  (bli_error_checking_is_enabled E = true -> e0 <> BLIS_SUCCESS ->
   l3_run E op alpha a b beta c cntx rntm s = Aborted e0)
  /\ match l3_run E op alpha a b beta c cntx rntm s with
     | Returned s' =>
         (forall n, st_obj s' (caller_obj n) = st_obj s (caller_obj n))
         /\ exists calls,
              st_calls s' = st_calls s ++ calls
              /\ (List.length calls <= l3_max_calls op)%nat
              /\ Forall l3_call_unpacked calls
     | Aborted e => bli_error_checking_is_enabled E = true /\ e <> BLIS_SUCCESS
     end.
Proof.
  intros e0. split.
  - exact (l3_run_check_fails op alpha a b beta c cntx rntm s).
  - destruct (l3_run E op alpha a b beta c cntx rntm s) as [s'|e] eqn:Hrun.
    + exact (l3_run_effect op alpha a b beta c cntx rntm s s' Hrun).
    + exact (l3_run_aborted op alpha a b beta c cntx rntm s e Hrun).
Qed.

End L3Effects.

(* ------------------------------------------------------------------ *)
(** ** The back-end call of the triangular entry points *)

Section BackendCalls.

Context {R CN RN CT : Type}.
Variable E : l3_env R CN RN CT.

Local Abbreviation State := (state R CN RN CT).

(** The call the shared tail of the entry points hands to the back-end. *)
Lemma l3_tail_call (alpha beta : scal R) (cx : CN) (cntl : CT) (rntm : RN) (so : State) :
  let s' :=
    l3_thread_decorate E alpha ref_a_local ref_b_local beta ref_c_local cx cntl rntm
      (reset_schemas (bli_l3_set_schemas E ref_a_local ref_b_local ref_c_local cx so)) in
  let call :=
    {| l3_alpha := alpha;
       l3_a := bli_obj_set_pack_schema BLIS_NOT_PACKED (st_obj so ref_a_local);
       l3_b := bli_obj_set_pack_schema BLIS_NOT_PACKED (st_obj so ref_b_local);
       l3_beta := beta;
       l3_c := st_obj so ref_c_local;
       l3_cntx := cx; l3_cntl := cntl; l3_rntm := rntm |} in
  st_calls s' = st_calls so ++ [call]
  /\ st_mem s' = bli_l3_thread_decorator E call (st_mem so).
Proof.
  intros s' call. subst s' call.
  unfold l3_thread_decorate. cbn [st_calls st_mem].
  rewrite reset_schemas_calls, reset_schemas_mem.
  destruct (set_schemas_mem E ref_a_local ref_b_local ref_c_local cx so) as [-> ->].
  rewrite reset_schemas_a, reset_schemas_b, set_schemas_a, set_schemas_b.
  rewrite !set_pack_schema_twice.
  rewrite (reset_schemas_other _ ref_c_local) by reflexivity.
  rewrite (set_schemas_other E cx so ref_c_local) by reflexivity.
  split; reflexivity.
Qed.

(** What the tail reads from the state it is given. *)
Lemma l3_tail_reads (cx : CN) (so : State) :
  let s4 := bli_l3_set_schemas E ref_a_local ref_b_local ref_c_local cx so in
  obj_pack_schema (st_obj s4 ref_a_local) = l3_schema_a E cx
  /\ obj_pack_schema (st_obj s4 ref_b_local) = l3_schema_b E cx
  /\ st_obj (reset_schemas s4) ref_c_local = st_obj so ref_c_local
  /\ st_obj s4 ref_c_local = st_obj so ref_c_local
  /\ bli_obj_width (st_obj s4 ref_a_local) = bli_obj_width (st_obj so ref_a_local)
  /\ (forall n, st_obj (reset_schemas s4) (caller_obj n) = st_obj so (caller_obj n)).
Proof.
  intros s4. subst s4.
  rewrite set_schemas_a, set_schemas_b.
  rewrite (reset_schemas_other _ ref_c_local) by reflexivity.
  rewrite (set_schemas_other E cx so ref_c_local) by reflexivity.
  repeat split.
Qed.

(** The local aliases after the normalisation of A and the orientation
    step of the triangular entry points. *)
Lemma tri_oriented (dis : bool) (side : side_t) (cx : CN) (na nb : nat) (c : objref)
    (s : State) :
  let a := caller_obj na in
  let b := caller_obj nb in
  let A0 := bli_obj_alias_and_reset_origin (st_obj s a) in
  let A1 := if bli_obj_has_trans A0
            then bli_obj_set_onlytrans BLIS_NO_TRANSPOSE (bli_obj_induce_trans A0)
            else A0 in
  let B0 := bli_obj_alias_and_reset_origin (st_obj s b) in
  let C0 := bli_obj_alias_and_reset_origin (st_obj s c) in
  let transposed := if dis then bli_is_right side
                    else bli_cntx_dislikes_storage_of E C0 cx in
  let T := fun o : obj_t R => if transposed then bli_obj_induce_trans o else o in
  let side' := if transposed then bli_toggle_side side else side in
  let swapped := negb dis && bli_is_right side' in
  let r := orient_triangular E dis side cx (normalize_trans_a (alias_locals a b c s)) in
  not_alias c = true ->
  fst r = side'
  /\ st_obj (snd r) ref_a_local = (if swapped then T B0 else T A1)
  /\ st_obj (snd r) ref_b_local = (if swapped then T A1 else T B0)
  /\ st_obj (snd r) ref_c_local = T C0
  /\ st_mem (snd r) = st_mem s
  /\ st_calls (snd r) = st_calls s.
Proof.
  intros a b A0 A1 B0 C0 transposed T side' swapped r Hc.
  set (s2 := normalize_trans_a (alias_locals a b c s)) in *.
  assert (Ha : st_obj s2 ref_a_local = A1).
  { subst s2 A1. unfold normalize_trans_a.
    rewrite alias_locals_a. fold A0.
    destruct (bli_obj_has_trans A0); [|apply alias_locals_a].
    rewrite !st_obj_upd_obj. cbn [objref_eqb]. rewrite alias_locals_a. reflexivity. }
  assert (Hb : st_obj s2 ref_b_local = B0).
  { subst s2. rewrite normalize_other by reflexivity. apply alias_locals_b. reflexivity. }
  assert (Hcl : st_obj s2 ref_c_local = C0).
  { subst s2. rewrite normalize_other by reflexivity. apply alias_locals_c. exact Hc. }
  assert (Hm : st_mem s2 = st_mem s /\ st_calls s2 = st_calls s).
  { subst s2. destruct (normalize_mem (alias_locals a b c s)) as [-> ->].
    apply alias_locals_mem. }
  destruct Hm as [Hm1 Hm2].
  subst r transposed T side' swapped. unfold orient_triangular.
  destruct dis; cbn [negb andb].
  - destruct (bli_is_right side); cbn [fst snd].
    + rewrite induce_abc_a, induce_abc_b, induce_abc_c, Ha, Hb, Hcl.
      destruct (induce_abc_mem s2) as [-> ->]. repeat split; assumption.
    + rewrite Ha, Hb, Hcl. repeat split; assumption.
  - rewrite Hcl.
    destruct (bli_cntx_dislikes_storage_of E C0 cx).
    + destruct (bli_is_right (bli_toggle_side side)); cbn [fst snd].
      * rewrite swap_ab_a, swap_ab_b, swap_ab_c.
        rewrite induce_abc_a, induce_abc_b, induce_abc_c, Ha, Hb, Hcl.
        destruct (swap_mem ref_a_local ref_b_local (induce_trans_abc s2)) as [-> ->].
        destruct (induce_abc_mem s2) as [-> ->]. repeat split; assumption.
      * rewrite induce_abc_a, induce_abc_b, induce_abc_c, Ha, Hb, Hcl.
        destruct (induce_abc_mem s2) as [-> ->]. repeat split; assumption.
    + destruct (bli_is_right side); cbn [fst snd].
      * rewrite swap_ab_a, swap_ab_b, swap_ab_c, Ha, Hb, Hcl.
        destruct (swap_mem ref_a_local ref_b_local s2) as [-> ->].
        repeat split; assumption.
      * rewrite Ha, Hb, Hcl. repeat split; assumption.
Qed.

(** X13.  The back-end call of trmm3, trmm and trsm on a call that passes
    the check and is not trivial.  There is exactly one.  Its C operand is
    the alias of C (of B for trmm and trsm), transposed when the operation
    is; its beta is the caller's beta for trmm3, zero for trmm and alpha
    for trsm; A is the normalised alias of the caller's A.  The operation
    is transposed when the side is right and right-side execution is
    disabled (always so for trsm), otherwise when the micro-kernel
    dislikes the storage of C; a right-side operation that remains is run
    with A and B swapped.  trsm gets a trsm control tree whose side is
    left exactly when the caller's A is triangular, the others the gemm
    tree of the trmm family. *)
Theorem tri_entry_backend_call (op : tri_entry R) (side : side_t) (alpha : scal R)
    (na nb : nat) (cntx : option CN) (rntm : option RN) (s : State) :
  let a := caller_obj na in
  let b := caller_obj nb in
  let c := tri_entry_c op b in
  let A := st_obj s a in
  let B := st_obj s b in
  let C := st_obj s c in
  let A0 := bli_obj_alias_and_reset_origin A in
  let A1 := if bli_obj_has_trans A0
            then bli_obj_set_onlytrans BLIS_NO_TRANSPOSE (bli_obj_induce_trans A0)
            else A0 in
  let B0 := bli_obj_alias_and_reset_origin B in
  let C0 := bli_obj_alias_and_reset_origin C in
  let opid := match op with
              | entry_tri_trmm3 _ _ => BLIS_TRMM3
              | entry_tri_trmm => BLIS_TRMM
              | entry_tri_trsm => BLIS_TRSM
              end in
  let same_dt := match op with
                 | entry_tri_trmm3 _ _ =>
                     num_t_eqb (obj_dt A) (obj_dt C) && num_t_eqb (obj_dt B) (obj_dt C)
                 | _ => num_t_eqb (obj_dt A) (obj_dt B)
                 end in
  let cx := resolve_cntx E cntx
              (if same_dt && bli_obj_is_complex C
               then bli_ind_find_avail E opid (obj_dt C) else BLIS_NAT) in
  let dis := match op with
             | entry_tri_trmm3 _ _ => BLIS_DISABLE_TRMM3_RIGHT E
             | entry_tri_trmm => BLIS_DISABLE_TRMM_RIGHT E
             | entry_tri_trsm => true
             end in
  let transposed := if dis then bli_is_right side
                    else bli_cntx_dislikes_storage_of E C0 cx in
  let T := fun o : obj_t R => if transposed then bli_obj_induce_trans o else o in
  let side' := if transposed then bli_toggle_side side else side in
  let swapped := negb dis && bli_is_right side' in
  let a_op := if swapped then T B0 else T A1 in
  let b_op := if swapped then T A1 else T B0 in
  not_alias c = true ->
  check_passes E (tri_entry_check E op side alpha a b cntx s) ->
  err_is_success
    (fst (bli_l3_return_early_if_trivial E alpha a b (tri_entry_beta E op) c s)) = false ->
  exists s' call,
    tri_entry_run E op side alpha a b cntx rntm s = Returned s'
    /\ st_calls s' = st_calls s ++ [call]
    /\ st_mem s' = bli_l3_thread_decorator E call (st_mem s)
    /\ l3_alpha call = alpha
    /\ l3_beta call = match op with
                      | entry_tri_trmm3 beta _ => beta
                      | entry_tri_trmm => BLIS_ZERO (ar E)
                      | entry_tri_trsm => alpha
                      end
    /\ l3_a call = bli_obj_set_pack_schema BLIS_NOT_PACKED a_op
    /\ l3_b call = bli_obj_set_pack_schema BLIS_NOT_PACKED b_op
    /\ l3_c call = T C0
    /\ l3_cntx call = cx
    /\ l3_rntm call
       = bli_rntm_set_ways_for_op E opid side' (bli_obj_length (T C0))
           (bli_obj_width (T C0)) (bli_obj_width a_op) (local_rntm E rntm)
    /\ l3_cntl call
       = match op with
         | entry_tri_trsm =>
             bli_trsm_cntl_create E
               (if bli_obj_is_triangular A then BLIS_LEFT else BLIS_RIGHT)
               (l3_schema_a E cx) (l3_schema_b E cx) (obj_ker_fn (T C0))
         | _ =>
             bli_gemm_cntl_create E BLIS_TRMM
               (l3_schema_a E cx) (l3_schema_b E cx) (obj_ker_fn (T C0))
         end
    /\ (dis = true -> side' = BLIS_LEFT).
Proof.
  intros a b c A B C A0 A1 B0 C0 opid same_dt cx dis transposed T side' swapped
         a_op b_op Hc Hchk Htriv.
  assert (Hleft : dis = true -> side' = BLIS_LEFT).
  { intros Hd. subst side' transposed. rewrite Hd. destruct side; reflexivity. }
  assert (Hor : let r := orient_triangular E dis side cx
                           (normalize_trans_a (alias_locals a b c s)) in
                fst r = side' /\ st_obj (snd r) ref_a_local = a_op
                /\ st_obj (snd r) ref_b_local = b_op /\ st_obj (snd r) ref_c_local = T C0
                /\ st_mem (snd r) = st_mem s /\ st_calls (snd r) = st_calls s)
    by exact (tri_oriented dis side cx na nb c s Hc).
  cbv zeta in Hor.
  (* the tail, once the orientation step is a pair of a side and a state *)
  assert (Htail : forall (opid' : opid_t) (beta' : scal R) (mk : CN -> pack_t -> pack_t -> Z -> CT)
                         (sd : side_t) (so : State),
            sd = side' -> st_obj so ref_a_local = a_op -> st_obj so ref_b_local = b_op ->
            st_obj so ref_c_local = T C0 -> st_mem so = st_mem s ->
            st_calls so = st_calls s ->
            let s4 := bli_l3_set_schemas E ref_a_local ref_b_local ref_c_local cx so in
            exists s' call,
              Returned
                (l3_thread_decorate E alpha ref_a_local ref_b_local beta' ref_c_local cx
                   (mk cx (obj_pack_schema (st_obj s4 ref_a_local))
                       (obj_pack_schema (st_obj s4 ref_b_local))
                       (obj_ker_fn (st_obj (reset_schemas s4) ref_c_local)))
                   (bli_rntm_set_ways_for_op E opid' sd
                      (bli_obj_length (st_obj s4 ref_c_local))
                      (bli_obj_width (st_obj s4 ref_c_local))
                      (bli_obj_width (st_obj s4 ref_a_local)) (local_rntm E rntm))
                   (reset_schemas s4)) = Returned s'
              /\ st_calls s' = st_calls s ++ [call]
              /\ st_mem s' = bli_l3_thread_decorator E call (st_mem s)
              /\ l3_alpha call = alpha /\ l3_beta call = beta'
              /\ l3_a call = bli_obj_set_pack_schema BLIS_NOT_PACKED a_op
              /\ l3_b call = bli_obj_set_pack_schema BLIS_NOT_PACKED b_op
              /\ l3_c call = T C0
              /\ l3_cntx call = cx
              /\ l3_rntm call
                 = bli_rntm_set_ways_for_op E opid' side' (bli_obj_length (T C0))
                     (bli_obj_width (T C0)) (bli_obj_width a_op) (local_rntm E rntm)
              /\ l3_cntl call
                 = mk cx (l3_schema_a E cx) (l3_schema_b E cx) (obj_ker_fn (T C0))).
  { intros opid' beta' mk sd so Hsd Hoa Hob Hoc Hom Hocalls s4. subst s4.
    destruct (l3_tail_reads cx so) as [R1 [R2 [R3 [R4 [R5 _]]]]]. cbv zeta in *.
    rewrite R1, R2, R3, R4, R5.
    match goal with
    | |- context [l3_thread_decorate E alpha _ _ ?be _ cx ?cn ?rn _] =>
        destruct (l3_tail_call alpha be cx cn rn so) as [T1 T2]
    end.
    cbv zeta in T1, T2.
    eexists. eexists. split; [reflexivity|].
    rewrite T1, T2, Hocalls, Hom, Hoa, Hob, Hoc, Hsd.
    split; [reflexivity|]. split; [reflexivity|].
    cbn [l3_alpha l3_beta l3_a l3_b l3_c l3_cntx l3_rntm l3_cntl].
    repeat split; reflexivity. }
  destruct op as [beta c0| |]; subst c;
    cbn [tri_entry_run tri_entry_check tri_entry_beta tri_entry_c] in *.
  - (* trmm3 *)
    unfold bli_trmm3_ex. rewrite (l3_check_passes E _ Hchk). cbn [bind].
    destruct (bli_l3_return_early_if_trivial E alpha a b beta c0 s) as [e0 s1] eqn:He.
    cbn [fst] in Htriv. rewrite Htriv.
    pose proof (early_failure_keeps_state E _ _ _ _ _ _ _ _ He Htriv). subst s1.
    cbv zeta.
    set (cx' := resolve_cntx E cntx _). change cx' with cx. clear cx'.
    destruct (orient_triangular E dis side cx (normalize_trans_a (alias_locals a b c0 s)))
      as [sd so] eqn:Hr.
    cbn [fst snd] in Hor. destruct Hor as [Hsd [Hoa [Hob [Hoc [Hom Hocalls]]]]].
    change (orient_triangular E (BLIS_DISABLE_TRMM3_RIGHT E) side cx
              (normalize_trans_a (alias_locals a b c0 s)))
      with (orient_triangular E dis side cx (normalize_trans_a (alias_locals a b c0 s))).
    rewrite Hr. rewrite take_schemas_eq. cbv beta iota.
    destruct (Htail BLIS_TRMM3 beta
                (fun _ sa sb kf => bli_gemm_cntl_create E BLIS_TRMM sa sb kf)
                sd so Hsd Hoa Hob Hoc Hom Hocalls) as [s' [call [Hrun Hrest]]].
    exists s', call. split; [exact Hrun|].
    destruct Hrest as [H1 [H2 [H3 [H4 [H5 [H6 [H7 [H8 [H9 H10]]]]]]]]].
    repeat (split; [assumption|]). exact Hleft.
  - (* trmm *)
    unfold bli_trmm_ex. rewrite (l3_check_passes E _ Hchk). cbn [bind].
    destruct (bli_l3_return_early_if_trivial E alpha a b (BLIS_ZERO (ar E)) b s)
      as [e0 s1] eqn:He.
    cbn [fst] in Htriv. rewrite Htriv.
    pose proof (early_failure_keeps_state E _ _ _ _ _ _ _ _ He Htriv). subst s1.
    cbv zeta.
    set (cx' := resolve_cntx E cntx _). change cx' with cx. clear cx'.
    destruct (orient_triangular E dis side cx (normalize_trans_a (alias_locals a b b s)))
      as [sd so] eqn:Hr.
    cbn [fst snd] in Hor. destruct Hor as [Hsd [Hoa [Hob [Hoc [Hom Hocalls]]]]].
    change (orient_triangular E (BLIS_DISABLE_TRMM_RIGHT E) side cx
              (normalize_trans_a (alias_locals a b b s)))
      with (orient_triangular E dis side cx (normalize_trans_a (alias_locals a b b s))).
    rewrite Hr. rewrite take_schemas_eq. cbv beta iota.
    destruct (Htail BLIS_TRMM (BLIS_ZERO (ar E))
                (fun _ sa sb kf => bli_gemm_cntl_create E BLIS_TRMM sa sb kf)
                sd so Hsd Hoa Hob Hoc Hom Hocalls) as [s' [call [Hrun Hrest]]].
    exists s', call. split; [exact Hrun|].
    destruct Hrest as [H1 [H2 [H3 [H4 [H5 [H6 [H7 [H8 [H9 H10]]]]]]]]].
    repeat (split; [assumption|]). exact Hleft.
  - (* trsm *)
    unfold bli_trsm_ex. rewrite (l3_check_passes E _ Hchk). cbn [bind].
    destruct (bli_l3_return_early_if_trivial E alpha a b (BLIS_ZERO (ar E)) b s)
      as [e0 s1] eqn:He.
    cbn [fst] in Htriv. rewrite Htriv.
    pose proof (early_failure_keeps_state E _ _ _ _ _ _ _ _ He Htriv). subst s1.
    cbv zeta.
    set (cx' := resolve_cntx E cntx _). change cx' with cx. clear cx'.
    destruct (orient_triangular E dis side cx (normalize_trans_a (alias_locals a b b s)))
      as [sd so] eqn:Hr.
    cbn [fst snd] in Hor. destruct Hor as [Hsd [Hoa [Hob [Hoc [Hom Hocalls]]]]].
    match goal with
    | |- context [if bli_is_right side then ?x else ?y] =>
        change (if bli_is_right side then x else y)
          with (orient_triangular E dis side cx (normalize_trans_a (alias_locals a b b s)))
    end.
    rewrite Hr. rewrite take_schemas_eq. cbv beta iota.
    destruct (Htail BLIS_TRSM alpha
                (fun _ sa sb kf =>
                   bli_trsm_cntl_create E
                     (if bli_obj_is_triangular A then BLIS_LEFT else BLIS_RIGHT) sa sb kf)
                sd so Hsd Hoa Hob Hoc Hom Hocalls) as [s' [call [Hrun Hrest]]].
    exists s', call. split.
    { rewrite <- Hrun. cbv zeta.
      rewrite (reset_schemas_other _ (caller_obj na)) by reflexivity.
      rewrite (set_schemas_other E cx so (caller_obj na)) by reflexivity.
      assert (Hcaller : st_obj so a = A).
      { pose proof (quiet_orient_triangular E dis side cx s _
                      (quiet_normalize s _ (quiet_alias a b b s s (quiet_refl s)))) as [Hq _].
        rewrite Hr in Hq. cbn [snd] in Hq. apply Hq. }
      fold a. rewrite Hcaller. reflexivity. }
    destruct Hrest as [H1 [H2 [H3 [H4 [H5 [H6 [H7 [H8 [H9 H10]]]]]]]]].
    repeat (split; [assumption|]). exact Hleft.
Qed.

End BackendCalls.

(* ------------------------------------------------------------------ *)
(** ** The back-end call of hemm and symm *)

Section HemmSymm.

Context {R CN RN CT : Type}.
Variable E : l3_env R CN RN CT.

Local Abbreviation State := (state R CN RN CT).

(** The local aliases after the orientation step of hemm ([herm]) and
    symm. *)
Lemma hemm_symm_oriented (herm dis : bool) (side : side_t) (cx : CN) (na nb nc : nat)
    (s : State) :
  let a := caller_obj na in
  let b := caller_obj nb in
  let c := caller_obj nc in
  let A0 := bli_obj_alias_and_reset_origin (st_obj s a) in
  let B0 := bli_obj_alias_and_reset_origin (st_obj s b) in
  let C0 := bli_obj_alias_and_reset_origin (st_obj s c) in
  let transposed := if dis then bli_is_right side
                    else bli_cntx_dislikes_storage_of E C0 cx in
  let T := fun o : obj_t R => if transposed then bli_obj_induce_trans o else o in
  let side' := if transposed then bli_toggle_side side else side in
  let swapped := negb dis && bli_is_right side' in
  let A2 := if dis then T A0
            else if transposed && herm then bli_obj_toggle_conj A0 else A0 in
  let s0 := alias_locals a b c s in
  let r :=
    if dis then
      if bli_is_right side then (bli_toggle_side side, induce_trans_abc s0)
      else (side, s0)
    else
      let '(side1, s1) :=
        if bli_cntx_dislikes_storage_of E (st_obj s0 ref_c_local) cx then
          (bli_toggle_side side,
           upd_obj ref_c_local bli_obj_induce_trans
             (upd_obj ref_b_local bli_obj_induce_trans
                (if herm then upd_obj ref_a_local bli_obj_toggle_conj s0 else s0)))
        else (side, s0) in
      if bli_is_right side1 then (side1, bli_obj_swap ref_a_local ref_b_local s1)
      else (side1, s1) in
  fst r = side'
  /\ st_obj (snd r) ref_a_local = (if swapped then T B0 else A2)
  /\ st_obj (snd r) ref_b_local = (if swapped then A2 else T B0)
  /\ st_obj (snd r) ref_c_local = T C0
  /\ st_mem (snd r) = st_mem s
  /\ st_calls (snd r) = st_calls s
  /\ (forall n, st_obj (snd r) (caller_obj n) = st_obj s (caller_obj n)).
Proof.
  intros a b c A0 B0 C0 transposed T side' swapped A2 s0 r.
  assert (Ha : st_obj s0 ref_a_local = A0) by apply alias_locals_a.
  assert (Hb : st_obj s0 ref_b_local = B0) by (apply alias_locals_b; reflexivity).
  assert (Hc : st_obj s0 ref_c_local = C0) by (apply alias_locals_c; reflexivity).
  destruct (alias_locals_mem a b c s) as [Hm1 Hm2]. fold s0 in Hm1, Hm2.
  assert (Hn : forall n, st_obj s0 (caller_obj n) = st_obj s (caller_obj n))
    by (intros n; apply alias_locals_other; reflexivity).
  subst r transposed T side' swapped A2.
  destruct dis; cbn [negb andb].
  - destruct (bli_is_right side); cbn [fst snd].
    + rewrite induce_abc_a, induce_abc_b, induce_abc_c, Ha, Hb, Hc.
      destruct (induce_abc_mem s0) as [-> ->].
      repeat split; try assumption;
        intros n; rewrite induce_abc_other by reflexivity; apply Hn.
    + rewrite Ha, Hb, Hc. repeat split; assumption.
  - rewrite Hc.
    destruct (bli_cntx_dislikes_storage_of E C0 cx); cbn [andb].
    + set (s1 := upd_obj ref_c_local _ _).
      assert (H1a : st_obj s1 ref_a_local = if herm then bli_obj_toggle_conj A0 else A0).
      { subst s1. rewrite !st_obj_upd_obj. cbn [objref_eqb].
        destruct herm; [rewrite st_obj_upd_obj; cbn [objref_eqb]|]; rewrite Ha;
          reflexivity. }
      assert (H1b : st_obj s1 ref_b_local = bli_obj_induce_trans B0).
      { subst s1. rewrite !st_obj_upd_obj. cbn [objref_eqb].
        destruct herm; [rewrite st_obj_upd_obj; cbn [objref_eqb]|]; rewrite Hb;
          reflexivity. }
      assert (H1c : st_obj s1 ref_c_local = bli_obj_induce_trans C0).
      { subst s1. rewrite !st_obj_upd_obj. cbn [objref_eqb].
        destruct herm; [rewrite st_obj_upd_obj; cbn [objref_eqb]|]; rewrite Hc;
          reflexivity. }
      assert (H1m : st_mem s1 = st_mem s /\ st_calls s1 = st_calls s
                    /\ forall n, st_obj s1 (caller_obj n) = st_obj s (caller_obj n)).
      { subst s1. destruct herm; cbn [upd_obj set_obj st_mem st_calls];
          (split; [exact Hm1|]); (split; [exact Hm2|]); intros n;
          rewrite !st_obj_upd_obj; cbn [objref_eqb]; apply Hn. }
      destruct H1m as [H1m1 [H1m2 H1n]].
      destruct (bli_is_right (bli_toggle_side side)); cbn [fst snd].
      * rewrite swap_ab_a, swap_ab_b, swap_ab_c, H1a, H1b, H1c.
        destruct (swap_mem ref_a_local ref_b_local s1) as [-> ->].
        repeat split; try assumption;
        intros n; rewrite swap_ab_other by reflexivity; apply H1n.
      * rewrite H1a, H1b, H1c. repeat split; assumption.
    + destruct (bli_is_right side); cbn [fst snd].
      * rewrite swap_ab_a, swap_ab_b, swap_ab_c, Ha, Hb, Hc.
        destruct (swap_mem ref_a_local ref_b_local s0) as [-> ->].
        repeat split; try assumption;
        intros n; rewrite swap_ab_other by reflexivity; apply Hn.
      * rewrite Ha, Hb, Hc. repeat split; assumption.
Qed.

(** X14.  The back-end call of hemm and symm on a call that passes the
    check and is not trivial.  There is exactly one, with the caller's
    alpha and beta, the gemm control tree and the thread partitioning of
    a left-side operation.  When right-side execution is disabled a
    right-side operation is transposed: A, B and C are all induced
    transposed.  Otherwise the operation is transposed when the
    micro-kernel dislikes the storage of C, in which case B and C are
    induced transposed and A is left alone (symm) or conjugated (hemm),
    and an operation that is then right-sided is run with A and B
    swapped. *)
Theorem hemm_symm_backend_call (herm : bool) (side : side_t) (alpha : scal R)
    (na nb : nat) (beta : scal R) (nc : nat) (cntx : option CN) (rntm : option RN)
    (s : State) :
  let a := caller_obj na in
  let b := caller_obj nb in
  let c := caller_obj nc in
  let A := st_obj s a in
  let B := st_obj s b in
  let C := st_obj s c in
  let A0 := bli_obj_alias_and_reset_origin A in
  let B0 := bli_obj_alias_and_reset_origin B in
  let C0 := bli_obj_alias_and_reset_origin C in
  let run := if herm then bli_hemm_ex E side alpha a b beta c cntx rntm s
             else bli_symm_ex E side alpha a b beta c cntx rntm s in
  let chk := if herm then bli_hemm_check E side alpha A B beta C cntx
             else bli_symm_check E side alpha A B beta C cntx in
  let opid := if herm then BLIS_HEMM else BLIS_SYMM in
  let cx := resolve_cntx E cntx
              (if num_t_eqb (obj_dt A) (obj_dt C) && num_t_eqb (obj_dt B) (obj_dt C)
                  && bli_obj_is_complex C
               then bli_ind_find_avail E opid (obj_dt C) else BLIS_NAT) in
  let dis := if herm then BLIS_DISABLE_HEMM_RIGHT E else BLIS_DISABLE_SYMM_RIGHT E in
  let transposed := if dis then bli_is_right side
                    else bli_cntx_dislikes_storage_of E C0 cx in
  let T := fun o : obj_t R => if transposed then bli_obj_induce_trans o else o in
  let side' := if transposed then bli_toggle_side side else side in
  let swapped := negb dis && bli_is_right side' in
  let A2 := if dis then T A0
            else if transposed && herm then bli_obj_toggle_conj A0 else A0 in
  let a_op := if swapped then T B0 else A2 in
  let b_op := if swapped then A2 else T B0 in
  check_passes E chk ->
  err_is_success (fst (bli_l3_return_early_if_trivial E alpha a b beta c s)) = false ->
  exists s' call,
    run = Returned s'
    /\ st_calls s' = st_calls s ++ [call]
    /\ st_mem s' = bli_l3_thread_decorator E call (st_mem s)
    /\ l3_alpha call = alpha
    /\ l3_beta call = beta
    /\ l3_a call = bli_obj_set_pack_schema BLIS_NOT_PACKED a_op
    /\ l3_b call = bli_obj_set_pack_schema BLIS_NOT_PACKED b_op
    /\ l3_c call = T C0
    /\ l3_cntx call = cx
    /\ l3_rntm call
       = bli_rntm_set_ways_for_op E opid BLIS_LEFT (bli_obj_length (T C0))
           (bli_obj_width (T C0)) (bli_obj_width a_op) (local_rntm E rntm)
    /\ l3_cntl call
       = bli_gemm_cntl_create E BLIS_GEMM (l3_schema_a E cx) (l3_schema_b E cx)
           (obj_ker_fn C).
Proof.
  intros a b c A B C A0 B0 C0 run chk opid cx dis transposed T side' swapped A2
         a_op b_op Hchk Htriv.
  pose proof (hemm_symm_oriented herm dis side cx na nb nc s) as Hor.
  cbv zeta in Hor.
  assert (Htail : forall (sd : side_t) (so : State),
            st_obj so ref_a_local = a_op -> st_obj so ref_b_local = b_op ->
            st_obj so ref_c_local = T C0 -> st_mem so = st_mem s ->
            st_calls so = st_calls s ->
            (forall n, st_obj so (caller_obj n) = st_obj s (caller_obj n)) ->
            let s4 := bli_l3_set_schemas E ref_a_local ref_b_local ref_c_local cx so in
            exists s' call,
              Returned
                (l3_thread_decorate E alpha ref_a_local ref_b_local beta ref_c_local cx
                   (bli_gemm_cntl_create E BLIS_GEMM
                      (obj_pack_schema (st_obj s4 ref_a_local))
                      (obj_pack_schema (st_obj s4 ref_b_local))
                      (obj_ker_fn (st_obj (reset_schemas s4) c)))
                   (bli_rntm_set_ways_for_op E opid BLIS_LEFT
                      (bli_obj_length (st_obj s4 ref_c_local))
                      (bli_obj_width (st_obj s4 ref_c_local))
                      (bli_obj_width (st_obj s4 ref_a_local)) (local_rntm E rntm))
                   (reset_schemas s4)) = Returned s'
              /\ st_calls s' = st_calls s ++ [call]
              /\ st_mem s' = bli_l3_thread_decorator E call (st_mem s)
              /\ l3_alpha call = alpha /\ l3_beta call = beta
              /\ l3_a call = bli_obj_set_pack_schema BLIS_NOT_PACKED a_op
              /\ l3_b call = bli_obj_set_pack_schema BLIS_NOT_PACKED b_op
              /\ l3_c call = T C0
              /\ l3_cntx call = cx
              /\ l3_rntm call
                 = bli_rntm_set_ways_for_op E opid BLIS_LEFT (bli_obj_length (T C0))
                     (bli_obj_width (T C0)) (bli_obj_width a_op) (local_rntm E rntm)
              /\ l3_cntl call
                 = bli_gemm_cntl_create E BLIS_GEMM (l3_schema_a E cx) (l3_schema_b E cx)
                     (obj_ker_fn C)).
  { intros sd so Hoa Hob Hoc Hom Hocalls Hon s4. subst s4.
    destruct (l3_tail_reads E cx so) as [R1 [R2 [R3 [R4 [R5 R6]]]]]. cbv zeta in *.
    unfold c. rewrite R1, R2, R4, R5, (R6 nc), (Hon nc).
    match goal with
    | |- context [l3_thread_decorate E alpha _ _ ?be _ cx ?cn ?rn _] =>
        destruct (l3_tail_call E alpha be cx cn rn so) as [T1 T2]
    end.
    cbv zeta in T1, T2.
    eexists. eexists. split; [reflexivity|].
    rewrite T1, T2, Hocalls, Hom, Hoa, Hob, Hoc.
    split; [reflexivity|]. split; [reflexivity|].
    cbn [l3_alpha l3_beta l3_a l3_b l3_c l3_cntx l3_rntm l3_cntl].
    repeat split; reflexivity. }
  subst run chk. destruct herm.
  - cbv beta iota in Hchk |- *. unfold bli_hemm_ex. fold A B C.
    rewrite (l3_check_passes E _ Hchk). cbn [bind].
    destruct (bli_l3_return_early_if_trivial E alpha a b beta c s) as [e0 s1] eqn:He.
    cbn [fst] in Htriv. rewrite Htriv.
    pose proof (early_failure_keeps_state E _ _ _ _ _ _ _ _ He Htriv). subst s1.
    cbv zeta.
    set (cx' := resolve_cntx E cntx _). change cx' with cx. clear cx'.
    match goal with
    | |- context [let '(_, _) := ?X in _] => set (or := X)
    end.
    assert (Hor' : fst or = side' /\ st_obj (snd or) ref_a_local = a_op
                   /\ st_obj (snd or) ref_b_local = b_op
                   /\ st_obj (snd or) ref_c_local = T C0
                   /\ st_mem (snd or) = st_mem s /\ st_calls (snd or) = st_calls s
                   /\ (forall n, st_obj (snd or) (caller_obj n) = st_obj s (caller_obj n)))
      by exact Hor.
    clearbody or. destruct or as [sd so]. cbn [fst snd] in Hor'.
    destruct Hor' as [Hsd [Hoa [Hob [Hoc [Hom [Hocalls Hon]]]]]].
    rewrite take_schemas_eq. cbv beta iota.
    exact (Htail sd so Hoa Hob Hoc Hom Hocalls Hon).
  - cbv beta iota in Hchk |- *. unfold bli_symm_ex. fold A B C.
    rewrite (l3_check_passes E _ Hchk). cbn [bind].
    destruct (bli_l3_return_early_if_trivial E alpha a b beta c s) as [e0 s1] eqn:He.
    cbn [fst] in Htriv. rewrite Htriv.
    pose proof (early_failure_keeps_state E _ _ _ _ _ _ _ _ He Htriv). subst s1.
    cbv zeta.
    set (cx' := resolve_cntx E cntx _). change cx' with cx. clear cx'.
    match goal with
    | |- context [let '(_, _) := ?X in _] => set (or := X)
    end.
    assert (Hor' : fst or = side' /\ st_obj (snd or) ref_a_local = a_op
                   /\ st_obj (snd or) ref_b_local = b_op
                   /\ st_obj (snd or) ref_c_local = T C0
                   /\ st_mem (snd or) = st_mem s /\ st_calls (snd or) = st_calls s
                   /\ (forall n, st_obj (snd or) (caller_obj n) = st_obj s (caller_obj n)))
      by exact Hor.
    clearbody or. destruct or as [sd so]. cbn [fst snd] in Hor'.
    destruct Hor' as [Hsd [Hoa [Hob [Hoc [Hom [Hocalls Hon]]]]]].
    rewrite take_schemas_eq. cbv beta iota.
    exact (Htail sd so Hoa Hob Hoc Hom Hocalls Hon).
Qed.

End HemmSymm.

(* ------------------------------------------------------------------ *)
(** ** Further executions on concrete inputs *)

(** A 4 x 8 micro-panel of a lower triangular block whose diagonal starts
    at column 2, packed into a panel of 10 columns: three calls, for
    columns 0..1, 2..5 and 6..9. *)
Lemma packm_struc_cxk_regions_tile_witness :
  exists calls,
    packm_struc_cxk_calls demo_packm_env BLIS_DOUBLE BLIS_DOUBLE BLIS_TRIANGULAR
      BLIS_NONUNIT_DIAG BLIS_LOWER BLIS_NO_CONJUGATE BLIS_PACKED_ROW_PANELS false
      4 8 4 10 2 0 1 0 1 6 0 4 tt
    = Returned calls
    /\ calls <> []
    /\ (List.length calls <= 3)%nat
    /\ calls_tile BLIS_DOUBLE BLIS_PACKED_ROW_PANELS 0 4 0 calls
    /\ calls_len_max BLIS_PACKED_ROW_PANELS calls = 10.
Proof.
  apply (packm_struc_cxk_regions_tile demo_packm_env BLIS_DOUBLE BLIS_DOUBLE
           BLIS_TRIANGULAR BLIS_NONUNIT_DIAG BLIS_LOWER BLIS_NO_CONJUGATE
           BLIS_PACKED_ROW_PANELS false 4 8 4 10 2 0 1 0 1 6 0 4 tt).
  - reflexivity.
  - reflexivity.
  - lia.
  - lia.
Defined.

(** gemm stopped by its check with [BLIS_FAILURE]; with every check
    passing it returns after one back-end call. *)
Lemma l3_entry_outcome_witness :
  l3_run (demo_env_rejecting BLIS_FAILURE idle_decorator) op_gemm (scal_Z 1 0)
    (caller_obj 0) (caller_obj 1) (scal_Z 1 0) (caller_obj 2) None None
    (demo_state demo_A demo_B demo_C1 demo_mem) = Aborted BLIS_FAILURE
  /\ (exists s' call,
        l3_run (demo_env false false idle_decorator) op_gemm (scal_Z 1 0)
          (caller_obj 0) (caller_obj 1) (scal_Z 1 0) (caller_obj 2) None None
          (demo_state demo_A demo_B demo_C1 demo_mem) = Returned s'
        /\ st_calls s' = [call]
        /\ st_obj s' (caller_obj 2) = demo_C1).
Proof.
  split.
  - apply (proj1 (l3_entry_outcome (demo_env_rejecting BLIS_FAILURE idle_decorator)
                    op_gemm (scal_Z 1 0) (caller_obj 0) (caller_obj 1) (scal_Z 1 0)
                    (caller_obj 2) None None
                    (demo_state demo_A demo_B demo_C1 demo_mem))).
    + reflexivity.
    + discriminate.
  - pose proof (l3_entry_outcome (demo_env false false idle_decorator)
                  op_gemm (scal_Z 1 0) (caller_obj 0) (caller_obj 1) (scal_Z 1 0)
                  (caller_obj 2) None None
                  (demo_state demo_A demo_B demo_C1 demo_mem)) as H.
    cbv zeta in H. destruct H as [_ H].
    assert (Hrun : exists s',
               l3_run (demo_env false false idle_decorator) op_gemm (scal_Z 1 0)
                 (caller_obj 0) (caller_obj 1) (scal_Z 1 0) (caller_obj 2) None None
                 (demo_state demo_A demo_B demo_C1 demo_mem) = Returned s'
               /\ exists call, st_calls s' = [call])
      by (eexists; split; [vm_compute; reflexivity|eexists; reflexivity]).
    destruct Hrun as [s' [Hrun [call Hcall]]].
    rewrite Hrun in H. destruct H as [Hobj _].
    exists s', call. split; [exact Hrun|]. split; [exact Hcall|]. exact (Hobj 2%nat).
Defined.

(** trsm from the right with a lower triangular A: the operation is
    transposed, the back-end gets the transposed A, which is upper
    triangular, and B twice, with alpha in the place of beta. *)
Lemma tri_entry_backend_call_witness :
  exists s' call,
    tri_entry_run (demo_env false false idle_decorator) entry_tri_trsm BLIS_RIGHT
      (scal_Z 2 0) (caller_obj 0) (caller_obj 1) None None
      (demo_state demo_A_tri demo_B2 demo_B2 demo_mem) = Returned s'
    /\ st_calls s' = [call]
    /\ l3_beta call = scal_Z 2 0
    /\ obj_uplo (l3_a call) = BLIS_UPPER
    /\ l3_c call = bli_obj_induce_trans (bli_obj_alias_and_reset_origin demo_B2).
Proof.
  destruct (tri_entry_backend_call (demo_env false false idle_decorator) entry_tri_trsm
              BLIS_RIGHT (scal_Z 2 0) 0 1 None None
              (demo_state demo_A_tri demo_B2 demo_B2 demo_mem)
              eq_refl (or_intror eq_refl) eq_refl)
    as [s' [call [Hrun [Hcalls [_ [_ [Hbe [Ha [_ [Hc _]]]]]]]]]].
  exists s', call. split; [exact Hrun|]. split; [exact Hcalls|].
  split; [exact Hbe|]. split; [rewrite Ha; reflexivity|exact Hc].
Defined.

(** symm from the right with a 3 x 3 symmetric A and 2 x 3 B and C: the
    back-end gets B in the place of A and A in the place of B. *)
Lemma hemm_symm_backend_call_witness :
  exists s' call,
    bli_symm_ex (demo_env false false idle_decorator) BLIS_RIGHT (scal_Z 2 0)
      (caller_obj 0) (caller_obj 1) (scal_Z 3 0) (caller_obj 2) None None
      (demo_state demo_A_sym3 demo_B23 demo_C23 demo_mem) = Returned s'
    /\ st_calls s' = [call]
    /\ l3_a call = bli_obj_alias_and_reset_origin demo_B23
    /\ l3_b call = bli_obj_alias_and_reset_origin demo_A_sym3
    /\ l3_c call = bli_obj_alias_and_reset_origin demo_C23.
Proof.
  destruct (hemm_symm_backend_call (demo_env false false idle_decorator) false
              BLIS_RIGHT (scal_Z 2 0) 0 1 (scal_Z 3 0) 2 None None
              (demo_state demo_A_sym3 demo_B23 demo_C23 demo_mem)
              (or_intror eq_refl) eq_refl)
    as [s' [call [Hrun [Hcalls [_ [_ [_ [Ha [Hb [Hc _]]]]]]]]]].
  exists s', call. split; [exact Hrun|]. split; [exact Hcalls|].
  split; [rewrite Ha; reflexivity|]. split; [rewrite Hb; reflexivity|exact Hc].
Defined.
